(* ===== verification/_CoqProject ===== *)
-Q . S2P
Prelude.v
PairDefs.v
HashFun.v
CountingBloom.v
ClientBloom.v
LinearProbing.v
CuckooProbing.v
KV.v
CachePolicy.v
CuckooHash.v
LevelHash.v
PathHash.v
ExtendibleHash.v
HotRing.v
CircularQueue.v
CCEH.v
NumaKV.v
StaticHash.v
Semaphore.v
Wire.v
Server.v
Tmem.v
DramBackend.v
OneSided.v
PmNode.v
PmWait.v
PmRx.v
Client.v
System.v
FilterInv.v
FilterSync.v
Setup.v
RemoteFilter.v
SwapDriver.v
Faults.v
