(* ===== verification/Prelude.v ===== *)
(** * Xcache (JULEE): a verification development

    Xcache keeps clean pages of the Linux page cache in the memory of a remote
    server.  A kernel client (client/) registers with cleancache: a page that
    leaves the page cache is put, a page that is missed is asked for.  Client
    and server speak RDMA; the server (server/) keeps the pages in one
    registered buffer and their addresses in a hash table, and sends the
    clients a Bloom filter of the keys it stores.

    ** The files

    - Prelude.v: machine words, C arrays, the loops and the tactics that all
      files share.
    - PairDefs.v: server/util/pair.h and the interface server/IHash.h, as the
      classes [IHash] (operations) and [IHashSpec], [IHashTotal], [IHashPairs]
      (what a client of a table may rely on).
    - HashFun.v: server/util/hash.h.
    - CountingBloom.v, ClientBloom.v: the server's counting filter
      (server/util/counting_bloom_filter.h) and the bit filter of the client
      (client/bloom_filter.c, client/hash.h).
    - LinearProbing.v, CuckooProbing.v, CuckooHash.v, LevelHash.v, PathHash.v,
      ExtendibleHash.v, CCEH.v, StaticHash.v: the tables of server/src, each with
      its state as a record, one definition per member function, and its
      invariant.
    - HotRing.v: server/hotring, rings of nodes on a heap of pointers.
    - CircularQueue.v: server/circular_queue.cpp, and Semaphore.v: the counters
      that CCEH locks segments and directory with; both as step relations on the
      accesses of any number of threads to shared memory.
    - KV.v: server/KV.cpp, the store over any table of the interface.
    - NumaKV.v: server/NuMA_KV.cpp and the extents of server/CCEH_hybrid.cpp,
      over the classes [ICCEH] and [ICCEHSpec], which the table meets.
    - CachePolicy.v: server/cache-replacement.
    - Wire.v: the macros and the immediate value both sides share
      (client/rdpma.h, server/rdma_svr.h), and the class [Verbs] of what the
      RDMA library does to memory.
    - Server.v: the handlers of server/rdma_svr.cpp and the receives it posts
      at the start; Setup.v: its connection events and [main].
    - Client.v: client/rdpma.c and client/julee.c; RemoteFilter.v: its build with
      [SBLOOMFILTER], which reads the filter of the server.
    - Tmem.v: client/tmem.h and the shim client/tcp_style/tmem.c over a
      hypervisor (classes [Hypervisor], [TmemSpec], [TmemPersistent]).
    - DramBackend.v: client/dram-backend, the cache in local memory and the
      filter of digests (class [Crypto]).
    - SwapDriver.v: client/juleeswap.c, the frontswap operations on the client.
    - System.v, Faults.v: clients, server and table composed, without and with
      failures.
    - FilterInv.v: what the filter of the server has counted in a run of the
      system; FilterSync.v: the thread [rdpma_bf_sender] of server/rdma_svr.cpp
      that sends it to the clients.
    - OneSided.v: client/onesided and server/onesided, over a network card
      (classes [Rnic], [RnicSpec]).
    - PmNode.v, PmWait.v, PmRx.v: client/tcp_style/tcp.c and nodemanager.c, the
      socket containers with their references, the requests that wait, and the
      messages read from a stream (classes [IdrSpec], [Socket], [SocketSpec],
      [SocketBound]);
      the threads interleave as a step relation.

    ** State and effects

    C structs and classes are records, arrays are lists, pointers into an
    array are indices, heap objects that are shared are indices into a list or
    keys of a [gmap].  A word is a [Z] with its wrap-around written out
    ([wrap]).  Functions return [option]: [None] is behaviour that C leaves
    undefined, or a loop that the fuel does not finish; [exit], [BUG_ON] and a
    call that never returns are results of their own ([CuckooHash.outcome],
    [Client.outcome]).  Memory that uninitialised objects start with is an
    argument ([junk]).  Operations of a table are atomic, as each holds its
    lock or segment; the locks themselves are in Semaphore.v, and the lock of a
    client's queue is part of the state in Client.v.

    ** What is not under src/

    [std::_Hash_bytes] is the class [StdHash], the verbs library the class
    [Verbs], the hypercall of Xen the class [Hypervisor], the digests of the
    kernel the class [Crypto], its numbers for requests the class [IdrSpec], its
    sockets the class [Socket], and the network card the class [Rnic];
    [HashFun.plain_hash], [Wire.machine_verbs], [Tmem.simple_hypervisor],
    [DramBackend.small_crypto], [PmWait.lowest_spec], [PmRx.segments] and
    [OneSided.slow_card] are instances.

    ** What the theorems show

    - End to end: a get that succeeds returns a page that was put under its
      key ([System.get_returns_put]), for every table that is an [IHashPairs]
      and whatever fails on the puts; a put stops at a [BUG_ON] only when a
      mapping has address zero or a receive cannot be posted, and one that
      returns an error keeps the lock of its queue for ever.  When the
      clients connect one after the other, the set-up of the server ends in a
      state that these runs start from ([Setup.setup_starts_system]).
    - Nothing is held back: in every run in which no counter can overflow the
      filter of the server counts exactly, so that after a round of the sender,
      or with the filter read by RDMA, a get of a key that the table has a value
      for is admitted and returns the page ([FilterSync.get_after_sync_hits],
      [RemoteFilter.sbloom_get_exact]).
    - Filters: no false negatives while no counter passes 255, in the filter,
      through the packed words, on the client, and through the store with
      displacement; the counter that sticks at 255 is the exception.
    - Tables: linear probing refines a list of clusters; the path table
      refines a finite map, also when it grows, and so does the extendible table
      when a new key is inserted and its blocks can be split far enough; the hot
      ring does whatever node its look-ups make the head; cuckoo probing
      conserves keys; the cuckoo table and CCEH store what was inserted through
      path moves, doubling, splits and directory updates, return when there is
      room, and CCEH repairs an interrupted update of the directory, but for one
      case in its last range; the level table finds a new key whatever the
      tokens of its new nodes are.
    - Extents: the pieces tile a range, and every page of every extent is found
      by rounding down while the extents are disjoint and within the bounds of
      [NumaKV.extent_ok].
    - Work queue: in every interleaving in which no thread was a lap behind, the
      consumer with a ticket receives what the producer with it sent, and the
      two can finish on their own.  Semaphore: while one thread has a segment
      suspended no other holds it, if no thread unlocks what it did not lock.
    - Backends: the shim of transcendent memory is coherent and its swap
      system a map; the local backend is a map that keeps the first page of a
      key, until its buffer is full, and so is the one-sided client until the
      region is full; a store of the swap driver may succeed before the page is
      sent.
    - Sockets: in every interleaving the count of a container is the number of
      its references, and a step crashes only on a status that does not exist or
      on a payload that does not fit its page; a reply wakes the request it
      answers, the loss of the connection wakes all that are listed, and those
      that were sent get the error; pages that arrive in any pieces reach their
      requests, and the reader returns on every header that fits.
    - Caches: capacity, and which keys LRU and LFU keep.
    - Failures and flaws: theorems and examples named in the manifest show
      what the code does where it does not do what it means to.

    ** Bounds and fuel

    [CuckooHash.Insert], [CCEH.Insert] and [ExtendibleHash.Insert] loop until
    they succeed; their fuel is the number of rounds, and [cuckoo_insert_total],
    [cceh_insert_total], [eh_refines_map] and [eh_well_typed] give the rounds that
    are enough.
    [find_loop] and [grow_loop] have the bounds of the code, 16 and 128.
    [recover_loop] has the length of the directory.  The loops of HotRing.v run
    at most once over the nodes of the heap.  [NumaKV.Insert_extent] has one
    more than the length of the extent ([extent_pieces]), and
    [ExtendibleHash.Insert] one more than the depth at which the blocks have
    room.  [PmRx.rx_loop] has one more than the bytes of the stream.
    [OneSided.drain_queue] polls until nothing is pending; [onesided_refines]
    gives, for a card that answers in the end, a fuel that is enough, and
    [onesided_refused_read_hangs] a case in which none is.  The other loops run
    over the list of their indices, [Setup.wait_queue] and [Setup.handle] over
    the events that come.

    ** Not modelled

    Module parameters, options, statistics, timing, logs and tests have no
    state of the cache.  The connection set-up of the clients only calls the
    verbs library.  The ODP variant of [rdpma_get] takes no lock, so that its
    calls are not the steps that Client.v makes of a call.  The server that
    client/rdma_direct and the message layer client/rdpma/rdpma.c speak to is not
    in the repository.  client/tcp_style/pmdfc.c does not compile as it stands,
    and rdma_conn.c and rdma_op.c beside it are earlier copies of the files of
    client/onesided.  The copies of the nvme and rds drivers of the kernel under
    client/rdpma, and server/include/libpmemobj, are third-party code. *)

From Stdlib Require Export ZArith Lia.
From stdpp Require Export gmap gmultiset prelude.

#[global] Open Scope Z_scope.
Declare Scope xcache_scope.
Delimit Scope xcache_scope with xc.
#[global] Open Scope xcache_scope.

#[global] Arguments Nat.div : simpl never.
#[global] Arguments Nat.modulo : simpl never.
#[global] Arguments Z.of_nat : simpl never.
#[global] Arguments Z.to_nat : simpl never.

(** ** Machine words

    A [w]-bit unsigned integer is a [Z] reduced modulo [2^w]; the signed
    32-bit [int] of the C code is the two's complement reading of the low
    32 bits. *)

Definition wrap (w z : Z) : Z := z mod 2 ^ w.

Abbreviation u8 := (wrap 8).
Abbreviation u16 := (wrap 16).
Abbreviation u32 := (wrap 32).
Abbreviation u64 := (wrap 64).

Definition s32 (z : Z) : Z := (z + 2 ^ 31) mod 2 ^ 32 - 2 ^ 31.

Lemma wrap_bound w z : 0 <= w -> 0 <= wrap w z < 2 ^ w.
Proof. intros. unfold wrap. apply Z.mod_pos_bound. by apply Z.pow_pos_nonneg. Qed.

Lemma wrap_small w z : 0 <= z < 2 ^ w -> wrap w z = z.
Proof. apply Z.mod_small. Qed.

Lemma wrap_wrap w z : 0 <= w -> wrap w (wrap w z) = wrap w z.
Proof. intros. apply wrap_small. by apply wrap_bound. Qed.

Lemma s32_small z : - 2 ^ 31 <= z < 2 ^ 31 -> s32 z = z.
Proof. intros. unfold s32. rewrite Z.mod_small; lia. Qed.

(** ** Error values

    [None] stands for what the C and C++ code leaves undefined: an index
    outside the array, a remainder by zero.  [x ← e; k] is the option
    monad of stdpp. *)

Definition urem (a b : Z) : option Z :=
  if b =? 0 then None else Some (a mod b).

Lemma urem_pos a b : 0 < b -> urem a b = Some (a mod b).
Proof. intros. unfold urem. destruct (Z.eqb_spec b 0); [lia | done]. Qed.

(** Take a chain of [x ← e; k] apart. *)
Ltac inv_bind H x E := apply bind_Some in H as (x & E & H).

(** ** Arrays

    A C array is a list; a read is stdpp's [l !! i], a write out of range
    is an error (stdpp's own [<[i:=x]> l] would silently do nothing). *)

Section Arrays.
Context {A : Type}.
Implicit Types (l d : list A) (P : A -> bool).

Definition store (l : list A) (i : nat) (x : A) : option (list A) :=
  if decide (i < length l)%nat then Some (<[i := x]> l) else None.

Lemma store_Some l i x : (i < length l)%nat -> store l i x = Some (<[i := x]> l).
Proof. intros. unfold store. by rewrite decide_True. Qed.

Lemma store_inv l i x l' :
  store l i x = Some l' -> (i < length l)%nat /\ l' = <[i := x]> l.
Proof. unfold store. case_decide; intros; by simplify_eq. Qed.

Lemma store_length l i x l' : store l i x = Some l' -> length l' = length l.
Proof. intros [_ ->]%store_inv. apply length_insert. Qed.

(** The loop [for (s in slots) if (P(d[s])) return s;]: [Some (Some s)] is
    the first slot that passes, [Some None] a loop that runs to its end,
    [None] a read out of range. *)

Fixpoint probe (slots : list nat) (P : A -> bool) (d : list A)
  : option (option nat) :=
  match slots with
  | [] => Some None
  | s :: rest =>
      x ← d !! s;
      if P x then Some (Some s) else probe rest P d
  end.

(** What a run of [probe] has seen of a slot it passed over. *)
Definition passed (P : A -> bool) (d : list A) (s : nat) : Prop :=
  exists x, d !! s = Some x /\ P x = false.

Lemma probe_found slots P d s :
  probe slots P d = Some (Some s) <->
  exists pre post, slots = pre ++ s :: post /\ Forall (passed P d) pre
    /\ exists x, d !! s = Some x /\ P x = true.
Proof.
  induction slots as [|t rest IH]; simpl; split.
  - done.
  - intros ([|??] & ? & ? & _); done.
  - destruct (d !! t) as [x|] eqn:Ht; simpl; [|done].
    destruct (P x) eqn:HP; intros Hr.
    + simplify_eq. exists [], rest. eauto 10.
    + apply IH in Hr as (pre & post & -> & Hpre & Hx).
      exists (t :: pre), post. split_and!; try done.
      constructor; [by exists x | done].
  - intros (pre & post & Heq & Hpre & x & Hx & HP).
    destruct pre as [|t' pre]; simplify_eq/=.
    + rewrite Hx. simpl. by rewrite HP.
    + rewrite Forall_cons in Hpre. destruct Hpre as [(y & Hy & HPy) Hpre].
      rewrite Hy. simpl. rewrite HPy. apply IH. eauto 10.
Qed.

Lemma probe_exhausted slots P d :
  probe slots P d = Some None <-> Forall (passed P d) slots.
Proof.
  induction slots as [|t rest IH]; simpl; [by rewrite Forall_nil|].
  rewrite Forall_cons, <- IH. unfold passed at 1. split.
  - destruct (d !! t) as [x|] eqn:Ht; simpl; [|done].
    destruct (P x) eqn:HP; [done | eauto].
  - intros [(x & -> & HP) Hr]. simpl. by rewrite HP.
Qed.

Lemma probe_total slots P d :
  Forall (fun s => (s < length d)%nat) slots -> exists r, probe slots P d = Some r.
Proof.
  induction 1 as [|s rest Hs _ IH]; simpl; [eauto|].
  apply lookup_lt_is_Some in Hs as [x ->]. simpl. destruct (P x); eauto.
Qed.

Lemma probe_ext slots P d d' :
  Forall (fun s => d !! s = d' !! s) slots -> probe slots P d = probe slots P d'.
Proof.
  induction 1 as [|s rest Hs _ IH]; simpl; [done|].
  rewrite Hs. destruct (d' !! s) as [x|]; simpl; [|done]. by rewrite IH.
Qed.

Lemma probe_pred_ext slots P Q d :
  (forall s x, d !! s = Some x -> P x = Q x) -> probe slots P d = probe slots Q d.
Proof.
  intros HPQ. induction slots as [|s rest IH]; simpl; [done|].
  destruct (d !! s) as [x|] eqn:Hs; simpl; [|done]. by rewrite (HPQ s x Hs), IH.
Qed.

Lemma probe_found_lookup slots P d s :
  probe slots P d = Some (Some s) -> s ∈ slots /\ exists x, d !! s = Some x /\ P x = true.
Proof.
  intros (pre & post & -> & _ & Hx)%probe_found. split; [set_solver | done].
Qed.

End Arrays.

(** A scan that has a passing slot stops there or before. *)
Lemma probe_stops {A} pre y post (P : A -> bool) d x :
  Forall (fun s => (s < length d)%nat) pre -> d !! y = Some x -> P x = true ->
  exists z, probe (pre ++ y :: post) P d = Some (Some z) /\ z ∈ pre ++ [y].
Proof.
  intros Hpre Hy HP. induction Hpre as [|s pre Hs _ IH]; cbn [app probe].
  - exists y. rewrite Hy. cbn [mbind option_bind]. rewrite HP. split; [done|set_solver].
  - apply lookup_lt_is_Some in Hs as [u Hu]. rewrite Hu. cbn [mbind option_bind].
    destruct (P u); [exists s; set_solver|]. destruct IH as (z & -> & Hz). exists z. set_solver.
Qed.

(** ** Powers of two *)

Lemma pow_split a b : 0 <= b <= a -> 2 ^ a = 2 ^ (a - b) * 2 ^ b.
Proof. intros. rewrite <- Z.pow_add_r by lia. f_equal. lia. Qed.

Lemma pow_half a : 0 < a -> 2 ^ a = 2 * 2 ^ (a - 1).
Proof. intros. rewrite <- Z.pow_succ_r by lia. f_equal. lia. Qed.

Lemma pow_pos a : 0 <= a -> 0 < 2 ^ a.
Proof. intros. by apply Z.pow_pos_nonneg. Qed.

Lemma pow_bounds e m : 0 <= e <= m -> 1 <= 2 ^ e <= 2 ^ m.
Proof. intros. pose proof (pow_pos e). pose proof (Z.pow_le_mono_r 2 e m). lia. Qed.

Lemma mod_div_pow x a i : 0 <= i <= a -> (x mod 2 ^ a) / 2 ^ i = (x / 2 ^ i) mod 2 ^ (a - i).
Proof.
  intros Hi. pose proof (pow_pos i ltac:(lia)). pose proof (pow_pos a ltac:(lia)).
  rewrite !Z.mod_eq by (apply Z.pow_nonzero; lia).
  rewrite Z.div_div by (lia || apply pow_pos; lia). rewrite (Z.mul_comm (2 ^ i)), <- pow_split by lia.
  rewrite (pow_split a i) at 1 by lia.
  replace (x - _) with (x + - (2 ^ (a - i) * (x / 2 ^ a)) * 2 ^ i) by ring.
  rewrite Z.div_add by lia. ring.
Qed.

(** ** Bits of bounded words *)

Lemma word_bits w x i : 0 <= x < 2 ^ w -> w <= i -> Z.testbit x i = false.
Proof.
  intros Hx Hi. destruct (Z.eq_dec x 0) as [->|]; [apply Z.bits_0|].
  destruct (Z.neg_nonneg_cases w).
  { rewrite (Z.pow_neg_r 2 w) in Hx; lia. }
  apply Z.bits_above_log2; [lia|].
  eapply Z.lt_le_trans; [|exact Hi]. apply Z.log2_lt_pow2; lia.
Qed.

Lemma bits_word w x :
  0 <= w -> 0 <= x -> (forall i, w <= i -> Z.testbit x i = false) -> x < 2 ^ w.
Proof.
  intros Hw Hx Hbits. assert (x = x mod 2 ^ w) as ->.
  - apply Z.bits_inj'. intros i Hi.
    destruct (Z.ltb_spec i w).
    + by rewrite Z.mod_pow2_bits_low.
    + rewrite Z.mod_pow2_bits_high by lia. auto.
  - apply Z.mod_pos_bound. by apply Z.pow_pos_nonneg.
Qed.

Lemma lxor_bound w x y :
  0 <= w -> 0 <= x < 2 ^ w -> 0 <= y < 2 ^ w -> 0 <= Z.lxor x y < 2 ^ w.
Proof.
  intros Hw Hx Hy. assert (0 <= Z.lxor x y) by (apply Z.lxor_nonneg; lia).
  split; [done|]. apply bits_word; [lia..|]. intros i Hi.
  rewrite Z.lxor_spec. by rewrite (word_bits w x), (word_bits w y).
Qed.

Lemma lor_bound w x y :
  0 <= w -> 0 <= x < 2 ^ w -> 0 <= y < 2 ^ w -> 0 <= Z.lor x y < 2 ^ w.
Proof.
  intros Hw Hx Hy. assert (0 <= Z.lor x y) by (apply Z.lor_nonneg; lia).
  split; [done|]. apply bits_word; [lia..|]. intros i Hi.
  rewrite Z.lor_spec. by rewrite (word_bits w x), (word_bits w y).
Qed.

Lemma shiftr_bound w x n : 0 <= n -> 0 <= x < 2 ^ w -> 0 <= x ≫ n < 2 ^ w.
Proof.
  intros Hn Hx. rewrite Z.shiftr_div_pow2 by done.
  pose proof (Z.pow_pos_nonneg 2 n ltac:(lia) Hn).
  split; [apply Z.div_pos; lia|].
  apply Z.le_lt_trans with x; [|lia]. apply Z.div_le_upper_bound; nia.
Qed.

Lemma lor_shiftl a b n : 0 <= n -> 0 <= b < 2 ^ n -> Z.lor (a ≪ n) b = a * 2 ^ n + b.
Proof.
  intros Hn Hb. rewrite <- Z.shiftl_mul_pow2 by lia. symmetry.
  rewrite Z.add_nocarry_lxor, Z.lxor_lor; try done; apply Z.bits_inj'; intros i Hi; rewrite Z.land_spec, Z.bits_0.
  all: destruct (decide (i < n)) as [Hlt|Hge]; [by rewrite Z.shiftl_spec_low|].
  all: rewrite <- (Z.mod_small b (2 ^ n)), Z.mod_pow2_bits_high by lia; apply andb_false_r.
Qed.

(** ** Loops

    [for (x in l) s = f(s, x)], which stops at the first error. *)

Section Loops.
Context {A S : Type}.

Fixpoint foldM (f : S -> A -> option S) (l : list A) (s : S) : option S :=
  match l with
  | [] => Some s
  | x :: l => s' ← f s x; foldM f l s'
  end.

Lemma foldM_app f l1 l2 s :
  foldM f (l1 ++ l2) s = (s' ← foldM f l1 s; foldM f l2 s').
Proof.
  revert s. induction l1 as [|x l1 IH]; intros s; simpl; [done|].
  destruct (f s x); simpl; auto.
Qed.

Lemma foldM_snoc f l x s :
  foldM f (l ++ [x]) s = (s' ← foldM f l s; f s' x).
Proof.
  rewrite foldM_app. destruct (foldM f l s) as [s'|]; simpl; [|done].
  by destruct (f s' x).
Qed.

Lemma foldM_ext f g l s :
  (forall x s, x ∈ l -> f s x = g s x) -> foldM f l s = foldM g l s.
Proof.
  revert s. induction l as [|x l IH]; intros s Hfg; [done|]. cbn [foldM].
  rewrite Hfg by (apply list_elem_of_here). destruct (g s x); [|done]. simpl.
  apply IH. intros y s' Hy. apply Hfg. by apply list_elem_of_further.
Qed.

End Loops.

Lemma foldM_map {A B S} (f : S -> B -> option S) (g : A -> B) l s :
  foldM f (map g l) s = foldM (fun s x => f s (g x)) l s.
Proof.
  revert s. induction l as [|x l IH]; intros s; [done|]. cbn [map foldM].
  destruct (f s (g x)); [|done]. simpl. apply IH.
Qed.

(** The rule for a loop over [0 .. n-1] with an invariant. *)
Lemma foldM_seq {S} (I : nat -> S -> Prop) (f : S -> nat -> option S) n s :
  I 0%nat s ->
  (forall i s, (i < n)%nat -> I i s -> exists s', f s i = Some s' /\ I (Datatypes.S i) s') ->
  exists s', foldM f (seq 0 n) s = Some s' /\ I n s'.
Proof.
  intros H0 Hstep. induction n as [|n IH]; [simpl; eauto|].
  rewrite seq_S, foldM_snoc.
  destruct IH as (s' & -> & HI); [eauto with lia|].
  destruct (Hstep n s' ltac:(lia) HI) as (s'' & Hf & HI').
  exists s''. by simpl.
Qed.

(** The same for a loop that is known to return. *)
Lemma foldM_seq_inv {S} (I : nat -> S -> Prop) (f : S -> nat -> option S) n s s' :
  I 0%nat s ->
  (forall i s s', (i < n)%nat -> I i s -> f s i = Some s' -> I (Datatypes.S i) s') ->
  foldM f (seq 0 n) s = Some s' -> I n s'.
Proof.
  intros H0. revert s'. induction n as [|n IH]; intros s' Hstep Hf; [by injection Hf as <-|].
  rewrite seq_S, foldM_snoc in Hf. inv_bind Hf s1 H1. apply (Hstep n s1 s'); [lia| |done].
  apply IH; [|done]. intros i s2 s3 Hi. apply Hstep. lia.
Qed.

(** The rule for a loop over the elements of an array. *)
Lemma foldM_array {A S} (I : nat -> S -> Prop) (f : S -> A -> option S) l s :
  I 0%nat s ->
  (forall i x s, l !! i = Some x -> I i s -> exists s', f s x = Some s' /\ I (Datatypes.S i) s') ->
  exists s', foldM f l s = Some s' /\ I (length l) s'.
Proof.
  intros H0 Hstep. induction l as [|x l IH] using rev_ind; [cbn; eauto|].
  rewrite foldM_snoc, length_app, Nat.add_1_r. destruct IH as (s' & -> & HI).
  { intros i y s1 Hy. apply Hstep. by apply lookup_app_l_Some. }
  apply (Hstep (length l) x s'); [|done]. by rewrite lookup_app_r, Nat.sub_diag by lia.
Qed.

(** ** Filters *)

Lemma filter_all {A} (P : A -> Prop) `{forall x, Decision (P x)} l : Forall P l -> filter P l = l.
Proof. induction 1; [done|]. rewrite filter_cons_True by done. by f_equal. Qed.

Lemma filter_none {A} (P : A -> Prop) `{forall x, Decision (P x)} l :
  Forall (fun x => ~ P x) l -> filter P l = [].
Proof. induction 1; [done|]. by rewrite filter_cons_False. Qed.

(** Distinct positions of elements that satisfy the filter. *)
Lemma filter_positions {A} (P : A -> Prop) `{!forall x, Decision (P x)} (is_ : list nat) (d : list A) :
  NoDup is_ -> Forall (fun i => exists x, d !! i = Some x /\ P x) is_ ->
  (length is_ <= length (filter P d))%nat.
Proof.
  revert is_. induction d as [|x d IH] using rev_ind; intros is_ Hnd Hall.
  { destruct is_ as [|i is_]; [done|]. apply Forall_cons in Hall as [(y & Hy & _) _]. done. }
  rewrite filter_app, length_app. set (is' := filter (fun i => i <> length d) is_).
  assert (length is' <= length (filter P d))%nat as Hle.
  { apply IH; [by apply NoDup_filter|]. apply Forall_forall. intros i Hi.
    apply list_elem_of_filter in Hi as [Hne Hi]. rewrite Forall_forall in Hall.
    destruct (Hall i Hi) as (y & Hy & HP). exists y. split; [|done].
    rewrite lookup_app_l in Hy; [done|]. apply lookup_lt_Some in Hy. rewrite length_app in Hy. simpl in Hy. lia. }
  destruct (decide (length d ∈ is_)) as [Hin|Hout].
  - rewrite Forall_forall in Hall. destruct (Hall _ Hin) as (y & Hy & HP).
    rewrite lookup_app_r, Nat.sub_diag in Hy by lia. injection Hy as ->.
    rewrite filter_cons_True by done. simpl.
    assert (is_ ⊆+ length d :: is') as Hsub%submseteq_length; [|simpl in Hsub; lia].
    apply NoDup_submseteq; [done|]. intros i Hi. apply elem_of_cons.
    destruct (decide (i = length d)); [by left|right]. by apply list_elem_of_filter.
  - assert (is_ ⊆+ is') as Hsub%submseteq_length; [|lia].
    apply NoDup_submseteq; [done|]. intros i Hi. apply list_elem_of_filter. split; [by intros ->|done].
Qed.

Lemma NoDup_sub {A} (l k : list A) : l ⊆+ k -> NoDup k -> NoDup l.
Proof.
  intros (k' & Hk)%submseteq_Permutation Hnd. rewrite Hk in Hnd. by apply NoDup_app in Hnd as [? _].
Qed.

Lemma filter_submseteq_length {A} (P : A -> Prop) `{!forall x, Decision (P x)} (l1 l2 : list A) :
  l1 ⊆+ l2 -> (length (filter P l1) <= length (filter P l2))%nat.
Proof.
  intros [k Hk]%submseteq_Permutation. rewrite Hk, filter_app, length_app. lia.
Qed.

Lemma Forall_filter {A} (P Q : A -> Prop) `{forall x, Decision (P x)} l :
  Forall Q l -> Forall Q (filter P l).
Proof.
  rewrite !Forall_forall. intros HQ x [_ Hx]%list_elem_of_filter. by apply HQ.
Qed.

(** ** Arrays made of rows

    Several tables divide their array into clusters of [n] slots.  Such an
    array is [concat] of its rows; slot [n * q + j] is slot [j] of row [q]. *)

Section Rows.
Context {A : Type}.
Implicit Types (rows : list (list A)) (row : list A).

Definition rectangular (n : nat) rows : Prop := Forall (fun row => length row = n) rows.

Lemma rectangular_length n rows :
  rectangular n rows -> length (concat rows) = (n * length rows)%nat.
Proof.
  induction 1 as [|row rows Hr _ IH]; simpl; [lia|].
  rewrite length_app, Hr, IH. lia.
Qed.

Lemma rectangular_insert n rows q row :
  rectangular n rows -> length row = n -> rectangular n (<[q := row]> rows).
Proof. intros. by apply Forall_insert. Qed.

Lemma rectangular_lookup n rows q row :
  rectangular n rows -> rows !! q = Some row -> length row = n.
Proof. intros Hr Hq. by apply (Forall_lookup_1 _ _ q row Hr). Qed.

Lemma concat_lookup n rows q row j :
  rectangular n rows -> rows !! q = Some row -> (j < n)%nat ->
  concat rows !! (n * q + j)%nat = row !! j.
Proof.
  intros Hr. revert q. induction Hr as [|r rows Hl _ IH]; intros q Hq Hj; [done|].
  simpl. destruct q as [|q]; simplify_eq/=.
  - rewrite Nat.mul_0_r. simpl. by rewrite lookup_app_l by lia.
  - rewrite lookup_app_r by lia. rewrite <- (IH q) by done. f_equal. lia.
Qed.

Lemma concat_insert n rows q row j x :
  rectangular n rows -> rows !! q = Some row -> (j < n)%nat ->
  <[(n * q + j)%nat := x]> (concat rows) = concat (<[q := <[j := x]> row]> rows).
Proof.
  intros Hr. revert q. induction Hr as [|r rows Hl _ IH]; intros q Hq Hj; [done|].
  destruct q as [|q]; simplify_eq/=.
  - rewrite Nat.mul_0_r. simpl. by rewrite insert_app_l by lia.
  - rewrite insert_app_r_alt by lia. f_equal. rewrite <- IH by done. f_equal. lia.
Qed.

Lemma concat_store n rows q row j x :
  rectangular n rows -> rows !! q = Some row -> (j < n)%nat ->
  store (concat rows) (n * q + j) x = Some (concat (<[q := <[j := x]> row]> rows)).
Proof.
  intros Hr Hq Hj. rewrite <- (concat_insert n) by done. apply store_Some.
  rewrite (rectangular_length n) by done. apply lookup_lt_Some in Hq. nia.
Qed.

(** A scan of one row. *)
Lemma probe_row n rows q row m P :
  rectangular n rows -> rows !! q = Some row -> (m <= n)%nat ->
  probe (seq (n * q) m) P (concat rows) =
  Some ((fun s => (n * q + s)%nat) <$> (fst <$> list_find (fun x => P x) (take m row))).
Proof.
  intros Hr Hq Hm. pose proof (rectangular_lookup _ _ _ _ Hr Hq) as Hl.
  destruct (list_find _ (take m row)) as [[s x]|] eqn:Hf; simpl.
  - apply list_find_Some in Hf as (Hs & HP & Hpre).
    pose proof (lookup_lt_Some _ _ _ Hs) as Hlt. rewrite length_take in Hlt.
    rewrite lookup_take_lt in Hs by lia. apply probe_found.
    exists (seq (n * q) s), (seq (n * q + S s) (m - S s)). split_and!.
    + replace m with (s + S (m - S s))%nat at 1 by lia.
      rewrite seq_app. simpl. do 2 f_equal. f_equal. lia.
    + apply Forall_seq. intros i Hi. unfold passed.
      destruct (lookup_lt_is_Some_2 row (i - n * q)) as [y Hy]; [lia|].
      exists y. replace i with (n * q + (i - n * q))%nat at 1 by lia.
      rewrite (concat_lookup n rows q row) by (done || lia). split; [done|].
      apply not_true_is_false. intros Ht. apply (Hpre (i - n * q)%nat y).
      * rewrite lookup_take_lt by lia. done.
      * lia.
      * by apply Is_true_true.
    + exists x. rewrite (concat_lookup n rows q row) by (done || lia).
      split; [done|]. by apply Is_true_true.
  - apply list_find_None in Hf. apply probe_exhausted, Forall_seq. intros i Hi.
    destruct (lookup_lt_is_Some_2 row (i - n * q)) as [y Hy]; [lia|].
    exists y. replace i with (n * q + (i - n * q))%nat at 1 by lia.
    rewrite (concat_lookup n rows q row) by (done || lia). split; [done|].
    apply not_true_is_false. intros Ht.
    apply (Forall_lookup_1 _ _ (i - n * q) y Hf); [|by apply Is_true_true].
    rewrite lookup_take_lt by lia. done.
Qed.

Lemma elem_of_concat_row rows q row x : rows !! q = Some row -> x ∈ row -> x ∈ concat rows.
Proof.
  revert q. induction rows as [|r rows IH]; intros [|q] Hq Hx; simplify_eq/=; set_solver.
Qed.

(** An array of [n * m] elements has rows. *)
Lemma rows_exist n (d : list A) m :
  length d = (n * m)%nat -> exists rows, d = concat rows /\ rectangular n rows /\ length rows = m.
Proof.
  revert d. induction m as [|m IH]; intros d Hd.
  - exists []. split_and!; [|by constructor|done]. apply nil_length_inv. lia.
  - destruct (IH (drop n d)) as (rows & Heq & Hr & Hm); [rewrite length_drop; lia|].
    exists (take n d :: rows). split_and!; [|constructor; [|done]|simpl; lia].
    + simpl. by rewrite <- Heq, take_drop.
    + rewrite length_take. lia.
Qed.

End Rows.
