(* ===== verification/PairDefs.v ===== *)
(** * Keys, values and pairs (server/util/pair.h), and the hash table interface

    The types every table of the server shares, and the interface through
    which the key-value store calls a table: the operations of the abstract
    class [IHash] of server/IHash.h, and the laws about them that the store
    relies on. *)

From S2P Require Import Prelude.

(** [Key_t] is [size_t] and [Value_t] is [const char*]: both are 64-bit. *)
Abbreviation Key_t := Z (only parsing).
Abbreviation Value_t := Z (only parsing).

Definition SENTINEL : Key_t := u64 (-2).
Definition INVALID : Key_t := u64 (-1).
Definition NONE : Value_t := 0.

Record Pair : Type := MkPair { pkey : Key_t; pvalue : Value_t }.

#[export] Instance Pair_eq_dec : EqDecision Pair.
Proof. solve_decision. Defined.

(** [Pair(void)] sets the key and leaves the value as the memory has it. *)
Definition Pair_void (junk : Value_t) : Pair := MkPair INVALID junk.

(** [new Pair[n]], on memory whose [i]-th value word is [junk i]. *)
Definition new_Pairs (junk : nat -> Value_t) (n : nat) : list Pair :=
  (fun i => Pair_void (junk i)) <$> seq 0 n.

Lemma new_Pairs_length junk n : length (new_Pairs junk n) = n.
Proof. unfold new_Pairs. by rewrite length_fmap, length_seq. Qed.

Lemma new_Pairs_lookup junk n i p :
  new_Pairs junk n !! i = Some p -> pkey p = INVALID.
Proof.
  unfold new_Pairs. rewrite list_lookup_fmap.
  destruct (seq 0 n !! i); naive_solver.
Qed.

(** Is the slot free?  Does it hold [k]? *)
Definition is_free (p : Pair) : bool := pkey p =? INVALID.
Definition has_key (k : Key_t) (p : Pair) : bool := pkey p =? k.

Lemma is_free_true p : is_free p = true <-> pkey p = INVALID.
Proof. apply Z.eqb_eq. Qed.
Lemma is_free_false p : is_free p = false <-> pkey p <> INVALID.
Proof. apply Z.eqb_neq. Qed.
Lemma has_key_true k p : has_key k p = true <-> pkey p = k.
Proof. apply Z.eqb_eq. Qed.
Lemma has_key_false k p : has_key k p = false <-> pkey p <> k.
Proof. apply Z.eqb_neq. Qed.

(** The keys of an array of pairs, each as often as it occurs. *)
Definition keys_of (d : list Pair) : gmultiset Z :=
  list_to_set_disj (filter (fun k => k <> INVALID) (pkey <$> d)).

Lemma keys_of_nil : keys_of [] = ∅.
Proof. done. Qed.

Lemma keys_of_cons p d :
  keys_of (p :: d) =
  (if is_free p then ∅ else {[+ pkey p +]}) ⊎ keys_of d.
Proof.
  unfold keys_of, is_free. rewrite fmap_cons, filter_cons.
  destruct (Z.eqb_spec (pkey p) INVALID); case_decide; simpl; try done.
  multiset_solver.
Qed.

Lemma keys_of_app d1 d2 : keys_of (d1 ++ d2) = keys_of d1 ⊎ keys_of d2.
Proof.
  unfold keys_of. rewrite fmap_app, filter_app. apply list_to_set_disj_app.
Qed.

(** The key of one slot, and what a write does to the keys of an array. *)
Definition slot_keys (p : Pair) : gmultiset Z :=
  if is_free p then ∅ else {[+ pkey p +]}.

Lemma slot_keys_free p : pkey p = INVALID -> slot_keys p = ∅.
Proof. intros Hp. unfold slot_keys. by rewrite (proj2 (is_free_true p)). Qed.

Lemma slot_keys_used p : pkey p <> INVALID -> slot_keys p = {[+ pkey p +]}.
Proof. intros Hp. unfold slot_keys. by rewrite (proj2 (is_free_false p)). Qed.

Lemma keys_of_slots p d : keys_of (p :: d) = slot_keys p ⊎ keys_of d.
Proof. apply keys_of_cons. Qed.

Lemma keys_of_insert d j p p' :
  d !! j = Some p ->
  keys_of (<[j := p']> d) ⊎ slot_keys p = keys_of d ⊎ slot_keys p'.
Proof.
  revert j. induction d as [|x d IH]; intros [|j] Hj; simplify_eq/=.
  - rewrite !keys_of_cons. fold (slot_keys p) (slot_keys p'). multiset_solver.
  - rewrite !keys_of_cons. specialize (IH j Hj). multiset_solver.
Qed.

Lemma keys_of_concat_insert cs q c c' :
  cs !! q = Some c ->
  keys_of (concat (<[q := c']> cs)) ⊎ keys_of c = keys_of (concat cs) ⊎ keys_of c'.
Proof.
  revert q. induction cs as [|x cs IH]; intros [|q] Hq; simplify_eq/=.
  - rewrite !keys_of_app. multiset_solver.
  - rewrite !keys_of_app. specialize (IH q Hq). multiset_solver.
Qed.

Lemma elem_of_keys_of d k :
  k ∈ keys_of d <-> k <> INVALID /\ exists p, p ∈ d /\ pkey p = k.
Proof.
  unfold keys_of. rewrite elem_of_list_to_set_disj, list_elem_of_filter.
  rewrite list_elem_of_fmap. naive_solver.
Qed.

(** The pairs in use. *)
Definition used (d : list Pair) : list Pair := filter (fun p => pkey p <> INVALID) d.

Lemma used_insert d s p q :
  d !! s = Some p -> pkey p = INVALID -> pkey q <> INVALID ->
  used (<[s := q]> d) ≡ₚ q :: used d.
Proof.
  intros Hs Hp Hq. pose proof (take_drop_middle d s p Hs) as Heq.
  rewrite insert_take_drop by (by eapply lookup_lt_Some). rewrite <- Heq at 3.
  unfold used. rewrite !filter_app, filter_cons_True, (filter_cons_False _ p) by naive_solver.
  symmetry. apply Permutation_middle.
Qed.

Lemma used_length d : (length (used d) <= length d)%nat.
Proof. apply length_filter. Qed.

Lemma used_replace d s p q :
  d !! s = Some p -> pkey p <> INVALID -> pkey q <> INVALID ->
  p :: used (<[s := q]> d) ≡ₚ q :: used d.
Proof.
  intros Hs Hp Hq. pose proof (take_drop_middle d s p Hs) as Heq.
  rewrite insert_take_drop by (by eapply lookup_lt_Some). rewrite <- Heq at 3.
  unfold used. rewrite !filter_app, !filter_cons_True by done.
  rewrite <- !Permutation_middle. apply Permutation_swap.
Qed.

Lemma elem_of_used d p : p ∈ used d <-> pkey p <> INVALID /\ p ∈ d.
Proof. unfold used. by rewrite list_elem_of_filter. Qed.

Lemma used_cons p d : used (p :: d) = if is_free p then used d else p :: used d.
Proof.
  unfold used. rewrite filter_cons. destruct (is_free p) eqn:Hf; case_decide; try done.
  - apply is_free_true in Hf. done.
  - by apply is_free_false in Hf.
Qed.

Lemma used_take_S d m p :
  d !! m = Some p -> used (take (S m) d) ≡ₚ if is_free p then used (take m d) else p :: used (take m d).
Proof.
  intros Hp. rewrite (take_S_r _ _ _ Hp). unfold used at 1. rewrite filter_app. fold (used (take m d)). fold (used [p]).
  rewrite used_cons. destruct (is_free p); [by rewrite app_nil_r|]. by rewrite Permutation_app_comm.
Qed.

Lemma new_Pairs_used junk n : used (new_Pairs junk n) = [].
Proof.
  unfold used. destruct (filter _ (new_Pairs junk n)) as [|p l] eqn:Hf; [done|]. exfalso.
  assert (p ∈ p :: l) as Hin by set_solver. rewrite <- Hf in Hin.
  apply list_elem_of_filter in Hin as [Hp [j Hj]%list_elem_of_lookup_1].
  by apply new_Pairs_lookup in Hj.
Qed.

Lemma keys_of_size d : size (keys_of d) = length (used d).
Proof.
  induction d as [|p d IH]; [done|]. rewrite keys_of_cons, gmultiset_size_disj_union, IH.
  unfold used. rewrite filter_cons. destruct (is_free p) eqn:Hf.
  - apply is_free_true in Hf. rewrite decide_False by naive_solver. done.
  - apply is_free_false in Hf. rewrite decide_True by done.
    rewrite gmultiset_size_singleton. done.
Qed.

(** ** The interface of a hash table

    [Insert] returns the new table and the key it displaced, [INVALID]
    when none was; [None] is undefined behaviour or a loop that does not
    end within the fuel of the model. *)

Class IHash (T : Type) := {
  ih_Insert : T -> Key_t -> Value_t -> option (T * Key_t);
  ih_Insert_extent : T -> Key_t -> Z -> Z -> Value_t -> option T;
  ih_Delete : T -> Key_t -> option (T * bool);
  ih_Get : T -> Key_t -> option Value_t;
  ih_Get_extent : T -> Key_t -> Z -> option Value_t;
  ih_FindAnyway : T -> Key_t -> option Value_t;
  ih_Capacity : T -> Z;
  ih_Recovery : T -> option (T * bool);
}.

(** A key a client may store: a 64-bit word other than the two markers. *)
Definition valid_key (k : Key_t) : Prop :=
  0 <= k < 2 ^ 64 /\ k <> INVALID /\ k <> SENTINEL.

#[export] Instance valid_key_dec k : Decision (valid_key k).
Proof. unfold valid_key. apply _. Defined.

(** What the key-value store relies on: an insertion adds at most the new
    key, takes out the key it reports, and a value is only ever found for a
    key that is stored. *)

Definition displaced (d : Key_t) : gmultiset Z :=
  if decide (d = INVALID) then ∅ else {[+ d +]}.

Lemma displaced_INVALID : displaced INVALID = ∅.
Proof. done. Qed.

Lemma displaced_key d : d <> INVALID -> displaced d = {[+ d +]}.
Proof. intros. unfold displaced. by rewrite decide_False. Qed.

Class IHashSpec (T : Type) `{IHash T} := {
  ih_wf : T -> Prop;
  ih_stored : T -> gmultiset Z;
  ih_Insert_keys : forall t k v t' d,
    ih_wf t -> valid_key k -> ih_Insert t k v = Some (t', d) ->
    ih_wf t' /\ ih_stored t' ⊎ displaced d ⊆ ih_stored t ⊎ {[+ k +]};
  ih_Get_stored : forall t k v,
    ih_wf t -> valid_key k -> ih_Get t k = Some v -> v <> NONE ->
    k ∈ ih_stored t;
}.

(** Tables whose insertion always returns. *)
Class IHashTotal (T : Type) `{IHashSpec T} :=
  ih_Insert_total : forall t k v, ih_wf t -> valid_key k ->
    exists t' d, ih_Insert t k v = Some (t', d).

(** Tables that only answer values they were given: every pair they hold is an
    old one or the one inserted, and [Get] answers a pair they hold. *)
Class IHashPairs (T : Type) `{IHash T} := {
  ihp_wf : T -> Prop;
  ihp_holds : T -> Key_t -> Value_t -> Prop;
  ihp_Insert_holds : forall t k v t' d,
    ihp_wf t -> valid_key k -> ih_Insert t k v = Some (t', d) ->
    ihp_wf t' /\ forall k' v', ihp_holds t' k' v' -> ihp_holds t k' v' \/ (k' = k /\ v' = v);
  ihp_Get_holds : forall t k v,
    ihp_wf t -> valid_key k -> ih_Get t k = Some v -> v <> NONE -> ihp_holds t k v;
}.
