(* ===== verification/HashFun.v ===== *)
(** * Hash functions (server/util/hash.h)

    The hash functions on byte strings: [jenkins], [murmur2] and [xxhash]
    ([hash_compute]) are translated; [std::_Hash_bytes], which [standard]
    calls, belongs to the C++ runtime and is the parameter [StdHash].  The
    theorems: every function stays within its word, [xxhash] never maps two
    64-bit keys to one hash, and it agrees with the published XXH64 test
    values. *)

From S2P Require Import Prelude PairDefs.

(** Bytes of a little-endian word, and the word of little-endian bytes. *)
Fixpoint le_bytes (n : nat) (z : Z) : list Z :=
  match n with
  | O => []
  | S n => u8 z :: le_bytes n (z ≫ 8)
  end.

Fixpoint le_word (bs : list Z) : Z :=
  match bs with
  | [] => 0
  | b :: bs => b + 256 * le_word bs
  end.

(** The bytes of a key in memory, [&key, sizeof(key)]. *)
Definition key_bytes (k : Key_t) : list Z := le_bytes 8 k.

(** [std::_Hash_bytes(ptr, len, seed)], a [size_t]. *)
Class StdHash : Type := Hash_bytes : list Z -> Z -> Z.

Definition standard `{StdHash} (ptr : list Z) (seed : Z) : Z :=
  u64 (Hash_bytes ptr seed).

(** ** jenkins

    The bytes are read through a [const char*], which is signed. *)

Definition schar (b : Z) : Z := if b <? 128 then b else b - 256.

Fixpoint jenkins_loop (key : list Z) (hash : Z) : Z :=
  match key with
  | [] => hash
  | c :: key =>
      let hash := u64 (hash + schar c) in
      let hash := u64 (hash + u64 (hash ≪ 10)) in
      let hash := Z.lxor hash (hash ≫ 6) in
      jenkins_loop key hash
  end.

Definition jenkins (ptr : list Z) (seed : Z) : Z :=
  let hash := jenkins_loop ptr 0 in
  let hash := u64 (hash + u64 (hash ≪ 3)) in
  let hash := Z.lxor hash (hash ≫ 11) in
  u64 (hash + u64 (hash ≪ 15)).

(** ** murmur2 *)

Definition murmur_m : Z := 0x5bd1e995.

(** The [while(len >= 4)] loop; it returns the hash and the last bytes. *)
Fixpoint murmur2_loop (data : list Z) (h : Z) : Z * list Z :=
  match data with
  | b0 :: b1 :: b2 :: b3 :: rest =>
      let k := le_word [b0; b1; b2; b3] in
      let k := u32 (k * murmur_m) in
      let k := Z.lxor k (k ≫ 24) in
      let k := u32 (k * murmur_m) in
      let h := u32 (h * murmur_m) in
      let h := Z.lxor h k in
      murmur2_loop rest h
  | _ => (h, data)
  end.

(** [switch(len)], the cases falling through. *)
Definition murmur2_tail (h : Z) (data : list Z) : Z :=
  match data with
  | [b0; b1; b2] =>
      u32 (Z.lxor (Z.lxor (Z.lxor h (b2 ≪ 16)) (b1 ≪ 8)) b0 * murmur_m)
  | [b0; b1] => u32 (Z.lxor (Z.lxor h (b1 ≪ 8)) b0 * murmur_m)
  | [b0] => u32 (Z.lxor h b0 * murmur_m)
  | _ => h
  end.

Definition murmur2 (key : list Z) (seed : Z) : Z :=
  let h := u32 (Z.lxor seed (Z.of_nat (length key))) in
  let '(h, data) := murmur2_loop key h in
  let h := murmur2_tail h data in
  let h := Z.lxor h (h ≫ 13) in
  let h := u32 (h * murmur_m) in
  Z.lxor h (h ≫ 15).

(** ** xxhash *)

Definition NUMBER64_1 : Z := 11400714785074694791.
Definition NUMBER64_2 : Z := 14029467366897019727.
Definition NUMBER64_3 : Z := 1609587929392839161.
Definition NUMBER64_4 : Z := 9650029242287828579.
Definition NUMBER64_5 : Z := 2870177450012600261.

Definition shifting_hash (x r : Z) : Z := Z.lor (u64 (x ≪ r)) (x ≫ (64 - r)).

(** Both branches of [hash_read64_align] read the eight bytes at [ptr]. *)
Definition hash_read64_align (ptr : list Z) (align : Z) : Z :=
  if align =? 0 then le_word (take 8 ptr) else le_word (take 8 ptr).

Definition hash_read32_align (ptr : list Z) (align : Z) : Z :=
  if align =? 0 then le_word (take 4 ptr) else le_word (take 4 ptr).

(** One lane: [v += get64(p) * N2; v = rot(v, 31); v *= N1]. *)
Definition lane (v : Z) (p : list Z) (align : Z) : Z :=
  let v := u64 (v + u64 (hash_read64_align p align * NUMBER64_2)) in
  let v := shifting_hash v 31 in
  u64 (v * NUMBER64_1).

(** The [do ... while (p <= limitation)] loop over 32-byte stripes. *)
Fixpoint stripes (fuel : nat) (v1 v2 v3 v4 : Z) (p : list Z) (align : Z)
  : Z * Z * Z * Z * list Z :=
  match fuel with
  | O => (v1, v2, v3, v4, p)
  | S fuel =>
      if (32 <=? length p)%nat then
        stripes fuel (lane v1 p align) (lane v2 (drop 8 p) align)
          (lane v3 (drop 16 p) align) (lane v4 (drop 24 p) align)
          (drop 32 p) align
      else (v1, v2, v3, v4, p)
  end.

(** [v *= N2; v = rot(v, 31); v *= N1; hash ^= v; hash = hash * N1 + N4]. *)
Definition merge_lane (hash v : Z) : Z :=
  let v := u64 (v * NUMBER64_2) in
  let v := shifting_hash v 31 in
  let v := u64 (v * NUMBER64_1) in
  u64 (u64 (Z.lxor hash v * NUMBER64_1) + NUMBER64_4).

Fixpoint words_loop (fuel : nat) (hash : Z) (p : list Z) (align : Z) : Z * list Z :=
  match fuel with
  | O => (hash, p)
  | S fuel =>
      if (8 <=? length p)%nat then
        let k1 := hash_read64_align p align in
        let k1 := u64 (k1 * NUMBER64_2) in
        let k1 := shifting_hash k1 31 in
        let k1 := u64 (k1 * NUMBER64_1) in
        let hash := Z.lxor hash k1 in
        let hash := u64 (u64 (shifting_hash hash 27 * NUMBER64_1) + NUMBER64_4) in
        words_loop fuel hash (drop 8 p) align
      else (hash, p)
  end.

Fixpoint bytes_loop (hash : Z) (p : list Z) : Z :=
  match p with
  | [] => hash
  | b :: p =>
      let hash := Z.lxor hash (u64 (b * NUMBER64_5)) in
      bytes_loop (u64 (shifting_hash hash 11 * NUMBER64_1)) p
  end.

Definition avalanche (hash : Z) : Z :=
  let hash := Z.lxor hash (hash ≫ 33) in
  let hash := u64 (hash * NUMBER64_2) in
  let hash := Z.lxor hash (hash ≫ 29) in
  let hash := u64 (hash * NUMBER64_3) in
  Z.lxor hash (hash ≫ 32).

Definition hash_compute (input : list Z) (seed align : Z) : Z :=
  let len := length input in
  let '(hash, p) :=
    if (32 <=? len)%nat then
      let v1 := u64 (seed + NUMBER64_1 + NUMBER64_2) in
      let v2 := u64 (seed + NUMBER64_2) in
      let v3 := u64 (seed + 0) in
      let v4 := u64 (seed - NUMBER64_1) in
      let '(v1, v2, v3, v4, p) := stripes len v1 v2 v3 v4 input align in
      let hash := u64 (shifting_hash v1 1 + shifting_hash v2 7
                       + shifting_hash v3 12 + shifting_hash v4 18) in
      (merge_lane (merge_lane (merge_lane (merge_lane hash v1) v2) v3) v4, p)
    else (u64 (seed + NUMBER64_5), input) in
  let hash := u64 (hash + Z.of_nat len) in
  let '(hash, p) := words_loop len hash p align in
  let '(hash, p) :=
    if (4 <=? length p)%nat then
      let hash := Z.lxor hash (u64 (hash_read32_align p align * NUMBER64_1)) in
      (u64 (u64 (shifting_hash hash 23 * NUMBER64_2) + NUMBER64_3), drop 4 p)
    else (hash, p) in
  let hash := bytes_loop hash p in
  avalanche hash.

(** [xxhash] on data at address [addr]. *)
Definition xxhash (addr : Z) (data : list Z) (seed : Z) : Z :=
  if Z.land addr 7 =? 0 then hash_compute data seed 1
  else hash_compute data seed 0.

(** [hash_funcs], at the address the key is stored; [h] is entry 0. *)
Definition hash_funcs `{StdHash} (i : nat) (key : list Z) (seed : Z) : Z :=
  match i with
  | 0%nat => standard key seed
  | 1%nat => murmur2 key seed
  | 2%nat => jenkins key seed
  | _ => xxhash 0 key seed
  end.

Definition h `{StdHash} (k : Key_t) (seed : Z) : Z :=
  hash_funcs 0 (key_bytes k) seed.

(** The default seed of [h]. *)
Definition h_seed : Z := 0xc70697.

(** ** The mixing steps are injective *)

Lemma xorshift_bound w n x :
  0 <= w -> 0 <= n -> 0 <= x < 2 ^ w -> 0 <= Z.lxor x (x ≫ n) < 2 ^ w.
Proof. intros. apply lxor_bound; [done..|]. by apply shiftr_bound. Qed.

(** [x ^= x >> n] loses nothing: the top [n] bits stay, and each bit below
    is recovered from the one [n] places above. *)
Lemma xorshift_inj w n x y :
  0 < n -> 0 <= x < 2 ^ w -> 0 <= y < 2 ^ w ->
  Z.lxor x (x ≫ n) = Z.lxor y (y ≫ n) -> x = y.
Proof.
  intros Hn Hx Hy Heq. apply Z.bits_inj'.
  assert (forall k : nat, forall i, 0 <= i -> w - Z.of_nat k <= i ->
            Z.testbit x i = Z.testbit y i) as Hk.
  { induction k as [|k IH]; intros i Hi Hik.
    - rewrite !(word_bits w) by lia. done.
    - assert (Z.testbit x (i + n) = Z.testbit y (i + n)) as Htop
        by (apply IH; lia).
      assert (Z.testbit (Z.lxor x (x ≫ n)) i = Z.testbit (Z.lxor y (y ≫ n)) i)
        as Hbit by (by rewrite Heq).
      rewrite !Z.lxor_spec, !Z.shiftr_spec, Htop in Hbit by lia.
      destruct (Z.testbit y (i + n)), (Z.testbit x i), (Z.testbit y i); done. }
  intros i Hi. apply (Hk (Z.to_nat (Z.max 0 w))); lia.
Qed.

(** Multiplication by a constant that has an inverse modulo [2^w]. *)
Lemma mul_odd_inj w m minv x y :
  0 <= w -> wrap w (m * minv) = 1 -> 0 <= x < 2 ^ w -> 0 <= y < 2 ^ w ->
  wrap w (x * m) = wrap w (y * m) -> x = y.
Proof.
  unfold wrap. intros Hw Hinv Hx Hy Heq.
  assert (forall z, 0 <= z < 2 ^ w -> ((z * m) mod 2 ^ w * minv) mod 2 ^ w = z) as Hz.
  { intros z Hz. rewrite Z.mul_mod_idemp_l by lia.
    rewrite <- Z.mul_assoc, Z.mul_mod, Hinv, Z.mul_1_r by lia.
    rewrite !Z.mod_small; [done | lia | by rewrite Z.mod_small]. }
  rewrite <- (Hz x Hx), <- (Hz y Hy). by rewrite Heq.
Qed.

(** A rotation moves every bit and keeps it. *)
Lemma shifting_hash_bit x r i :
  0 < r < 64 -> 0 <= x < 2 ^ 64 -> 0 <= i < 64 ->
  Z.testbit (shifting_hash x r) i =
  if i <? r then Z.testbit x (i + (64 - r)) else Z.testbit x (i - r).
Proof.
  intros Hr Hx Hi. unfold shifting_hash, wrap.
  rewrite Z.lor_spec, Z.shiftr_spec, Z.mod_pow2_bits_low, Z.shiftl_spec by lia.
  destruct (Z.ltb_spec i r).
  - by rewrite (Z.testbit_neg_r x (i - r)) by lia.
  - rewrite (word_bits 64 x (i + (64 - r))) by lia. by rewrite orb_false_r.
Qed.

Lemma shifting_hash_bound x r :
  0 < r < 64 -> 0 <= x < 2 ^ 64 -> 0 <= shifting_hash x r < 2 ^ 64.
Proof.
  intros. unfold shifting_hash. apply lor_bound; [lia| |].
  - apply wrap_bound. lia.
  - apply shiftr_bound; lia.
Qed.

Lemma shifting_hash_inj x y r :
  0 < r < 64 -> 0 <= x < 2 ^ 64 -> 0 <= y < 2 ^ 64 ->
  shifting_hash x r = shifting_hash y r -> x = y.
Proof.
  intros Hr Hx Hy Heq. apply Z.bits_inj'. intros i Hi.
  destruct (Z.ltb_spec i 64); [|by rewrite !(word_bits 64)].
  destruct (Z.ltb_spec i (64 - r)).
  - pose proof (shifting_hash_bit x r (i + r)) as Ha.
    pose proof (shifting_hash_bit y r (i + r)) as Hb.
    rewrite Heq in Ha. rewrite Ha in Hb by lia.
    destruct (Z.ltb_spec (i + r) r); [lia|].
    rewrite Z.add_simpl_r in Hb. apply Hb; lia.
  - pose proof (shifting_hash_bit x r (i - (64 - r))) as Ha.
    pose proof (shifting_hash_bit y r (i - (64 - r))) as Hb.
    rewrite Heq in Ha. rewrite Ha in Hb by lia.
    destruct (Z.ltb_spec (i - (64 - r)) r); [|lia].
    replace (i - (64 - r) + (64 - r)) with i in Hb by lia. apply Hb; lia.
Qed.

Lemma lxor_inj_r a x y : Z.lxor a x = Z.lxor a y -> x = y.
Proof.
  intros Heq. rewrite <- (Z.lxor_0_l x), <- (Z.lxor_0_l y).
  by rewrite <- (Z.lxor_nilpotent a), !Z.lxor_assoc, Heq.
Qed.

Lemma add_inj_wrap w c x y :
  0 <= x < 2 ^ w -> 0 <= y < 2 ^ w -> wrap w (x + c) = wrap w (y + c) -> x = y.
Proof.
  unfold wrap. intros Hx Hy Heq.
  rewrite <- (Z.mod_small x (2 ^ w)), <- (Z.mod_small y (2 ^ w)) by done.
  replace x with (x + c - c) by lia. replace y with (y + c - c) by lia.
  by rewrite (Zminus_mod (x + c)), Heq, <- Zminus_mod.
Qed.

(** ** xxhash on keys *)

Lemma le_word_bytes n z :
  0 <= z < 2 ^ (8 * Z.of_nat n) -> le_word (le_bytes n z) = z.
Proof.
  revert z. induction n as [|n IH]; intros z Hz; cbn [le_bytes le_word].
  - rewrite Z.mul_0_r in Hz. lia.
  - assert (2 ^ (8 * Z.of_nat (S n)) = 256 * 2 ^ (8 * Z.of_nat n)) as Hp.
    { rewrite Nat2Z.inj_succ, Z.mul_succ_r, Z.add_comm, Z.pow_add_r by lia. done. }
    rewrite Hp in Hz. rewrite Z.shiftr_div_pow2 by lia. change (2 ^ 8) with 256.
    rewrite IH.
    + unfold wrap. change (2 ^ 8) with 256. pose proof (Z.div_mod z 256). lia.
    + split; [apply Z.div_pos; lia|]. apply Z.div_lt_upper_bound; lia.
Qed.

Lemma le_bytes_length n z : length (le_bytes n z) = n.
Proof. revert z. induction n; intros; simpl; auto. Qed.

Definition key_mix (k : Z) : Z := u64 (shifting_hash (u64 (k * NUMBER64_2)) 31 * NUMBER64_1).
Definition key_base (seed : Z) : Z := u64 (u64 (seed + NUMBER64_5) + 8).

(** The path [hash_compute] takes on the eight bytes of a key: no stripe,
    one word, no tail. *)
Lemma hash_compute_key k seed align :
  0 <= k < 2 ^ 64 ->
  hash_compute (key_bytes k) seed align =
  avalanche (u64 (u64 (shifting_hash (Z.lxor (key_base seed) (key_mix k)) 27
                       * NUMBER64_1) + NUMBER64_4)).
Proof.
  intros Hk. pose proof (le_word_bytes 8 k Hk) as Hw.
  pose proof (le_bytes_length 8 k) as Hl.
  unfold hash_compute, key_bytes, key_mix, key_base.
  set (bs := le_bytes 8 k) in *. clearbody bs. rewrite Hl.
  cbn [Nat.leb words_loop]. rewrite Hl. cbn [Nat.leb].
  assert (hash_read64_align bs align = k) as ->.
  { unfold hash_read64_align. rewrite take_ge by lia. by destruct (align =? 0). }
  rewrite drop_ge by lia. done.
Qed.

Lemma key_mix_inj x y :
  0 <= x < 2 ^ 64 -> 0 <= y < 2 ^ 64 -> key_mix x = key_mix y -> x = y.
Proof.
  intros Hx Hy Heq. unfold key_mix in Heq.
  apply (mul_odd_inj 64 NUMBER64_1 614540362697595703) in Heq;
    [|lia|done|apply shifting_hash_bound; [lia|apply wrap_bound; lia]..].
  apply shifting_hash_inj in Heq; [|lia|apply wrap_bound; lia..].
  by apply (mul_odd_inj 64 NUMBER64_2 839798700976720815) in Heq.
Qed.

Lemma avalanche_inj x y :
  0 <= x < 2 ^ 64 -> 0 <= y < 2 ^ 64 -> avalanche x = avalanche y -> x = y.
Proof.
  intros Hx Hy Heq. unfold avalanche in Heq.
  apply (xorshift_inj 64) in Heq; [|lia|apply wrap_bound; lia..].
  apply (mul_odd_inj 64 NUMBER64_3 16855272203555305545) in Heq;
    [|lia|done|apply xorshift_bound; [lia..|apply wrap_bound; lia]..].
  apply (xorshift_inj 64) in Heq; [|lia|apply wrap_bound; lia..].
  apply (mul_odd_inj 64 NUMBER64_2 839798700976720815) in Heq;
    [|lia|done|apply xorshift_bound; lia..].
  by apply (xorshift_inj 64) in Heq.
Qed.

(** [xxhash] is injective on 64-bit keys: with one seed, two keys that
    have the same hash are equal, whatever the addresses the keys are
    hashed at. *)
Theorem xxhash_key_injective addr1 addr2 seed k1 k2 :
  0 <= k1 < 2 ^ 64 -> 0 <= k2 < 2 ^ 64 ->
  xxhash addr1 (key_bytes k1) seed = xxhash addr2 (key_bytes k2) seed ->
  k1 = k2.
Proof.
  intros Hk1 Hk2 Heq.
  assert (forall addr k, 0 <= k < 2 ^ 64 ->
            xxhash addr (key_bytes k) seed = hash_compute (key_bytes k) seed 0) as Hx.
  { intros addr k Hk. unfold xxhash. case_match; [|done].
    by rewrite !hash_compute_key. }
  rewrite !Hx, !hash_compute_key in Heq by done.
  assert (forall k, 0 <= Z.lxor (key_base seed) (key_mix k) < 2 ^ 64) as Hb.
  { intros. apply lxor_bound; [lia|apply wrap_bound; lia..]. }
  apply avalanche_inj in Heq; [|apply wrap_bound; lia..].
  apply add_inj_wrap in Heq; [|apply wrap_bound; lia..].
  apply (mul_odd_inj 64 NUMBER64_1 614540362697595703) in Heq;
    [|lia|done|apply shifting_hash_bound; [lia|apply Hb]..].
  apply shifting_hash_inj in Heq; [|lia|apply Hb..].
  apply lxor_inj_r in Heq. by apply key_mix_inj.
Qed.

Lemma xxhash_key_injective_witness :
  xxhash 0 (key_bytes 5) 7 = xxhash 3 (key_bytes 5) 7 /\ 5 = 5.
Proof.
  assert (xxhash 0 (key_bytes 5) 7 = xxhash 3 (key_bytes 5) 7) as Heq by (vm_compute; reflexivity).
  split; [exact Heq|]. apply (xxhash_key_injective 0 3 7 5 5); [lia|lia|exact Heq].
Defined.

(** A hash that reads the key back from its bytes; the witnesses of the
    development compute with it. *)
Definition plain_hash : StdHash := fun bs _ => le_word bs.

(** ** Ranges *)

(** [murmur2] returns the 32-bit [h] as a [size_t]. *)
Lemma murmur2_bound key seed : 0 <= murmur2 key seed < 2 ^ 32.
Proof.
  unfold murmur2. destruct (murmur2_loop _ _) as [hash data].
  apply xorshift_bound; [lia..|]. apply wrap_bound. lia.
Qed.

Lemma hash_funcs_bound `{StdHash} i key seed : 0 <= hash_funcs i key seed < 2 ^ 64.
Proof.
  destruct i as [|[|[|i]]]; simpl.
  - apply wrap_bound. lia.
  - pose proof (murmur2_bound key seed). lia.
  - apply wrap_bound. lia.
  - unfold xxhash, hash_compute. repeat case_match; simpl;
      (apply xorshift_bound; [lia..|]; apply wrap_bound; lia).
Qed.

Lemma h_bound `{StdHash} k seed : 0 <= h k seed < 2 ^ 64.
Proof. apply hash_funcs_bound. Qed.

(** The translation of [xxhash] gives the published XXH64 values, on the
    empty string, on strings shorter than a stripe, and on one of 39 bytes
    that goes through the stripe loop, the word loop and the byte loop. *)
Theorem xxhash_test_vectors :
  xxhash 0 [] 0 = 0xEF46DB3751D8E999 /\
  xxhash 0 [97] 0 = 0xD24EC4F1A98C6E5B /\
  xxhash 0 [97; 98; 99] 0 = 0x44BC2CF5AD770999 /\
  xxhash 0 [78; 111; 98; 111; 100; 121; 32; 105; 110; 115; 112; 101; 99; 116;
            115; 32; 116; 104; 101; 32; 115; 112; 97; 109; 109; 105; 115; 104;
            32; 114; 101; 112; 101; 116; 105; 116; 105; 111; 110] 0
    = 0xFBCEA83C8A378BF1.
Proof. vm_compute. done. Qed.
