(* ===== verification/CountingBloom.v ===== *)
(** * The counting Bloom filter (server/util/counting_bloom_filter.h)

    The filter keeps one byte per bit position.  [Insert] and [Delete] move
    the bytes a key hashes to, [Query] asks whether they are all non-zero,
    and [ToOrdinaryBloomFilter] packs the non-zero test into the words that
    are sent to the clients.

    [counts bf M] says that every byte is the exact number of hits of the
    multiset [M] of keys.  As long as no byte would pass 255, insertion and
    deletion keep it, and then no key of [M] is ever denied; past 255 the
    byte sticks on the way up but not on the way down, and a stored key can
    be denied. *)

From S2P Require Import Prelude PairDefs HashFun.

Definition BITS_TO_LONGS (nr : Z) : Z := u64 (nr + 8 * 8 - 1) / (8 * 8).

(** The macro [SENDINGBLOCKSIZE] is [1024 * 8] without parentheses, so that
    [idx/SENDINGBLOCKSIZE] is [idx/1024*8]. *)
Definition sending_block (idx : Z) : Z := idx / 1024 * 8.

Record CountingBloomFilter : Type := MkCBF {
  m_numHashes : nat;
  m_numBits : Z;
  m_numLongs : Z;
  m_bitarray : list Z;
  m_boolbitarray : list Z;
  modified_blocks : gset Z;
}.

Definition set_bitarray (bf : CountingBloomFilter) (a : list Z) : CountingBloomFilter :=
  MkCBF (m_numHashes bf) (m_numBits bf) (m_numLongs bf) a
    (m_boolbitarray bf) (modified_blocks bf).
Definition set_boolbitarray (bf : CountingBloomFilter) (a : list Z) : CountingBloomFilter :=
  MkCBF (m_numHashes bf) (m_numBits bf) (m_numLongs bf) (m_bitarray bf)
    a (modified_blocks bf).
Definition set_modified (bf : CountingBloomFilter) (m : gset Z) : CountingBloomFilter :=
  MkCBF (m_numHashes bf) (m_numBits bf) (m_numLongs bf) (m_bitarray bf)
    (m_boolbitarray bf) m.

(** The constructor; both arrays come from [calloc]. *)
Definition new_filter (numHashes : nat) (numBits : Z) : CountingBloomFilter :=
  MkCBF numHashes numBits (BITS_TO_LONGS numBits)
    (replicate (Z.to_nat numBits) 0)
    (replicate (Z.to_nat (BITS_TO_LONGS numBits)) 0) ∅.

Definition GetUpdatedBlocks (bf : CountingBloomFilter) : gset Z := modified_blocks bf.
Definition ResetUpdatedBlocks (bf : CountingBloomFilter) : CountingBloomFilter :=
  set_modified bf ∅.

(** [uint64_t ComputeHash], through an [int]. *)
Definition ComputeHash (numBits : Z) (key : Key_t) (salt : nat) : option Z :=
  let f_hash := murmur2 (key_bytes key) (Z.of_nat salt) in
  r ← urem f_hash numBits;
  let idx := s32 r in
  Some (u64 idx).

(** The body of the loop of [Insert]: the byte sticks at 255. *)
Definition insert_step (o : Key_t) (bf : CountingBloomFilter) (i : nat)
  : option CountingBloomFilter :=
  idx ← ComputeHash (m_numBits bf) o i;
  b ← m_bitarray bf !! Z.to_nat idx;
  if b <? 255 then
    a ← store (m_bitarray bf) (Z.to_nat idx) (u8 (b + 1));
    Some (set_bitarray bf a)
  else Some bf.

Definition Insert (bf : CountingBloomFilter) (o : Key_t) : option CountingBloomFilter :=
  foldM (insert_step o) (seq 0 (m_numHashes bf)) bf.

(** The loop of [Query], over the salts that are left. *)
Fixpoint query_loop (numBits : Z) (arr : list Z) (o : Key_t) (salts : list nat)
  : option bool :=
  match salts with
  | [] => Some true
  | i :: salts =>
      idx ← ComputeHash numBits o i;
      b ← arr !! Z.to_nat idx;
      if b =? 0 then Some false else query_loop numBits arr o salts
  end.

Definition Query (bf : CountingBloomFilter) (o : Key_t) : option bool :=
  query_loop (m_numBits bf) (m_bitarray bf) o (seq 0 (m_numHashes bf)).

(** The body of the loop of [Delete]: no test of 0 or of 255. *)
Definition delete_step (o : Key_t) (bf : CountingBloomFilter) (i : nat)
  : option CountingBloomFilter :=
  idx ← ComputeHash (m_numBits bf) o i;
  b ← m_bitarray bf !! Z.to_nat idx;
  let b' := u8 (b - 1) in
  a ← store (m_bitarray bf) (Z.to_nat idx) b';
  let bf := set_bitarray bf a in
  if b' =? 0
  then Some (set_modified bf ({[ sending_block idx ]} ∪ modified_blocks bf))
  else Some bf.

Definition Delete (bf : CountingBloomFilter) (o : Key_t)
  : option (CountingBloomFilter * bool) :=
  q ← Query bf o;
  if (q : bool) then
    bf' ← foldM (delete_step o) (seq 0 (m_numHashes bf)) bf;
    Some (bf', true)
  else Some (bf, false).

(** [(w & ((uint64_t) 1 << (64 - 1 - idx % 64))) != 0] *)
Definition check_bit (w idx : Z) : bool :=
  negb (Z.land w (u64 (1 ≪ u8 (64 - 1 - idx mod 64))) =? 0).

Fixpoint bit_query_loop (numBits : Z) (bits : list Z) (o : Key_t) (salts : list nat)
  : option bool :=
  match salts with
  | [] => Some true
  | i :: salts =>
      idx ← ComputeHash numBits o i;
      w ← bits !! Z.to_nat (idx / 64);
      if check_bit w idx then bit_query_loop numBits bits o salts else Some false
  end.

Definition QueryBitBloom (bf : CountingBloomFilter) (o : Key_t) : option bool :=
  bit_query_loop (m_numBits bf) (m_boolbitarray bf) o (seq 0 (m_numHashes bf)).

(** The packing loop: bit [63 - i % 64] of word [i / 64] for position [i]. *)
Definition pack_step (arr : list Z) (bits : list Z) (i : nat) : option (list Z) :=
  b ← arr !! i;
  if 0 <? b then
    w ← bits !! (i / 64)%nat;
    store bits (i / 64) (Z.lor w (u64 (1 ≪ u8 (64 - 1 - Z.of_nat i mod 64))))
  else Some bits.

Definition ToOrdinaryBloomFilter (bf : CountingBloomFilter) : option CountingBloomFilter :=
  bits ← foldM (fun bits i => store bits i 0)
           (seq 0 (Z.to_nat (m_numLongs bf))) (m_boolbitarray bf);
  bits ← foldM (pack_step (m_bitarray bf)) (seq 0 (Z.to_nat (m_numBits bf))) bits;
  Some (set_boolbitarray bf bits).

(** [Serialize] writes the number of bits as a [uint16_t]. *)
Definition Serialize (bf : CountingBloomFilter) : option (list Z) :=
  let numHashes := u8 (Z.of_nat (m_numHashes bf)) in
  let numBits := u16 (m_numBits bf) in
  body ← foldM (fun out i => b ← m_bitarray bf !! i; Some (out ++ [b]))
           (seq 0 (Z.to_nat numBits)) [];
  Some (numHashes :: le_bytes 2 numBits ++ body).

(** [Deserialize]; [None] is a stream that ends early. *)
Definition Deserialize (istream : list Z) : option CountingBloomFilter :=
  match istream with
  | numHashes :: b0 :: b1 :: body =>
      let numBits := le_word [b0; b1] in
      let r := new_filter (Z.to_nat numHashes) numBits in
      arr ← foldM (fun arr i => b ← body !! i; store arr i b)
              (seq 0 (Z.to_nat numBits)) (m_bitarray r);
      Some (set_bitarray r arr)
  | _ => None
  end.

(** ** Well-formedness *)

(** [0 < numBits <= 2^31] keeps [ComputeHash] inside an [int]; the server
    uses [BF_SIZE] = 1000000000. *)
Record cbf_wf (bf : CountingBloomFilter) : Prop := {
  wf_bits : 0 < m_numBits bf <= 2 ^ 31;
  wf_longs : m_numLongs bf = BITS_TO_LONGS (m_numBits bf);
  wf_array : length (m_bitarray bf) = Z.to_nat (m_numBits bf);
  wf_words : length (m_boolbitarray bf) = Z.to_nat (m_numLongs bf);
}.

Lemma new_filter_wf numHashes numBits :
  0 < numBits <= 2 ^ 31 -> cbf_wf (new_filter numHashes numBits).
Proof. intros. split; simpl; by rewrite ?length_replicate. Qed.

(** The position a key and a salt map to. *)
Definition hash_idx (numBits : Z) (key : Key_t) (salt : nat) : Z :=
  murmur2 (key_bytes key) (Z.of_nat salt) mod numBits.

Lemma hash_idx_bound nb k i : 0 < nb -> 0 <= hash_idx nb k i < nb.
Proof. apply Z.mod_pos_bound. Qed.

Lemma ComputeHash_eq nb k i :
  0 < nb <= 2 ^ 31 -> ComputeHash nb k i = Some (hash_idx nb k i).
Proof.
  intros Hnb. unfold ComputeHash, hash_idx.
  generalize (murmur2 (key_bytes k) (Z.of_nat i)) as z. intros z.
  rewrite urem_pos by lia. cbn [mbind option_bind].
  pose proof (Z.mod_pos_bound z nb ltac:(lia)).
  rewrite s32_small, wrap_small; [done|lia..].
Qed.

(** [ComputeHash] yields an index of the bit array, as its comment
    promises, for every filter of at most [2^31] bits. *)
Theorem ComputeHash_in_range nb k salt :
  0 < nb <= 2 ^ 31 ->
  exists idx, ComputeHash nb k salt = Some idx /\ 0 <= idx < nb.
Proof.
  intros. exists (hash_idx nb k salt).
  split; [by apply ComputeHash_eq | apply hash_idx_bound; lia].
Qed.

Lemma ComputeHash_in_range_witness :
  0 < 1000000000 <= 2 ^ 31 /\
  exists idx, ComputeHash 1000000000 42 3 = Some idx /\ 0 <= idx < 1000000000.
Proof. split; [lia|]. apply (ComputeHash_in_range 1000000000 42 3). lia. Defined.

(** ** Exact counting *)

Fixpoint occ (i : Z) (l : list Z) : Z :=
  match l with
  | [] => 0
  | x :: l => (if i =? x then 1 else 0) + occ i l
  end.

Lemma occ_nonneg i l : 0 <= occ i l.
Proof. induction l; simpl; [lia|]. destruct (i =? _); lia. Qed.

Lemma occ_pos i l : i ∈ l -> 1 <= occ i l.
Proof.
  induction l as [|x l IH]; simpl; [by intros ?%elem_of_nil|].
  intros [->|Hi]%elem_of_cons.
  - rewrite Z.eqb_refl. pose proof (occ_nonneg x l). lia.
  - specialize (IH Hi). destruct (i =? x); lia.
Qed.

(** The positions of a key under the salts [0 .. nh-1], and the number of
    hits a multiset of keys has on a position. *)
Definition hits (nb : Z) (k : Key_t) (salts : list nat) : list Z :=
  hash_idx nb k <$> salts.

Definition key_hits (nb : Z) (nh : nat) (i : Z) (k : Z) : Z :=
  occ i (hits nb k (seq 0 nh)).

Definition cnt (nb : Z) (nh : nat) (M : gmultiset Z) (i : Z) : Z :=
  foldr Z.add 0 (key_hits nb nh i <$> elements M).

Lemma sum_perm (l1 l2 : list Z) :
  Permutation l1 l2 -> foldr Z.add 0 l1 = foldr Z.add 0 l2.
Proof. induction 1; simpl; lia. Qed.

Lemma cnt_empty nb nh i : cnt nb nh ∅ i = 0.
Proof. done. Qed.

Lemma cnt_add nb nh M k i :
  cnt nb nh (M ⊎ {[+ k +]}) i = cnt nb nh M i + key_hits nb nh i k.
Proof.
  unfold cnt.
  rewrite (sum_perm _ (key_hits nb nh i <$> (k :: elements M))).
  - rewrite fmap_cons. cbn [foldr]. lia.
  - apply fmap_Permutation. rewrite gmultiset_elements_disj_union.
    rewrite gmultiset_elements_singleton. symmetry. apply Permutation_cons_append.
Qed.

Lemma cnt_nonneg nb nh M i : 0 <= cnt nb nh M i.
Proof.
  unfold cnt. induction (elements M) as [|k l IH]; [done|].
  rewrite fmap_cons. cbn [foldr].
  pose proof (occ_nonneg i (hits nb k (seq 0 nh))) as Hk.
  change (0 <= key_hits nb nh i k) in Hk. lia.
Qed.

Lemma sum_app (l1 l2 : list Z) : foldr Z.add 0 (l1 ++ l2) = foldr Z.add 0 l1 + foldr Z.add 0 l2.
Proof. induction l1; simpl; lia. Qed.

Lemma cnt_mono nb nh M N i : M ⊆ N -> cnt nb nh M i <= cnt nb nh N i.
Proof.
  intros Hsub. assert (N = M ⊎ (N ∖ M)) as -> by multiset_solver.
  assert (cnt nb nh (M ⊎ (N ∖ M)) i = cnt nb nh M i + cnt nb nh (N ∖ M) i) as Heq.
  { unfold cnt. rewrite <- sum_app, <- fmap_app. apply sum_perm, fmap_Permutation.
    apply gmultiset_elements_disj_union. }
  pose proof (cnt_nonneg nb nh (N ∖ M) i). lia.
Qed.

Lemma cnt_sub nb nh M k i :
  k ∈ M -> cnt nb nh M i = cnt nb nh (M ∖ {[+ k +]}) i + key_hits nb nh i k.
Proof.
  intros Hk. rewrite <- cnt_add. f_equal. multiset_solver.
Qed.

(** Every byte of the filter is the number of hits of [M]. *)
Definition counts (bf : CountingBloomFilter) (M : gmultiset Z) : Prop :=
  forall i, 0 <= i < m_numBits bf ->
    m_bitarray bf !! Z.to_nat i = Some (cnt (m_numBits bf) (m_numHashes bf) M i)
    /\ cnt (m_numBits bf) (m_numHashes bf) M i <= 255.

Lemma occ_hits_cons i nb o s salts :
  occ i (hits nb o (s :: salts)) =
  (if i =? hash_idx nb o s then 1 else 0) + occ i (hits nb o salts).
Proof. done. Qed.

Lemma occ_hits_out nb o salts i :
  0 < nb -> ~ (0 <= i < nb) -> occ i (hits nb o salts) = 0.
Proof.
  intros Hnb Hi. induction salts as [|s salts IH]; [done|].
  rewrite occ_hits_cons, IH. pose proof (hash_idx_bound nb o s Hnb).
  destruct (Z.eqb_spec i (hash_idx nb o s)); lia.
Qed.

(** What one step reads and writes, for a byte at [idx]. *)
Lemma byte_update (a : list Z) nb (c : Z -> Z) idx x :
  (forall i, 0 <= i < nb -> a !! Z.to_nat i = Some (c i)) -> 0 <= idx < nb ->
  store a (Z.to_nat idx) x = Some (<[Z.to_nat idx := x]> a) /\
  forall i, 0 <= i < nb ->
    <[Z.to_nat idx := x]> a !! Z.to_nat i = Some (if i =? idx then x else c i).
Proof.
  intros Ha Hidx.
  assert (Z.to_nat idx < length a)%nat
    by (apply lookup_lt_is_Some; rewrite Ha by done; eauto).
  split; [by apply store_Some|]. intros i Hi.
  destruct (Z.eqb_spec i idx) as [->|Hne].
  - by apply list_lookup_insert_eq.
  - rewrite list_lookup_insert_ne by lia. by apply Ha.
Qed.

(** The loops of [Insert] and [Delete], over any list of salts: byte [i]
    moves by the number of salts that hit it. *)
Lemma insert_loop nb o salts bf c :
  0 < nb <= 2 ^ 31 -> m_numBits bf = nb ->
  (forall i, 0 <= i < nb -> m_bitarray bf !! Z.to_nat i = Some (c i)) ->
  (forall i, 0 <= c i /\ c i + occ i (hits nb o salts) <= 255) ->
  exists a, foldM (insert_step o) salts bf = Some (set_bitarray bf a)
    /\ length a = length (m_bitarray bf)
    /\ forall i, 0 <= i < nb -> a !! Z.to_nat i = Some (c i + occ i (hits nb o salts)).
Proof.
  intros Hnb. revert bf c.
  induction salts as [|s salts IH]; intros bf c Hbits Harr Hmax; cbn [foldM].
  { exists (m_bitarray bf). destruct bf; simpl in *. split_and!; try done.
    intros i Hi. rewrite Harr by done. f_equal. lia. }
  setoid_rewrite occ_hits_cons in Hmax. setoid_rewrite occ_hits_cons.
  unfold insert_step at 2. rewrite Hbits, ComputeHash_eq by done. simpl.
  pose proof (hash_idx_bound nb o s ltac:(lia)) as Hidx.
  set (idx := hash_idx nb o s) in *. clearbody idx.
  rewrite (Harr idx Hidx). simpl.
  pose proof (Hmax idx) as Hm. rewrite Z.eqb_refl in Hm.
  pose proof (occ_nonneg idx (hits nb o salts)).
  destruct (Z.ltb_spec (c idx) 255); [|lia].
  destruct (byte_update (m_bitarray bf) nb c idx (u8 (c idx + 1))) as [-> Hupd]; [done..|].
  simpl. rewrite wrap_small in Hupd |- * by (change (2 ^ 8) with 256; lia).
  destruct (IH (set_bitarray bf (<[Z.to_nat idx:=c idx + 1]> (m_bitarray bf)))
              (fun i => if i =? idx then c idx + 1 else c i)) as (a & Hf & Hl & Ha).
  - done.
  - exact Hupd.
  - intros i. pose proof (Hmax i). cbn beta. destruct (Z.eqb_spec i idx); subst; lia.
  - exists a. split_and!; [exact Hf| |].
    + rewrite Hl. apply length_insert.
    + intros i Hi. rewrite Ha by done. f_equal. cbn beta. destruct (Z.eqb_spec i idx); subst; lia.
Qed.

Lemma delete_loop nb o salts bf c :
  0 < nb <= 2 ^ 31 -> m_numBits bf = nb ->
  (forall i, 0 <= i < nb -> m_bitarray bf !! Z.to_nat i = Some (c i)) ->
  (forall i, occ i (hits nb o salts) <= c i <= 255) ->
  exists a m, foldM (delete_step o) salts bf = Some (set_modified (set_bitarray bf a) m)
    /\ length a = length (m_bitarray bf)
    /\ modified_blocks bf ⊆ m
    /\ (forall i, 0 <= i < nb -> a !! Z.to_nat i = Some (c i - occ i (hits nb o salts)))
    /\ (forall i, 0 < occ i (hits nb o salts) -> c i = occ i (hits nb o salts) ->
          sending_block i ∈ m).
Proof.
  intros Hnb. revert bf c.
  induction salts as [|s salts IH]; intros bf c Hbits Harr Hmin; cbn [foldM].
  { exists (m_bitarray bf), (modified_blocks bf). destruct bf; simpl in *.
    split_and!; try done; intros i Hi; try lia. rewrite Harr by done. f_equal. lia. }
  setoid_rewrite occ_hits_cons in Hmin. setoid_rewrite occ_hits_cons.
  unfold delete_step at 2. rewrite Hbits, ComputeHash_eq by done. simpl.
  pose proof (hash_idx_bound nb o s ltac:(lia)) as Hidx.
  set (idx := hash_idx nb o s) in *. clearbody idx.
  rewrite (Harr idx Hidx). simpl.
  pose proof (Hmin idx) as Hm. rewrite Z.eqb_refl in Hm.
  pose proof (occ_nonneg idx (hits nb o salts)).
  destruct (byte_update (m_bitarray bf) nb c idx (u8 (c idx - 1))) as [-> Hupd]; [done..|].
  simpl. rewrite wrap_small in Hupd |- * by (change (2 ^ 8) with 256; lia).
  set (bf1 := if c idx - 1 =? 0 then _ else _).
  assert (exists m1, bf1 = Some (set_modified (set_bitarray bf
            (<[Z.to_nat idx:=c idx - 1]> (m_bitarray bf))) m1)
          /\ modified_blocks bf ⊆ m1
          /\ (c idx = 1 -> sending_block idx ∈ m1)) as (m1 & -> & Hm1 & Hz).
  { subst bf1. destruct (Z.eqb_spec (c idx - 1) 0).
    - eexists. split_and!; [reflexivity|set_solver..].
    - exists (modified_blocks bf). split_and!; [done..|lia]. }
  simpl.
  destruct (IH (set_modified (set_bitarray bf (<[Z.to_nat idx:=c idx - 1]> (m_bitarray bf))) m1)
              (fun i => if i =? idx then c idx - 1 else c i)) as (a & m & Hf & Hl & Hsub & Ha & Hb).
  - done.
  - exact Hupd.
  - intros i. pose proof (Hmin i). cbn beta. destruct (Z.eqb_spec i idx); subst; lia.
  - exists a, m. split_and!; [exact Hf| | | |].
    + rewrite Hl. apply length_insert.
    + etrans; [exact Hm1|exact Hsub].
    + intros i Hi. rewrite Ha by done. f_equal. cbn beta. destruct (Z.eqb_spec i idx); subst; lia.
    + intros i Hpos Hc. destruct (Z.eqb_spec i idx) as [Hi|].
      * subst i. destruct (decide (c idx = 1)) as [H1|H1]; [by apply Hsub, Hz|].
        apply Hb; cbn beta; rewrite ?Z.eqb_refl; lia.
      * apply Hb; cbn beta; [lia|]. destruct (Z.eqb_spec i idx); lia.
Qed.

(** ** Insert, Delete and Query on exact counts *)

Section Exact.
Context (bf : CountingBloomFilter) (M : gmultiset Z).
Hypothesis Hwf : cbf_wf bf.
Hypothesis Hcounts : counts bf M.
#[local] Abbreviation nb := (m_numBits bf).
#[local] Abbreviation nh := (m_numHashes bf).

Lemma Insert_exact k :
  (forall i, 0 <= i < nb -> cnt nb nh (M ⊎ {[+ k +]}) i <= 255) ->
  exists bf', Insert bf k = Some bf' /\ cbf_wf bf' /\ counts bf' (M ⊎ {[+ k +]})
    /\ m_numBits bf' = nb /\ m_numHashes bf' = nh
    /\ m_boolbitarray bf' = m_boolbitarray bf.
Proof.
  intros Hmax. destruct Hwf as [Hb Hl Ha Hw].
  set (c i := if decide (0 <= i < nb) then cnt nb nh M i else 0).
  destruct (insert_loop nb k (seq 0 nh) bf c) as (a & Hf & Hlen & Hval).
  - done.
  - done.
  - intros i Hi. subst c. simpl. rewrite decide_True by done. by apply Hcounts.
  - intros i. subst c. simpl. case_decide as Hi.
    + pose proof (Hmax i Hi) as Hc. rewrite cnt_add in Hc.
      pose proof (cnt_nonneg nb nh M i). split; [lia|exact Hc].
    + rewrite occ_hits_out by (lia). lia.
  - exists (set_bitarray bf a). split_and!; try done.
    + split; simpl; try done. congruence.
    + intros i Hi. simpl in Hi |- *. rewrite Hval by done.
      rewrite cnt_add. subst c. simpl. rewrite decide_True by done. split; [done|].
      pose proof (Hmax i Hi) as Hc. by rewrite cnt_add in Hc.
Qed.

Lemma query_true k salts :
  (forall s, s ∈ salts -> exists c, 0 < c /\ m_bitarray bf !! Z.to_nat (hash_idx nb k s) = Some c) ->
  query_loop nb (m_bitarray bf) k salts = Some true.
Proof.
  intros Hs. destruct Hwf as [Hb _ _ _].
  induction salts as [|s salts IH]; simpl; [done|].
  rewrite ComputeHash_eq by done. simpl.
  destruct (Hs s) as (c & Hc & ->); [set_solver|]. simpl.
  destruct (Z.eqb_spec c 0); [lia|]. apply IH. set_solver.
Qed.

Lemma Query_exact k : k ∈ M -> Query bf k = Some true.
Proof.
  intros Hk. apply query_true. intros s Hs.
  pose proof (hash_idx_bound nb k s) as Hidx.
  destruct (Hcounts (hash_idx nb k s)) as [Hlk _].
  { apply Hidx. destruct Hwf. lia. }
  eexists. split; [|exact Hlk]. rewrite (cnt_sub _ _ _ k) by done.
  pose proof (cnt_nonneg nb nh (M ∖ {[+ k +]}) (hash_idx nb k s)).
  assert (1 <= key_hits nb nh (hash_idx nb k s) k); [|lia].
  apply occ_pos. apply list_elem_of_fmap_2. done.
Qed.

Lemma Delete_exact k :
  k ∈ M ->
  exists bf', Delete bf k = Some (bf', true) /\ cbf_wf bf' /\ counts bf' (M ∖ {[+ k +]})
    /\ m_numBits bf' = nb /\ m_numHashes bf' = nh
    /\ m_boolbitarray bf' = m_boolbitarray bf
    /\ forall i, 0 <= i < nb -> 0 < key_hits nb nh i k ->
         cnt nb nh (M ∖ {[+ k +]}) i = 0 -> sending_block i ∈ modified_blocks bf'.
Proof.
  intros Hk. unfold Delete. rewrite Query_exact by done. simpl.
  destruct Hwf as [Hb Hl Ha Hw].
  set (c i := if decide (0 <= i < nb) then cnt nb nh M i else occ i (hits nb k (seq 0 nh))).
  destruct (delete_loop nb k (seq 0 nh) bf c) as (a & m & Hf & Hlen & Hsub & Hval & Hmod).
  - done.
  - done.
  - intros i Hi. subst c. simpl. rewrite decide_True by done. by apply Hcounts.
  - intros i. subst c. simpl. case_decide as Hi;
      [|rewrite occ_hits_out by (lia); lia].
    destruct (Hcounts i Hi) as [_ Hle]. split; [|done].
    rewrite (cnt_sub _ _ _ k) by done.
    pose proof (cnt_nonneg nb nh (M ∖ {[+ k +]}) i). unfold key_hits. lia.
  - rewrite Hf. simpl.
    eexists. split_and!; [reflexivity| | |done..|].
    + split; simpl; try done. congruence.
    + intros i Hi. simpl in Hi |- *. rewrite Hval by done.
      subst c. simpl. rewrite decide_True by done.
      pose proof (cnt_sub nb (m_numHashes bf) M k i Hk) as Hs. unfold key_hits in Hs.
      destruct (Hcounts i Hi) as [_ Hle].
      pose proof (occ_nonneg i (hits nb k (seq 0 (m_numHashes bf)))).
      split; [f_equal|]; lia.
    + intros i Hi Hpos Hz. simpl. apply Hmod; [exact Hpos|].
      subst c. simpl. rewrite decide_True by done.
      rewrite (cnt_sub _ _ _ k) by done. unfold key_hits. lia.
Qed.

End Exact.

(** ** Runs of insertions and deletions *)

Inductive cbf_op : Type := OpInsert (k : Key_t) | OpDelete (k : Key_t).

Definition cbf_step (bf : CountingBloomFilter) (op : cbf_op) : option CountingBloomFilter :=
  match op with
  | OpInsert k => Insert bf k
  | OpDelete k => fst <$> Delete bf k
  end.

Definition cbf_run (bf : CountingBloomFilter) (ops : list cbf_op) : option CountingBloomFilter :=
  foldM cbf_step ops bf.

Definition live_step (M : gmultiset Z) (op : cbf_op) : gmultiset Z :=
  match op with
  | OpInsert k => M ⊎ {[+ k +]}
  | OpDelete k => M ∖ {[+ k +]}
  end.

(** The keys inserted and not yet deleted. *)
Definition live (M : gmultiset Z) (ops : list cbf_op) : gmultiset Z :=
  fold_left live_step ops M.

(** Only keys that are live are deleted, and no byte passes 255. *)
Fixpoint admissible (nb : Z) (nh : nat) (M : gmultiset Z) (ops : list cbf_op) : Prop :=
  match ops with
  | [] => True
  | op :: ops =>
      match op with
      | OpInsert k => forall i, 0 <= i < nb -> cnt nb nh (M ⊎ {[+ k +]}) i <= 255
      | OpDelete k => k ∈ M
      end /\ admissible nb nh (live_step M op) ops
  end.

Lemma run_exact ops bf M :
  cbf_wf bf -> counts bf M -> admissible (m_numBits bf) (m_numHashes bf) M ops ->
  exists bf', cbf_run bf ops = Some bf' /\ cbf_wf bf' /\ counts bf' (live M ops)
    /\ m_numBits bf' = m_numBits bf /\ m_numHashes bf' = m_numHashes bf.
Proof.
  revert bf M. induction ops as [|op ops IH]; intros bf M Hwf Hc; simpl.
  { eauto 10. }
  intros [Hop Hrest].
  assert (exists bf1, cbf_step bf op = Some bf1 /\ cbf_wf bf1 /\ counts bf1 (live_step M op)
            /\ m_numBits bf1 = m_numBits bf /\ m_numHashes bf1 = m_numHashes bf)
    as (bf1 & Hstep & Hwf1 & Hc1 & Hb & Hh).
  { destruct op as [k|k]; simpl in *.
    - destruct (Insert_exact bf M Hwf Hc k Hop) as (bf1 & ? & ? & ? & ? & ? & _). eauto 10.
    - destruct (Delete_exact bf M Hwf Hc k Hop) as (bf1 & -> & ? & ? & ? & ? & _).
      simpl. eauto 10. }
  rewrite <- Hb, <- Hh in Hrest.
  destruct (IH bf1 (live_step M op) Hwf1 Hc1 Hrest) as (bf' & Hrun & Hwf' & Hc' & Hb' & Hh').
  exists bf'. unfold cbf_run in *. cbn [foldM]. rewrite Hstep. simpl.
  split_and!; try done; congruence.
Qed.

Lemma new_filter_counts nh nb : 0 < nb <= 2 ^ 31 -> counts (new_filter nh nb) ∅.
Proof.
  intros Hnb i Hi. simpl in Hi |- *. rewrite cnt_empty. split; [|lia].
  apply lookup_replicate_2. lia.
Qed.

(** C5: After any run of insertions and deletions from the empty filter in
    which only live keys are deleted and no byte passes 255, the run is
    defined, every byte is the exact number of hits of the live keys, and
    every live key is answered [true]: the filter has no false negatives. *)
Theorem filter_no_false_negative nh nb ops :
  0 < nb <= 2 ^ 31 -> admissible nb nh ∅ ops ->
  exists bf, cbf_run (new_filter nh nb) ops = Some bf
    /\ counts bf (live ∅ ops)
    /\ forall k, k ∈ live ∅ ops -> Query bf k = Some true.
Proof.
  intros Hnb Hadm.
  destruct (run_exact ops (new_filter nh nb) ∅) as (bf & Hrun & Hwf & Hc & _ & _).
  - by apply new_filter_wf.
  - by apply new_filter_counts.
  - done.
  - exists bf. split_and!; [done..|]. intros k Hk. by apply (Query_exact bf (live ∅ ops)).
Qed.

(** A byte that has reached 255 is not raised any more but is still
    lowered, so a filter can deny a key that was inserted more often than
    it was deleted: here 300 insertions and 255 deletions of one key. *)
Theorem filter_saturation_false_negative :
  let ops := replicate 300 (OpInsert 7) ++ replicate 255 (OpDelete 7) in
  multiplicity 7 (live ∅ ops) = 45%nat /\
  (bf ← cbf_run (new_filter 4 64) ops; Query bf 7) = Some false.
Proof. split; vm_compute; done. Qed.

(** Up to [255 / numHashes] live keys no byte can pass 255. *)
Lemma occ_le_length i l : occ i l <= Z.of_nat (length l).
Proof. induction l; cbn [occ length]; [lia|]. destruct (i =? _); lia. Qed.

Lemma cnt_le_size nb nh M i : cnt nb nh M i <= Z.of_nat nh * Z.of_nat (size M).
Proof.
  unfold cnt, size, gmultiset_size. simpl.
  induction (elements M) as [|k l IH]; [simpl; lia|].
  rewrite fmap_cons. cbn [foldr length].
  pose proof (occ_le_length i (hits nb k (seq 0 nh))) as Hk.
  unfold hits in Hk. rewrite length_fmap, length_seq in Hk.
  change (key_hits nb nh i k <= Z.of_nat nh) in Hk. lia.
Qed.

Lemma filter_no_false_negative_witness :
  exists bf, cbf_run (new_filter 4 64) [OpInsert 1; OpInsert 2; OpDelete 1] = Some bf
    /\ Query bf 2 = Some true.
Proof.
  destruct (filter_no_false_negative 4 64 [OpInsert 1; OpInsert 2; OpDelete 1])
    as (bf & Hrun & _ & Hq).
  - lia.
  - simpl. split_and!; try (by vm_compute);
      intros i Hi; (etrans; [apply cnt_le_size|]); vm_compute; done.
  - exists bf. split; [exact Hrun|]. apply Hq. vm_compute. done.
Defined.

(** ** The bit filter sent to the clients *)

(** Position [i] of a packed filter. *)
Definition packed (bits : list Z) (i : nat) : option bool :=
  w ← bits !! (i / 64)%nat; Some (Z.testbit w (63 - Z.of_nat i mod 64)).

Lemma mask_eq (i : Z) :
  u64 (1 ≪ u8 (64 - 1 - i mod 64)) = 2 ^ (63 - i mod 64).
Proof.
  pose proof (Z.mod_pos_bound i 64).
  rewrite (wrap_small 8) by (change (2 ^ 8) with 256; lia).
  rewrite Z.shiftl_1_l. replace (64 - 1 - i mod 64) with (63 - i mod 64) by lia.
  apply wrap_small. split; [lia|]. apply Z.pow_lt_mono_r; lia.
Qed.

Lemma check_bit_testbit w i : check_bit w i = Z.testbit w (63 - i mod 64).
Proof.
  unfold check_bit. rewrite mask_eq. pose proof (Z.mod_pos_bound i 64).
  set (b := 63 - i mod 64). assert (0 <= b) by lia. clearbody b.
  destruct (Z.testbit w b) eqn:Hb.
  - destruct (Z.eqb_spec (Z.land w (2 ^ b)) 0) as [Hz|]; [|done].
    assert (Z.testbit (Z.land w (2 ^ b)) b = true) as Ht.
    { rewrite Z.land_spec, Hb, Z.pow2_bits_true; [done|lia]. }
    rewrite Hz, Z.bits_0 in Ht. done.
  - destruct (Z.eqb_spec (Z.land w (2 ^ b)) 0) as [|Hz]; [done|].
    exfalso. apply Hz. apply Z.bits_inj'. intros j Hj.
    rewrite Z.land_spec, Z.bits_0. destruct (Z.eq_dec j b) as [->|].
    + by rewrite Hb.
    + rewrite Z.pow2_bits_false by lia. apply andb_false_r.
Qed.

(** Setting position [i] sets that position and no other. *)
Lemma packed_set bits i w j :
  bits !! (i / 64)%nat = Some w ->
  packed (<[(i / 64)%nat := Z.lor w (u64 (1 ≪ u8 (64 - 1 - Z.of_nat i mod 64)))]> bits) j =
  if decide (j = i) then Some true else packed bits j.
Proof.
  intros Hw. rewrite mask_eq. unfold packed.
  pose proof (lookup_lt_Some _ _ _ Hw) as Hlt.
  pose proof (Z.mod_pos_bound (Z.of_nat i) 64). pose proof (Z.mod_pos_bound (Z.of_nat j) 64).
  destruct (decide (j / 64 = i / 64)%nat) as [Hd|Hd].
  - rewrite Hd, list_lookup_insert_eq, Hw by done. simpl. rewrite Z.lor_spec.
    case_decide as Hij.
    + subst j. rewrite Z.pow2_bits_true by lia. by rewrite orb_true_r.
    + rewrite Z.pow2_bits_false; [by rewrite orb_false_r|].
      intros Heq. apply Hij.
      apply (f_equal Z.of_nat) in Hd. rewrite !Nat2Z.inj_div in Hd.
      pose proof (Z.div_mod (Z.of_nat i) 64). pose proof (Z.div_mod (Z.of_nat j) 64). lia.
  - rewrite list_lookup_insert_ne by done. case_decide; [congruence|done].
Qed.

Lemma BITS_TO_LONGS_eq nb : 0 < nb <= 2 ^ 31 -> BITS_TO_LONGS nb = (nb + 63) / 64.
Proof.
  intros. unfold BITS_TO_LONGS. rewrite wrap_small by lia. f_equal. lia.
Qed.

Lemma clear_loop n (bits : list Z) :
  length bits = n -> foldM (fun bits i => store bits i 0) (seq 0 n) bits = Some (replicate n 0).
Proof.
  intros Hl.
  destruct (foldM_seq (fun i b => length b = n /\ take i b = replicate i 0)
              (fun bits i => store bits i 0) n bits) as (b & -> & Hb & Ht).
  - done.
  - intros i b Hi [Hb Ht]. rewrite store_Some by lia. eexists. split; [done|].
    rewrite length_insert. split; [done|].
    rewrite (take_S_r _ _ 0) by (apply list_lookup_insert_eq; lia).
    rewrite take_insert_ge, Ht by lia. by rewrite replicate_S_end.
  - f_equal. rewrite <- Ht. by rewrite take_ge by lia.
Qed.

(** The byte at [j] is positive. *)
Definition positive_at (arr : list Z) (j : nat) : bool :=
  match arr !! j with Some b => 0 <? b | None => false end.

Lemma pack_loop (arr : list Z) n nl :
  (n <= length arr)%nat -> (n <= 64 * nl)%nat ->
  exists bits, foldM (pack_step arr) (seq 0 n) (replicate nl 0) = Some bits
    /\ length bits = nl
    /\ forall j, (j < 64 * nl)%nat ->
         packed bits j = Some ((j <? n)%nat && positive_at arr j).
Proof.
  intros Hn Hnl.
  apply (foldM_seq (fun i bits => length bits = nl /\
    forall j, (j < 64 * nl)%nat ->
      packed bits j = Some ((j <? i)%nat && positive_at arr j))).
  { split; [apply length_replicate|]. intros j Hj. unfold packed.
    rewrite lookup_replicate_2; [|apply Nat.Div0.div_lt_upper_bound; lia].
    simpl. by rewrite Z.testbit_0_l. }
  intros i bits Hi [Hl Hb]. unfold pack_step.
  destruct (lookup_lt_is_Some_2 arr i ltac:(lia)) as [b Hbi]. rewrite Hbi. simpl.
  assert (i / 64 < nl)%nat as Hdiv by (apply Nat.Div0.div_lt_upper_bound; lia).
  destruct (Z.ltb_spec 0 b) as [Hpos|Hnon].
  - destruct (lookup_lt_is_Some_2 bits (i / 64)%nat ltac:(lia)) as [w Hw].
    rewrite Hw. simpl. rewrite store_Some by lia. eexists. split; [done|].
    rewrite length_insert. split; [done|]. intros j Hj.
    rewrite packed_set by done. rewrite Hb by done.
    case_decide as Hji.
    + subst j. unfold positive_at. rewrite Hbi.
      destruct (Nat.ltb_spec i (S i)), (Z.ltb_spec 0 b); [done|lia..].
    + f_equal. f_equal. destruct (Nat.ltb_spec j i), (Nat.ltb_spec j (S i)); [done|lia..|done].
  - eexists. split; [done|]. split; [done|]. intros j Hj. rewrite Hb by done.
    destruct (decide (j = i)) as [->|].
    + unfold positive_at. rewrite Hbi. destruct (Z.ltb_spec 0 b); [lia|].
      by rewrite !andb_false_r.
    + f_equal. f_equal. destruct (Nat.ltb_spec j i), (Nat.ltb_spec j (S i)); [done|lia..|done].
Qed.

Lemma ToOrdinary_spec bf :
  cbf_wf bf ->
  exists bits, ToOrdinaryBloomFilter bf = Some (set_boolbitarray bf bits)
    /\ length bits = Z.to_nat (m_numLongs bf)
    /\ forall i, 0 <= i < m_numBits bf ->
         packed bits (Z.to_nat i) = Some (positive_at (m_bitarray bf) (Z.to_nat i)).
Proof.
  intros [Hb Hl Ha Hw]. unfold ToOrdinaryBloomFilter.
  rewrite clear_loop by done. simpl.
  rewrite BITS_TO_LONGS_eq in Hl by done.
  pose proof (Z.div_mod (m_numBits bf + 63) 64).
  pose proof (Z.mod_pos_bound (m_numBits bf + 63) 64).
  destruct (pack_loop (m_bitarray bf) (Z.to_nat (m_numBits bf)) (Z.to_nat (m_numLongs bf)))
    as (bits & -> & Hlen & Hbits); [lia..|].
  simpl. exists bits. split_and!; [done..|]. intros i Hi. rewrite Hbits by lia.
  destruct (Nat.ltb_spec (Z.to_nat i) (Z.to_nat (m_numBits bf))); [done|lia].
Qed.

(** [positive_at] is what [Query] tests, for a filter of unsigned bytes. *)
Definition bytes_ok (arr : list Z) : Prop := Forall (fun b => 0 <= b < 256) arr.

Lemma packed_query bf :
  cbf_wf bf -> bytes_ok (m_bitarray bf) ->
  exists bits, ToOrdinaryBloomFilter bf = Some (set_boolbitarray bf bits)
    /\ length bits = Z.to_nat (m_numLongs bf)
    /\ forall k, bit_query_loop (m_numBits bf) bits k (seq 0 (m_numHashes bf)) = Query bf k.
Proof.
  intros Hwf Hbytes. destruct (ToOrdinary_spec bf Hwf) as (bits & -> & Hlen & Hbits).
  exists bits. split_and!; [done..|]. intros k. unfold Query.
  destruct Hwf as [Hb _ Ha _].
  induction (seq 0 (m_numHashes bf)) as [|s salts IH]; cbn [bit_query_loop query_loop]; [done|].
  rewrite !ComputeHash_eq by done. simpl.
  pose proof (hash_idx_bound (m_numBits bf) k s ltac:(lia)) as Hidx.
  set (idx := hash_idx (m_numBits bf) k s) in *. clearbody idx.
  specialize (Hbits idx Hidx). unfold packed, positive_at in Hbits.
  replace (Z.to_nat (idx / 64)) with (Z.to_nat idx / 64)%nat
    by (rewrite Z2Nat.inj_div by lia; done).
  destruct (bits !! (Z.to_nat idx / 64)%nat) as [w|]; simpl in *; [|done].
  destruct (lookup_lt_is_Some_2 (m_bitarray bf) (Z.to_nat idx) ltac:(lia)) as [b Hbi].
  rewrite Hbi in Hbits |- *. simpl. rewrite check_bit_testbit.
  rewrite Z2Nat.id in Hbits by lia. injection Hbits as ->.
  assert (0 <= b) by (eapply (Forall_lookup_1 _ _ _ _ Hbytes) in Hbi; lia).
  rewrite IH. destruct (Z.ltb_spec 0 b), (Z.eqb_spec b 0); try done; lia.
Qed.

(** A filter that counts a multiset has bytes. *)
Lemma counts_bytes bf M : cbf_wf bf -> counts bf M -> bytes_ok (m_bitarray bf).
Proof.
  intros [Hb _ Ha _] Hc. apply Forall_lookup_2. intros i b Hi.
  pose proof (lookup_lt_Some _ _ _ Hi). destruct (Hc (Z.of_nat i) ltac:(lia)) as [Hlk Hle].
  rewrite Nat2Z.id, Hi in Hlk. injection Hlk as ->.
  pose proof (cnt_nonneg (m_numBits bf) (m_numHashes bf) M (Z.of_nat i)). lia.
Qed.

(** Packing the counters into the bit filter changes no answer: after
    [ToOrdinaryBloomFilter], [QueryBitBloom] answers every key as [Query]
    does. *)
Theorem QueryBitBloom_agrees bf k :
  cbf_wf bf -> bytes_ok (m_bitarray bf) ->
  exists bf', ToOrdinaryBloomFilter bf = Some bf'
    /\ m_bitarray bf' = m_bitarray bf
    /\ QueryBitBloom bf' k = Query bf k.
Proof.
  intros Hwf Hbytes. destruct (packed_query bf Hwf Hbytes) as (bits & -> & _ & Hq).
  eexists. split_and!; [done..|]. apply Hq.
Qed.

Lemma QueryBitBloom_agrees_witness :
  exists bf bf', Insert (new_filter 4 100) 9 = Some bf
    /\ ToOrdinaryBloomFilter bf = Some bf' /\ QueryBitBloom bf' 9 = Query bf 9.
Proof.
  pose (bf := default (new_filter 4 100) (Insert (new_filter 4 100) 9)).
  destruct (QueryBitBloom_agrees bf 9) as (bf' & Hto & _ & Hq).
  - split; vm_compute; done.
  - unfold bytes_ok. apply (bool_decide_unpack _). vm_compute. done.
  - exists bf, bf'. split; [vm_compute; done|]. split; [exact Hto|exact Hq].
Defined.

(** ** Serialization *)

Lemma write_loop (arr : list Z) n :
  (n <= length arr)%nat ->
  foldM (fun out i => b ← arr !! i; Some (out ++ [b])) (seq 0 n) [] = Some (take n arr).
Proof.
  intros Hn.
  destruct (foldM_seq (fun i out => out = take i arr)
              (fun out i => b ← arr !! i; Some (out ++ [b])) n []) as (out & -> & ->).
  - done.
  - intros i out Hi ->. destruct (lookup_lt_is_Some_2 arr i ltac:(lia)) as [b Hb].
    rewrite Hb. simpl. eexists. split; [done|]. symmetry. by apply take_S_r.
  - done.
Qed.

Lemma read_loop (body arr : list Z) n :
  (n <= length body)%nat -> length arr = n ->
  foldM (fun arr i => b ← body !! i; store arr i b) (seq 0 n) arr = Some (take n body).
Proof.
  intros Hn Hl.
  destruct (foldM_seq (fun i a => length a = n /\ take i a = take i body)
              (fun arr i => b ← body !! i; store arr i b) n arr) as (a & -> & Ha & Ht).
  - done.
  - intros i a Hi [Ha Ht]. destruct (lookup_lt_is_Some_2 body i ltac:(lia)) as [b Hb].
    rewrite Hb. simpl. rewrite store_Some by lia. eexists. split; [done|].
    rewrite length_insert. split; [done|].
    rewrite !(take_S_r _ i b) by (try done; apply list_lookup_insert_eq; lia).
    by rewrite take_insert_ge, Ht by lia.
  - f_equal. by rewrite <- Ht, take_ge by lia.
Qed.

(** C40: Reading back what [Serialize] wrote gives the filter that the constructor makes for the
    number of hashes (below 256) and the number of bits modulo [2^16], with that many of the
    counters; its packed words and its modified blocks are those of a new filter.  A filter of
    fewer than [2^16] bits is read back with all its counters and answers every [Query] as
    before; a larger one is cut off, because its size is written as a [uint16_t]. *)
Theorem serialize_roundtrip bf :
  cbf_wf bf -> (m_numHashes bf < 256)%nat ->
  let n := m_numBits bf mod 2 ^ 16 in
  let bf' := set_bitarray (new_filter (m_numHashes bf) n) (take (Z.to_nat n) (m_bitarray bf)) in
  (s ← Serialize bf; Deserialize s) = Some bf'
  /\ (m_numBits bf < 2 ^ 16 ->
        m_numBits bf' = m_numBits bf /\ m_bitarray bf' = m_bitarray bf /\ forall k, Query bf' k = Query bf k).
Proof.
  intros [Hb _ Ha _] Hh n bf'.
  assert (0 <= n < 2 ^ 16) as Hn by (by apply wrap_bound).
  assert (n <= m_numBits bf) as Hle by (apply Z.mod_le; lia). split.
  - unfold Serialize. change (u16 (m_numBits bf)) with n. rewrite write_loop by lia. cbn [mbind option_bind le_bytes app Deserialize].
    assert (le_word [u8 n; u8 (n ≫ 8)] = n) as ->.
    { change (le_word (le_bytes 2 n) = n). apply le_word_bytes. exact Hn. }
    rewrite read_loop; [|rewrite length_take; simpl; lia|simpl; by rewrite length_replicate].
    cbn [mbind option_bind]. rewrite (wrap_small 8), Nat2Z.id by (change (2 ^ 8) with 256; lia).
    by rewrite take_take, Nat.min_id.
  - intros Hsmall. assert (n = m_numBits bf) as Heq by (apply wrap_small; lia).
    assert (m_bitarray bf' = m_bitarray bf) as Harr by (unfold bf'; rewrite Heq; apply take_ge; lia).
    split_and!; [done|done|]. intros k. unfold Query. rewrite Harr. unfold bf'. cbn [m_numBits m_numHashes set_bitarray new_filter]. by rewrite Heq.
Qed.

(** A filter that holds the key 42. *)
Definition with_key : CountingBloomFilter := default (new_filter 4 100) (Insert (new_filter 4 100) 42).

Lemma with_key_wf : cbf_wf with_key.
Proof.
  assert (m_numBits with_key = 100) as Hb by (vm_compute; reflexivity).
  assert (m_numLongs with_key = 2) as Hl by (vm_compute; reflexivity).
  split; rewrite ?Hb, ?Hl; [lia|reflexivity|vm_compute; reflexivity..].
Qed.

Lemma serialize_roundtrip_witness :
  exists bf', (s ← Serialize with_key; Deserialize s) = Some bf' /\ Query bf' 42 = Some true /\ Query bf' 43 = Some false.
Proof.
  destruct (serialize_roundtrip with_key) as [Hs Hq]; [exact with_key_wf|apply Nat.ltb_lt; vm_compute; reflexivity|].
  eexists. split; [exact Hs|]. destruct Hq as (_ & _ & Hq); [apply Z.ltb_lt; vm_compute; reflexivity|].
  rewrite !Hq. split; vm_compute; reflexivity.
Defined.
