(* ===== verification/ClientBloom.v ===== *)
(** * The client's Bloom filter (client/bloom_filter.c, client/hash.h)

    The kernel client keeps a bit filter in memory that the server writes
    into.  It adds the keys it puts, and asks the filter before it sends a
    request for a page.

    The theorems tie it to the server's filter: on the words the server
    packs, the client's check is the query of the counting filter, so a key
    the server stores is never held back by the client. *)

From S2P Require Import Prelude PairDefs HashFun CountingBloom.

(** ** client/hash.h

    The functions are those of server/util/hash.h, but for [standard], which
    is a product of the sum of the bytes here. *)

Fixpoint client_standard_loop (key : list Z) (hash : Z) : Z :=
  match key with
  | [] => hash
  | c :: key => client_standard_loop key (u64 (hash + schar c))
  end.

Definition client_standard (ptr : list Z) (seed : Z) : Z :=
  u64 (client_standard_loop ptr 0 * seed).

Definition client_jenkins : list Z -> Z -> Z := jenkins.
Definition client_murmur2 : list Z -> Z -> Z := murmur2.
Definition client_hash_compute : list Z -> Z -> Z -> Z := hash_compute.
Definition client_xxhash : Z -> list Z -> Z -> Z := xxhash.

Definition client_hash_funcs (i : nat) (key : list Z) (seed : Z) : Z :=
  match i with
  | 0%nat => client_standard key seed
  | 1%nat => client_murmur2 key seed
  | 2%nat => client_jenkins key seed
  | _ => client_xxhash 0 key seed
  end.

(** ** client/bloom_filter.c *)

Record bloom_filter : Type := MkBF {
  bitmap_size : Z;
  bitmap_size_in_byte : Z;
  nr_hash : nat;
  bitmap : list Z;
}.

Definition set_bitmap (f : bloom_filter) (b : list Z) : bloom_filter :=
  MkBF (bitmap_size f) (bitmap_size_in_byte f) (nr_hash f) b.

(** [bits] is the memory at [bits_addr]. *)
Definition bloom_filter_new (bits : list Z) (num_hash : nat) (bit_size : Z) : bloom_filter :=
  let bitmap_size := u64 (BITS_TO_LONGS bit_size * 8) in
  MkBF bit_size (u32 bitmap_size) num_hash bits.

(** [index] and [checkBit] of one round. *)
Definition bit_index (f : bloom_filter) (data : list Z) (i : nat) : option Z :=
  index ← urem (client_hash_funcs 1 data (Z.of_nat i)) (bitmap_size f);
  Some (u32 index).

Definition bit_of (index : Z) : Z := u64 (1 ≪ u8 (64 - 1 - index mod 64)).

Definition add_round (data : list Z) (f : bloom_filter) (i : nat) : option bloom_filter :=
  index ← bit_index f data i;
  let j := Z.to_nat (u32 (index / 64)) in
  w ← bitmap f !! j;
  b ← store (bitmap f) j (Z.lor w (bit_of index));
  Some (set_bitmap f b).

Definition bloom_filter_add (f : bloom_filter) (data : list Z) : option bloom_filter :=
  foldM (add_round data) (seq 0 (nr_hash f)) f.

Fixpoint check_loop (f : bloom_filter) (data : list Z) (salts : list nat) : option bool :=
  match salts with
  | [] => Some true
  | i :: salts =>
      index ← bit_index f data i;
      let j := Z.to_nat (u32 (index / 64)) in
      w ← bitmap f !! j;
      if Z.land w (bit_of index) =? 0 then Some false else check_loop f data salts
  end.

Definition bloom_filter_check (f : bloom_filter) (data : list Z) : option bool :=
  check_loop f data (seq 0 (nr_hash f)).

(** [memcpy] of the words of [bit_data]. *)
Definition bloom_filter_set (f : bloom_filter) (bit_data : list Z) : option bloom_filter :=
  let n := Z.to_nat (BITS_TO_LONGS (bitmap_size f)) in
  b ← foldM (fun b i => w ← bit_data !! i; store b i w) (seq 0 n) (bitmap f);
  Some (set_bitmap f b).

Definition bloom_filter_bitsize (f : bloom_filter) : Z := s32 (BITS_TO_LONGS (bitmap_size f) * 8).

(** ** The client's filter against the server's *)

Record cf_wf (f : bloom_filter) : Prop := {
  cf_bits : 0 < bitmap_size f <= 2 ^ 31;
  cf_words : length (bitmap f) = Z.to_nat (BITS_TO_LONGS (bitmap_size f));
}.

Lemma bit_index_eq f k i :
  cf_wf f -> bit_index f (key_bytes k) i = Some (hash_idx (bitmap_size f) k i).
Proof.
  intros [Hb _]. unfold bit_index, hash_idx, client_hash_funcs, client_murmur2.
  generalize (murmur2 (key_bytes k) (Z.of_nat i)) as z. intros z.
  rewrite urem_pos by lia. cbn [mbind option_bind].
  pose proof (Z.mod_pos_bound z (bitmap_size f) ltac:(lia)).
  by rewrite wrap_small by lia.
Qed.

Lemma word_index_lt nb idx : 0 < nb <= 2 ^ 31 -> 0 <= idx < nb ->
  u32 (idx / 64) = idx / 64 /\ (Z.to_nat (idx / 64) < Z.to_nat (BITS_TO_LONGS nb))%nat.
Proof.
  intros Hnb Hidx. pose proof (Z.div_pos idx 64 ltac:(lia) ltac:(lia)).
  assert (idx / 64 <= idx) by (apply Z.div_le_upper_bound; lia).
  split; [apply wrap_small; lia|]. rewrite BITS_TO_LONGS_eq by done.
  assert (idx / 64 < (nb + 63) / 64); [|lia].
  apply Z.div_lt_upper_bound; [lia|].
  pose proof (Z.div_mod (nb + 63) 64 ltac:(lia)).
  pose proof (Z.mod_pos_bound (nb + 63) 64 ltac:(lia)). lia.
Qed.

Lemma check_loop_agrees f k salts :
  cf_wf f ->
  check_loop f (key_bytes k) salts = bit_query_loop (bitmap_size f) (bitmap f) k salts.
Proof.
  intros Hwf. pose proof (cf_bits _ Hwf) as Hb.
  induction salts as [|i salts IH]; cbn [check_loop bit_query_loop]; [done|].
  rewrite bit_index_eq, ComputeHash_eq by done. cbn [mbind option_bind].
  pose proof (hash_idx_bound (bitmap_size f) k i ltac:(lia)) as Hidx.
  destruct (word_index_lt (bitmap_size f) _ Hb Hidx) as [-> _].
  destruct (bitmap f !! _) as [w|]; cbn [mbind option_bind]; [|done].
  unfold check_bit, bit_of. rewrite IH. by destruct (_ =? 0).
Qed.

(** Copying all words makes the two filters the same. *)
Lemma bloom_filter_set_eq f words :
  cf_wf f -> length words = length (bitmap f) -> bloom_filter_set f words = Some (set_bitmap f words).
Proof.
  intros [Hb Hw] Hl. unfold bloom_filter_set. rewrite read_loop by lia. cbn [mbind option_bind].
  do 2 f_equal. apply take_ge. lia.
Qed.

(** The packed words of the server's filter, in place of those of the client. *)
Lemma packed_filter bf f :
  cbf_wf bf -> bytes_ok (m_bitarray bf) -> cf_wf f -> bitmap_size f = m_numBits bf -> nr_hash f = m_numHashes bf ->
  exists bits, ToOrdinaryBloomFilter bf = Some (set_boolbitarray bf bits) /\ length bits = length (bitmap f)
    /\ forall k, bloom_filter_check (set_bitmap f bits) (key_bytes k) = Query bf k.
Proof.
  intros Hwf Hbytes Hcf Hsize Hnh. destruct (packed_query bf Hwf Hbytes) as (bits & E & Hlen & Hq).
  assert (length bits = length (bitmap f)) as Hl by (rewrite (cf_words f Hcf), Hsize, Hlen; by rewrite (wf_longs bf Hwf)).
  exists bits. split_and!; [done..|]. intros k. unfold bloom_filter_check. rewrite check_loop_agrees.
  - simpl. rewrite Hsize, Hnh. apply Hq.
  - split; simpl; [apply Hcf|]. by rewrite Hl, (cf_words f Hcf).
Qed.

(** C9: The words that the server packs and the client copies make the
    client's check the query of the server's counting filter: the two answer
    the same for every key, and a key the server counts is not held back. *)
Theorem client_check_agrees bf f k :
  cbf_wf bf -> bytes_ok (m_bitarray bf) -> cf_wf f ->
  bitmap_size f = m_numBits bf -> nr_hash f = m_numHashes bf ->
  exists bf' f', ToOrdinaryBloomFilter bf = Some bf'
    /\ bloom_filter_set f (m_boolbitarray bf') = Some f'
    /\ bloom_filter_check f' (key_bytes k) = Query bf k
    /\ forall M, counts bf M -> k ∈ M -> bloom_filter_check f' (key_bytes k) = Some true.
Proof.
  intros Hwf Hbytes Hcf Hsize Hnh. destruct (packed_filter bf f Hwf Hbytes Hcf Hsize Hnh) as (bits & -> & Hl & Hcheck).
  exists (set_boolbitarray bf bits), (set_bitmap f bits). split_and!; [done|by apply bloom_filter_set_eq|apply Hcheck|].
  intros M Hc Hk. rewrite Hcheck. by apply (Query_exact bf M Hwf Hc).
Qed.

Lemma client_check_agrees_witness :
  exists bf' f', ToOrdinaryBloomFilter (new_filter 4 100) = Some bf'
    /\ bloom_filter_set (bloom_filter_new [5; 6] 4 100) (m_boolbitarray bf') = Some f'
    /\ bloom_filter_check f' (key_bytes 9) = Query (new_filter 4 100) 9.
Proof.
  destruct (client_check_agrees (new_filter 4 100) (bloom_filter_new [5; 6] 4 100) 9)
    as (bf' & f' & H1 & H2 & H3 & _).
  - apply new_filter_wf. lia.
  - apply (counts_bytes (new_filter 4 100) ∅); [apply new_filter_wf; lia|apply new_filter_counts; lia].
  - split; [simpl; lia|reflexivity].
  - reflexivity.
  - reflexivity.
  - exists bf', f'. split; [exact H1|]. split; [exact H2|exact H3].
Defined.

(** ** Adding keys at the client *)

(** Every position set in [b1] is set in [b2]. *)
Definition bits_le (b1 b2 : list Z) : Prop :=
  forall j w, b1 !! j = Some w ->
    exists w', b2 !! j = Some w' /\ forall i, 0 <= i -> Z.testbit w i = true -> Z.testbit w' i = true.

#[export] Instance bits_le_preorder : PreOrder bits_le.
Proof.
  split.
  - intros b j w Hw. eauto.
  - intros b1 b2 b3 H12 H23 j w Hw. destruct (H12 j w Hw) as (w2 & Hw2 & Hb2).
    destruct (H23 j w2 Hw2) as (w3 & Hw3 & Hb3). eauto.
Qed.

(** The bit of an index is set. *)
Definition bit_set (b : list Z) (idx : Z) : Prop :=
  exists w, b !! Z.to_nat (idx / 64) = Some w /\ Z.testbit w (63 - idx mod 64) = true.

Lemma bit_set_le b1 b2 idx : 0 <= idx -> bits_le b1 b2 -> bit_set b1 idx -> bit_set b2 idx.
Proof.
  intros Hi Hle (w & Hw & Hb). destruct (Hle _ _ Hw) as (w' & Hw' & Himp).
  exists w'. split; [done|]. apply Himp; [|done].
  pose proof (Z.mod_pos_bound idx 64 ltac:(lia)). lia.
Qed.

Lemma bit_of_testbit idx i : 0 <= idx -> 0 <= i ->
  Z.testbit (bit_of idx) i = true <-> i = 63 - idx mod 64.
Proof.
  intros Hidx Hi. unfold bit_of. rewrite mask_eq.
  pose proof (Z.mod_pos_bound idx 64 ltac:(lia)).
  rewrite Z.pow2_bits_eqb by lia. rewrite Z.eqb_eq. lia.
Qed.

Lemma add_round_ok f k i :
  cf_wf f -> exists b, add_round (key_bytes k) f i = Some (set_bitmap f b)
    /\ length b = length (bitmap f) /\ bits_le (bitmap f) b
    /\ bit_set b (hash_idx (bitmap_size f) k i).
Proof.
  intros Hwf. pose proof (cf_bits _ Hwf) as Hb. pose proof (cf_words _ Hwf) as Hw.
  unfold add_round. rewrite bit_index_eq by done. cbn [mbind option_bind].
  pose proof (hash_idx_bound (bitmap_size f) k i ltac:(lia)) as Hidx.
  set (idx := hash_idx (bitmap_size f) k i) in *. clearbody idx.
  destruct (word_index_lt (bitmap_size f) idx Hb Hidx) as [-> Hlt].
  destruct (lookup_lt_is_Some_2 (bitmap f) (Z.to_nat (idx / 64))) as [w Hwd]; [lia|].
  rewrite Hwd. cbn [mbind option_bind]. rewrite store_Some by lia. cbn [mbind option_bind].
  eexists. split; [done|]. rewrite length_insert. split; [done|]. split.
  - intros j x Hx. destruct (decide (j = Z.to_nat (idx / 64))) as [->|Hne].
    + rewrite list_lookup_insert_eq by lia. eexists. split; [done|]. intros b Hb0 Hbit.
      simplify_eq. by rewrite Z.lor_spec, Hbit.
    + rewrite list_lookup_insert_ne by done. eauto.
  - exists (Z.lor w (bit_of idx)). rewrite list_lookup_insert_eq by lia. split; [done|].
    pose proof (Z.mod_pos_bound idx 64 ltac:(lia)).
    assert (Z.testbit (bit_of idx) (63 - idx mod 64) = true) as Hbit
      by (apply bit_of_testbit; [lia|lia|done]).
    rewrite Z.lor_spec, Hbit. apply orb_true_r.
Qed.

Lemma add_loop_ok k salts f :
  cf_wf f -> exists b, foldM (add_round (key_bytes k)) salts f = Some (set_bitmap f b)
    /\ length b = length (bitmap f) /\ bits_le (bitmap f) b
    /\ Forall (fun i => bit_set b (hash_idx (bitmap_size f) k i)) salts.
Proof.
  revert f. induction salts as [|i salts IH]; intros f Hwf; cbn [foldM].
  { exists (bitmap f). split_and!; [by destruct f|done|done|constructor]. }
  destruct (add_round_ok f k i Hwf) as (b & -> & Hl & Hle & Hset). cbn [mbind option_bind].
  destruct (IH (set_bitmap f b)) as (b' & -> & Hl' & Hle' & Hset').
  { destruct Hwf. split; simpl; congruence. }
  simpl in *. exists b'. split_and!; [done|congruence|by etrans|]. constructor; [|done].
  eapply bit_set_le; [|exact Hle'|exact Hset]. apply hash_idx_bound. apply (cf_bits f Hwf).
Qed.

Lemma check_bit_bit_of w i : check_bit w i = negb (Z.land w (bit_of i) =? 0).
Proof. reflexivity. Qed.

Lemma check_loop_set f k salts :
  cf_wf f -> Forall (fun i => bit_set (bitmap f) (hash_idx (bitmap_size f) k i)) salts ->
  check_loop f (key_bytes k) salts = Some true.
Proof.
  intros Hwf. pose proof (cf_bits _ Hwf) as Hb.
  induction 1 as [|i salts (w & Hw & Hbit) _ IH]; cbn [check_loop]; [done|].
  rewrite bit_index_eq by done. cbn [mbind option_bind].
  pose proof (hash_idx_bound (bitmap_size f) k i ltac:(lia)) as Hidx.
  destruct (word_index_lt (bitmap_size f) _ Hb Hidx) as [-> _]. rewrite Hw. cbn [mbind option_bind].
  pose proof (check_bit_testbit w (hash_idx (bitmap_size f) k i)) as Hc. rewrite Hbit in Hc.
  rewrite check_bit_bit_of in Hc.
  destruct (Z.land _ _ =? 0); [done|exact IH].
Qed.

(** The keys that the client adds, one after the other. *)
Definition add_all (f : bloom_filter) (ks : list Key_t) : option bloom_filter :=
  foldM (fun f k => bloom_filter_add f (key_bytes k)) ks f.

Definition answers (f : bloom_filter) (k : Key_t) : Prop :=
  Forall (fun i => bit_set (bitmap f) (hash_idx (bitmap_size f) k i)) (seq 0 (nr_hash f)).

Lemma add_all_ok ks f :
  cf_wf f -> exists b, add_all f ks = Some (set_bitmap f b) /\ length b = length (bitmap f)
    /\ bits_le (bitmap f) b /\ forall k, k ∈ ks -> answers (set_bitmap f b) k.
Proof.
  unfold add_all. revert f. induction ks as [|k ks IH]; intros f Hwf; cbn [foldM].
  { exists (bitmap f). split_and!; [by destruct f|done|done|]. by intros k ?%elem_of_nil. }
  unfold bloom_filter_add at 2.
  destruct (add_loop_ok k (seq 0 (nr_hash f)) f Hwf) as (b & -> & Hl & Hle & Hset).
  cbn [mbind option_bind]. assert (cf_wf (set_bitmap f b)) as Hwf1 by (destruct Hwf; split; simpl; congruence).
  destruct (IH _ Hwf1) as (b' & -> & Hl' & Hle' & Hks). simpl in *.
  exists b'. split_and!; [done|congruence|by etrans|].
  intros k' [->|Hk']%elem_of_cons; [|by apply Hks].
  eapply Forall_impl; [exact Hset|]. simpl. intros i Hi.
  eapply bit_set_le; [|exact Hle'|exact Hi]. apply hash_idx_bound. apply (cf_bits f Hwf).
Qed.

(** Every key the client has added is answered true by its check, and so
    is every key that was answered true before. *)
Theorem client_add_no_false_negative f ks :
  cf_wf f ->
  exists f', add_all f ks = Some f'
    /\ (forall k, k ∈ ks -> bloom_filter_check f' (key_bytes k) = Some true)
    /\ (forall k, answers f k -> bloom_filter_check f' (key_bytes k) = Some true).
Proof.
  intros Hwf. destruct (add_all_ok ks f Hwf) as (b & Hadd & Hl & Hle & Hks).
  assert (cf_wf (set_bitmap f b)) as Hwf' by (destruct Hwf; split; simpl; congruence).
  exists (set_bitmap f b). split; [done|]. split.
  - intros k Hk. apply check_loop_set; [done|]. by apply Hks.
  - intros k Hk. apply check_loop_set; [done|]. eapply Forall_impl; [exact Hk|]. intros i Hi.
    eapply bit_set_le; [|exact Hle|exact Hi]. apply hash_idx_bound. apply (cf_bits f Hwf).
Qed.

Lemma client_add_no_false_negative_witness :
  exists f', add_all (bloom_filter_new [0; 0] 4 100) [7; 8] = Some f'
    /\ bloom_filter_check f' (key_bytes 7) = Some true.
Proof.
  destruct (client_add_no_false_negative (bloom_filter_new [0; 0] 4 100) [7; 8]) as (f' & Hf & Hk & _).
  - split; [simpl; lia|reflexivity].
  - exists f'. split; [exact Hf|]. apply Hk. apply list_elem_of_here.
Defined.
