(* ===== verification/LinearProbing.v ===== *)
(** * The linear-probing table (server/src/linear_probing.cpp)

    The array is divided into clusters of [locksize] = 16 slots, each under
    one lock.  [Insert] puts the pair into the first free slot of the first
    fifteen slots of the cluster its key hashes to; when all fifteen are
    taken it drops the first pair, shifts the others to the left and writes
    the new pair at the last slot.  [Get] scans the same fifteen slots.

    The abstract table is the list of its clusters ([rep]); [Insert] and
    [Get] are functions of the one cluster the key maps to
    ([cluster_insert], [cluster_get]), which is what the locks protect. *)

From S2P Require Import Prelude PairDefs HashFun.

(** The members of the class.  [mutex] has [nlocks] elements.  [old_cap]
    and [old_dic], which [resize] sets and clears again, and
    [resizing_lock] are read by no operation and left out. *)
Record LinearProbingHash : Type := MkLP {
  capacity : Z;
  dict : list Pair;
  size_ : Z;
  nlocks : Z;
  locksize : Z;
}.

Definition set_dict (t : LinearProbingHash) (d : list Pair) : LinearProbingHash :=
  MkLP (capacity t) d (size_ t) (nlocks t) (locksize t).
Definition incr_size (t : LinearProbingHash) : LinearProbingHash :=
  MkLP (capacity t) (dict t) (u64 (size_ t + 1)) (nlocks t) (locksize t).

Section Operations.
Context `{StdHash}.

(** The constructor, on memory whose value words are [junk]. *)
Definition new_table (junk : nat -> Value_t) (_capacity : Z) : LinearProbingHash :=
  let locksize := 16 in
  MkLP _capacity (new_Pairs junk (Z.to_nat _capacity)) 0
    (s32 (_capacity / locksize + 1)) locksize.

(** The element [mutex[i]] that is locked must exist. *)
Definition lock_cluster (t : LinearProbingHash) (i : Z) : option unit :=
  if i <? nlocks t then Some tt else None.

(** [slot], [off] and [firstIndex] of a key; the cluster is locked. *)
Definition locate (t : LinearProbingHash) (key_hash : Z) : option nat :=
  slot ← urem key_hash (capacity t);
  off ← urem slot (locksize t);
  let firstIndex := slot - off in
  _ ← lock_cluster t (slot / locksize t);
  Some (Z.to_nat firstIndex).

(** [dict[firstIndex + j] = dict[firstIndex + j + 1]] for [j < locksize - 1] *)
Definition shift_left (d : list Pair) (firstIndex n : nat) : option (list Pair) :=
  foldM (fun d j => p ← d !! (firstIndex + j + 1)%nat; store d (firstIndex + j) p)
    (seq 0 n) d.

Definition Insert (t : LinearProbingHash) (key : Key_t) (value : Value_t)
  : option (LinearProbingHash * Key_t) :=
  firstIndex ← locate t (h key h_seed);
  let n := Z.to_nat (locksize t - 1) in
  r ← probe (seq firstIndex n) is_free (dict t);
  match r with
  | Some slot =>
      d ← store (dict t) slot (MkPair key value);
      Some (incr_size (set_dict t d), INVALID)
  | None =>
      p ← dict t !! firstIndex;
      let deleteKey := pkey p in
      d ← shift_left (dict t) firstIndex n;
      d ← store d (firstIndex + n) (MkPair key value);
      Some (set_dict t d, deleteKey)
  end.

Definition Get (t : LinearProbingHash) (key : Key_t) : option Value_t :=
  key_hash ← urem (h key h_seed) (capacity t);
  firstIndex ← locate t key_hash;
  r ← probe (seq firstIndex (Z.to_nat (locksize t - 1))) (has_key key) (dict t);
  match r with
  | Some id => p ← dict t !! id; Some (pvalue p)
  | None => Some NONE
  end.

Definition Delete (t : LinearProbingHash) (key : Key_t)
  : option (LinearProbingHash * bool) := Some (t, false).
Definition Insert_extent (t : LinearProbingHash) (_ : Key_t) (_ _ : Z) (_ : Value_t)
  : option LinearProbingHash := Some t.
Definition Get_extent (t : LinearProbingHash) (_ : Key_t) (_ : Z) : option Value_t := Some NONE.
Definition FindAnyway (t : LinearProbingHash) (_ : Key_t) : option Value_t := Some NONE.
Definition Recovery (t : LinearProbingHash) : option (LinearProbingHash * bool) := Some (t, false).
Definition Capacity (t : LinearProbingHash) : Z := capacity t.

(** The loop of [Utilization]: the number of slots in use. *)
Definition Utilization_size (t : LinearProbingHash) : option Z :=
  foldM (fun size i => p ← dict t !! i; Some (if is_free p then size else u64 (size + 1)))
    (seq 0 (Z.to_nat (capacity t))) 0.

(** The [while] loop of [getLocation]; [capacity] is the member, [_capacity]
    the argument.  [None] when the fuel ends: the counter [i] stops the loop
    after [capacity] rounds. *)
Fixpoint location_loop (fuel : nat) (capacity _capacity : Z) (_dict : list Pair) (cur i : Z)
  : option Z :=
  match fuel with
  | O => None
  | S fuel =>
      p ← _dict !! Z.to_nat cur;
      if is_free p then Some cur
      else
        cur ← urem (u64 (cur + 1)) _capacity;
        let i := u64 (i + 1) in
        if i <? capacity then location_loop fuel capacity _capacity _dict cur i
        else Some INVALID
  end.

(** The slot found is marked with [SENTINEL] by the [CAS]. *)
Definition getLocation (capacity hash_value _capacity : Z) (_dict : list Pair)
  : option (Z * list Pair) :=
  cur ← location_loop (S (Z.to_nat capacity)) capacity _capacity _dict hash_value 0;
  if cur =? INVALID then Some (INVALID, _dict)
  else
    p ← _dict !! Z.to_nat cur;
    d ← store _dict (Z.to_nat cur) (MkPair SENTINEL (pvalue p));
    Some (cur, d).

Definition InsertOnly (t : LinearProbingHash) (key : Key_t) (value : Value_t)
  : option (LinearProbingHash * bool) :=
  key_hash ← urem (h key h_seed) (capacity t);
  '(loc, d) ← getLocation (capacity t) key_hash (capacity t) (dict t);
  if loc =? INVALID then Some (t, false)
  else
    d ← store d (Z.to_nat loc) (MkPair key value);
    Some (incr_size (set_dict t d), true).

(** One round of the copying loop of [resize]. *)
Definition rehash_step (capacity _capacity : Z) (d newDict : list Pair) (i : nat)
  : option (list Pair) :=
  p ← d !! i;
  if is_free p then Some newDict
  else
    key_hash ← urem (h (pkey p) h_seed) _capacity;
    '(loc, newDict) ← getLocation capacity key_hash _capacity newDict;
    store newDict (Z.to_nat loc) p.

Definition resize (junk : nat -> Value_t) (t : LinearProbingHash) (_capacity : Z)
  : option LinearProbingHash :=
  newDict ← foldM (rehash_step (capacity t) _capacity (dict t))
              (seq 0 (Z.to_nat (capacity t))) (new_Pairs junk (Z.to_nat _capacity));
  Some (MkLP _capacity newDict (size_ t) (s32 (_capacity / locksize t + 1)) (locksize t)).

End Operations.

#[export] Instance LinearProbing_IHash `{StdHash} : IHash LinearProbingHash := {
  ih_Insert := Insert;
  ih_Insert_extent := Insert_extent;
  ih_Delete := Delete;
  ih_Get := Get;
  ih_Get_extent := Get_extent;
  ih_FindAnyway := FindAnyway;
  ih_Capacity := Capacity;
  ih_Recovery := Recovery;
}.

(** ** The table as a list of clusters *)

Record rep (t : LinearProbingHash) (cs : list (list Pair)) : Prop := {
  rep_dict : dict t = concat cs;
  rep_rows : rectangular 16 cs;
  rep_capacity : capacity t = 16 * Z.of_nat (length cs);
  rep_pos : (0 < length cs)%nat;
  rep_locksize : locksize t = 16;
  rep_nlocks : nlocks t = capacity t / 16 + 1;
}.

(** [Insert] and [Get] on one cluster. *)
Definition cluster_insert (c : list Pair) (k : Key_t) (v : Value_t) : list Pair * Key_t :=
  match list_find (fun p => is_free p) (take 15 c) with
  | Some (j, _) => (<[j := MkPair k v]> c, INVALID)
  | None => (drop 1 c ++ [MkPair k v], from_option pkey INVALID (c !! 0%nat))
  end.

Definition cluster_get (c : list Pair) (k : Key_t) : Value_t :=
  match list_find (fun p => has_key k p) (take 15 c) with
  | Some (_, p) => pvalue p
  | None => NONE
  end.

(** The row of a hash value. *)
Definition row_of (cap : Z) (key_hash : Z) : nat := Z.to_nat (key_hash mod cap / 16).

Lemma row_of_lt cap key_hash n :
  cap = 16 * Z.of_nat n -> (0 < n)%nat -> (row_of cap key_hash < n)%nat.
Proof.
  intros -> Hn. unfold row_of.
  pose proof (Z.mod_pos_bound key_hash (16 * Z.of_nat n) ltac:(lia)).
  assert (key_hash mod (16 * Z.of_nat n) / 16 < Z.of_nat n)
    by (apply Z.div_lt_upper_bound; lia).
  assert (0 <= key_hash mod (16 * Z.of_nat n) / 16) by (apply Z.div_pos; lia). lia.
Qed.

Lemma row_of_mod cap key_hash : 0 < cap -> row_of cap (key_hash mod cap) = row_of cap key_hash.
Proof. intros. unfold row_of. by rewrite Zmod_mod. Qed.

Lemma new_table_rep junk n :
  (0 < n)%nat -> Z.of_nat n < 2 ^ 30 ->
  exists cs, rep (new_table junk (16 * Z.of_nat n)) cs /\ length cs = n.
Proof.
  intros Hn Hmax.
  destruct (rows_exist 16 (new_Pairs junk (Z.to_nat (16 * Z.of_nat n))) n) as (cs & Hd & Hr & Hl).
  { rewrite new_Pairs_length. lia. }
  exists cs. split; [|done]. split; simpl; try done; [by rewrite Hl|lia|].
  replace (16 * Z.of_nat n / 16) with (Z.of_nat n) by (symmetry; rewrite Z.mul_comm; apply Z.div_mul; lia).
  apply s32_small. lia.
Qed.

Lemma locate_eq t cs key_hash :
  rep t cs -> locate t key_hash = Some (16 * row_of (capacity t) key_hash)%nat.
Proof.
  intros [_ _ Hcap Hpos Hls Hnl]. unfold locate, row_of. rewrite urem_pos by lia. simpl.
  set (slot := key_hash mod capacity t).
  assert (0 <= slot < capacity t) by (apply Z.mod_pos_bound; lia).
  rewrite Hls, urem_pos by lia. simpl. unfold lock_cluster. rewrite Hnl.
  assert (slot / 16 <= capacity t / 16) by (apply Z.div_le_mono; lia).
  destruct (Z.ltb_spec (slot / 16) (capacity t / 16 + 1)); [|lia]. simpl. f_equal.
  pose proof (Z.div_mod slot 16 ltac:(lia)). pose proof (Z.div_pos slot 16). lia.
Qed.

Lemma shift_left_row cs q c n :
  rectangular (S n) cs -> cs !! q = Some c ->
  shift_left (concat cs) (S n * q) n = Some (concat (<[q := drop 1 c ++ drop n c]> cs)).
Proof.
  intros Hr Hq. pose proof (rectangular_lookup _ _ _ _ Hr Hq) as Hl.
  pose proof (lookup_lt_Some _ _ _ Hq) as Hlt. unfold shift_left.
  destruct (foldM_seq
    (fun i d => d = concat (<[q := take i (drop 1 c) ++ drop i c]> cs))
    (fun d j => p ← d !! (S n * q + j + 1)%nat; store d (S n * q + j) p) n (concat cs))
    as (d & -> & ->).
  - by rewrite list_insert_id.
  - intros i d Hi ->. set (row := take i (drop 1 c) ++ drop i c).
    assert (length row = S n) as Hrow.
    { unfold row. rewrite length_app, length_take, !length_drop. lia. }
    destruct (lookup_lt_is_Some_2 c (S i)) as [p Hp]; [lia|].
    rewrite <- Nat.add_assoc.
    rewrite (concat_lookup (S n) _ q row);
      [|by apply rectangular_insert|by apply list_lookup_insert_eq|lia].
    replace (row !! (i + 1)%nat) with (Some p).
    2:{ unfold row. rewrite lookup_app_r; rewrite length_take, length_drop; [|lia].
        rewrite lookup_drop, <- Hp. f_equal. lia. }
    cbn [mbind option_bind].
    rewrite (concat_store (S n) _ q row);
      [|by apply rectangular_insert|by apply list_lookup_insert_eq|lia].
    eexists. split; [done|]. rewrite list_insert_insert_eq. do 2 f_equal. unfold row.
    destruct (lookup_lt_is_Some_2 c i) as [p' Hp']; [lia|].
    rewrite (drop_S _ _ _ Hp').
    rewrite insert_app_r_alt by (rewrite length_take, length_drop; lia).
    rewrite length_take, length_drop. replace (i - (i `min` (length c - 1)))%nat with 0%nat by lia.
    simpl. rewrite (take_S_r _ i p) by (rewrite lookup_drop; exact Hp).
    by rewrite <- app_assoc.
  - rewrite take_ge by (rewrite length_drop; lia). done.
Qed.

(** The pair written after the shift ends up last. *)
Lemma shift_store_row cs q c n p :
  rectangular (S n) cs -> cs !! q = Some c ->
  (d ← shift_left (concat cs) (S n * q) n; store d (S n * q + n) p)
  = Some (concat (<[q := drop 1 c ++ [p]]> cs)).
Proof.
  intros Hr Hq. pose proof (rectangular_lookup _ _ _ _ Hr Hq) as Hl.
  pose proof (lookup_lt_Some _ _ _ Hq) as Hlt.
  rewrite (shift_left_row _ _ c) by done. cbn [mbind option_bind].
  assert (length (drop n c) = 1%nat) as Hd by (rewrite length_drop; lia).
  destruct (drop n c) as [|x [|? ?]] eqn:Hdrop; simplify_eq/=.
  rewrite (concat_store (S n) _ q (drop 1 c ++ [x]));
    [|apply rectangular_insert; [done|rewrite length_app, length_drop; simpl; lia]
     |by apply list_lookup_insert_eq|lia].
  rewrite list_insert_insert_eq. do 3 f_equal.
  rewrite insert_app_r_alt by (rewrite length_drop; lia).
  rewrite length_drop. by replace (n - (length c - 1))%nat with 0%nat by lia.
Qed.

(** ** Refinement *)

Section Refinement.
Context `{StdHash}.
Implicit Types (t : LinearProbingHash) (cs : list (list Pair)) (c : list Pair).

Definition lp_wf t : Prop := exists cs, rep t cs.

#[local] Abbreviation home t k := (row_of (capacity t) (h k h_seed)).

Lemma home_lookup t cs k : rep t cs -> exists c, cs !! home t k = Some c /\ length c = 16%nat.
Proof.
  intros Hr. destruct (lookup_lt_is_Some_2 cs (home t k)) as [c Hc].
  { eapply row_of_lt; [apply (rep_capacity _ _ Hr)|apply (rep_pos _ _ Hr)]. }
  exists c. split; [done|]. eapply rectangular_lookup; [apply (rep_rows _ _ Hr)|done].
Qed.

Lemma rep_set t cs q c sz :
  rep t cs -> length c = 16%nat ->
  rep (MkLP (capacity t) (concat (<[q := c]> cs)) sz (nlocks t) (locksize t)) (<[q := c]> cs).
Proof.
  intros [Hd Hr Hcap Hpos Hls Hnl] Hc.
  split; simpl; rewrite ?length_insert; try done. by apply rectangular_insert.
Qed.

Definition cluster_full c : bool :=
  match list_find (fun p => is_free p) (take 15 c) with Some _ => false | None => true end.

Lemma cluster_insert_length c k v :
  length c = 16%nat -> length (cluster_insert c k v).1 = 16%nat.
Proof.
  intros Hc. unfold cluster_insert. repeat case_match; simpl.
  - by rewrite length_insert.
  - rewrite length_app, length_drop. simpl. lia.
Qed.

Lemma Insert_row t cs k v c :
  rep t cs -> cs !! home t k = Some c ->
  Insert t k v =
  Some (MkLP (capacity t) (concat (<[home t k := (cluster_insert c k v).1]> cs))
          (if cluster_full c then size_ t else u64 (size_ t + 1)) (nlocks t) (locksize t),
        (cluster_insert c k v).2).
Proof.
  intros Hrep Hc. pose proof (rep_rows _ _ Hrep) as Hr.
  pose proof (rectangular_lookup _ _ _ _ Hr Hc) as Hl.
  unfold Insert. rewrite (locate_eq t cs) by done. cbn [mbind option_bind].
  rewrite (rep_locksize _ _ Hrep), (rep_dict _ _ Hrep). change (Z.to_nat (16 - 1)) with 15%nat.
  rewrite (probe_row 16 cs (home t k) c) by (done || lia). cbn [mbind option_bind].
  unfold cluster_insert, cluster_full.
  destruct (list_find _ (take 15 c)) as [[j p]|] eqn:Hf; cbn [fmap option_fmap option_map fst].
  - apply list_find_Some in Hf as (Hj & _). apply lookup_lt_Some in Hj.
    rewrite length_take in Hj.
    rewrite (concat_store 16 cs (home t k) c) by (done || lia).
    unfold incr_size, set_dict. simpl. by rewrite (rep_locksize _ _ Hrep).
  - replace (16 * home t k)%nat with (16 * home t k + 0)%nat at 1 by lia.
    rewrite (concat_lookup 16 cs (home t k) c) by (done || lia).
    destruct (lookup_lt_is_Some_2 c 0%nat) as [p Hp]; [lia|]. rewrite Hp. cbn [mbind option_bind].
    pose proof (shift_store_row cs (home t k) c 15 (MkPair k v) Hr Hc) as Hs.
    destruct (shift_left (concat cs) (16 * home t k) 15) as [d|]; [|done].
    simpl in Hs |- *. rewrite Hs. unfold set_dict. simpl. by rewrite (rep_locksize _ _ Hrep).
Qed.

Lemma Get_row t cs k c :
  rep t cs -> cs !! home t k = Some c -> Get t k = Some (cluster_get c k).
Proof.
  intros Hrep Hc. pose proof (rep_rows _ _ Hrep) as Hr.
  pose proof (rectangular_lookup _ _ _ _ Hr Hc) as Hl.
  assert (0 < capacity t) by (rewrite (rep_capacity _ _ Hrep); pose proof (rep_pos _ _ Hrep); lia).
  unfold Get. rewrite urem_pos by done. cbn [mbind option_bind].
  rewrite (locate_eq t cs), row_of_mod by done. cbn [mbind option_bind].
  rewrite (rep_locksize _ _ Hrep), (rep_dict _ _ Hrep). change (Z.to_nat (16 - 1)) with 15%nat.
  rewrite (probe_row 16 cs (home t k) c) by (done || lia). cbn [mbind option_bind].
  unfold cluster_get.
  destruct (list_find _ (take 15 c)) as [[j p]|] eqn:Hf; cbn [fmap option_fmap option_map fst]; [|done].
  apply list_find_Some in Hf as (Hj & _). pose proof (lookup_lt_Some _ _ _ Hj) as Hlt.
  rewrite length_take in Hlt. rewrite lookup_take_lt in Hj by lia.
  rewrite (concat_lookup 16 cs (home t k) c), Hj by (done || lia). done.
Qed.

(** C15: The table refines a list of clusters: [Insert] always returns, its
    effect is that of [cluster_insert] on the cluster of the key, no other
    cluster changes, and [Get] is [cluster_get] of that cluster. *)
Theorem lp_refines t cs k v :
  rep t cs ->
  exists c, cs !! home t k = Some c
    /\ Get t k = Some (cluster_get c k)
    /\ exists t', Insert t k v = Some (t', (cluster_insert c k v).2)
         /\ capacity t' = capacity t
         /\ rep t' (<[home t k := (cluster_insert c k v).1]> cs).
Proof.
  intros Hr. destruct (home_lookup t cs k Hr) as (c & Hc & Hl).
  exists c. split; [done|]. split; [by apply Get_row with cs|].
  eexists. split; [by apply Insert_row|]. split; [done|].
  apply rep_set; [done|]. by apply cluster_insert_length.
Qed.

(** ** One cluster *)

Lemma list_find_insert_ne (P : Pair -> bool) c j p p' n :
  c !! j = Some p -> P p = false -> P p' = false ->
  list_find (fun x => P x) (take n (<[j := p']> c)) = list_find (fun x => P x) (take n c).
Proof.
  intros Hj HP HP'. revert j n Hj. induction c as [|x c IH]; intros [|j] [|n] Hj; simplify_eq/=; try done.
  - rewrite HP, HP'. done.
  - by rewrite IH.
Qed.

Lemma list_find_insert_first (P : Pair -> bool) c j p n :
  (j < n)%nat -> (j < length c)%nat -> P p = true ->
  (forall i q, (i < j)%nat -> c !! i = Some q -> P q = false) ->
  list_find (fun x => P x) (take n (<[j := p]> c)) = Some (j, p).
Proof.
  intros Hjn Hjl HP Hpre. apply list_find_Some. split_and!.
  - rewrite lookup_take_lt by done. by apply list_lookup_insert_eq.
  - by rewrite HP.
  - intros i q Hq Hi. rewrite lookup_take_lt in Hq by lia.
    rewrite list_lookup_insert_ne in Hq by lia. rewrite (Hpre i q) by done. by intros [].
Qed.

Lemma cluster_get_insert c k v :
  length c = 16%nat -> cluster_full c = false -> (forall p, p ∈ c -> pkey p <> k) ->
  cluster_get (cluster_insert c k v).1 k = v.
Proof.
  intros Hl Hfull Hab. unfold cluster_full, cluster_insert, cluster_get in *.
  destruct (list_find _ (take 15 c)) as [[j p]|] eqn:Hf; [|done]. simpl.
  apply list_find_Some in Hf as (Hj & _). apply lookup_lt_Some in Hj. rewrite length_take in Hj.
  rewrite (list_find_insert_first (has_key k) c j) by
    (try lia; try (by apply has_key_true);
     intros i q _ Hq; apply has_key_false, Hab; by eapply list_elem_of_lookup_2).
  done.
Qed.

Lemma cluster_get_insert_ne c k v k' :
  cluster_full c = false -> k' <> k -> k' <> INVALID ->
  cluster_get (cluster_insert c k v).1 k' = cluster_get c k'.
Proof.
  intros Hfull Hne Hinv. unfold cluster_full, cluster_insert, cluster_get in *.
  destruct (list_find (fun p => is_free p) (take 15 c)) as [[j p]|] eqn:Hf; [|done]. simpl.
  apply list_find_Some in Hf as (Hj & HP & _). pose proof (lookup_lt_Some _ _ _ Hj) as Hlt.
  rewrite length_take in Hlt. rewrite lookup_take_lt in Hj by lia.
  rewrite (list_find_insert_ne (has_key k') c j p); [done|done| |].
  - apply has_key_false. apply Is_true_true, is_free_true in HP. congruence.
  - apply has_key_false. simpl. congruence.
Qed.

Lemma cluster_get_full c k v :
  length c = 16%nat -> cluster_full c = true -> (forall p, p ∈ c -> pkey p <> k) ->
  cluster_get (cluster_insert c k v).1 k = NONE.
Proof.
  intros Hl Hfull Hab. unfold cluster_full, cluster_insert, cluster_get in *.
  destruct (list_find (fun p => is_free p) (take 15 c)) as [[j p]|] eqn:Hf; [done|]. simpl.
  rewrite take_app_le by (rewrite length_drop; lia).
  destruct (list_find (fun p => has_key k p) _) as [[j p]|] eqn:Hg; [|done]. exfalso.
  apply list_find_Some in Hg as (Hj & HP & _). apply Is_true_true, has_key_true in HP.
  apply (Hab p); [|done].
  by apply list_elem_of_lookup_2, subseteq_take, subseteq_drop in Hj.
Qed.

Lemma cluster_displaced c k v :
  length c = 16%nat -> (cluster_insert c k v).2 = INVALID <-> cluster_full c = false.
Proof.
  intros Hl. unfold cluster_full, cluster_insert.
  destruct (list_find (fun p => is_free p) (take 15 c)) as [[j p]|] eqn:Hf; [done|]. simpl.
  destruct c as [|p c]; [done|]. simpl. split; [|done]. intros Hp. exfalso.
  apply list_find_None in Hf. apply (Forall_lookup_1 _ _ 0%nat p Hf); [done|].
  by apply Is_true_true, is_free_true.
Qed.

Lemma cluster_insert_keys c k v :
  length c = 16%nat -> k <> INVALID ->
  keys_of (cluster_insert c k v).1 ⊎ displaced (cluster_insert c k v).2
  = keys_of c ⊎ {[+ k +]}.
Proof.
  intros Hl Hk. assert (slot_keys (MkPair k v) = {[+ k +]}) as Hsk.
  { unfold slot_keys. by rewrite (proj2 (is_free_false (MkPair k v))). }
  pose proof (cluster_displaced c k v Hl) as Hd. unfold cluster_full, cluster_insert in *.
  destruct (list_find (fun p => is_free p) (take 15 c)) as [[j p]|] eqn:Hf; simpl in *.
  - apply list_find_Some in Hf as (Hj & HP & _). pose proof (lookup_lt_Some _ _ _ Hj) as Hlt.
    rewrite length_take in Hlt. rewrite lookup_take_lt in Hj by lia.
    pose proof (keys_of_insert c j p (MkPair k v) Hj) as Hi.
    unfold slot_keys at 1 in Hi. apply Is_true_true in HP. rewrite HP, Hsk in Hi.
    unfold displaced. rewrite decide_True by done. multiset_solver.
  - destruct c as [|p c]; [done|]. simpl in *. rewrite drop_0, keys_of_app, !keys_of_cons, keys_of_nil.
    fold (slot_keys p) (slot_keys (MkPair k v)). rewrite Hsk. unfold slot_keys, displaced.
    assert (pkey p <> INVALID) as Hp by naive_solver.
    rewrite (proj2 (is_free_false p) Hp), decide_False by done. multiset_solver.
Qed.

Lemma absent_row t cs k c :
  rep t cs -> cs !! home t k = Some c ->
  (forall p, p ∈ dict t -> pkey p <> k) -> forall p, p ∈ c -> pkey p <> k.
Proof.
  intros Hr Hc Hab p Hp. apply Hab. rewrite (rep_dict _ _ Hr). by eapply elem_of_concat_row.
Qed.

(** An insertion at the level of the clusters, in one step. *)
Lemma Insert_inv t k v t' d :
  lp_wf t -> Insert t k v = Some (t', d) ->
  exists cs c, rep t cs /\ cs !! home t k = Some c /\ length c = 16%nat
    /\ d = (cluster_insert c k v).2 /\ capacity t' = capacity t
    /\ rep t' (<[home t k := (cluster_insert c k v).1]> cs)
    /\ <[home t k := (cluster_insert c k v).1]> cs !! home t k
       = Some (cluster_insert c k v).1.
Proof.
  intros [cs Hr] Hins. destruct (home_lookup t cs k Hr) as (c & Hc & Hl).
  rewrite (Insert_row t cs k v c) in Hins by done. simplify_eq.
  exists cs, c. split_and!; try done.
  - apply rep_set; [done|]. by apply cluster_insert_length.
  - apply list_lookup_insert_eq. by apply lookup_lt_Some in Hc.
Qed.

(** Only the cluster of the key changes. *)
Lemma Get_other_row t k v t' d k' :
  lp_wf t -> Insert t k v = Some (t', d) -> home t k' <> home t k -> Get t' k' = Get t k'.
Proof.
  intros Hwf Hins Hne. destruct (Insert_inv _ _ _ _ _ Hwf Hins)
    as (cs & c & Hr & Hc & Hl & _ & Hcap & Hr' & _).
  destruct (home_lookup t cs k' Hr) as (c' & Hc' & _).
  rewrite (Get_row t cs k' c'), (Get_row t' _ k' c') by (try done;
    rewrite Hcap, list_lookup_insert_ne by done; exact Hc'). done.
Qed.

(** An insertion that displaces no key makes a new key visible with its
    value and leaves the answer for every other key as it was. *)
Theorem lp_insert_get t k v t' :
  lp_wf t -> valid_key k -> (forall p, p ∈ dict t -> pkey p <> k) ->
  Insert t k v = Some (t', INVALID) ->
  Get t' k = Some v /\ forall k', valid_key k' -> k' <> k -> Get t' k' = Get t k'.
Proof.
  intros Hwf Hk Hab Hins. pose proof Hins as Hins'.
  destruct (Insert_inv _ _ _ _ _ Hwf Hins')
    as (cs & c & Hr & Hc & Hl & Hd & Hcap & Hr' & Hc').
  symmetry in Hd. apply cluster_displaced in Hd; [|done]. split.
  - rewrite (Get_row _ _ _ _ Hr' ltac:(rewrite Hcap; exact Hc')). f_equal.
    apply cluster_get_insert; [done..|]. exact (absent_row t cs k c Hr Hc Hab).
  - intros k' [_ [Hk' _]] Hne. destruct (decide (home t k' = home t k)) as [Heq|Hq].
    + rewrite (Get_row _ _ k' _ Hr' ltac:(rewrite Hcap, Heq; exact Hc')).
      rewrite (Get_row t cs k' c Hr ltac:(rewrite Heq; exact Hc)). f_equal.
      by apply cluster_get_insert_ne.
    + by eapply Get_other_row.
Qed.

(** A new key whose insertion displaces another is written to the last
    slot of its cluster, which [Get] does not scan: it is not found. *)
Theorem lp_new_key_hidden t k v t' d :
  lp_wf t -> (forall p, p ∈ dict t -> pkey p <> k) ->
  Insert t k v = Some (t', d) -> d <> INVALID -> Get t' k = Some NONE.
Proof.
  intros Hwf Hab Hins Hne.
  destruct (Insert_inv _ _ _ _ _ Hwf Hins)
    as (cs & c & Hr & Hc & Hl & Hd & Hcap & Hr' & Hc').
  rewrite (Get_row _ _ _ _ Hr' ltac:(rewrite Hcap; exact Hc')). f_equal.
  apply cluster_get_full; [done| |exact (absent_row t cs k c Hr Hc Hab)].
  destruct (cluster_full c) eqn:Hf; [done|]. exfalso. apply Hne. subst d.
  by apply cluster_displaced.
Qed.

(** Insertions into different clusters commute and are invisible to each
    other's keys, which is what makes one lock per cluster enough. *)
Theorem lp_clusters_independent t k1 v1 k2 v2 :
  lp_wf t -> home t k1 <> home t k2 ->
  exists t1 t2 t12 d1 d2,
    Insert t k1 v1 = Some (t1, d1) /\ Insert t1 k2 v2 = Some (t12, d2)
    /\ Insert t k2 v2 = Some (t2, d2) /\ Insert t2 k1 v1 = Some (t12, d1)
    /\ Get t1 k2 = Get t k2 /\ Get t2 k1 = Get t k1.
Proof.
  intros Hwf Hne. pose proof Hwf as [cs Hr].
  destruct (home_lookup t cs k1 Hr) as (c1 & Hc1 & Hl1).
  destruct (home_lookup t cs k2 Hr) as (c2 & Hc2 & Hl2).
  pose proof (Insert_row t cs k1 v1 c1 Hr Hc1) as H1.
  pose proof (Insert_row t cs k2 v2 c2 Hr Hc2) as H2.
  pose proof (rep_set t cs (home t k1) _ (if cluster_full c1 then size_ t else u64 (size_ t + 1)) Hr
                (cluster_insert_length c1 k1 v1 Hl1)) as Hr1.
  pose proof (rep_set t cs (home t k2) _ (if cluster_full c2 then size_ t else u64 (size_ t + 1)) Hr
                (cluster_insert_length c2 k2 v2 Hl2)) as Hr2.
  do 5 eexists. split; [exact H1|]. split.
  { apply (Insert_row _ _ k2 v2 c2 Hr1). cbn [capacity]. by rewrite list_lookup_insert_ne. }
  split; [exact H2|]. split.
  { rewrite (Insert_row _ _ k1 v1 c1 Hr2) by (cbn [capacity]; by rewrite list_lookup_insert_ne).
    cbn [capacity size_ nlocks locksize]. rewrite list_insert_insert_ne by done.
    by destruct (cluster_full c1), (cluster_full c2). }
  split; eapply Get_other_row; try done; congruence.
Qed.

End Refinement.

(** ** The probing sequence of [getLocation] *)

(** Distinct slots that are all in use are at most as many as the pairs. *)
Lemma used_slots_le d (vs : list nat) :
  NoDup vs -> (forall s, s ∈ vs -> exists p, d !! s = Some p /\ pkey p <> INVALID) ->
  (length vs <= length (used d))%nat.
Proof.
  revert vs. induction d as [|p d IH] using rev_ind; intros vs Hnd Hvs.
  - destruct vs as [|s vs]; [simpl; lia|]. destruct (Hvs s) as (p & Hp & _); [set_solver|done].
  - destruct (decide (length d ∈ vs)) as [Hin|Hout].
    + destruct (Hvs _ Hin) as (q & Hq & Hu).
      rewrite lookup_app_r, Nat.sub_diag in Hq by lia. simplify_eq/=.
      apply list_elem_of_split in Hin as (l1 & l2 & ->).
      assert (length (l1 ++ l2) <= length (used d))%nat as Hle.
      { apply IH.
        - apply NoDup_app in Hnd as (H1 & H2 & H3). apply NoDup_cons in H3 as [H3 H4].
          apply NoDup_app. split_and!; [done|set_solver|done].
        - intros s Hs. destruct (Hvs s) as (q' & Hq' & Hu'); [set_solver|].
          exists q'. split; [|done]. rewrite lookup_app_Some in Hq'. destruct Hq' as [?|[Hge Hq']]; [done|].
          exfalso. apply list_lookup_singleton_Some in Hq' as [Hz _].
          assert (s = length d) as -> by lia.
          apply NoDup_app in Hnd as (_ & H2 & H3). apply NoDup_cons in H3 as [H3 _].
          apply elem_of_app in Hs as [Hs|Hs]; [|done]. apply (H2 _ Hs). set_solver. }
      unfold used in *. rewrite filter_app, filter_cons_True by done.
      rewrite !length_app in *. simpl in *. lia.
    + etrans; [apply IH; [done|]|unfold used; rewrite filter_app, length_app; lia].
      intros s Hs. destruct (Hvs s Hs) as (q & Hq & Hu). exists q. split; [|done].
      rewrite lookup_app_Some in Hq. destruct Hq as [?|[Hge Hq]]; [done|].
      exfalso. apply list_lookup_singleton_Some in Hq as [Hz _].
      apply Hout. by replace (length d) with s by lia.
Qed.

(** The slots the loop has passed after [i] rounds from [start]. *)
Definition ring (cap start : Z) (i : nat) : list nat :=
  (fun j => Z.to_nat ((start + Z.of_nat j) mod cap)) <$> seq 0 i.

Lemma ring_NoDup cap start i : 0 < cap -> Z.of_nat i <= cap -> NoDup (ring cap start i).
Proof.
  intros Hcap Hi. unfold ring. apply NoDup_fmap_2_strong; [|apply NoDup_seq].
  intros x y Hx Hy Heq. rewrite elem_of_seq in Hx, Hy.
  pose proof (Z.mod_pos_bound (start + Z.of_nat x) cap Hcap).
  pose proof (Z.mod_pos_bound (start + Z.of_nat y) cap Hcap).
  assert ((start + Z.of_nat x) mod cap = (start + Z.of_nat y) mod cap) as Hm by lia.
  pose proof (Z.div_mod (start + Z.of_nat x) cap ltac:(lia)).
  pose proof (Z.div_mod (start + Z.of_nat y) cap ltac:(lia)).
  assert (Z.of_nat x - Z.of_nat y
          = cap * ((start + Z.of_nat x) / cap - (start + Z.of_nat y) / cap)) as Hdiff by lia.
  destruct (Ztrichotomy_inf ((start + Z.of_nat x) / cap) ((start + Z.of_nat y) / cap))
    as [[Hlt|He]|Hgt]; nia.
Qed.

Lemma ring_S cap start i :
  ring cap start (S i) = ring cap start i ++ [Z.to_nat ((start + Z.of_nat i) mod cap)].
Proof. unfold ring. by rewrite seq_S, fmap_app. Qed.

Definition all_used (d : list Pair) (vs : list nat) : Prop :=
  forall s, s ∈ vs -> exists p, d !! s = Some p /\ pkey p <> INVALID.

Lemma all_used_le d cap start i :
  0 < cap -> Z.of_nat i <= cap -> all_used d (ring cap start i) ->
  (i <= length (used d))%nat.
Proof.
  intros Hcap Hi Ha. pose proof (used_slots_le d _ (ring_NoDup cap start i Hcap Hi) Ha) as Hle.
  unfold ring in Hle. by rewrite length_fmap, length_seq in Hle.
Qed.

(** With fewer pairs than slots and than rounds, the loop ends at a free slot. *)
Lemma location_loop_found d cap cap' start fuel i :
  length d = Z.to_nat cap' -> 0 < cap' < 2 ^ 63 -> cap < 2 ^ 63 -> 0 <= start < cap' ->
  Z.of_nat (length (used d)) < cap -> Z.of_nat (length (used d)) < cap' ->
  (i + fuel = S (Z.to_nat cap))%nat ->
  all_used d (ring cap' start i) ->
  exists s p, location_loop fuel cap cap' d ((start + Z.of_nat i) mod cap') (Z.of_nat i) = Some (Z.of_nat s)
    /\ (s < length d)%nat /\ d !! s = Some p /\ pkey p = INVALID.
Proof.
  intros Hlen Hcap' Hcap Hstart Hu Hu'. revert i.
  induction fuel as [|fuel IH]; intros i Hfuel Ha;
    (assert (Z.of_nat i <= cap') by
       (destruct (Z.le_gt_cases (Z.of_nat i) cap'); [done|];
        assert (Z.to_nat cap' <= length (used d))%nat;
        [apply (all_used_le d cap' start); [lia..|];
         intros s Hs; apply Ha; unfold ring in *; set_unfold; naive_solver lia|lia]));
    pose proof (all_used_le d cap' start i ltac:(lia) ltac:(lia) Ha) as Hi; [lia|].
  simpl. pose proof (Z.mod_pos_bound (start + Z.of_nat i) cap' ltac:(lia)) as Hb.
  set (cur := (start + Z.of_nat i) mod cap') in *.
  destruct (lookup_lt_is_Some_2 d (Z.to_nat cur)) as [p Hp]; [lia|]. rewrite Hp. simpl.
  destruct (is_free p) eqn:Hf.
  - exists (Z.to_nat cur), p. rewrite Z2Nat.id by lia. split_and!; try done; [lia|by apply is_free_true].
  - assert (all_used d (ring cap' start (S i))) as Ha'.
    { intros s. rewrite ring_S, elem_of_app, list_elem_of_singleton.
      intros [Hs| ->]; [by apply Ha|]. exists p. split; [done|]. by apply is_free_false. }
    pose proof (all_used_le d cap' start (S i) ltac:(lia) ltac:(lia) Ha') as Hi'.
    rewrite (wrap_small 64 (cur + 1)), urem_pos, (wrap_small 64) by lia. simpl.
    destruct (Z.ltb_spec (Z.of_nat i + 1) cap); [|lia].
    replace ((cur + 1) mod cap') with ((start + Z.of_nat (S i)) mod cap').
    2:{ unfold cur. rewrite Zplus_mod_idemp_l. f_equal. lia. }
    replace (Z.of_nat i + 1) with (Z.of_nat (S i)) by lia.
    apply IH; [lia|done].
Qed.

Lemma getLocation_found d cap cap' start :
  length d = Z.to_nat cap' -> 0 < cap' < 2 ^ 63 -> cap < 2 ^ 63 -> 0 <= start < cap' ->
  Z.of_nat (length (used d)) < cap -> Z.of_nat (length (used d)) < cap' ->
  exists s p, getLocation cap start cap' d
              = Some (Z.of_nat s, <[s := MkPair SENTINEL (pvalue p)]> d)
    /\ (s < length d)%nat /\ d !! s = Some p /\ pkey p = INVALID.
Proof.
  intros Hlen Hcap' Hcap Hstart Hu Hu'. unfold getLocation.
  destruct (location_loop_found d cap cap' start (S (Z.to_nat cap)) 0)
    as (s & p & Hloop & Hs & Hp & Hinv); try done.
  { intros s Hs. by apply elem_of_nil in Hs. }
  rewrite Z.add_0_r, Z.mod_small in Hloop by lia. change (Z.of_nat 0) with 0 in Hloop.
  rewrite Hloop. simpl.
  destruct (Z.eqb_spec (Z.of_nat s) INVALID) as [He|_].
  { assert (INVALID = 2 ^ 64 - 1) by done. lia. }
  exists s, p. rewrite Nat2Z.id, Hp. simpl. by rewrite store_Some.
Qed.

Section Rehash.
Context `{StdHash}.

Lemma rehash_step_ok cap cap' d nd i :
  length nd = Z.to_nat cap' -> 0 < cap' < 2 ^ 63 -> cap < 2 ^ 63 -> Z.of_nat (length d) = cap ->
  Z.of_nat (length (used d)) <= cap' -> (i < length d)%nat ->
  used nd ≡ₚ used (take i d) ->
  exists nd', rehash_step cap cap' d nd i = Some nd'
    /\ length nd' = Z.to_nat cap' /\ used nd' ≡ₚ used (take (S i) d).
Proof.
  intros Hlen Hcap' Hcap Hd Hle Hi Hp.
  destruct (lookup_lt_is_Some_2 d i Hi) as [p Hdi]. unfold rehash_step. rewrite Hdi. simpl.
  rewrite (take_S_r _ _ _ Hdi). unfold used at 2. rewrite filter_app. fold (used (take i d)).
  destruct (is_free p) eqn:Hf.
  { apply is_free_true in Hf. exists nd. split_and!; try done.
    rewrite filter_cons_False, filter_nil, app_nil_r by naive_solver. done. }
  apply is_free_false in Hf. rewrite filter_cons_True, filter_nil by done.
  rewrite urem_pos by lia. simpl.
  assert (length (used nd) = length (used (take i d))) as Hul by (by rewrite Hp).
  assert (length (used (take i d)) < length (used d))%nat.
  { rewrite <- (take_drop_middle d i p Hdi) at 2. unfold used.
    rewrite filter_app, filter_cons_True, length_app by done. simpl. lia. }
  pose proof (used_length (take i d)) as Hti. rewrite length_take in Hti.
  destruct (getLocation_found nd cap cap' (h (pkey p) h_seed mod cap'))
    as (s & q & Hloc & Hs & Hq & Hinv); try done; try lia.
  { apply Z.mod_pos_bound. lia. }
  rewrite Hloc. simpl. rewrite Nat2Z.id, store_Some by (by rewrite length_insert).
  eexists. split; [done|]. rewrite list_insert_insert_eq. split; [by rewrite length_insert|].
  rewrite (used_insert nd s q p), Hp by done. apply Permutation_cons_append.
Qed.

(** [resize] returns, for every new capacity that holds the pairs in use,
    and the new table holds exactly the same pairs. *)
Theorem lp_resize_preserves junk t cap' :
  Z.of_nat (length (dict t)) = capacity t -> capacity t < 2 ^ 63 ->
  0 < cap' < 2 ^ 63 -> Z.of_nat (length (used (dict t))) <= cap' ->
  exists t', resize junk t cap' = Some t'
    /\ capacity t' = cap' /\ length (dict t') = Z.to_nat cap'
    /\ used (dict t') ≡ₚ used (dict t).
Proof.
  intros Hlen Hcap Hcap' Hle. unfold resize.
  destruct (foldM_seq
    (fun i nd => length nd = Z.to_nat cap' /\ used nd ≡ₚ used (take i (dict t)))
    (rehash_step (capacity t) cap' (dict t)) (Z.to_nat (capacity t))
    (new_Pairs junk (Z.to_nat cap'))) as (nd & -> & Hnd & Hp).
  - by rewrite new_Pairs_length, new_Pairs_used.
  - intros i nd Hi [Hnd Hp]. apply rehash_step_ok; try done. lia.
  - simpl. eexists. split; [done|]. simpl. split_and!; [done|done|].
    by rewrite Hp, take_ge by lia.
Qed.

End Rehash.

(** ** The interface promised to the key-value store *)

Section Interface.
Context `{StdHash}.

Lemma Insert_keys t k v t' d :
  lp_wf t -> k <> INVALID -> Insert t k v = Some (t', d) ->
  lp_wf t' /\ keys_of (dict t') ⊎ displaced d = keys_of (dict t) ⊎ {[+ k +]}.
Proof.
  intros Hwf Hk Hins. destruct (Insert_inv _ _ _ _ _ Hwf Hins)
    as (cs & c & Hr & Hc & Hl & -> & _ & Hr' & _).
  split; [by eexists|]. rewrite (rep_dict _ _ Hr), (rep_dict _ _ Hr').
  pose proof (cluster_insert_keys c k v Hl Hk) as Hck.
  pose proof (keys_of_concat_insert cs _ c (cluster_insert c k v).1 Hc). multiset_solver.
Qed.

Lemma Get_stored t k v :
  lp_wf t -> k <> INVALID -> Get t k = Some v -> v <> NONE -> k ∈ keys_of (dict t).
Proof.
  intros [cs Hr] Hk Hget Hv. destruct (home_lookup t cs k Hr) as (c & Hc & _).
  rewrite (Get_row t cs k c) in Hget by done. simplify_eq. unfold cluster_get in Hv.
  destruct (list_find _ (take 15 c)) as [[j p]|] eqn:Hf; [|done].
  apply list_find_Some in Hf as (Hj & HP & _). apply Is_true_true, has_key_true in HP.
  apply elem_of_keys_of. split; [done|]. exists p. split; [|done].
  rewrite (rep_dict _ _ Hr). eapply elem_of_concat_row; [done|].
  by apply list_elem_of_lookup_2, subseteq_take in Hj.
Qed.

Lemma cluster_insert_pairs c k v p :
  p ∈ (cluster_insert c k v).1 -> p ∈ c \/ p = MkPair k v.
Proof.
  unfold cluster_insert. destruct (list_find _ (take 15 c)) as [[j q]|]; simpl; intros Hp.
  - apply list_elem_of_lookup in Hp as [i Hi].
    apply list_lookup_insert_Some in Hi as [(_ & <- & _)|[_ Hi]]; [by right|left].
    by eapply list_elem_of_lookup_2.
  - apply elem_of_app in Hp as [Hp|Hp%list_elem_of_singleton]; [left|by right]. by apply subseteq_drop in Hp.
Qed.

Lemma lp_Insert_pairs t k v t' d :
  lp_wf t -> Insert t k v = Some (t', d) ->
  lp_wf t' /\ forall p, p ∈ dict t' -> p ∈ dict t \/ p = MkPair k v.
Proof.
  intros Hwf Hins. destruct (Insert_inv _ _ _ _ _ Hwf Hins) as (cs & c & Hr & Hc & _ & _ & _ & Hr' & _).
  split; [by eexists|]. intros p. rewrite (rep_dict _ _ Hr), (rep_dict _ _ Hr'). intros Hp.
  apply list_elem_of_In, in_concat in Hp as (row & Hrow & Hp).
  rewrite <- list_elem_of_In in Hrow. rewrite <- list_elem_of_In in Hp. apply list_elem_of_lookup in Hrow as [q Hq].
  apply list_lookup_insert_Some in Hq as [(_ & <- & _)|[_ Hq]].
  - apply cluster_insert_pairs in Hp as [Hp|Hp]; [left|by right]. by eapply elem_of_concat_row.
  - left. by eapply elem_of_concat_row.
Qed.

Lemma lp_Get_pairs t k v :
  lp_wf t -> Get t k = Some v -> v <> NONE -> MkPair k v ∈ dict t.
Proof.
  intros [cs Hr] Hget Hv. destruct (home_lookup t cs k Hr) as (c & Hc & _).
  rewrite (Get_row t cs k c) in Hget by done. injection Hget as Hget. unfold cluster_get in Hget.
  destruct (list_find _ (take 15 c)) as [[j [pk pv]]|] eqn:Hf; [|by subst].
  apply list_find_Some in Hf as (Hj & HP & _). apply Is_true_true, has_key_true in HP.
  simpl in *. subst. rewrite (rep_dict _ _ Hr). eapply elem_of_concat_row; [done|].
  by apply list_elem_of_lookup_2, subseteq_take in Hj.
Qed.

#[export, refine] Instance LinearProbing_pairs : IHashPairs LinearProbingHash := {
  ihp_wf := lp_wf;
  ihp_holds t k v := MkPair k v ∈ dict t;
}.
Proof.
  - intros t k v t' d Hwf _ Hins. destruct (lp_Insert_pairs _ _ _ _ _ Hwf Hins) as [Hwf' Hp].
    split; [done|]. intros k' v' [?|[= -> ->]]%Hp; auto.
  - intros t k v Hwf _ Hg Hv. by apply lp_Get_pairs.
Defined.

#[export, refine] Instance LinearProbing_spec : IHashSpec LinearProbingHash := {
  ih_wf := lp_wf;
  ih_stored t := keys_of (dict t);
}.
Proof.
  - intros t k v t' d Hwf (_ & Hk & _) Hins.
    destruct (Insert_keys t k v t' d) as [Hwf' ->]; done.
  - intros t k v Hwf (_ & Hk & _). by apply Get_stored.
Defined.

#[export] Instance LinearProbing_total : IHashTotal LinearProbingHash.
Proof.
  intros t k v [cs Hr] _. destruct (home_lookup t cs k Hr) as (c & Hc & _).
  do 2 eexists. by apply (Insert_row t cs k v c).
Qed.

(** ** The member [size] *)

Definition insert_all (t : LinearProbingHash) (kvs : list (Key_t * Value_t))
  : option LinearProbingHash :=
  foldM (fun t kv => '(t, _) ← Insert t kv.1 kv.2; Some t) kvs t.

Lemma displaced_size d : size (displaced d) = if decide (d = INVALID) then 0%nat else 1%nat.
Proof. unfold displaced. case_decide; [done|]. apply gmultiset_size_singleton. Qed.

Definition size_ok (t : LinearProbingHash) : Prop :=
  size_ t = Z.of_nat (length (used (dict t))).

Lemma Insert_size t k v t' d :
  lp_wf t -> k <> INVALID -> capacity t < 2 ^ 63 -> size_ok t ->
  Insert t k v = Some (t', d) -> size_ok t' /\ capacity t' = capacity t.
Proof.
  intros Hwf Hk Hcap Hsz Hins. destruct (Insert_keys t k v t' d) as [_ Hkeys]; [done..|].
  destruct Hwf as [cs Hr]. destruct (home_lookup t cs k Hr) as (c & Hc & Hl).
  rewrite (Insert_row t cs k v c) in Hins by done. simplify_eq. split; [|done].
  unfold size_ok in *. simpl in *. apply (f_equal size) in Hkeys.
  rewrite !gmultiset_size_disj_union, !keys_of_size, displaced_size, gmultiset_size_singleton in Hkeys.
  pose proof (used_length (dict t)) as Hu. rewrite (rep_dict _ _ Hr) in Hu at 2.
  rewrite (rectangular_length 16) in Hu by apply (rep_rows _ _ Hr).
  pose proof (rep_capacity _ _ Hr).
  pose proof (cluster_displaced c k v Hl) as Hd. destruct (cluster_full c) eqn:Hfull.
  - rewrite decide_False in Hkeys by naive_solver. lia.
  - rewrite decide_True in Hkeys by naive_solver. rewrite wrap_small by lia. lia.
Qed.

Lemma Utilization_count t cs :
  rep t cs -> capacity t < 2 ^ 63 ->
  Utilization_size t = Some (Z.of_nat (length (used (dict t)))).
Proof.
  intros Hr Hcap. assert (length (dict t) = Z.to_nat (capacity t)) as Hlen.
  { rewrite (rep_dict _ _ Hr), (rectangular_length 16), (rep_capacity _ _ Hr) by apply (rep_rows _ _ Hr). lia. }
  unfold Utilization_size.
  destruct (foldM_seq (fun i s => s = Z.of_nat (length (used (take i (dict t)))))
    (fun size i => p ← dict t !! i; Some (if is_free p then size else u64 (size + 1)))
    (Z.to_nat (capacity t)) 0) as (s & -> & ->).
  - done.
  - intros i s Hi ->. destruct (lookup_lt_is_Some_2 (dict t) i) as [p Hp]; [lia|].
    rewrite Hp. simpl. eexists. split; [done|]. rewrite (take_S_r _ _ _ Hp).
    pose proof (used_length (take i (dict t))) as Hu. rewrite length_take in Hu.
    unfold used. rewrite filter_app, length_app. fold (used (take i (dict t))).
    destruct (is_free p) eqn:Hf.
    + apply is_free_true in Hf. rewrite filter_cons_False by naive_solver. simpl. lia.
    + apply is_free_false in Hf. rewrite filter_cons_True by done. rewrite wrap_small by lia.
      simpl. lia.
  - by rewrite take_ge by lia.
Qed.

(** From a new table, any sequence of insertions returns, and the member
    [size] is then the number of slots in use, which is also what
    [Utilization] counts. *)
Theorem lp_size_exact junk n kvs :
  (0 < n)%nat -> Z.of_nat n < 2 ^ 30 -> Forall (fun kv => valid_key kv.1) kvs ->
  exists t, insert_all (new_table junk (16 * Z.of_nat n)) kvs = Some t
    /\ size_ t = Z.of_nat (length (used (dict t)))
    /\ Utilization_size t = Some (size_ t).
Proof.
  intros Hn Hmax Hkvs.
  assert (forall t, lp_wf t -> size_ok t -> capacity t < 2 ^ 63 ->
    exists t', insert_all t kvs = Some t' /\ lp_wf t' /\ size_ok t' /\ capacity t' = capacity t) as Hrun.
  { unfold insert_all.
    induction Hkvs as [|[k v] kvs Hk _ IH]; intros t Hwf Hsz Hcap; cbn [foldM fst snd] in *; [eauto|].
    pose proof (LinearProbing_total t k v Hwf Hk) as (t' & d & Hins).
    change (ih_Insert t k v) with (Insert t k v) in Hins. rewrite Hins. simpl.
    destruct Hk as (_ & Hk & _). destruct (Insert_size t k v t' d) as [Hsz' Hc']; [done..|].
    rewrite <- Hc'. apply IH; [by apply (Insert_keys t k v t' d)|done|lia]. }
  destruct (new_table_rep junk n Hn Hmax) as (cs & Hr & _).
  destruct (Hrun (new_table junk (16 * Z.of_nat n))) as (t & Ht & [cs' Hr'] & Hsz & Hcap).
  - by exists cs.
  - unfold size_ok. simpl. by rewrite new_Pairs_used.
  - simpl. lia.
  - exists t. split_and!; [done|done|]. unfold size_ok in Hsz. rewrite Hsz.
    apply (Utilization_count t cs'); [done|]. rewrite Hcap. simpl. lia.
Qed.

End Interface.

(** ** Concrete runs

    A table of one or two clusters under [plain_hash], which maps a key to
    itself. *)

Section Examples.
#[local] Existing Instance plain_hash.

Definition two_clusters : LinearProbingHash := new_table (fun _ => 0) 32.

Lemma two_clusters_rep : rep two_clusters (replicate 2 (replicate 16 (Pair_void 0))).
Proof. split; first [done | by repeat constructor | simpl; lia]. Qed.

(** One cluster after the insertion of [n] keys [1, 2, ..., n]. *)
Definition one_cluster (n : nat) : option LinearProbingHash :=
  insert_all (new_table (fun _ => 0) 16) ((fun k => (Z.of_nat k, Z.of_nat k + 100)) <$> seq 1 n).

Definition full_dict : list Pair :=
  ((fun k => MkPair (Z.of_nat k) (Z.of_nat k + 100)) <$> seq 1 15) ++ [Pair_void 0].

Lemma full_dict_reached :
  one_cluster 15 = Some (MkLP 16 full_dict 15 2 16).
Proof. vm_compute. done. Qed.

Lemma full_dict_wf : lp_wf (MkLP 16 full_dict 15 2 16).
Proof. exists [full_dict]. split; first [done | by repeat constructor | simpl; lia]. Qed.

Lemma lp_refines_witness :
  exists c, Get two_clusters 5 = Some (cluster_get c 5)
    /\ exists t', Insert two_clusters 5 7 = Some (t', (cluster_insert c 5 7).2).
Proof.
  destruct (lp_refines two_clusters _ 5 7 two_clusters_rep) as (c & _ & Hg & t' & Hi & _).
  exists c. split; [exact Hg|]. exists t'. exact Hi.
Defined.

Lemma lp_insert_get_witness :
  exists t', Insert two_clusters 5 7 = Some (t', INVALID) /\ Get t' 5 = Some 7.
Proof.
  assert (snd <$> Insert two_clusters 5 7 = Some INVALID) as Hd by (vm_compute; reflexivity).
  destruct (Insert two_clusters 5 7) as [[t' d]|] eqn:Hi; simplify_eq/=.
  exists t'. split; [reflexivity|].
  apply (lp_insert_get two_clusters 5 7 t').
  - eexists. exact two_clusters_rep.
  - vm_compute. repeat split; discriminate.
  - intros p Hp. apply list_elem_of_lookup_1 in Hp as [i Hi'].
    apply new_Pairs_lookup in Hi'. rewrite Hi'. discriminate.
  - exact Hi.
Defined.

Lemma lp_new_key_hidden_witness :
  exists t', Insert (MkLP 16 full_dict 15 2 16) 33 133 = Some (t', 1) /\ Get t' 33 = Some NONE.
Proof.
  assert (snd <$> Insert (MkLP 16 full_dict 15 2 16) 33 133 = Some 1) as Hd
    by (vm_compute; reflexivity).
  destruct (Insert (MkLP 16 full_dict 15 2 16) 33 133) as [[t' d]|] eqn:Hi; [|discriminate].
  injection Hd as ->. exists t'. split; [reflexivity|].
  apply (lp_new_key_hidden (MkLP 16 full_dict 15 2 16) 33 133 t' 1 full_dict_wf); [|exact Hi|discriminate].
  apply Forall_forall. unfold full_dict. vm_compute. repeat constructor; discriminate.
Defined.

Lemma lp_clusters_independent_witness :
  exists t1 t12 d1 d2, Insert two_clusters 5 7 = Some (t1, d1) /\ Insert t1 20 9 = Some (t12, d2).
Proof.
  destruct (lp_clusters_independent two_clusters 5 7 20 9)
    as (t1 & t2 & t12 & d1 & d2 & H1 & H2 & _).
  - eexists. exact two_clusters_rep.
  - vm_compute. discriminate.
  - exists t1, t12, d1, d2. split; [exact H1|exact H2].
Defined.

Lemma lp_size_exact_witness :
  exists t, insert_all (new_table (fun _ => 0) 32) [(5, 7); (5, 8); (6, 9)] = Some t
    /\ size_ t = Z.of_nat (length (used (dict t))).
Proof.
  destruct (lp_size_exact (fun _ => 0) 2 [(5, 7); (5, 8); (6, 9)]) as (t & Ht & Hs & _).
  - lia.
  - lia.
  - repeat constructor; vm_compute; repeat split; discriminate.
  - exists t. split; [exact Ht|exact Hs].
Defined.

Lemma lp_resize_preserves_witness :
  exists t', resize (fun _ => 0) (MkLP 16 full_dict 15 2 16) 32 = Some t'
    /\ used (dict t') ≡ₚ used full_dict.
Proof.
  destruct (lp_resize_preserves (fun _ => 0) (MkLP 16 full_dict 15 2 16) 32)
    as (t' & Ht & _ & _ & Hp).
  - reflexivity.
  - simpl. lia.
  - lia.
  - vm_compute. discriminate.
  - exists t'. split; [exact Ht|exact Hp].
Defined.

(** Inserting a key again does not change what [Get] answers. *)
Example lp_update_ignored :
  (t ← insert_all two_clusters [(5, 7); (5, 8)]; Get t 5) = Some 7.
Proof. vm_compute. done. Qed.

(** A capacity that is no multiple of 16: the last cluster leaves the array. *)
Example lp_last_cluster_overrun :
  insert_all (new_table (fun _ => 0) 17) [(16, 1); (33, 2)] = None.
Proof. vm_compute. done. Qed.

(** [resize] probes past the end of a cluster, where [Get] does not look. *)
Example lp_resize_hides :
  (t ← insert_all (new_table (fun _ => 0) 16) [(14, 1); (46, 2); (78, 3)]; Get t 78) = Some 3 /\
  (t ← insert_all (new_table (fun _ => 0) 16) [(14, 1); (46, 2); (78, 3)];
   t ← resize (fun _ => 0) t 32; Get t 78) = Some NONE.
Proof. vm_compute. done. Qed.

End Examples.
