(* ===== verification/CuckooProbing.v ===== *)
(** * The cuckoo-probing table (server/src/cuckoo_probing.cpp)

    The members, the constructor, [InsertOnly], [getLocation] and [resize]
    are those of the linear-probing table.  [Insert] overwrites the value of
    a key that is already there, and when a cluster is full it moves the
    oldest pair to the head of a second cluster, marked by [cuckooBit] in
    its value; a pair that is already marked is dropped instead.

    As for the linear table, the operations are first brought down to the
    clusters they touch ([place], [Insert_rows]). *)

From S2P Require Import Prelude PairDefs HashFun LinearProbing.

Record CuckooProbingHash : Type := MkCP { base : LinearProbingHash }.

Definition cuckooBit : Z := 1 ≪ 63.

(** [(uint64_t) value & cuckooBit], [value | cuckooBit], [value & ~cuckooBit] *)
Definition marked (v : Value_t) : bool := negb (Z.land v cuckooBit =? 0).
Definition mark (p : Pair) : Pair := MkPair (pkey p) (Z.lor (pvalue p) cuckooBit).
Definition unmark (v : Value_t) : Value_t := Z.land v (Z.lxor (2 ^ 64 - 1) cuckooBit).

Section Operations.
Context `{StdHash}.

Definition new_table (junk : nat -> Value_t) (_capacity : Z) : CuckooProbingHash :=
  MkCP (LinearProbing.new_table junk _capacity).

(** [firstIndex] of a hash value, without a lock. *)
Definition next_index (t : LinearProbingHash) (key_hash : Z) : option nat :=
  slot ← urem key_hash (capacity t);
  off ← urem slot (locksize t);
  Some (Z.to_nat (slot - off)).

Definition next_hash (key : Key_t) : Z := hash_funcs 0 (key_bytes key) 951125.

(** [dict[firstIndex + i] = dict[firstIndex + i - 1]] for [i = j, ..., 1] *)
Definition shift_right (d : list Pair) (firstIndex j : nat) : option (list Pair) :=
  foldM (fun d i => p ← d !! (firstIndex + i - 1)%nat; store d (firstIndex + i) p)
    (rev (seq 1 j)) d.

(** Lines 90 to 129: [cuckooPair] goes to the head of the second cluster. *)
Definition cuckoo_move (t : LinearProbingHash) (key : Key_t) (cuckooPair : Pair)
  : option (LinearProbingHash * Key_t) :=
  firstIndex ← next_index t (next_hash key);
  let n := Z.to_nat (locksize t - 1) in
  r ← probe (seq firstIndex n) is_free (dict t);
  match r with
  | Some slot =>
      d ← shift_right (dict t) firstIndex (slot - firstIndex);
      d ← store d firstIndex (mark cuckooPair);
      Some (incr_size (set_dict t d), INVALID)
  | None =>
      q ← dict t !! firstIndex;
      let deleteKey := pkey q in
      d ← store (dict t) firstIndex (mark cuckooPair);
      Some (set_dict t d, deleteKey)
  end.

Definition insert_base (t : LinearProbingHash) (key : Key_t) (value : Value_t)
  : option (LinearProbingHash * Key_t) :=
  firstIndex ← locate t (h key h_seed);
  let n := Z.to_nat (locksize t - 1) in
  r ← probe (seq firstIndex n) (fun p => is_free p || has_key key p) (dict t);
  match r with
  | Some slot =>
      d ← store (dict t) slot (MkPair key value);
      Some (incr_size (set_dict t d), INVALID)
  | None =>
      cuckooPair ← dict t !! firstIndex;
      d ← shift_left (dict t) firstIndex n;
      d ← store d (firstIndex + n) (MkPair key value);
      let t := set_dict t d in
      if marked (pvalue cuckooPair) then Some (t, pkey cuckooPair)
      else cuckoo_move t key cuckooPair
  end.

Definition Insert (t : CuckooProbingHash) (key : Key_t) (value : Value_t)
  : option (CuckooProbingHash * Key_t) :=
  '(t, d) ← insert_base (base t) key value; Some (MkCP t, d).

Definition get_base (t : LinearProbingHash) (key : Key_t) : option Value_t :=
  key_hash ← urem (h key h_seed) (capacity t);
  firstIndex ← locate t key_hash;
  let n := Z.to_nat (locksize t - 1) in
  r ← probe (seq firstIndex n) (has_key key) (dict t);
  match r with
  | Some id => p ← dict t !! id; Some (pvalue p)
  | None =>
      firstIndex ← locate t (next_hash key);
      r ← probe (seq firstIndex n) (has_key key) (dict t);
      match r with
      | Some id => p ← dict t !! id; Some (unmark (pvalue p))
      | None => Some NONE
      end
  end.

Definition Get (t : CuckooProbingHash) (key : Key_t) : option Value_t := get_base (base t) key.

Definition Delete (t : CuckooProbingHash) (key : Key_t)
  : option (CuckooProbingHash * bool) := Some (t, false).
Definition Insert_extent (t : CuckooProbingHash) (_ : Key_t) (_ _ : Z) (_ : Value_t)
  : option CuckooProbingHash := Some t.
Definition Get_extent (t : CuckooProbingHash) (_ : Key_t) (_ : Z) : option Value_t := Some NONE.
Definition FindAnyway (t : CuckooProbingHash) (_ : Key_t) : option Value_t := Some NONE.
Definition Recovery (t : CuckooProbingHash) : option (CuckooProbingHash * bool) := Some (t, false).
Definition Capacity (t : CuckooProbingHash) : Z := capacity (base t).

(** The following three are line for line those of linear_probing.cpp. *)
Definition Utilization_size (t : CuckooProbingHash) : option Z :=
  LinearProbing.Utilization_size (base t).
Definition InsertOnly (t : CuckooProbingHash) (key : Key_t) (value : Value_t)
  : option (CuckooProbingHash * bool) :=
  '(t, b) ← LinearProbing.InsertOnly (base t) key value; Some (MkCP t, b).
Definition resize (junk : nat -> Value_t) (t : CuckooProbingHash) (_capacity : Z)
  : option CuckooProbingHash :=
  t ← LinearProbing.resize junk (base t) _capacity; Some (MkCP t).

End Operations.

#[export] Instance CuckooProbing_IHash `{StdHash} : IHash CuckooProbingHash := {
  ih_Insert := Insert;
  ih_Insert_extent := Insert_extent;
  ih_Delete := Delete;
  ih_Get := Get;
  ih_Get_extent := Get_extent;
  ih_FindAnyway := FindAnyway;
  ih_Capacity := Capacity;
  ih_Recovery := Recovery;
}.

(** ** The operations on clusters *)

(** [cuckoo_move] on the second cluster. *)
Definition place (c : list Pair) (p : Pair) : list Pair * Key_t :=
  match list_find (fun p => is_free p) (take 15 c) with
  | Some (j, _) => (p :: take j c ++ drop (S j) c, INVALID)
  | None => (<[0%nat := p]> c, from_option pkey INVALID (c !! 0%nat))
  end.

(** [Insert] on the list of clusters; [q1] and [q2] are the two clusters of
    the key, which may be the same. *)
Definition rows_insert (cs : list (list Pair)) (q1 q2 : nat) (k : Key_t) (v : Value_t)
  : option (list (list Pair) * Key_t) :=
  c ← cs !! q1;
  match list_find (fun p => is_free p || has_key k p) (take 15 c) with
  | Some (j, _) => Some (<[q1 := <[j := MkPair k v]> c]> cs, INVALID)
  | None =>
      p ← c !! 0%nat;
      let cs := <[q1 := drop 1 c ++ [MkPair k v]]> cs in
      if marked (pvalue p) then Some (cs, pkey p)
      else
        c2 ← cs !! q2;
        Some (<[q2 := (place c2 (mark p)).1]> cs, (place c2 (mark p)).2)
  end.

Definition rows_get (cs : list (list Pair)) (q1 q2 : nat) (k : Key_t) : option Value_t :=
  c1 ← cs !! q1;
  c2 ← cs !! q2;
  Some match list_find (fun p => has_key k p) (take 15 c1) with
       | Some (_, p) => pvalue p
       | None =>
           match list_find (fun p => has_key k p) (take 15 c2) with
           | Some (_, p) => unmark (pvalue p)
           | None => NONE
           end
       end.

Lemma shift_right_row cs q c n j :
  rectangular n cs -> cs !! q = Some c -> (j < n)%nat ->
  shift_right (concat cs) (n * q) j
  = Some (concat (<[q := take 1 c ++ take j c ++ drop (S j) c]> cs)).
Proof.
  intros Hr Hq. revert cs c Hr Hq. unfold shift_right.
  induction j as [|j IH]; intros cs c Hr Hq Hj; pose proof (rectangular_lookup _ _ _ _ Hr Hq) as Hl;
    pose proof (lookup_lt_Some _ _ _ Hq) as Hlt.
  - simpl. rewrite list_insert_id; [done|]. rewrite Hq. f_equal. by rewrite (take_drop 1 c).
  - rewrite seq_S, rev_app_distr. cbn [rev app foldM].
    replace (n * q + (1 + j) - 1)%nat with (n * q + j)%nat by lia.
    rewrite (concat_lookup n cs q c) by (done || lia).
    destruct (lookup_lt_is_Some_2 c j) as [p Hp]; [lia|]. rewrite Hp. cbn [mbind option_bind].
    rewrite (concat_store n cs q c) by (done || lia). cbn [mbind option_bind].
    rewrite (IH _ (<[(1 + j)%nat := p]> c));
      [|apply rectangular_insert; [done|by rewrite length_insert]|by apply list_lookup_insert_eq|lia].
    rewrite list_insert_insert_eq. do 2 f_equal. f_equal.
    rewrite !take_insert_ge by lia. f_equal. change (1 + j)%nat with (S j).
    rewrite (drop_S (<[S j:=p]> c) p (S j)) by (apply list_lookup_insert_eq; lia).
    rewrite (drop_insert_lt _ (S (S j)) (S j)) by lia.
    rewrite (take_S_r c j p Hp). by rewrite <- app_assoc.
Qed.

Section Refinement.
Context `{StdHash}.
Implicit Types (t : LinearProbingHash) (cs : list (list Pair)) (c : list Pair).

#[local] Abbreviation home t k := (row_of (capacity t) (h k h_seed)).
#[local] Abbreviation next t k := (row_of (capacity t) (next_hash k)).

Lemma next_index_eq t cs key_hash :
  rep t cs -> next_index t key_hash = Some (16 * row_of (capacity t) key_hash)%nat.
Proof.
  intros Hr. pose proof (locate_eq t cs key_hash Hr) as Hl. revert Hl. unfold locate, next_index.
  destruct (urem key_hash (capacity t)) as [slot|]; [|done]. simpl.
  destruct (urem slot (locksize t)) as [off|]; [|done]. simpl.
  by destruct (lock_cluster t (slot / locksize t)).
Qed.

Lemma next_lookup t cs k : rep t cs -> exists c, cs !! next t k = Some c /\ length c = 16%nat.
Proof.
  intros Hr. destruct (lookup_lt_is_Some_2 cs (next t k)) as [c Hc].
  { eapply row_of_lt; [apply (rep_capacity _ _ Hr)|apply (rep_pos _ _ Hr)]. }
  exists c. split; [done|]. eapply rectangular_lookup; [apply (rep_rows _ _ Hr)|done].
Qed.

(** The first slot that passes a test, in terms of the row. *)
Lemma find_lt (P : Pair -> bool) c j p :
  length c = 16%nat -> list_find (fun p => P p) (take 15 c) = Some (j, p) ->
  (j < 15)%nat /\ c !! j = Some p /\ P p = true.
Proof.
  intros Hl Hf. apply list_find_Some in Hf as (Hj & HP & _).
  pose proof (lookup_lt_Some _ _ _ Hj) as Hlt. rewrite length_take in Hlt.
  rewrite lookup_take_lt in Hj by lia. apply Is_true_true in HP. split_and!; [lia|done|done].
Qed.

Lemma place_length c p : length c = 16%nat -> length (place c p).1 = 16%nat.
Proof.
  intros Hl. unfold place. destruct (list_find _ _) as [[j q]|] eqn:Hf; simpl.
  - apply find_lt in Hf as (Hj & _); [|done].
    rewrite length_app, length_take, length_drop. lia.
  - by rewrite length_insert.
Qed.

Lemma cuckoo_move_row t cs k p c2 :
  rep t cs -> cs !! next t k = Some c2 ->
  exists sz, cuckoo_move t k p =
    Some (MkLP (capacity t) (concat (<[next t k := (place c2 (mark p)).1]> cs)) sz
            (nlocks t) (locksize t), (place c2 (mark p)).2).
Proof.
  intros Hrep Hc. pose proof (rep_rows _ _ Hrep) as Hr.
  pose proof (rectangular_lookup _ _ _ _ Hr Hc) as Hl. pose proof (lookup_lt_Some _ _ _ Hc) as Hlt.
  unfold cuckoo_move. rewrite (next_index_eq t cs) by done. cbn [mbind option_bind].
  unfold incr_size, set_dict. cbn [capacity dict size_ nlocks locksize].
  rewrite (rep_locksize _ _ Hrep), (rep_dict _ _ Hrep). change (Z.to_nat (16 - 1)) with 15%nat.
  rewrite (probe_row 16 cs (next t k) c2) by (done || lia). cbn [mbind option_bind].
  unfold place. destruct (list_find _ (take 15 c2)) as [[j q]|] eqn:Hf;
    cbn [fmap option_fmap option_map fst].
  - apply find_lt in Hf as (Hj & _); [|done].
    replace (16 * next t k + j - 16 * next t k)%nat with j by lia.
    rewrite (shift_right_row cs (next t k) c2 16 j) by (done || lia). cbn [mbind option_bind].
    replace (16 * next t k)%nat with (16 * next t k + 0)%nat by lia.
    rewrite (concat_store 16 _ (next t k) (take 1 c2 ++ take j c2 ++ drop (S j) c2));
      [| |by apply list_lookup_insert_eq|lia].
    2:{ apply rectangular_insert; [done|].
        rewrite !length_app, !length_take, length_drop. lia. }
    rewrite list_insert_insert_eq. destruct c2 as [|x c2]; [done|]. eexists. done.
  - replace (16 * next t k)%nat with (16 * next t k + 0)%nat by lia.
    rewrite (concat_lookup 16 cs (next t k) c2) by (done || lia).
    destruct (lookup_lt_is_Some_2 c2 0%nat) as [q Hq]; [lia|]. rewrite Hq. cbn [mbind option_bind].
    rewrite (concat_store 16 cs (next t k) c2) by (done || lia). eexists. done.
Qed.

Lemma insert_base_rows t cs k v :
  rep t cs ->
  exists cs' d t', rows_insert cs (home t k) (next t k) k v = Some (cs', d)
    /\ insert_base t k v = Some (t', d) /\ rep t' cs' /\ capacity t' = capacity t.
Proof.
  intros Hrep. pose proof (rep_rows _ _ Hrep) as Hr.
  destruct (home_lookup t cs k Hrep) as (c & Hc & Hl).
  unfold insert_base, rows_insert. rewrite (locate_eq t cs), Hc by done. cbn [mbind option_bind].
  rewrite (rep_locksize _ _ Hrep), (rep_dict _ _ Hrep). change (Z.to_nat (16 - 1)) with 15%nat.
  rewrite (probe_row 16 cs (home t k) c) by (done || lia). cbn [mbind option_bind].
  destruct (list_find _ (take 15 c)) as [[j p]|] eqn:Hf; cbn [fmap option_fmap option_map fst].
  - apply (find_lt (fun p => is_free p || has_key k p)) in Hf as (Hj & _); [|done].
    rewrite (concat_store 16 cs (home t k) c) by (done || lia).
    do 3 eexists. split_and!; [done|done| |done]. apply (rep_set t); [done|by rewrite length_insert].
  - destruct (lookup_lt_is_Some_2 c 0%nat) as [p Hp]; [lia|]. rewrite Hp.
    assert (concat cs !! (16 * home t k)%nat = Some p) as ->.
    { rewrite <- Hp, <- (concat_lookup 16 cs (home t k) c) by (done || lia). f_equal. lia. }
    cbn [mbind option_bind].
    pose proof (shift_store_row cs (home t k) c 15 (MkPair k v) Hr Hc) as Hs.
    destruct (shift_left (concat cs) (16 * home t k) 15) as [d|]; [|done].
    cbn [mbind option_bind] in Hs |- *. rewrite Hs. cbn [mbind option_bind].
    set (cs1 := <[home t k := _]> cs) in *.
    assert (rep (set_dict t (concat cs1)) cs1) as Hrep1.
    { apply (rep_set t); [done|]. rewrite length_app, length_drop. simpl. lia. }
    destruct (marked (pvalue p)); [do 3 eexists; split_and!; done|].
    destruct (next_lookup _ cs1 k Hrep1) as (c2 & Hc2 & Hl2).
    destruct (cuckoo_move_row _ cs1 k p c2 Hrep1 Hc2) as (sz & Hmove).
    change (capacity (set_dict t (concat cs1))) with (capacity t) in *.
    rewrite Hc2. cbn [mbind option_bind].
    do 3 eexists. split_and!; [done|exact Hmove| |done].
    apply (rep_set (set_dict t (concat cs1))); [done|by apply place_length].
Qed.

Lemma get_base_rows t cs k :
  rep t cs -> get_base t k = rows_get cs (home t k) (next t k) k.
Proof.
  intros Hrep. pose proof (rep_rows _ _ Hrep) as Hr.
  destruct (home_lookup t cs k Hrep) as (c & Hc & Hl).
  destruct (next_lookup t cs k Hrep) as (c2 & Hc2 & Hl2).
  assert (0 < capacity t) by (rewrite (rep_capacity _ _ Hrep); pose proof (rep_pos _ _ Hrep); lia).
  unfold get_base, rows_get. rewrite urem_pos by done. cbn [mbind option_bind].
  rewrite !(locate_eq t cs), row_of_mod, Hc, Hc2 by done. cbn [mbind option_bind].
  rewrite (rep_locksize _ _ Hrep), (rep_dict _ _ Hrep). change (Z.to_nat (16 - 1)) with 15%nat.
  rewrite (probe_row 16 cs (home t k) c), (probe_row 16 cs (next t k) c2) by (done || lia).
  cbn [mbind option_bind].
  destruct (list_find _ (take 15 c)) as [[j p]|] eqn:Hf; cbn [fmap option_fmap option_map fst].
  { apply find_lt in Hf as (Hj & Hp & _); [|done].
    rewrite (concat_lookup 16 cs (home t k) c), Hp by (done || lia). done. }
  destruct (list_find _ (take 15 c2)) as [[j p]|] eqn:Hf2; cbn [fmap option_fmap option_map fst]; [|done].
  apply find_lt in Hf2 as (Hj & Hp & _); [|done].
  rewrite (concat_lookup 16 cs (next t k) c2), Hp by (done || lia). done.
Qed.

End Refinement.

(** ** What [Insert] does to the stored keys *)

Lemma head_used c k p :
  list_find (fun p => is_free p || has_key k p) (take 15 c) = None -> c !! 0%nat = Some p ->
  pkey p <> INVALID.
Proof.
  intros Hf Hp. apply list_find_None in Hf. destruct c as [|x c]; simplify_eq/=.
  apply Forall_cons in Hf as [Hf _]. intros Hi. apply Hf.
  by rewrite (proj2 (is_free_true p) Hi).
Qed.

Lemma place_keys c p :
  length c = 16%nat -> pkey p <> INVALID ->
  keys_of (place c p).1 ⊎ displaced (place c p).2 = keys_of c ⊎ {[+ pkey p +]}.
Proof.
  intros Hl Hp. unfold place. destruct (list_find _ (take 15 c)) as [[j q]|] eqn:Hf; simpl.
  - apply find_lt in Hf as (_ & Hj & Hq%is_free_true); [|done].
    rewrite displaced_INVALID, keys_of_slots, keys_of_app, (slot_keys_used p) by done.
    rewrite <- (take_drop_middle c j q Hj) at 3.
    rewrite keys_of_app, keys_of_slots, (slot_keys_free q) by done. multiset_solver.
  - destruct c as [|x c]; [done|]. simpl.
    assert (pkey x <> INVALID) as Hx.
    { apply list_find_None, Forall_cons in Hf as [Hf _]. intros Hi. apply Hf.
      by apply Is_true_true, is_free_true. }
    rewrite !keys_of_slots, (slot_keys_used p), (slot_keys_used x), displaced_key by done.
    multiset_solver.
Qed.

Lemma rows_insert_keys cs q1 q2 k v cs' d :
  rectangular 16 cs -> k <> INVALID -> rows_insert cs q1 q2 k v = Some (cs', d) ->
  keys_of (concat cs') ⊎ displaced d = keys_of (concat cs) ⊎ {[+ k +]}
  \/ (d = INVALID /\ k ∈ keys_of (concat cs) /\ keys_of (concat cs') = keys_of (concat cs)).
Proof.
  intros Hr Hk Hins. unfold rows_insert in Hins.
  destruct (cs !! q1) as [c|] eqn:Hc; simpl in Hins; [|done].
  pose proof (rectangular_lookup _ _ _ _ Hr Hc) as Hl.
  assert (slot_keys (MkPair k v) = {[+ k +]}) as Hkv by (by apply slot_keys_used).
  destruct (list_find _ (take 15 c)) as [[j p]|] eqn:Hf.
  - injection Hins as <- <-.
    apply (find_lt (fun p => is_free p || has_key k p)) in Hf as (_ & Hj & HP); [|done].
    pose proof (keys_of_insert c j p (MkPair k v) Hj) as Hi. rewrite Hkv in Hi.
    pose proof (keys_of_concat_insert cs q1 c (<[j := MkPair k v]> c) Hc) as Hci.
    apply orb_true_iff in HP as [HP|HP].
    + left. rewrite (slot_keys_free p) in Hi by (by apply is_free_true).
      rewrite displaced_INVALID. multiset_solver.
    + right. apply has_key_true in HP. rewrite (slot_keys_used p), HP in Hi by congruence.
      split_and!; [done| |multiset_solver].
      apply elem_of_keys_of. split; [done|]. exists p. split; [|done].
      eapply elem_of_concat_row; [done|]. by eapply list_elem_of_lookup_2.
  - left. destruct (c !! 0%nat) as [p|] eqn:Hp; simpl in Hins; [|done].
    pose proof (head_used c k p Hf Hp) as Hpk.
    set (row := drop 1 c ++ [MkPair k v]) in *.
    assert (keys_of row ⊎ {[+ pkey p +]} = keys_of c ⊎ {[+ k +]}) as Hrow.
    { unfold row. destruct c as [|x c]; simplify_eq/=.
      rewrite drop_0, keys_of_app, !keys_of_slots, Hkv, (slot_keys_used p), keys_of_nil by done.
      multiset_solver. }
    pose proof (keys_of_concat_insert cs q1 c row Hc) as Hci.
    destruct (marked (pvalue p)).
    { injection Hins as <- <-. rewrite displaced_key by done. multiset_solver. }
    destruct (<[q1 := row]> cs !! q2) as [c2|] eqn:Hc2; simpl in Hins; [|done]. injection Hins as <- <-.
    assert (rectangular 16 (<[q1 := row]> cs)) as Hr1.
    { apply rectangular_insert; [done|]. unfold row. rewrite length_app, length_drop. simpl. lia. }
    pose proof (place_keys c2 (mark p) (rectangular_lookup _ _ _ _ Hr1 Hc2) Hpk) as Hpl.
    pose proof (keys_of_concat_insert _ q2 c2 (place c2 (mark p)).1 Hc2) as Hci2.
    simpl in Hpl. multiset_solver.
Qed.

Section Interface.
Context `{StdHash}.

Definition cp_wf (t : CuckooProbingHash) : Prop := lp_wf (base t).

(** C32: [Insert] always returns; the stored keys are afterwards those before
    with the new key added and the returned key taken out, or, when the key
    was there already, the same as before. *)
Theorem cp_insert_conserves t k v :
  cp_wf t -> valid_key k ->
  exists t' d, Insert t k v = Some (t', d) /\ cp_wf t' /\
    (keys_of (dict (base t')) ⊎ displaced d = keys_of (dict (base t)) ⊎ {[+ k +]}
     \/ (d = INVALID /\ k ∈ keys_of (dict (base t))
         /\ keys_of (dict (base t')) = keys_of (dict (base t)))).
Proof.
  intros [cs Hr] (_ & Hk & _).
  destruct (insert_base_rows (base t) cs k v Hr) as (cs' & d & t' & Hrows & Hins & Hr' & _).
  exists (MkCP t'), d. unfold Insert. rewrite Hins. split; [done|]. split; [by exists cs'|].
  simpl. rewrite (rep_dict _ _ Hr), (rep_dict _ _ Hr').
  by eapply rows_insert_keys; [apply (rep_rows _ _ Hr)| |].
Qed.

Lemma cp_Insert_keys t k v t' d :
  cp_wf t -> valid_key k -> Insert t k v = Some (t', d) ->
  cp_wf t' /\ keys_of (dict (base t')) ⊎ displaced d ⊆ keys_of (dict (base t)) ⊎ {[+ k +]}.
Proof.
  intros [cs Hr] (_ & Hk & _) Hins.
  destruct (insert_base_rows (base t) cs k v Hr) as (cs' & d' & t1 & Hrows & Hins' & Hr' & _).
  unfold Insert in Hins. rewrite Hins' in Hins. simplify_eq/=. split; [by exists cs'|].
  rewrite (rep_dict _ _ Hr), (rep_dict _ _ Hr').
  destruct (rows_insert_keys _ _ _ _ _ _ _ (rep_rows _ _ Hr) Hk Hrows) as [->|(-> & _ & ->)]; [done|].
  rewrite displaced_INVALID. multiset_solver.
Qed.

Lemma cp_Get_stored t k v :
  cp_wf t -> valid_key k -> Get t k = Some v -> v <> NONE -> k ∈ keys_of (dict (base t)).
Proof.
  intros [cs Hr] (_ & Hk & _) Hget Hv. unfold Get in Hget.
  rewrite (get_base_rows _ cs) in Hget by done. unfold rows_get in Hget.
  destruct (home_lookup (base t) cs k Hr) as (c & Hc & Hl).
  destruct (next_lookup (base t) cs k Hr) as (c2 & Hc2 & Hl2).
  rewrite Hc, Hc2 in Hget. simpl in Hget. simplify_eq. rewrite (rep_dict _ _ Hr).
  apply elem_of_keys_of. split; [done|].
  destruct (list_find _ (take 15 c)) as [[j p]|] eqn:Hf;
    [|destruct (list_find _ (take 15 c2)) as [[j p]|] eqn:Hf2; [|done]].
  - apply find_lt in Hf as (_ & Hj & HP%has_key_true); [|done]. exists p. split; [|done].
    eapply elem_of_concat_row; [exact Hc|]. by eapply list_elem_of_lookup_2.
  - apply find_lt in Hf2 as (_ & Hj & HP%has_key_true); [|done]. exists p. split; [|done].
    eapply elem_of_concat_row; [exact Hc2|]. by eapply list_elem_of_lookup_2.
Qed.

#[export] Instance CuckooProbing_spec : IHashSpec CuckooProbingHash := {
  ih_wf := cp_wf;
  ih_stored t := keys_of (dict (base t));
  ih_Insert_keys := cp_Insert_keys;
  ih_Get_stored := cp_Get_stored;
}.

#[export] Instance CuckooProbing_total : IHashTotal CuckooProbingHash.
Proof.
  intros t k v [cs Hr] _.
  destruct (insert_base_rows (base t) cs k v Hr) as (cs' & d & t' & _ & Hins & _).
  exists (MkCP t'), d. simpl. unfold Insert. by rewrite Hins.
Qed.

End Interface.

(** ** Looking a key up after an insertion *)

Section Lookup.
Context `{StdHash}.

(** One of the fifteen slots that [Insert] scans is free or has the key. *)
Definition room (t : CuckooProbingHash) (k : Key_t) : Prop :=
  exists j p, (j < 15)%nat
    /\ dict (base t) !! (16 * row_of (capacity (base t)) (h k h_seed) + j)%nat = Some p
    /\ (pkey p = INVALID \/ pkey p = k).

Lemma rows_get_insert cs q1 q2 k v c j p :
  rectangular 16 cs -> cs !! q1 = Some c -> (q2 < length cs)%nat ->
  list_find (fun p => is_free p || has_key k p) (take 15 c) = Some (j, p) ->
  rows_get (<[q1 := <[j := MkPair k v]> c]> cs) q1 q2 k = Some v.
Proof.
  intros Hr Hc Hq2 Hf. pose proof (rectangular_lookup _ _ _ _ Hr Hc) as Hl.
  pose proof (lookup_lt_Some _ _ _ Hc) as Hlt.
  destruct (lookup_lt_is_Some_2 (<[q1 := <[j := MkPair k v]> c]> cs) q2) as [c2 Hc2];
    [by rewrite length_insert|].
  unfold rows_get. rewrite list_lookup_insert_eq, Hc2 by done. simpl.
  apply list_find_Some in Hf as (Hj & _ & Hpre).
  pose proof (lookup_lt_Some _ _ _ Hj) as Hjl. rewrite length_take in Hjl.
  rewrite (list_find_insert_first (has_key k) c j); [done|lia|lia|by apply has_key_true|].
  intros i q Hi Hq. apply not_true_is_false. intros Ht. apply (Hpre i q); [|done|].
  - by rewrite lookup_take_lt by lia.
  - rewrite Ht. by rewrite orb_true_r.
Qed.

Lemma rows_get_insert_ne cs q1 k v c j p q1' q2' k' :
  rectangular 16 cs -> cs !! q1 = Some c -> k' <> k -> k' <> INVALID ->
  list_find (fun p => is_free p || has_key k p) (take 15 c) = Some (j, p) ->
  rows_get (<[q1 := <[j := MkPair k v]> c]> cs) q1' q2' k' = rows_get cs q1' q2' k'.
Proof.
  intros Hr Hc Hne Hinv Hf. pose proof (lookup_lt_Some _ _ _ Hc) as Hlt.
  apply (find_lt (fun p => is_free p || has_key k p)) in Hf as (_ & Hj & HP);
    [|by eapply rectangular_lookup].
  assert (list_find (fun p => has_key k' p) (take 15 (<[j := MkPair k v]> c))
          = list_find (fun p => has_key k' p) (take 15 c)) as Hsame.
  { apply (list_find_insert_ne (has_key k') c j p); [done| |]; apply has_key_false; simpl; [|congruence].
    apply orb_true_iff in HP as [HP%is_free_true|HP%has_key_true]; congruence. }
  unfold rows_get.
  destruct (decide (q1' = q1)) as [->|H1]; destruct (decide (q2' = q1)) as [->|H2];
    rewrite ?list_lookup_insert_eq, ?list_lookup_insert_ne, ?Hc by done;
    cbn [mbind option_bind]; rewrite ?Hsame; try done.
Qed.

(** When the first cluster of the key has a free slot or the key itself,
    [Insert] makes [Get] answer the new value, and changes no other answer. *)
Theorem cp_insert_get t k v :
  cp_wf t -> valid_key k -> room t k ->
  exists t', Insert t k v = Some (t', INVALID) /\ Get t' k = Some v
    /\ forall k', valid_key k' -> k' <> k -> Get t' k' = Get t k'.
Proof.
  intros [cs Hr] Hk (j & p & Hj & Hp & Hfree). rewrite (rep_dict _ _ Hr) in Hp.
  destruct (insert_base_rows (base t) cs k v Hr) as (cs' & d & t' & Hrows & Hins & Hr' & Hcap).
  destruct (home_lookup (base t) cs k Hr) as (c & Hc & Hl).
  destruct (next_lookup (base t) cs k Hr) as (c2 & Hc2 & _).
  rewrite (concat_lookup 16 cs _ c) in Hp by (try done; try apply (rep_rows _ _ Hr); lia).
  unfold rows_insert in Hrows. rewrite Hc in Hrows. simpl in Hrows.
  destruct (list_find _ (take 15 c)) as [[i q]|] eqn:Hf.
  - simplify_eq. exists (MkCP t'). unfold Insert, Get. rewrite Hins. split; [done|]. simpl.
    rewrite (get_base_rows t' _ k Hr'), Hcap. split.
    + apply (rows_get_insert cs _ _ k v c i q); try done;
        [apply (rep_rows _ _ Hr)|by apply lookup_lt_Some in Hc2].
    + intros k' (_ & Hk' & _) Hne. rewrite (get_base_rows t' _ k' Hr'), Hcap.
      rewrite (get_base_rows (base t) cs k' Hr).
      by apply (rows_get_insert_ne cs _ k v c i q); try apply (rep_rows _ _ Hr).
  - exfalso. apply list_find_None in Hf. apply (Forall_lookup_1 _ _ j p Hf).
    + by rewrite lookup_take_lt by lia.
    + apply Is_true_true, orb_true_iff. destruct Hfree; [left; by apply is_free_true|right; by apply has_key_true].
Qed.

(** A sequence of insertions, with the keys they report. *)
Definition insert_all (t : CuckooProbingHash) (kvs : list (Key_t * Value_t))
  : option (CuckooProbingHash * list Key_t) :=
  foldM (fun '(t, ds) kv => '(t, d) ← Insert t kv.1 kv.2; Some (t, ds ++ [d])) kvs (t, []).

End Lookup.

Section Examples.
#[local] Existing Instance plain_hash.

Definition two_clusters : CuckooProbingHash := new_table (fun _ => 0) 32.

Lemma two_clusters_wf : cp_wf two_clusters.
Proof. exists (replicate 2 (replicate 16 (Pair_void 0))). exact LinearProbing.two_clusters_rep. Qed.

Lemma cp_insert_conserves_witness :
  exists t' d, Insert two_clusters 5 7 = Some (t', d).
Proof.
  destruct (cp_insert_conserves two_clusters 5 7 two_clusters_wf) as (t' & d & Hi & _).
  - vm_compute. repeat split; discriminate.
  - exists t', d. exact Hi.
Defined.

Lemma cp_insert_get_witness :
  exists t', Insert two_clusters 5 7 = Some (t', INVALID) /\ Get t' 5 = Some 7.
Proof.
  destruct (cp_insert_get two_clusters 5 7 two_clusters_wf) as (t' & Hi & Hg & _).
  - vm_compute. repeat split; discriminate.
  - exists 0%nat, (Pair_void 0). split; [lia|]. split; [vm_compute; reflexivity|left; reflexivity].
  - exists t'. split; [exact Hi|exact Hg].
Defined.

End Examples.

(** A hash that depends on its seed: the key itself, or the key over 64 in
    units of a cluster. *)
Definition two_seeds : StdHash :=
  fun bs seed => if seed =? h_seed then le_word bs else le_word bs / 64 * 16.

(** The second cluster is computed from the key that is inserted, not
    from the pair that is moved: the moved pair, key 65, is neither reported
    as displaced nor found again. *)
Theorem cp_moved_pair_lost :
  exists t ds,
    @insert_all two_seeds (MkCP (LinearProbing.new_table (fun _ => 0) 64))
      ([(65, 500)] ++ ((fun k => (Z.of_nat k, 600 + Z.of_nat k)) <$> seq 1 14) ++ [(131, 700)])
    = Some (t, ds)
    /\ (65 ∉ ds) /\ 65 ∈ keys_of (dict (base t)) /\ @Get two_seeds t 65 = Some NONE.
Proof.
  eexists. eexists. split; [vm_compute; reflexivity|].
  split; [|split; [|vm_compute; reflexivity]].
  - apply (bool_decide_unpack _). vm_compute. done.
  - apply elem_of_keys_of. split; [done|]. exists (MkPair 65 (500 + 2 ^ 63)). split; [|done].
    apply (bool_decide_unpack _). vm_compute. done.
Qed.
