(* ===== verification/KV.v ===== *)
(** * The key-value store (server/KV.cpp)

    The store owns a hash table, reached through the interface [IHash], and
    a counting Bloom filter that is to contain every key of the table.
    [Insert] puts the pair into the table, adds the key to the filter and
    removes the key that the table displaced.

    The theorems are proved for every table that meets [IHashSpec]: the
    filter keeps counting a multiset that contains the stored keys, so that
    a key the table still answers is never denied by the filter. *)

From S2P Require Import Prelude PairDefs HashFun LinearProbing CuckooProbing CountingBloom.

(** [struct Extent] of KV.h *)
Record Extent : Type := MkExtent { _key : Z; _len : Z; _value : Value_t }.

(** The store, with the global counters, and the heap the extents live in. *)
Record KV (T : Type) : Type := MkKV {
  hash : T;
  bf : option CountingBloomFilter;
  extents : gmap Z Extent;
  deletecnt : Z;
  kv_putcnt : Z;
  kv_getcnt : Z;
}.
Arguments MkKV {T}.
Arguments hash {T}.
Arguments bf {T}.
Arguments extents {T}.
Arguments deletecnt {T}.
Arguments kv_putcnt {T}.
Arguments kv_getcnt {T}.

Section Operations.
Context {T : Type} `{IHash T}.

Definition new_KV (table : T) (_bf : option CountingBloomFilter) : KV T :=
  MkKV table _bf ∅ 0 0 0.

(** [if (bf) { bf->Insert(key); if (deletedKey != -1) bf->Delete(deletedKey); }] *)
Definition update_filter (b : option CountingBloomFilter) (key deletedKey : Key_t)
  : option (option CountingBloomFilter) :=
  match b with
  | None => Some None
  | Some b =>
      b ← CountingBloom.Insert b key;
      if deletedKey =? u64 (-1) then Some (Some b)
      else '(b, _) ← CountingBloom.Delete b deletedKey; Some (Some b)
  end.

Definition Insert (kv : KV T) (key : Key_t) (value : Value_t) : option (KV T * bool) :=
  let kv_putcnt := s32 (kv_putcnt kv + 1) in
  '(hash, deletedKey) ← ih_Insert (hash kv) key value;
  let deletecnt :=
    if deletedKey =? u64 (-1) then deletecnt kv else s32 (deletecnt kv + 1) in
  b ← update_filter (bf kv) key deletedKey;
  Some (MkKV hash b (extents kv) deletecnt kv_putcnt (kv_getcnt kv),
        negb (deletedKey =? u64 (-1))).

(** [new Extent] returns the address [addr]. *)
Definition InsertExtent (kv : KV T) (addr : Z) (key : Key_t) (value : Value_t) (len : Z)
  : option (KV T) :=
  let extent := MkExtent key len value in
  hash ← ih_Insert_extent (hash kv) (_key extent) 0 (_len extent) addr;
  Some (MkKV hash (bf kv) (<[addr := extent]> (extents kv)) (deletecnt kv) (kv_putcnt kv)
          (kv_getcnt kv)).

Definition Get (kv : KV T) (key : Key_t) : option (KV T * Value_t) :=
  ret ← ih_Get (hash kv) key;
  Some (MkKV (hash kv) (bf kv) (extents kv) (deletecnt kv) (kv_putcnt kv)
          (s32 (kv_getcnt kv + 1)), ret).

(** [None] is also a value that is no address of an extent. *)
Definition GetExtent (kv : KV T) (key : Key_t) : option Value_t :=
  ret ← ih_Get_extent (hash kv) key 0;
  if ret =? 0 then Some ret
  else
    extent ← extents kv !! ret;
    let key_diff := u64 (key - _key extent) in
    Some (u64 (_value extent + u64 (4096 * key_diff))).

Definition FindAnyway (kv : KV T) (key : Key_t) : option Value_t := ih_FindAnyway (hash kv) key.

Definition Recovery (kv : KV T) : option (KV T * bool) :=
  '(hash, b) ← ih_Recovery (hash kv);
  Some (MkKV hash (bf kv) (extents kv) (deletecnt kv) (kv_putcnt kv) (kv_getcnt kv), b).

Definition Delete (kv : KV T) (key : Key_t) : option (KV T * bool) := Some (kv, false).

Definition Capacity (kv : KV T) : Z := ih_Capacity (hash kv).

(** A sequence of calls of [Insert]. *)
Definition puts (kv : KV T) (kvs : list (Key_t * Value_t)) : option (KV T) :=
  foldM (fun kv p => '(kv, _) ← Insert kv p.1 p.2; Some kv) kvs kv.

End Operations.

(** ** The filter contains the table *)

Section Invariant.
Context {T : Type} `{IHashSpec T}.
Context (nb : Z) (nh : nat).

(** The filter counts exactly [M], and the stored keys are among [M]. *)
Record kv_inv (kv : KV T) (b : CountingBloomFilter) (M : gmultiset Z) : Prop := {
  inv_table : ih_wf (hash kv);
  inv_bf : bf kv = Some b;
  inv_filter : cbf_wf b;
  inv_size : m_numBits b = nb /\ m_numHashes b = nh;
  inv_counts : counts b M;
  inv_stored : ih_stored (hash kv) ⊆ M;
}.

Lemma update_filter_exact b M k d :
  cbf_wf b -> m_numBits b = nb -> m_numHashes b = nh -> counts b M ->
  (forall i, 0 <= i < nb -> cnt nb nh (M ⊎ {[+ k +]}) i <= 255) ->
  displaced d ⊆ M ⊎ {[+ k +]} ->
  exists b', update_filter (Some b) k d = Some (Some b') /\ cbf_wf b'
    /\ m_numBits b' = nb /\ m_numHashes b' = nh
    /\ counts b' ((M ⊎ {[+ k +]}) ∖ displaced d).
Proof.
  intros Hwf Hb Hh Hc Hmax Hd. subst nb nh. unfold update_filter.
  destruct (Insert_exact b M Hwf Hc k Hmax) as (b1 & -> & Hwf1 & Hc1 & Hb1 & Hh1 & _). simpl.
  change (u64 (-1)) with INVALID. unfold displaced in *.
  destruct (Z.eqb_spec d INVALID) as [->|Hne].
  - exists b1. rewrite decide_True by done. split_and!; try done.
    by replace (_ ∖ ∅) with (M ⊎ {[+ k +]}) by multiset_solver.
  - rewrite decide_False in Hd |- * by done.
    destruct (Delete_exact b1 _ Hwf1 Hc1 d) as (b2 & -> & Hwf2 & Hc2 & Hb2 & Hh2 & _);
      [multiset_solver|].
    exists b2. split_and!; try done; congruence.
Qed.

Lemma kv_inv_Insert kv b M k v t' d :
  kv_inv kv b M -> valid_key k -> ih_Insert (hash kv) k v = Some (t', d) ->
  (forall i, 0 <= i < nb -> cnt nb nh (M ⊎ {[+ k +]}) i <= 255) ->
  exists kv' b' M', Insert kv k v = Some (kv', negb (d =? INVALID))
    /\ hash kv' = t' /\ kv_inv kv' b' M' /\ M' ⊆ M ⊎ {[+ k +]}.
Proof.
  intros [Hwf Hbf Hf [Hb Hh] Hc Hs] Hk Hins Hmax.
  destruct (ih_Insert_keys _ _ _ _ _ Hwf Hk Hins) as [Hwf' Hkeys].
  destruct (update_filter_exact b M k d) as (b' & Hu & Hf' & Hb' & Hh' & Hc'); try done;
    [multiset_solver|].
  do 3 eexists. split; [|split; [|split]].
  - unfold Insert. rewrite Hins. simpl. rewrite Hbf, Hu. simpl. done.
  - done.
  - split; simpl; try done. multiset_solver.
  - multiset_solver.
Qed.

(** What the invariant is for. *)
Lemma kv_inv_answered kv b M k v :
  kv_inv kv b M -> valid_key k -> ih_Get (hash kv) k = Some v -> v <> NONE ->
  Query b k = Some true.
Proof.
  intros [Hwf Hbf Hf _ Hc Hs] Hk Hget Hv. apply (Query_exact b M Hf Hc).
  assert (k ∈ ih_stored (hash kv)) by (by eapply ih_Get_stored). multiset_solver.
Qed.

(** The keys put, each as often as it is put. *)
Definition put_keys (kvs : list (Key_t * Value_t)) : gmultiset Z := list_to_set_disj kvs.*1.

Lemma put_keys_cons k v kvs : put_keys ((k, v) :: kvs) = {[+ k +]} ⊎ put_keys kvs.
Proof. done. Qed.

Lemma puts_inv `{!IHashTotal T} kvs kv b M :
  kv_inv kv b M -> Forall (fun p => valid_key p.1) kvs ->
  (forall i, 0 <= i < nb -> cnt nb nh (M ⊎ put_keys kvs) i <= 255) ->
  exists kv' b' M', puts kv kvs = Some kv' /\ kv_inv kv' b' M'.
Proof.
  intros Hinv Hkvs. revert kv b M Hinv. unfold puts.
  induction Hkvs as [|[k v] kvs Hk _ IH]; intros kv b M Hinv Hmax; cbn [foldM fst snd] in *; [eauto|].
  destruct (ih_Insert_total (hash kv) k v) as (t' & d & Hins); [apply Hinv|done|].
  destruct (kv_inv_Insert kv b M k v t' d) as (kv1 & b1 & M1 & -> & _ & Hinv1 & Hsub); try done.
  { intros i Hi. etrans; [|apply (Hmax i Hi)]. apply cnt_mono. rewrite put_keys_cons. multiset_solver. }
  simpl. apply (IH kv1 b1 M1 Hinv1). intros i Hi. etrans; [|apply (Hmax i Hi)].
  apply cnt_mono. rewrite put_keys_cons. multiset_solver.
Qed.

End Invariant.

(** ** The theorem for the store *)

(** C2: After any sequence of puts in which no position of the filter is hit
    more than 255 times, every key for which the store still finds a value
    is answered true by the filter.  Proved for every table that meets the
    interface. *)
Theorem kv_no_false_negative {T} `{IHashTotal T} (t : T) nh nb kvs :
  0 < nb <= 2 ^ 31 -> ih_wf t -> ih_stored t = ∅ ->
  Forall (fun p => valid_key p.1) kvs ->
  (forall i, 0 <= i < nb -> cnt nb nh (put_keys kvs) i <= 255) ->
  exists kv b, puts (new_KV t (Some (new_filter nh nb))) kvs = Some kv /\ bf kv = Some b
    /\ forall k v kv', valid_key k -> Get kv k = Some (kv', v) -> v <> NONE ->
         Query b k = Some true.
Proof.
  intros Hnb Hwf Hempty Hkvs Hmax.
  destruct (puts_inv nb nh kvs (new_KV t (Some (new_filter nh nb))) (new_filter nh nb) ∅)
    as (kv & b & M & Hrun & Hinv).
  - split; simpl; try done; [by apply new_filter_wf|by apply new_filter_counts|by rewrite Hempty].
  - done.
  - intros i Hi. rewrite (left_id_L ∅ (⊎)). by apply Hmax.
  - exists kv, b. split_and!; [done|apply Hinv|]. intros k v kv' Hk Hget Hv.
    unfold Get in Hget. destruct (ih_Get (hash kv) k) as [ret|] eqn:Hr; simplify_eq/=.
    by eapply kv_inv_answered.
Qed.

Section Examples.
#[local] Existing Instance plain_hash.

Lemma kv_no_false_negative_witness :
  exists kv b,
    puts (new_KV LinearProbing.two_clusters (Some (new_filter 4 64))) [(5, 7); (6, 8); (5, 9)] = Some kv
    /\ bf kv = Some b /\ Query b 5 = Some true.
Proof.
  destruct (kv_no_false_negative LinearProbing.two_clusters 4 64 [(5, 7); (6, 8); (5, 9)])
    as (kv & b & Hrun & Hb & Hq).
  - lia.
  - eexists. exact LinearProbing.two_clusters_rep.
  - vm_compute. reflexivity.
  - repeat constructor; vm_compute; repeat split; discriminate.
  - intros i _. etrans; [apply cnt_le_size|]. vm_compute. discriminate.
  - exists kv, b. split; [exact Hrun|]. split; [exact Hb|].
    assert (snd <$> (kv ← puts (new_KV LinearProbing.two_clusters (Some (new_filter 4 64)))
                       [(5, 7); (6, 8); (5, 9)]; Get kv 5) = Some 7) as Hg
      by (vm_compute; reflexivity).
    rewrite Hrun in Hg. cbn [mbind option_bind] in Hg.
    destruct (Get kv 5) as [[kv' v]|] eqn:Hget; [|discriminate Hg]. injection Hg as ->.
    eapply (Hq 5 7); [|exact Hget|discriminate].
    vm_compute. repeat split; discriminate.
Defined.

End Examples.
