(* ===== verification/CachePolicy.v ===== *)
(** * The replacement caches (server/cache-replacement)

    [fixed_sized_cache] keeps a map of bounded size and asks a policy which
    key to drop.  The policy is an interface ([ICachePolicy]) with laws
    ([CachePolicySpec]); the cache is verified against the laws, and the
    four policies of the tree (none, FIFO, LRU, LFU) are shown to meet them.

    The laws speak of the erasure of the replacement candidate.  [Remove]
    erases any key, which FIFO and LRU do not support: they drop their own
    last element instead, and the cache runs into undefined behaviour. *)

From Stdlib Require Import Sorted.
From S2P Require Import Prelude.

(** ** The policy interface *)

Class ICachePolicy (P Key : Type) := {
  cp_Insert : P -> Key -> P;
  cp_Touch : P -> Key -> option P;
  cp_Erase : P -> Key -> option P;
  cp_ReplCandidate : P -> option Key;
}.

(** ** fixed_sized_cache

    [erased] records the calls of [OnEraseCallback], the latest first. *)

Section Cache.
Context {P Key Value : Type} `{Countable Key} `{!ICachePolicy P Key}.

Record fixed_sized_cache : Type := MkCache {
  cache_items_map : gmap Key Value;
  cache_policy : P;
  max_cache_size : Z;
  evict_queue : list Key;
  erased : list (Key * Value);
}.

Definition new_cache (max_size : Z) (policy : P) : fixed_sized_cache :=
  MkCache ∅ policy (if max_size =? 0 then 2 ^ 64 - 1 else max_size) [] [].

Definition FindElem (c : fixed_sized_cache) (key : Key) : option Value := cache_items_map c !! key.

Definition Insert (c : fixed_sized_cache) (key : Key) (value : Value) : fixed_sized_cache :=
  MkCache (<[key := value]> (cache_items_map c)) (cp_Insert (cache_policy c) key)
    (max_cache_size c) (evict_queue c) (erased c).

(** The iterator of a key that is not there may not be dereferenced. *)
Definition Erase (c : fixed_sized_cache) (key : Key) : option fixed_sized_cache :=
  policy ← cp_Erase (cache_policy c) key;
  v ← FindElem c key;
  Some (MkCache (delete key (cache_items_map c)) policy (max_cache_size c) (evict_queue c)
          ((key, v) :: erased c)).

Definition Update (c : fixed_sized_cache) (key : Key) (value : Value) : option fixed_sized_cache :=
  policy ← cp_Touch (cache_policy c) key;
  Some (MkCache (<[key := value]> (cache_items_map c)) policy (max_cache_size c)
          (evict_queue c) (erased c)).

Definition Put (c : fixed_sized_cache) (key : Key) (value : Value) : option fixed_sized_cache :=
  match FindElem c key with
  | None =>
      if max_cache_size c <? Z.of_nat (size (cache_items_map c)) + 1 then
        disp_candidate_key ← cp_ReplCandidate (cache_policy c);
        let c := MkCache (cache_items_map c) (cache_policy c) (max_cache_size c)
                   (disp_candidate_key :: evict_queue c) (erased c) in
        c ← Erase c disp_candidate_key;
        Some (Insert c key value)
      else Some (Insert c key value)
  | Some _ => Update c key value
  end.

(** [Some (c, None)] is the exception [range_error]. *)
Definition Get (c : fixed_sized_cache) (key : Key) : option (fixed_sized_cache * option Value) :=
  match FindElem c key with
  | None => Some (c, None)
  | Some v =>
      policy ← cp_Touch (cache_policy c) key;
      Some (MkCache (cache_items_map c) policy (max_cache_size c) (evict_queue c) (erased c),
            Some v)
  end.

Definition Cached (c : fixed_sized_cache) (key : Key) : bool :=
  match FindElem c key with Some _ => true | None => false end.

Definition Size (c : fixed_sized_cache) : Z := Z.of_nat (size (cache_items_map c)).

Definition Remove (c : fixed_sized_cache) (key : Key) : option (fixed_sized_cache * bool) :=
  match FindElem c key with
  | None => Some (c, false)
  | Some _ => c ← Erase c key; Some (c, true)
  end.

Definition ClearEvictQueue (c : fixed_sized_cache) : fixed_sized_cache :=
  MkCache (cache_items_map c) (cache_policy c) (max_cache_size c) [] (erased c).

(** [order] lists the elements as the iteration visits them. *)
Definition Clear (c : fixed_sized_cache) (order : list (Key * Value)) : option fixed_sized_cache :=
  policy ← foldM (fun p kv => cp_Erase p kv.1) order (cache_policy c);
  Some (MkCache ∅ policy (max_cache_size c) (evict_queue c) (rev order ++ erased c)).

End Cache.
Arguments fixed_sized_cache P Key Value {_ _}.

(** ** The policies *)

(** NoCachePolicy; [pick] is the element an [unordered_set] iterates over
    first, which its order leaves open. *)
Record NoCachePolicy (Key : Type) `{Countable Key} : Type := MkNo { key_storage : gset Key }.
Arguments MkNo {Key _ _}.
Arguments key_storage {Key _ _}.

Definition no_Insert `{Countable Key} (p : NoCachePolicy Key) (key : Key) : NoCachePolicy Key :=
  MkNo ({[ key ]} ∪ key_storage p).
Definition no_Touch `{Countable Key} (p : NoCachePolicy Key) (key : Key)
  : option (NoCachePolicy Key) := Some p.
Definition no_Erase `{Countable Key} (p : NoCachePolicy Key) (key : Key)
  : option (NoCachePolicy Key) := Some (MkNo (key_storage p ∖ {[ key ]})).
Definition no_ReplCandidate `{Countable Key} (pick : gset Key -> option Key)
    (p : NoCachePolicy Key) : option Key := pick (key_storage p).

(** FIFOCachePolicy *)
Record FIFOCachePolicy (Key : Type) : Type := MkFIFO { fifo_queue : list Key }.
Arguments MkFIFO {Key}.
Arguments fifo_queue {Key}.

(** [pop_back] and [back] of a list. *)
Definition pop_back {A} (l : list A) : option (list A) :=
  match l with [] => None | _ => Some (take (length l - 1) l) end.

Definition fifo_Insert {Key} (p : FIFOCachePolicy Key) (key : Key) : FIFOCachePolicy Key :=
  MkFIFO (key :: fifo_queue p).
Definition fifo_Touch {Key} (p : FIFOCachePolicy Key) (key : Key)
  : option (FIFOCachePolicy Key) := Some p.
Definition fifo_Erase {Key} (p : FIFOCachePolicy Key) (key : Key)
  : option (FIFOCachePolicy Key) := q ← pop_back (fifo_queue p); Some (MkFIFO q).
Definition fifo_ReplCandidate {Key} (p : FIFOCachePolicy Key) : option Key := last (fifo_queue p).

(** LRUCachePolicy: a list node is a number and its key; [key_finder] has
    the node of a key, and [fresh] numbers the nodes. *)
Record LRUCachePolicy (Key : Type) `{Countable Key} : Type := MkLRU {
  lru_queue : list (nat * Key);
  key_finder : gmap Key nat;
  lru_fresh : nat;
}.
Arguments MkLRU {Key _ _}.
Arguments lru_queue {Key _ _}.
Arguments key_finder {Key _ _}.
Arguments lru_fresh {Key _ _}.

Definition lru_Insert `{Countable Key} (p : LRUCachePolicy Key) (key : Key) : LRUCachePolicy Key :=
  MkLRU ((lru_fresh p, key) :: lru_queue p) (<[key := lru_fresh p]> (key_finder p))
    (S (lru_fresh p)).

(** [splice] moves the node of the iterator to the front; an iterator that
    [key_finder[key]] has just made, or whose node is gone, is invalid. *)
Definition lru_Touch `{Countable Key} (p : LRUCachePolicy Key) (key : Key)
  : option (LRUCachePolicy Key) :=
  n ← key_finder p !! key;
  '(_, node) ← list_find (fun x => x.1 = n) (lru_queue p);
  Some (MkLRU (node :: filter (fun x => x.1 <> n) (lru_queue p)) (key_finder p) (lru_fresh p)).

Definition lru_Erase `{Countable Key} (p : LRUCachePolicy Key) (key : Key)
  : option (LRUCachePolicy Key) :=
  back ← last (lru_queue p);
  q ← pop_back (lru_queue p);
  Some (MkLRU q (delete back.2 (key_finder p)) (lru_fresh p)).

Definition lru_ReplCandidate `{Countable Key} (p : LRUCachePolicy Key) : option Key :=
  snd <$> last (lru_queue p).

(** LFUCachePolicy: the multimap as the list of its nodes in order (number,
    frequency, key). *)
Record LFUCachePolicy (Key : Type) `{Countable Key} : Type := MkLFU {
  frequency_storage : list (nat * (Z * Key));
  lfu_storage : gmap Key nat;
  lfu_fresh : nat;
}.
Arguments MkLFU {Key _ _}.
Arguments frequency_storage {Key _ _}.
Arguments lfu_storage {Key _ _}.
Arguments lfu_fresh {Key _ _}.

(** [emplace_hint] at the beginning goes before all entries when no entry
    has a smaller frequency, and at the end goes after the entries whose
    frequency is not greater; both keep the order. *)
Fixpoint emplace_upper {Key} (x : nat * (Z * Key)) (l : list (nat * (Z * Key))) : list (nat * (Z * Key)) :=
  match l with
  | [] => [x]
  | y :: l => if x.2.1 <? y.2.1 then x :: y :: l else y :: emplace_upper x l
  end.

Fixpoint emplace_lower {Key} (x : nat * (Z * Key)) (l : list (nat * (Z * Key))) : list (nat * (Z * Key)) :=
  match l with
  | [] => [x]
  | y :: l => if y.2.1 <? x.2.1 then y :: emplace_lower x l else x :: y :: l
  end.

Definition lfu_Insert `{Countable Key} (p : LFUCachePolicy Key) (key : Key) : LFUCachePolicy Key :=
  let INIT_VAL := 1 in
  MkLFU (emplace_lower (lfu_fresh p, (INIT_VAL, key)) (frequency_storage p))
    (<[key := lfu_fresh p]> (lfu_storage p)) (S (lfu_fresh p)).

Definition lfu_Touch `{Countable Key} (p : LFUCachePolicy Key) (key : Key)
  : option (LFUCachePolicy Key) :=
  n ← lfu_storage p !! key;
  '(_, (_, (freq, k))) ← list_find (fun x => x.1 = n) (frequency_storage p);
  let updated_elem := (lfu_fresh p, (u64 (freq + 1), k)) in
  let storage := filter (fun x => x.1 <> n) (frequency_storage p) in
  Some (MkLFU (emplace_upper updated_elem storage) (<[key := lfu_fresh p]> (lfu_storage p))
          (S (lfu_fresh p))).

Definition lfu_Erase `{Countable Key} (p : LFUCachePolicy Key) (key : Key)
  : option (LFUCachePolicy Key) :=
  n ← lfu_storage p !! key;
  _ ← list_find (fun x => x.1 = n) (frequency_storage p);
  Some (MkLFU (filter (fun x => x.1 <> n) (frequency_storage p)) (delete key (lfu_storage p))
          (lfu_fresh p)).

Definition lfu_ReplCandidate `{Countable Key} (p : LFUCachePolicy Key) : option Key :=
  x ← head (frequency_storage p); Some x.2.2.

#[export] Instance FIFO_policy {Key} : ICachePolicy (FIFOCachePolicy Key) Key :=
  { cp_Insert := fifo_Insert; cp_Touch := fifo_Touch; cp_Erase := fifo_Erase;
    cp_ReplCandidate := fifo_ReplCandidate }.
#[export] Instance LRU_policy `{Countable Key} : ICachePolicy (LRUCachePolicy Key) Key :=
  { cp_Insert := lru_Insert; cp_Touch := lru_Touch; cp_Erase := lru_Erase;
    cp_ReplCandidate := lru_ReplCandidate }.
#[export] Instance LFU_policy `{Countable Key} : ICachePolicy (LFUCachePolicy Key) Key :=
  { cp_Insert := lfu_Insert; cp_Touch := lfu_Touch; cp_Erase := lfu_Erase;
    cp_ReplCandidate := lfu_ReplCandidate }.
Definition No_policy `{Countable Key} (pick : gset Key -> option Key)
  : ICachePolicy (NoCachePolicy Key) Key :=
  {| cp_Insert := no_Insert; cp_Touch := no_Touch; cp_Erase := no_Erase;
     cp_ReplCandidate := no_ReplCandidate pick |}.

(** ** The laws of a policy *)

Class CachePolicySpec (P Key : Type) `{Countable Key} `{!ICachePolicy P Key} := {
  pol_ok : P -> Prop;
  pol_keys : P -> gset Key;
  pol_Insert : forall p k, pol_ok p -> k ∉ pol_keys p ->
    pol_ok (cp_Insert p k) /\ pol_keys (cp_Insert p k) = {[ k ]} ∪ pol_keys p;
  pol_Touch : forall p k, pol_ok p -> k ∈ pol_keys p ->
    exists p', cp_Touch p k = Some p' /\ pol_ok p' /\ pol_keys p' = pol_keys p;
  pol_Repl : forall p, pol_ok p -> pol_keys p <> ∅ ->
    exists k p', cp_ReplCandidate p = Some k /\ k ∈ pol_keys p
      /\ cp_Erase p k = Some p' /\ pol_ok p' /\ pol_keys p' = pol_keys p ∖ {[ k ]};
}.

(** The law that [Remove] needs. *)
Class ErasesAny (P Key : Type) `{CachePolicySpec P Key} :=
  pol_Erase : forall p k, pol_ok p -> k ∈ pol_keys p ->
    exists p', cp_Erase p k = Some p' /\ pol_ok p' /\ pol_keys p' = pol_keys p ∖ {[ k ]}.

(** ** Lists of nodes with an index

    What LRU and LFU share: the nodes have distinct numbers, and the index
    has exactly the nodes of the list. *)

Section Nodes.
Context {A Key : Type} `{Countable Key} (kf : A -> Key).
Implicit Types (l : list (nat * A)) (m : gmap Key nat).

Record indexed l m (fresh : nat) : Prop := {
  idx_nodup : NoDup l.*1;
  idx_fresh : Forall (fun n => n < fresh)%nat l.*1;
  idx_find : forall k n, m !! k = Some n <-> exists a, (n, a) ∈ l /\ kf a = k;
}.

Lemma indexed_perm l l' m fresh : l ≡ₚ l' -> indexed l m fresh -> indexed l' m fresh.
Proof.
  intros Hp [H1 H2 H3]. split.
  - by rewrite <- Hp.
  - by rewrite <- Hp.
  - intros k n. rewrite H3. by setoid_rewrite Hp.
Qed.

Lemma indexed_insert l m fresh a :
  indexed l m fresh -> m !! kf a = None ->
  indexed ((fresh, a) :: l) (<[kf a := fresh]> m) (S fresh).
Proof.
  intros [H1 H2 H3] Hm. rewrite Forall_forall in H2. split; cbn [fmap list_fmap fst].
  - constructor; [|done]. intros Hin. specialize (H2 _ Hin). lia.
  - constructor; [lia|]. apply Forall_forall. intros n Hn. specialize (H2 n Hn). lia.
  - intros k n. destruct (decide (k = kf a)) as [->|Hne].
    + rewrite lookup_insert_eq. split.
      * intros ?; simplify_eq. exists a. split; [apply list_elem_of_here|done].
      * intros (a' & [Heq|Hin]%elem_of_cons & Hk); [by simplify_eq|].
        assert (m !! kf a = Some n) by (apply H3; eauto). congruence.
    + rewrite lookup_insert_ne, H3 by done. split.
      * intros (a' & Hin & Hk). exists a'. split; [by apply list_elem_of_further|done].
      * intros (a' & [Heq|Hin]%elem_of_cons & Hk); [simplify_eq|]. eauto.
Qed.

(** The number identifies the node. *)
Lemma indexed_unique l m fresh n a a' :
  indexed l m fresh -> (n, a) ∈ l -> (n, a') ∈ l -> a = a'.
Proof.
  intros [H1 _ _] Ha Ha'. apply list_elem_of_lookup in Ha as [i Hi]. apply list_elem_of_lookup in Ha' as [j Hj].
  assert (i = j) as ->; [|congruence].
  eapply (NoDup_lookup l.*1); [done|rewrite list_lookup_fmap, Hi; done|rewrite list_lookup_fmap, Hj; done].
Qed.

Lemma indexed_list_find l m fresh k n :
  indexed l m fresh -> m !! k = Some n ->
  exists i a, list_find (fun x => x.1 = n) l = Some (i, (n, a)) /\ (n, a) ∈ l /\ kf a = k.
Proof.
  intros Hidx Hm. destruct (proj1 (idx_find _ _ _ Hidx k n) Hm) as (a & Ha & Hk).
  destruct (list_find_elem_of (fun x => x.1 = n) l (n, a)) as [[i [n' a']] Hf]; [done|done|].
  pose proof Hf as Hf'. apply list_find_Some in Hf' as (Hi & Hn & _). simpl in Hn. subst n'.
  assert ((n, a') ∈ l) as Ha' by (by eapply list_elem_of_lookup_2).
  rewrite <- (indexed_unique _ _ _ _ _ _ Hidx Ha Ha') in Hf. eauto.
Qed.

Lemma indexed_split l m fresh n a :
  indexed l m fresh -> (n, a) ∈ l -> l ≡ₚ (n, a) :: filter (fun x => x.1 <> n) l.
Proof.
  intros Hidx. pose proof (idx_nodup _ _ _ Hidx) as Hnd. clear Hidx.
  induction l as [|[n' a'] l IH]; [by intros ?%elem_of_nil|]. simpl in Hnd.
  apply NoDup_cons in Hnd as [Hout Hnd]. intros [Heq|Hin]%elem_of_cons.
  - simplify_eq. rewrite filter_cons_False by (simpl; tauto).
    rewrite filter_all; [done|]. apply Forall_forall. intros [n a] Hx Heq. simpl in Heq.
    subst. apply Hout. apply list_elem_of_fmap. by exists (n', a).
  - assert (n' <> n). { intros ->. apply Hout. apply list_elem_of_fmap. by exists (n, a). }
    rewrite filter_cons_True by done. rewrite (IH Hnd Hin) at 1. apply Permutation_swap.
Qed.

Lemma indexed_delete l m fresh k n :
  indexed l m fresh -> m !! k = Some n ->
  indexed (filter (fun x => x.1 <> n) l) (delete k m) fresh.
Proof.
  intros Hidx Hm. destruct (proj1 (idx_find _ _ _ Hidx k n) Hm) as (a & Ha & Hk).
  pose proof (indexed_split l m fresh n a Hidx Ha) as Hp.
  apply (indexed_perm _ _ _ _ Hp) in Hidx as Hidx'. destruct Hidx' as [H1 H2 H3].
  cbn [fmap list_fmap fst] in *. apply NoDup_cons in H1 as [H1 H1']. apply Forall_cons in H2 as [_ H2].
  split; [done|done|]. intros k' n'. destruct (decide (k' = k)) as [->|Hne].
  - rewrite lookup_delete_eq. split; [done|]. intros (a' & Ha' & Hk').
    assert (m !! k = Some n') as Hm'. { apply H3. exists a'. split; [by apply list_elem_of_further|done]. }
    apply list_elem_of_filter in Ha' as [Hn _]. simpl in Hn. congruence.
  - rewrite lookup_delete_ne, H3 by done. split.
    + intros (a' & [?|Hin]%elem_of_cons & Hk'); [simplify_eq; congruence|eauto].
    + intros (a' & Hin & Hk'). exists a'. split; [by apply list_elem_of_further|done].
Qed.

End Nodes.

(** ** The policies meet the laws *)

Lemma pop_back_snoc {A} (l : list A) x : pop_back (l ++ [x]) = Some l.
Proof.
  unfold pop_back. destruct (l ++ [x]) eqn:Heq; [by destruct l|]. rewrite <- Heq.
  rewrite length_app. simpl. rewrite Nat.add_sub. by rewrite take_app_length.
Qed.

Section Policies.
Context `{Countable Key}.

#[refine] Definition No_spec (pick : gset Key -> option Key)
    (Hpick : forall s, s <> ∅ -> exists k, pick s = Some k /\ k ∈ s)
  : @CachePolicySpec (NoCachePolicy Key) Key _ _ (No_policy pick) :=
  {| pol_ok _ := True; pol_keys p := key_storage p |}.
Proof.
  - done.
  - intros p k _ _. exists p. done.
  - intros p _ Hne. destruct (Hpick _ Hne) as (k & Hk & Hin).
    exists k, (MkNo (key_storage p ∖ {[ k ]})). done.
Defined.

#[export, refine] Instance FIFO_spec : CachePolicySpec (FIFOCachePolicy Key) Key :=
  {| pol_ok p := NoDup (fifo_queue p); pol_keys p := list_to_set (fifo_queue p) |}.
Proof.
  - intros p k Hok Hk. simpl. split; [|set_solver]. apply NoDup_cons. set_solver.
  - intros p k Hok _. exists p. done.
  - intros p Hok Hne. destruct (fifo_queue p) as [|k q] eqn:Hq using rev_ind; [set_solver|].
    exists k, (MkFIFO q). simpl. unfold fifo_ReplCandidate, fifo_Erase. rewrite Hq, last_snoc, pop_back_snoc.
    apply NoDup_app in Hok as (Hok & Hd & _).
    split_and!; [done|set_solver|done|done|]. simpl. rewrite list_to_set_app_L. set_solver.
Defined.

Definition lru_ok (p : LRUCachePolicy Key) : Prop :=
  indexed (fun k => k) (lru_queue p) (key_finder p) (lru_fresh p).

Lemma lru_keys p : lru_ok p -> dom (key_finder p) = list_to_set (lru_queue p).*2.
Proof.
  intros Hok. apply set_eq. intros k. rewrite elem_of_dom, elem_of_list_to_set, list_elem_of_fmap.
  split.
  - intros [n Hn]. apply (idx_find _ _ _ _ Hok) in Hn as (a & Ha & ->). by exists (n, k).
  - intros ([n a] & -> & Hin). exists n. apply (idx_find _ _ _ _ Hok). by exists a.
Qed.

(** Dropping the last node. *)
Lemma lru_erase_last p q n k :
  lru_ok p -> lru_queue p = q ++ [(n, k)] ->
  key_finder p !! k = Some n /\ lru_ok (MkLRU q (delete k (key_finder p)) (lru_fresh p)).
Proof.
  intros Hok Hq. unfold lru_ok in *. rewrite Hq in Hok.
  assert (key_finder p !! k = Some n) as Hk.
  { apply (idx_find _ _ _ _ Hok). exists k. split; [apply elem_of_app; right; apply list_elem_of_here|done]. }
  split; [done|]. simpl.
  pose proof (indexed_delete _ _ _ _ _ _ Hok Hk) as Hd.
  rewrite filter_app, filter_cons_False, filter_nil, app_nil_r in Hd by (simpl; tauto).
  rewrite filter_all in Hd; [done|]. apply Forall_forall. intros [n' k'] Hin Heq. simpl in Heq. subst n'.
  pose proof (idx_nodup _ _ _ _ Hok) as Hnd. rewrite fmap_app in Hnd.
  apply NoDup_app in Hnd as (_ & Hd' & _). apply (Hd' n).
  - apply list_elem_of_fmap. by exists (n, k').
  - apply list_elem_of_here.
Qed.

Lemma lru_touch_ok p k n :
  lru_ok p -> key_finder p !! k = Some n ->
  lru_Touch p k = Some (MkLRU ((n, k) :: filter (fun x => x.1 <> n) (lru_queue p)) (key_finder p) (lru_fresh p))
  /\ lru_queue p ≡ₚ (n, k) :: filter (fun x => x.1 <> n) (lru_queue p).
Proof.
  intros Hok Hn. destruct (indexed_list_find _ _ _ _ _ _ Hok Hn) as (i & a & Hf & Hin & <-).
  unfold lru_Touch. rewrite Hn. simpl. rewrite Hf. simpl. split; [done|].
  by apply (indexed_split _ _ _ _ _ _ Hok).
Qed.

#[export, refine] Instance LRU_spec : CachePolicySpec (LRUCachePolicy Key) Key :=
  {| pol_ok := lru_ok; pol_keys p := dom (key_finder p) |}.
Proof.
  - intros p k Hok Hk. split; [|simpl; apply dom_insert_L].
    apply (indexed_insert (fun k => k)); [done|]. by apply not_elem_of_dom.
  - intros p k Hok [n Hn]%elem_of_dom. destruct (lru_touch_ok p k n Hok Hn) as [Ht Hp].
    eexists. split; [exact Ht|]. split; [|done]. unfold lru_ok. simpl. by eapply indexed_perm.
  - intros p Hok Hne. rewrite lru_keys in Hne by done.
    destruct (lru_queue p) as [|[n k] q] eqn:Hq using rev_ind; [set_solver|].
    destruct (lru_erase_last p q n k Hok Hq) as [Hk Hok'].
    exists k, (MkLRU q (delete k (key_finder p)) (lru_fresh p)). simpl.
    unfold lru_ReplCandidate, lru_Erase. rewrite Hq, last_snoc. simpl. rewrite pop_back_snoc. simpl.
    split_and!; [done|by eapply elem_of_dom_2|done|done|]. apply dom_delete_L.
Defined.

Definition lfu_ok (p : LFUCachePolicy Key) : Prop :=
  indexed snd (frequency_storage p) (lfu_storage p) (lfu_fresh p).

Lemma emplace_upper_perm (x : nat * (Z * Key)) l : emplace_upper x l ≡ₚ x :: l.
Proof.
  induction l as [|y l IH]; simpl; [done|]. destruct (_ <? _); [done|].
  rewrite IH. apply Permutation_swap.
Qed.

Lemma emplace_lower_perm (x : nat * (Z * Key)) l : emplace_lower x l ≡ₚ x :: l.
Proof.
  induction l as [|y l IH]; simpl; [done|]. destruct (_ <? _); [|done].
  rewrite IH. apply Permutation_swap.
Qed.

Lemma lfu_touch_ok p k n :
  lfu_ok p -> lfu_storage p !! k = Some n ->
  exists f p', lfu_Touch p k = Some p' /\ lfu_ok p' /\ dom (lfu_storage p') = dom (lfu_storage p)
    /\ (n, (f, k)) ∈ frequency_storage p
    /\ frequency_storage p'
       = emplace_upper (lfu_fresh p, (u64 (f + 1), k)) (filter (fun x => x.1 <> n) (frequency_storage p)).
Proof.
  intros Hok Hn. destruct (indexed_list_find _ _ _ _ _ _ Hok Hn) as (i & [f k'] & Hf & Hin & Hk).
  simpl in Hk. subst k'. unfold lfu_Touch. rewrite Hn. simpl. rewrite Hf. simpl.
  do 2 eexists. split; [done|]. simpl. split_and!; [|apply dom_insert_lookup_L; eauto|done|done].
  unfold lfu_ok. simpl. eapply indexed_perm; [symmetry; apply emplace_upper_perm|].
  assert (<[k := lfu_fresh p]> (lfu_storage p) = <[k := lfu_fresh p]> (delete k (lfu_storage p))) as ->
    by (by rewrite insert_delete_eq).
  apply (indexed_insert snd _ _ _ (u64 (f + 1), k)); [|apply lookup_delete_eq].
  by apply (indexed_delete _ _ _ _ _ _ Hok).
Qed.

Lemma lfu_erase_ok p k n :
  lfu_ok p -> lfu_storage p !! k = Some n ->
  exists p', lfu_Erase p k = Some p' /\ lfu_ok p' /\ dom (lfu_storage p') = dom (lfu_storage p) ∖ {[ k ]}.
Proof.
  intros Hok Hn. destruct (indexed_list_find _ _ _ _ _ _ Hok Hn) as (i & a & Hf & _).
  unfold lfu_Erase. rewrite Hn. simpl. rewrite Hf. simpl. eexists. split; [done|].
  split; [by apply (indexed_delete _ _ _ _ _ _ Hok)|apply dom_delete_L].
Qed.

#[export, refine] Instance LFU_spec : CachePolicySpec (LFUCachePolicy Key) Key :=
  {| pol_ok := lfu_ok; pol_keys p := dom (lfu_storage p) |}.
Proof.
  - intros p k Hok Hk. split; [|simpl; apply dom_insert_L]. unfold lfu_ok. simpl.
    eapply indexed_perm; [symmetry; apply emplace_lower_perm|].
    apply (indexed_insert snd _ _ _ (1, k)); [done|]. by apply not_elem_of_dom.
  - intros p k Hok [n Hn]%elem_of_dom. destruct (lfu_touch_ok p k n Hok Hn) as (f & p' & ? & ? & ? & _). eauto.
  - intros p Hok Hne. apply set_choose_L in Hne as [k0 [n0 Hn0]%elem_of_dom].
    apply (idx_find _ _ _ _ Hok) in Hn0 as (a0 & Hin0 & _).
    destruct (frequency_storage p) as [|[n [f k]] l] eqn:Hl; [by apply elem_of_nil in Hin0|].
    assert (lfu_storage p !! k = Some n) as Hn.
    { apply (idx_find _ _ _ _ Hok). exists (f, k). split; [rewrite Hl; apply list_elem_of_here|done]. }
    destruct (lfu_erase_ok p k n Hok Hn) as (p' & He & Hok' & Hd). exists k, p'.
    simpl. unfold lfu_ReplCandidate. rewrite Hl. simpl.
    split_and!; [done|by eapply elem_of_dom_2|done|done|done].
Defined.

#[export] Instance LFU_erases_any : ErasesAny (LFUCachePolicy Key) Key.
Proof.
  intros p k Hok Hk. change (k ∈ dom (lfu_storage p)) in Hk.
  apply elem_of_dom in Hk as [n Hn]. by apply (lfu_erase_ok p k n).
Qed.

End Policies.

(** ** The cache, against the laws *)

Section Bounded.
Context {P Key Value : Type} `{CachePolicySpec P Key}.
Implicit Types (c : fixed_sized_cache P Key Value).

Record cache_inv c : Prop := {
  inv_policy : pol_ok (cache_policy c);
  inv_keys : pol_keys (cache_policy c) = dom (cache_items_map c);
  inv_bound : Z.of_nat (size (cache_items_map c)) <= max_cache_size c;
  inv_max : 0 < max_cache_size c;
}.

Lemma cache_inv_Insert c k v :
  cache_inv c -> FindElem c k = None -> Z.of_nat (size (cache_items_map c)) + 1 <= max_cache_size c ->
  cache_inv (Insert c k v).
Proof.
  intros [Hok Hkeys _ Hmax] Hk Hsz. destruct (pol_Insert (cache_policy c) k) as [Hok' Hkeys'].
  { done. } { rewrite Hkeys. by apply not_elem_of_dom. }
  split; simpl; [done| | |done].
  - rewrite Hkeys', Hkeys. by rewrite dom_insert_L.
  - rewrite map_size_insert_None by done. lia.
Qed.

Lemma cache_inv_Update c k v v0 :
  cache_inv c -> FindElem c k = Some v0 ->
  exists c', Update c k v = Some c' /\ cache_inv c'
    /\ cache_items_map c' = <[k := v]> (cache_items_map c) /\ evict_queue c' = evict_queue c.
Proof.
  intros [Hok Hkeys Hsz Hmax] Hk. destruct (pol_Touch (cache_policy c) k) as (p' & Ht & Hok' & Hkeys').
  { done. } { rewrite Hkeys. by eapply elem_of_dom_2. }
  unfold Update. rewrite Ht. simpl. eexists. split; [done|]. split; [|done].
  split; simpl; [done| | |done].
  - rewrite Hkeys', Hkeys. symmetry. apply dom_insert_lookup_L. eauto.
  - by rewrite map_size_insert_Some by eauto.
Qed.

(** The candidate of a full cache and its erasure. *)
Lemma cache_evict c :
  cache_inv c -> max_cache_size c < Z.of_nat (size (cache_items_map c)) + 1 ->
  exists kd vd p', cp_ReplCandidate (cache_policy c) = Some kd
    /\ cache_items_map c !! kd = Some vd
    /\ cp_Erase (cache_policy c) kd = Some p' /\ pol_ok p'
    /\ pol_keys p' = dom (delete kd (cache_items_map c))
    /\ Z.of_nat (size (delete kd (cache_items_map c))) + 1 <= max_cache_size c.
Proof.
  intros [Hok Hkeys Hsz Hmax] Hfull. destruct (pol_Repl (cache_policy c)) as (kd & p' & Hr & Hin & He & Hok' & Hk').
  { done. } { rewrite Hkeys. intros Hd.
    assert (cache_items_map c = ∅) as Hm by (by apply dom_empty_inv_L).
    rewrite Hm, map_size_empty in Hfull. lia. }
  rewrite Hkeys in Hin. apply elem_of_dom in Hin as [vd Hvd].
  exists kd, vd, p'. split_and!; try done.
  - by rewrite Hk', Hkeys, dom_delete_L.
  - rewrite map_size_delete_Some by eauto.
    assert (size (cache_items_map c) <> 0%nat).
    { intros Hz. apply map_size_empty_iff in Hz. rewrite Hz in Hvd. done. }
    lia.
Qed.

(** What [Put] does to the map: an update, an insertion, or an insertion
    after the candidate of the policy has been dropped. *)
Lemma Put_cases c k v :
  cache_inv c ->
  exists c', Put c k v = Some c' /\ cache_inv c' /\ max_cache_size c' = max_cache_size c
    /\ ((cache_items_map c' = <[k := v]> (cache_items_map c) /\ evict_queue c' = evict_queue c)
        \/ (exists kd, cp_ReplCandidate (cache_policy c) = Some kd /\ kd <> k
             /\ FindElem c k = None
             /\ Z.of_nat (size (cache_items_map c)) = max_cache_size c
             /\ cache_items_map c' = <[k := v]> (delete kd (cache_items_map c))
             /\ evict_queue c' = kd :: evict_queue c)).
Proof.
  intros Hinv. unfold Put. destruct (FindElem c k) as [v0|] eqn:Hf.
  - destruct (cache_inv_Update c k v v0 Hinv Hf) as (c' & Hu & Hinv' & Hm & Hq).
    exists c'. split_and!; try done; [|by left]. unfold Update in Hu.
    destruct (cp_Touch _ k); by simplify_eq/=.
  - destruct (Z.ltb_spec (max_cache_size c) (Z.of_nat (size (cache_items_map c)) + 1)) as [Hfull|Hroom].
    + destruct (cache_evict c Hinv Hfull) as (kd & vd & p' & Hr & Hvd & He & Hok' & Hk' & Hsz').
      rewrite Hr. simpl. unfold Erase, FindElem. simpl. rewrite He. simpl. rewrite Hvd. simpl.
      assert (kd <> k) by (unfold FindElem in Hf; congruence).
      eexists. split; [done|]. split.
      * apply cache_inv_Insert; simpl; [|unfold FindElem; simpl; by rewrite lookup_delete_ne|done].
        split; simpl; [done|done|lia|apply Hinv].
      * split; [done|]. right. exists kd. split_and!; try done. pose proof (inv_bound _ Hinv). lia.
    + eexists. split; [done|]. split; [by apply cache_inv_Insert|]. split; [done|]. by left.
Qed.

Lemma Get_cases c k :
  cache_inv c ->
  exists c', Get c k = Some (c', FindElem c k) /\ cache_inv c' /\ max_cache_size c' = max_cache_size c
    /\ cache_items_map c' = cache_items_map c /\ evict_queue c' = evict_queue c.
Proof.
  intros Hinv. unfold Get. destruct (FindElem c k) as [v|] eqn:Hf; [|by exists c].
  destruct Hinv as [Hok Hkeys Hsz Hmax].
  destruct (pol_Touch (cache_policy c) k) as (p' & Ht & Hok' & Hkeys').
  { done. } { rewrite Hkeys. by eapply elem_of_dom_2. }
  rewrite Ht. simpl. eexists. split; [done|]. split; [|done]. split; simpl; try done. congruence.
Qed.

(** A client of the cache. *)
Inductive cache_op : Type := OpPut (k : Key) (v : Value) | OpGet (k : Key).

Definition cache_step c (op : cache_op) : option (fixed_sized_cache P Key Value) :=
  match op with
  | OpPut k v => Put c k v
  | OpGet k => '(c, _) ← Get c k; Some c
  end.

Definition cache_run c (ops : list cache_op) : option (fixed_sized_cache P Key Value) :=
  foldM cache_step ops c.

Lemma cache_run_inv ops c :
  cache_inv c -> exists c', cache_run c ops = Some c' /\ cache_inv c' /\ max_cache_size c' = max_cache_size c.
Proof.
  unfold cache_run. revert c. induction ops as [|op ops IH]; intros c Hinv; cbn [foldM]; [eauto|].
  assert (exists c1, cache_step c op = Some c1 /\ cache_inv c1 /\ max_cache_size c1 = max_cache_size c)
    as (c1 & -> & Hinv1 & Hmax1).
  { destruct op as [k v|k]; simpl.
    - destruct (Put_cases c k v Hinv) as (c1 & ? & ? & ? & _). eauto.
    - destruct (Get_cases c k Hinv) as (c1 & -> & ? & ? & _). simpl. eauto. }
  simpl. rewrite <- Hmax1. by apply IH.
Qed.

(** Under any policy that meets the laws, a sequence of [Put]s and
    [Get]s never runs into undefined behaviour and never exceeds the maximal
    size, and a [Put] afterwards stores its pair and drops at most one other
    key, the candidate of the policy, which it records in the eviction
    queue. *)
Theorem cache_put_correct max_size (p : P) ops k v :
  0 < max_size -> pol_ok p -> pol_keys p = ∅ ->
  exists c c', cache_run (new_cache max_size p) ops = Some c
    /\ Put c k v = Some c'
    /\ Size c <= max_size /\ Size c' <= max_size
    /\ FindElem c' k = Some v
    /\ ((evict_queue c' = evict_queue c
          /\ forall k', k' <> k -> FindElem c' k' = FindElem c k')
        \/ (exists kd, cp_ReplCandidate (cache_policy c) = Some kd
             /\ evict_queue c' = kd :: evict_queue c /\ FindElem c' kd = None
             /\ Size c = max_size
             /\ forall k', k' <> k -> k' <> kd -> FindElem c' k' = FindElem c k')).
Proof.
  intros Hmax Hok Hempty.
  destruct (cache_run_inv ops (new_cache max_size p)) as (c & Hrun & Hinv & Hsize).
  { unfold new_cache. destruct (Z.eqb_spec max_size 0); [lia|]. split; simpl; [done| |rewrite map_size_empty; lia|done].
    rewrite Hempty. by rewrite dom_empty_L. }
  unfold new_cache in Hsize. destruct (Z.eqb_spec max_size 0); [lia|]. simpl in Hsize.
  destruct (Put_cases c k v Hinv) as (c' & Hput & Hinv' & Hsize' & Hcase).
  exists c, c'. unfold Size, FindElem. split_and!; try done.
  - rewrite <- Hsize. apply Hinv.
  - rewrite <- Hsize, <- Hsize'. apply Hinv'.
  - destruct Hcase as [[-> _]|(kd & _ & _ & _ & _ & -> & _)]; apply lookup_insert_eq.
  - destruct Hcase as [[-> ->]|(kd & Hr & Hne & _ & Hfull & -> & ->)].
    + left. split; [done|]. intros k' Hk'. by rewrite lookup_insert_ne.
    + right. exists kd. split_and!; try done.
      * rewrite lookup_insert_ne by done. apply lookup_delete_eq.
      * congruence.
      * intros k' Hk' Hkd. by rewrite lookup_insert_ne, lookup_delete_ne.
Qed.

End Bounded.
Arguments cache_op Key Value : clear implicits.

(** ** LRU keeps the most recently used keys *)

Section LRU.
Context {Key Value : Type} `{Countable Key}.
Implicit Types (l : list Key).

(** The distinct keys of a trace, the latest use first. *)
Fixpoint recency (tr : list Key) : list Key :=
  match tr with
  | [] => []
  | k :: tr => k :: filter (fun x => x <> k) (recency tr)
  end.

(** The uses of keys by a client: every [Put], and a [Get] of one of the [n]
    most recently used keys.  The latest comes first. *)
Definition use (n : nat) (tr : list Key) (op : cache_op Key Value) : list Key :=
  match op with
  | OpPut k _ => k :: tr
  | OpGet k => if decide (k ∈ take n (recency tr)) then k :: tr else tr
  end.
Definition uses (n : nat) (ops : list (cache_op Key Value)) : list Key :=
  fold_left (use n) ops [].

Lemma recency_NoDup tr : NoDup (recency tr).
Proof.
  induction tr as [|k tr IH]; simpl; [constructor|].
  apply NoDup_cons. split; [|by apply NoDup_filter]. rewrite list_elem_of_filter. tauto.
Qed.

Lemma filter_ne_absent k l : k ∉ l -> filter (fun x => x <> k) l = l.
Proof. intros Hk. apply filter_all, Forall_forall. intros x Hx ->. done. Qed.

Lemma take_filter_absent k l m : k ∉ take m l -> take m (filter (fun x => x <> k) l) = take m l.
Proof.
  revert m. induction l as [|x l IH]; intros [|m] Hk; simpl; try done.
  simpl in Hk. rewrite not_elem_of_cons in Hk. destruct Hk as [Hne Hk].
  rewrite filter_cons_True by congruence. simpl. by rewrite IH.
Qed.

Lemma take_filter_present k l m :
  NoDup l -> k ∈ take (S m) l ->
  take m (filter (fun x => x <> k) l) = filter (fun x => x <> k) (take (S m) l).
Proof.
  revert m. induction l as [|x l IH]; intros m Hnd Hk; [by apply elem_of_nil in Hk|].
  apply NoDup_cons in Hnd as [Hx Hnd]. destruct (decide (x = k)) as [->|Hne].
  - rewrite firstn_cons, !filter_cons_False by tauto.
    rewrite take_filter_absent, filter_ne_absent; [done|..]; intros Hin; by apply subseteq_take in Hin.
  - rewrite firstn_cons in *. rewrite !filter_cons_True by done.
    apply elem_of_cons in Hk as [?|Hk]; [congruence|].
    destruct m as [|m]; [by apply elem_of_nil in Hk|]. simpl. by rewrite (IH m).
Qed.

Abbreviation queue p := (lru_queue p).*2.

Lemma queue_touch (p : LRUCachePolicy Key) k n :
  lru_ok p -> key_finder p !! k = Some n ->
  (filter (fun x => x.1 <> n) (lru_queue p)).*2 = filter (fun x => x <> k) (queue p).
Proof.
  intros Hok Hn.
  assert (Forall (fun x => x.1 = n <-> x.2 = k) (lru_queue p)) as Hiff.
  { apply Forall_forall. intros [n' k'] Hin. simpl.
    assert (key_finder p !! k' = Some n') as Hk' by (apply (idx_find _ _ _ _ Hok); eauto).
    split; intros ->; [|congruence].
    apply (idx_find _ _ _ _ Hok) in Hn as (a & Ha & ->).
    by apply (indexed_unique _ _ _ _ n k' k Hok). }
  induction Hiff as [|x l Hx _ IH]; [done|]. rewrite fmap_cons. destruct (decide (x.1 = n)).
  - rewrite !filter_cons_False by tauto. apply IH.
  - rewrite !filter_cons_True, fmap_cons by tauto. f_equal. apply IH.
Qed.

Record lru_state (n : nat) (c : fixed_sized_cache (LRUCachePolicy Key) Key Value) (tr : list Key) : Prop := {
  ls_inv : cache_inv c;
  ls_max : max_cache_size c = Z.of_nat n;
  ls_queue : queue (cache_policy c) = take n (recency tr);
}.

Lemma lru_state_size n c tr :
  lru_state n c tr -> size (cache_items_map c) = length (take n (recency tr))
    /\ forall k, is_Some (cache_items_map c !! k) <-> k ∈ take n (recency tr).
Proof.
  intros [[Hok Hkeys _ _] _ Hq]. simpl in Hok, Hkeys. rewrite lru_keys, Hq in Hkeys by done. split.
  - rewrite <- size_dom, <- Hkeys. apply size_list_to_set.
    eapply sublist_NoDup; [apply recency_NoDup|apply sublist_take].
  - intros k. rewrite <- elem_of_dom, <- Hkeys. by rewrite elem_of_list_to_set.
Qed.

(** A touch of a cached key. *)
Lemma lru_touch_queue m (p p' : LRUCachePolicy Key) k tr :
  lru_ok p -> queue p = take (S m) (recency tr) -> k ∈ take (S m) (recency tr) ->
  lru_Touch p k = Some p' -> queue p' = take (S m) (recency (k :: tr)).
Proof.
  intros Hok Hq Hk Ht.
  assert (k ∈ dom (key_finder p)) as [n Hn]%elem_of_dom
    by (rewrite lru_keys, Hq by done; by apply elem_of_list_to_set).
  destruct (lru_touch_ok p k n Hok Hn) as [Ht' _]. rewrite Ht' in Ht. simplify_eq. cbn [lru_queue].
  rewrite fmap_cons, (queue_touch p k n), Hq by done. cbn [recency snd]. rewrite firstn_cons.
  f_equal. symmetry.
  apply take_filter_present; [apply recency_NoDup|done].
Qed.

Lemma lru_state_Put m c tr k v :
  lru_state (S m) c tr -> exists c', Put c k v = Some c' /\ lru_state (S m) c' (k :: tr).
Proof.
  intros Hs. destruct (lru_state_size _ _ _ Hs) as [Hsize Hmem]. destruct Hs as [Hinv Hmax Hq].
  destruct (Put_cases c k v Hinv) as (c' & Hput & Hinv' & Hmax' & _).
  exists c'. split; [done|]. split; [done|congruence|].
  pose proof (inv_policy _ Hinv) as Hok. simpl in Hok. unfold Put, FindElem in Hput.
  destruct (cache_items_map c !! k) as [v0|] eqn:Hk.
  - unfold Update in Hput. destruct (cp_Touch (cache_policy c) k) as [p'|] eqn:Ht; simplify_eq/=.
    eapply lru_touch_queue; [exact Hok|exact Hq|apply Hmem; eauto|exact Ht].
  - assert (k ∉ take (S m) (recency tr)) as Hout by (intros Hin%Hmem; rewrite Hk in Hin; by destruct Hin).
    assert (k ∉ take m (recency tr)) as Hout'
      by (rewrite <- (Nat.min_l m (S m)), <- take_take by lia; intros Hin; by apply subseteq_take in Hin).
    cbn [recency]. rewrite firstn_cons, take_filter_absent by done.
    destruct (Z.ltb_spec (max_cache_size c) (Z.of_nat (size (cache_items_map c)) + 1)) as [Hfull|Hroom].
    + unfold Erase, FindElem in Hput. simpl in Hput.
      unfold lru_ReplCandidate, lru_Erase in Hput.
      destruct (lru_queue (cache_policy c)) as [|[n kd] q] eqn:Hl using rev_ind; [done|].
      rewrite last_snoc in Hput. simpl in Hput. rewrite pop_back_snoc in Hput. simpl in Hput.
      destruct (cache_items_map c !! kd); simplify_eq/=. f_equal.
      rewrite fmap_app in Hq. simpl in Hq.
      assert (length (take (S m) (recency tr)) = S m) as Hlen.
      { pose proof (inv_bound _ Hinv). lia. }
      assert (length q.*2 = m) as Hqm.
      { rewrite <- Hq, length_app in Hlen. simpl in Hlen. lia. }
      rewrite <- (Nat.min_l m (S m)), <- take_take, <- Hq, <- Hqm by lia. by rewrite take_app_length.
    + simplify_eq/=. f_equal. rewrite Hq, !take_ge; [done|..]; rewrite Hsize, length_take in Hroom; lia.
Qed.

Lemma lru_state_Get m c tr k :
  lru_state (S m) c tr ->
  exists c' r, Get c k = Some (c', r) /\ lru_state (S m) c' (use (S m) tr (OpGet k)).
Proof.
  intros Hs. destruct (lru_state_size _ _ _ Hs) as [Hsize Hmem]. destruct Hs as [Hinv Hmax Hq].
  destruct (Get_cases c k Hinv) as (c' & Hget & Hinv' & Hmax' & _).
  exists c', (FindElem c k). split; [done|]. split; [done|congruence|].
  pose proof (inv_policy _ Hinv) as Hok. simpl in Hok. unfold Get, FindElem in Hget. unfold use.
  destruct (cache_items_map c !! k) as [v|] eqn:Hk.
  - rewrite decide_True by (apply Hmem; eauto).
    destruct (cp_Touch (cache_policy c) k) as [p'|] eqn:Ht; simplify_eq/=.
    eapply lru_touch_queue; [exact Hok|exact Hq|apply Hmem; eauto|exact Ht].
  - rewrite decide_False by (intros Hin%Hmem; rewrite Hk in Hin; by destruct Hin).
    by simplify_eq.
Qed.

Definition lru_empty : LRUCachePolicy Key := MkLRU [] ∅ 0.

(** C16: With the LRU policy, after any sequence of [Put]s and [Get]s the cache
    of [n] > 0 elements holds exactly the [n] most recently used keys, in the
    order of their last use.  A use is a [Put], or a [Get] of a cached key;
    [Remove] is not among the calls, since [lru_Erase] takes the last key of
    the queue and not the key it is given. *)
Theorem lru_keeps_most_recent m ops :
  exists c, cache_run (new_cache (Z.of_nat (S m)) lru_empty) ops = Some c
    /\ (lru_queue (cache_policy c)).*2 = take (S m) (recency (uses (S m) ops))
    /\ forall k, Cached c k = true <-> k ∈ take (S m) (recency (uses (S m) ops)).
Proof.
  assert (forall c tr, lru_state (S m) c tr ->
    exists c', cache_run c ops = Some c' /\ lru_state (S m) c' (fold_left (use (S m)) ops tr)) as Hrun.
  { unfold cache_run. induction ops as [|op ops IH]; intros c tr Hs; cbn [foldM fold_left]; [eauto|].
    destruct op as [k v|k]; simpl.
    - destruct (lru_state_Put m c tr k v Hs) as (c1 & -> & Hs1). simpl. by apply IH.
    - destruct (lru_state_Get m c tr k Hs) as (c1 & r & -> & Hs1). simpl. by apply IH. }
  destruct (Hrun (new_cache (Z.of_nat (S m)) lru_empty) []) as (c & Hc & Hs).
  { split; [|done|done]. split; simpl; [|done|rewrite map_size_empty; lia|lia].
    split; simpl; [constructor|constructor|]. intros k n. split; [done|].
    intros (a & Ha & _). by apply elem_of_nil in Ha. }
  exists c. split; [done|]. destruct (lru_state_size _ _ _ Hs) as [_ Hmem].
  split; [apply Hs|]. intros k. rewrite <- Hmem. unfold Cached, FindElem.
  by destruct (cache_items_map c !! k); split; intros Hx.
Qed.

End LRU.

(** ** LFU drops a least frequently used key *)

Section LFU.
Context {Key Value : Type} `{Countable Key}.

Definition lfu_sorted (bound : Z) (l : list (nat * (Z * Key))) : Prop :=
  StronglySorted (fun x y => x.2.1 <= y.2.1) l /\ Forall (fun x => 1 <= x.2.1 <= bound) l.

Lemma sorted_filter (f : nat * (Z * Key) -> Prop) `{forall x, Decision (f x)} bound l :
  lfu_sorted bound l -> lfu_sorted bound (filter f l).
Proof.
  intros [Hs Hb]. split; [|by apply Forall_filter].
  induction Hs as [|x l Hs IH Hall]; [constructor|]. apply Forall_cons in Hb as [_ Hb].
  destruct (decide (f x)).
  - rewrite filter_cons_True by done. constructor; [by apply IH|by apply Forall_filter].
  - rewrite filter_cons_False by done. by apply IH.
Qed.

Lemma sorted_mono bound bound' l : bound <= bound' -> lfu_sorted bound l -> lfu_sorted bound' l.
Proof. intros Hle [Hs Hb]. split; [done|]. eapply Forall_impl; [exact Hb|]. simpl. lia. Qed.

Lemma Forall_emplace_upper (Q : nat * (Z * Key) -> Prop) x l : Q x -> Forall Q l -> Forall Q (emplace_upper x l).
Proof. intros Hx Hl. rewrite emplace_upper_perm. by constructor. Qed.
Lemma Forall_emplace_lower (Q : nat * (Z * Key) -> Prop) x l : Q x -> Forall Q l -> Forall Q (emplace_lower x l).
Proof. intros Hx Hl. rewrite emplace_lower_perm. by constructor. Qed.

Lemma sorted_upper bound x l :
  1 <= x.2.1 <= bound -> lfu_sorted bound l -> lfu_sorted bound (emplace_upper x l).
Proof.
  intros Hx [Hs Hb]. split; [|by apply Forall_emplace_upper].
  induction Hs as [|y l Hs IH Hall]; simpl; [repeat constructor|].
  apply Forall_cons in Hb as [_ Hb]. destruct (Z.ltb_spec x.2.1 y.2.1).
  - constructor; [by constructor|]. constructor; [lia|]. eapply Forall_impl; [exact Hall|]. simpl. lia.
  - constructor; [by apply IH|]. apply Forall_emplace_upper; [done|done].
Qed.

Lemma sorted_lower bound x l :
  1 <= x.2.1 <= bound -> lfu_sorted bound l -> lfu_sorted bound (emplace_lower x l).
Proof.
  intros Hx [Hs Hb]. split; [|by apply Forall_emplace_lower].
  induction Hs as [|y l Hs IH Hall]; simpl; [repeat constructor|].
  apply Forall_cons in Hb as [_ Hb]. destruct (Z.ltb_spec y.2.1 x.2.1).
  - constructor; [by apply IH|]. apply Forall_emplace_lower; [lia|done].
  - constructor; [by constructor|]. constructor; [lia|]. eapply Forall_impl; [exact Hall|]. simpl. lia.
Qed.

Lemma sorted_touch bound (p p' : LFUCachePolicy Key) k :
  lfu_ok p -> k ∈ dom (lfu_storage p) -> bound < 2 ^ 64 - 1 ->
  lfu_sorted bound (frequency_storage p) -> lfu_Touch p k = Some p' ->
  lfu_sorted (bound + 1) (frequency_storage p').
Proof.
  intros Hok [n Hn]%elem_of_dom Hmax Hs Ht.
  destruct (lfu_touch_ok p k n Hok Hn) as (f & p1 & Ht' & _ & _ & Hin & Hst).
  rewrite Ht' in Ht. simplify_eq. rewrite Hst.
  destruct Hs as [Hs Hb]. pose proof (proj1 (Forall_forall _ _) Hb _ Hin) as Hf. simpl in Hf.
  apply sorted_upper; [simpl; rewrite wrap_small by lia; lia|].
  apply sorted_filter. apply (sorted_mono bound); [lia|]. by split.
Qed.

Definition lfu_empty : LFUCachePolicy Key := MkLFU [] ∅ 0.

Lemma lfu_step_sorted bound (c c' : fixed_sized_cache (LFUCachePolicy Key) Key Value) op :
  cache_inv c -> 1 <= bound < 2 ^ 64 - 1 -> lfu_sorted bound (frequency_storage (cache_policy c)) ->
  cache_step c op = Some c' -> lfu_sorted (bound + 1) (frequency_storage (cache_policy c')).
Proof.
  intros [Hok Hkeys _ _] Hb Hs Hstep. simpl in Hok, Hkeys.
  assert (forall k v, FindElem c k = Some v -> k ∈ dom (lfu_storage (cache_policy c))) as Hdom
    by (intros k v Hk; rewrite Hkeys; by eapply elem_of_dom_2).
  destruct op as [k v|k]; simpl in Hstep.
  - unfold Put in Hstep. destruct (FindElem c k) as [v0|] eqn:Hf.
    + unfold Update in Hstep. destruct (cp_Touch _ k) as [p'|] eqn:Ht; simplify_eq/=.
      by eapply sorted_touch; [| | | |exact Ht]; eauto; lia.
    + destruct (_ <? _).
      * destruct (cp_ReplCandidate _) as [kd|]; simplify_eq/=. unfold Erase in Hstep. simpl in Hstep.
        destruct (lfu_Erase (cache_policy c) kd) as [p'|] eqn:He; simplify_eq/=.
        destruct (FindElem _ kd); simplify_eq/=. apply sorted_lower; [simpl; lia|].
        unfold lfu_Erase in He. destruct (lfu_storage (cache_policy c) !! kd) as [n|]; simplify_eq/=.
        destruct (list_find _ _); simplify_eq/=. apply sorted_filter.
        apply (sorted_mono bound); [lia|done].
      * simplify_eq/=. apply sorted_lower; [simpl; lia|]. apply (sorted_mono bound); [lia|done].
  - unfold Get in Hstep. destruct (FindElem c k) as [v|] eqn:Hf; simplify_eq/=.
    + destruct (lfu_Touch (cache_policy c) k) as [p'|] eqn:Ht; simplify_eq/=.
      by eapply sorted_touch; [| | | |exact Ht]; eauto; lia.
    + apply (sorted_mono bound); [lia|done].
Qed.

(** With the LFU policy, after any sequence of fewer than [2^64 - 2] calls
    the candidate for replacement is a key with the least frequency. *)
Theorem lfu_candidate_least max_size ops :
  0 < max_size -> Z.of_nat (length ops) < 2 ^ 64 - 2 ->
  exists c : fixed_sized_cache (LFUCachePolicy Key) Key Value,
    cache_run (new_cache max_size lfu_empty) ops = Some c
    /\ forall kd, lfu_ReplCandidate (cache_policy c) = Some kd ->
         exists n f, (n, (f, kd)) ∈ frequency_storage (cache_policy c)
           /\ forall n' f' k', (n', (f', k')) ∈ frequency_storage (cache_policy c) -> f <= f'.
Proof.
  intros Hmax Hlen.
  assert (forall c bound, cache_inv c -> 1 <= bound -> bound + Z.of_nat (length ops) < 2 ^ 64 - 1 ->
    lfu_sorted bound (frequency_storage (cache_policy c)) ->
    exists c', cache_run c ops = Some c' /\ exists bound', lfu_sorted bound' (frequency_storage (cache_policy c')))
    as Hrun.
  { clear Hlen. unfold cache_run.
    induction ops as [|op ops IH]; intros c bound Hinv Hb Hlen Hs; cbn [foldM length] in *; [eauto|].
    destruct (cache_run_inv [op] c Hinv) as (c1 & Hc1 & Hinv1 & _).
    unfold cache_run in Hc1. cbn [foldM] in Hc1.
    destruct (cache_step c op) as [c2|] eqn:Hstep; simplify_eq/=.
    apply (IH c1 (bound + 1)); [done|lia|lia|]. by apply (lfu_step_sorted bound c c1 op); [|lia| |]. }
  destruct (Hrun (new_cache max_size lfu_empty) 1) as (c & Hc & b' & Hs & _).
  - unfold new_cache. destruct (Z.eqb_spec max_size 0); [lia|].
    split; simpl; [|done|rewrite map_size_empty; lia|done].
    split; simpl; [constructor|constructor|]. intros k i. split; [done|].
    intros (a & Ha & _). by apply elem_of_nil in Ha.
  - lia.
  - lia.
  - split; constructor.
  - exists c. split; [done|]. intros kd Hkd. unfold lfu_ReplCandidate in Hkd.
    destruct (frequency_storage (cache_policy c)) as [|[n [f k]] l]; simplify_eq/=.
    exists n, f. split; [apply list_elem_of_here|]. intros n' f' k' [?|Hin]%elem_of_cons; [by simplify_eq|].
    inversion Hs as [|? ? _ Hall]; subst. rewrite Forall_forall in Hall. apply (Hall _ Hin).
Qed.

End LFU.

(** ** Remove *)

Section Removal.
Context {P Key Value : Type} `{ErasesAny P Key}.

(** Under a policy that can erase any key, such as LFU, [Remove] takes
    out exactly the key, reports whether it was there, and leaves the cache
    in a state from which every later call is defined. *)
Theorem cache_remove_correct (c : fixed_sized_cache P Key Value) k :
  cache_inv c ->
  exists c', Remove c k = Some (c', Cached c k) /\ cache_inv c'
    /\ cache_items_map c' = delete k (cache_items_map c).
Proof.
  intros Hinv. unfold Remove, Cached. destruct (FindElem c k) as [v|] eqn:Hf.
  - destruct Hinv as [Hok Hkeys Hsz Hmax].
    destruct (pol_Erase (cache_policy c) k) as (p' & He & Hok' & Hkeys').
    { done. } { rewrite Hkeys. by eapply elem_of_dom_2. }
    unfold Erase. rewrite He. simpl. rewrite Hf. simpl. eexists. split; [done|]. split; [|done].
    split; simpl; [done|by rewrite Hkeys', Hkeys, dom_delete_L| |done].
    rewrite map_size_delete_Some by eauto. lia.
  - exists c. split_and!; try done. symmetry. by apply delete_id.
Qed.

End Removal.

(** Any client call, with [Remove]. *)
Definition remove_run {P} `{!ICachePolicy P Z} (p : P) : option (fixed_sized_cache P Z Z) :=
  c ← Put (new_cache 2 p) 1 10;
  c ← Put c 2 20;
  '(c, _) ← Remove c 2;
  c ← Put c 3 30;
  Put c 4 40.

Definition fifo_empty : FIFOCachePolicy Z := MkFIFO [].

(** FIFO and LRU erase their last element whatever the key.  After two
    [Put]s, a [Remove] of the newer key and a [Put], the next [Put] asks the
    policy for a candidate that is no longer cached and dereferences the end
    iterator; the same calls are defined under LFU. *)
Theorem remove_breaks_fifo_lru :
  remove_run fifo_empty = None /\ remove_run (lru_empty : LRUCachePolicy Z) = None
  /\ is_Some (remove_run (lfu_empty : LFUCachePolicy Z)).
Proof. vm_compute. split_and!; [done|done|eauto]. Qed.

Lemma cache_put_correct_witness :
  exists c c', cache_run (new_cache 1 lru_empty : fixed_sized_cache (LRUCachePolicy Z) Z Z)
                 [OpPut 1 10; OpGet 1] = Some c
    /\ Put c 2 20 = Some c' /\ FindElem c' 2 = Some 20.
Proof.
  destruct (cache_put_correct (Value := Z) 1 (lru_empty : LRUCachePolicy Z) [OpPut 1 10; OpGet 1] 2 20)
    as (c & c' & Hrun & Hput & _ & _ & Hf & _).
  - lia.
  - split; simpl; [constructor|constructor|]. intros k n. split; [done|].
    intros (a & Ha & _). by apply elem_of_nil in Ha.
  - reflexivity.
  - exists c, c'. split; [exact Hrun|]. split; [exact Hput|exact Hf].
Defined.

Lemma lfu_candidate_least_witness :
  exists c : fixed_sized_cache (LFUCachePolicy Z) Z Z,
    cache_run (new_cache 2 lfu_empty) [OpPut 1 10; OpPut 2 20; OpGet 1] = Some c
    /\ exists n f, (n, (f, 2)) ∈ frequency_storage (cache_policy c).
Proof.
  destruct (lfu_candidate_least (Key := Z) (Value := Z) 2 [OpPut 1 10; OpPut 2 20; OpGet 1])
    as (c & Hrun & Hk).
  - lia.
  - simpl. lia.
  - exists c. split; [exact Hrun|]. destruct (Hk 2) as (n & f & Hin & _).
    + pose proof Hrun as Hr. vm_compute in Hr. injection Hr as <-. reflexivity.
    + exists n, f. exact Hin.
Defined.

Lemma cache_remove_correct_witness :
  exists c', Remove (new_cache 2 lfu_empty : fixed_sized_cache (LFUCachePolicy Z) Z Z) 5 = Some (c', false).
Proof.
  destruct (cache_remove_correct (new_cache 2 lfu_empty : fixed_sized_cache (LFUCachePolicy Z) Z Z) 5)
    as (c' & Hr & _).
  - split; simpl; [|reflexivity|rewrite map_size_empty; lia|lia].
    split; simpl; [constructor|constructor|]. intros k n. split; [done|].
    intros (a & Ha & _). by apply elem_of_nil in Ha.
  - exists c'. exact Hr.
Defined.
