(* ===== verification/CuckooHash.v ===== *)
(** * The cuckoo hash table (server/src/cuckoo_hash.cpp)

    Every pair sits at one of the two positions its key hashes to.  When
    both positions of a new key are taken, [find_path] follows the chain of
    pairs that would have to move, up to [kCuckooThreshold] of them, and
    [execute_path] moves them along; when neither position has such a path
    the table is doubled and refilled.

    [exit(1)] is an outcome of its own ([Exited]); [None] is undefined
    behaviour, or a loop that the fuel of the model does not finish. *)

From S2P Require Import Prelude PairDefs HashFun.

Inductive outcome (A : Type) : Type :=
| Ret (a : A)
| Exited.
Arguments Ret {A}.
Arguments Exited {A}.

Definition kCuckooThreshold : nat := 16.
Definition kMaxGrows : nat := 128.
Definition cuckoo_seed : Z := 0xc70f6907.

(** The members; [mutex] has [nlocks] elements, [temp] is never used. *)
Record CuckooHash : Type := MkCH {
  capacity : Z;
  table : list Pair;
  pushed : Pair * Pair;
  old_cap : Z;
  old_tab : list Pair;
  resizing_lock : Z;
  nlocks : Z;
  locksize : Z;
}.

Definition set_table (t : CuckooHash) (tab : list Pair) : CuckooHash :=
  MkCH (capacity t) tab (pushed t) (old_cap t) (old_tab t) (resizing_lock t) (nlocks t) (locksize t).
Definition set_pushed (t : CuckooHash) (p : Pair * Pair) : CuckooHash :=
  MkCH (capacity t) (table t) p (old_cap t) (old_tab t) (resizing_lock t) (nlocks t) (locksize t).
Definition set_resizing (t : CuckooHash) (b : Z) : CuckooHash :=
  MkCH (capacity t) (table t) (pushed t) (old_cap t) (old_tab t) b (nlocks t) (locksize t).

(** [float(n)]: [n] to 24 significant bits, ties to even. *)
Definition float_of (n : Z) : Z :=
  let e := Z.log2 n - 23 in
  if e <=? 0 then n
  else
    let q := n ≫ e in
    let r := n - q ≪ e in
    let half := 1 ≪ (e - 1) in
    (if (half <? r) || ((half =? r) && Z.odd q) then q + 1 else q) ≪ e.

Section Operations.
Context `{StdHash}.

Definition f_hash (key : Key_t) : Z := hash_funcs 0 (key_bytes key) cuckoo_seed.
Definition s_hash (key : Key_t) : Z := hash_funcs 1 (key_bytes key) cuckoo_seed.

Definition new_table (junk : nat -> Value_t) (_capacity : Z) : CuckooHash :=
  let locksize := 256 in
  MkCH _capacity (new_Pairs junk (Z.to_nat _capacity)) (MkPair 0 0, MkPair 0 0) 0 [] 0
    (s32 (_capacity / locksize + 1)) locksize.

Definition lock_slot (t : CuckooHash) (idx : Z) : option unit :=
  if idx / locksize t <? nlocks t then Some tt else None.

(** The [do] loop of [find_path], [n] rounds from the threshold. *)
Fixpoint find_loop (n : nat) (cap : Z) (tab : list Pair) (cur : Z) (path : list (Z * Key_t))
  : option (outcome (list (Z * Key_t))) :=
  match n with
  | O => Some (Ret [])
  | S n =>
      p ← tab !! Z.to_nat cur;
      if is_free p then Some (Ret path)
      else
        f_idx ← urem (f_hash (pkey p)) cap;
        s_idx ← urem (s_hash (pkey p)) cap;
        if f_idx =? cur then
          q ← tab !! Z.to_nat s_idx;
          find_loop n cap tab s_idx (path ++ [(s_idx, pkey q)])
        else if s_idx =? cur then
          q ← tab !! Z.to_nat f_idx;
          find_loop n cap tab f_idx (path ++ [(f_idx, pkey q)])
        else Some Exited
  end.

Definition find_path (t : CuckooHash) (target : Z) : option (outcome (list (Z * Key_t))) :=
  p ← table t !! Z.to_nat target;
  find_loop kCuckooThreshold (capacity t) (table t) target [(target, pkey p)].

(** [execute_path] with a new pair: the pairs move from the end of the path. *)
Definition execute_path (tab : list Pair) (path : list (Z * Key_t)) (key : Key_t) (value : Value_t)
  : option (list Pair) :=
  tab ← foldM (fun tab i =>
                 to ← path !! i; from ← path !! (i - 1)%nat;
                 p ← tab !! Z.to_nat from.1;
                 store tab (Z.to_nat to.1) p)
          (rev (seq 1 (length path - 1))) tab;
  first ← path !! 0%nat;
  store tab (Z.to_nat first.1) (MkPair key value).

(** [execute_path] with [pushed]: element [i] is swapped into the path, the
    other element takes what was there. *)
Fixpoint execute_pushed (tab : list Pair) (pushed : Pair * Pair) (i : bool) (path : list (Z * Key_t))
  : option (list Pair * (Pair * Pair)) :=
  match path with
  | [] => Some (tab, pushed)
  | p :: path =>
      old ← tab !! Z.to_nat p.1;
      let pushed := if i then (old, pushed.2) else (pushed.1, old) in
      tab ← store tab (Z.to_nat p.1) (if i then pushed.2 else pushed.1);
      execute_pushed tab pushed (negb i) path
  end.

Definition insert4resize (t : CuckooHash) (key : Key_t) (value : Value_t)
  : option (outcome (CuckooHash * bool)) :=
  f_idx ← urem (f_hash key) (capacity t);
  s_idx ← urem (s_hash key) (capacity t);
  pf ← table t !! Z.to_nat f_idx;
  if is_free pf then
    tab ← store (table t) (Z.to_nat f_idx) (MkPair key value);
    Some (Ret (set_table t tab, true))
  else
    ps ← table t !! Z.to_nat s_idx;
    if is_free ps then
      tab ← store (table t) (Z.to_nat s_idx) (MkPair key value);
      Some (Ret (set_table t tab, true))
    else
      r1 ← find_path t f_idx;
      match r1 with
      | Exited => Some Exited
      | Ret path1 =>
          r2 ← find_path t s_idx;
          match r2 with
          | Exited => Some Exited
          | Ret path2 =>
              let t := set_pushed t (MkPair key value, (pushed t).2) in
              match path1, path2 with
              | [], [] => Some (Ret (t, false))
              | _, _ =>
                  let path :=
                    match path1, path2 with
                    | [], _ => path2
                    | _, [] => path1
                    | _, _ => if (length path1 <? length path2)%nat then path1 else path2
                    end in
                  '(tab, pushed) ← execute_pushed (table t) (pushed t) false path;
                  Some (Ret (set_pushed (set_table t tab) pushed, true))
              end
          end
      end.

(** The refill loop of [resize]. *)
Fixpoint refill (t : CuckooHash) (l : list Pair) : option (outcome (CuckooHash * bool)) :=
  match l with
  | [] => Some (Ret (t, true))
  | p :: l =>
      if is_free p then refill t l
      else
        r ← insert4resize t (pkey p) (pvalue p);
        match r with
        | Exited => Some Exited
        | Ret (t, true) => refill t l
        | Ret (t, false) => Some (Ret (t, false))
        end
  end.

(** The growing loop of [resize], [n] attempts from [kMaxGrows]. *)
Fixpoint grow_loop (n : nat) (junk : nat -> Value_t) (t : CuckooHash)
  : option (outcome (CuckooHash * bool)) :=
  match n with
  | O => Some (Ret (t, false))
  | S n =>
      let cap := 2 * float_of (capacity t) in
      if 2 ^ 64 <=? cap then None
      else
        let t := MkCH cap (new_Pairs junk (Z.to_nat cap)) (pushed t) (old_cap t) (old_tab t)
                   (resizing_lock t) (nlocks t) (locksize t) in
        r ← refill t (old_tab t);
        match r with
        | Exited => Some Exited
        | Ret (t, true) => Some (Ret (t, true))
        | Ret (t, false) => grow_loop n junk t
        end
  end.

Definition resize (junk : nat -> Value_t) (t : CuckooHash) : option (outcome CuckooHash) :=
  let t := MkCH (capacity t) (table t) (pushed t) (capacity t) (table t)
             (resizing_lock t) (nlocks t) (locksize t) in
  r ← grow_loop kMaxGrows junk t;
  match r with
  | Exited | Ret (_, false) => Some Exited
  | Ret (t, true) =>
      Some (Ret (MkCH (capacity t) (table t) (pushed t) (old_cap t) (old_tab t)
                   (resizing_lock t) (s32 (capacity t / locksize t + 1)) (locksize t)))
  end.

(** The choice between the two paths. *)
Definition choose_path (path1 path2 : list (Z * Key_t)) : list (Z * Key_t) :=
  if (length path1 =? 0)%nat
     || (negb (length path2 =? 0)%nat && (length path2 <? length path1)%nat)
     || (negb (length path2 =? 0)%nat
         && match path1 with (_, k) :: _ => k =? INVALID | [] => false end)
  then path2 else path1.

(** [Insert], with at most [fuel] rounds of [RETRY].  Under one thread the
    tests of [resizing_lock] and of the keys on the path succeed. *)
Fixpoint Insert (fuel : nat) (junk : nat -> Value_t) (t : CuckooHash) (key : Key_t) (value : Value_t)
  : option (outcome CuckooHash) :=
  match fuel with
  | O => None
  | S fuel =>
      if resizing_lock t =? 1 then None
      else
        f_idx ← urem (f_hash key) (capacity t);
        s_idx ← urem (s_hash key) (capacity t);
        _ ← lock_slot t f_idx;
        pf ← table t !! Z.to_nat f_idx;
        if is_free pf then
          tab ← store (table t) (Z.to_nat f_idx) (MkPair key value);
          Some (Ret (set_table t tab))
        else
          _ ← lock_slot t s_idx;
          ps ← table t !! Z.to_nat s_idx;
          if is_free ps then
            tab ← store (table t) (Z.to_nat s_idx) (MkPair key value);
            Some (Ret (set_table t tab))
          else
            let t := set_resizing t 1 in
            r1 ← find_path t f_idx;
            match r1 with
            | Exited => Some Exited
            | Ret path1 =>
                r2 ← find_path t s_idx;
                match r2 with
                | Exited => Some Exited
                | Ret path2 =>
                    if (length path1 =? 0)%nat && (length path2 =? 0)%nat then
                      r ← resize junk t;
                      match r with
                      | Exited => Some Exited
                      | Ret t => Insert fuel junk (set_resizing t 0) key value
                      end
                    else
                      let path := choose_path path1 path2 in
                      _ ← foldM (fun _ p => lock_slot t p.1) path tt;
                      if forallb (fun p => match table t !! Z.to_nat p.1 with
                                           | Some x => pkey x =? p.2
                                           | None => false
                                           end) path
                      then
                        tab ← execute_path (table t) path key value;
                        Some (Ret (set_table (set_resizing t 0) tab))
                      else None
                end
            end
  end.

Definition InsertOnly (t : CuckooHash) (key : Key_t) (value : Value_t)
  : option (CuckooHash * bool) :=
  f_idx ← urem (f_hash key) (capacity t);
  s_idx ← urem (s_hash key) (capacity t);
  pf ← table t !! Z.to_nat f_idx;
  if is_free pf then
    tab ← store (table t) (Z.to_nat f_idx) (MkPair key value); Some (set_table t tab, true)
  else
    ps ← table t !! Z.to_nat s_idx;
    if is_free ps then
      tab ← store (table t) (Z.to_nat s_idx) (MkPair key value); Some (set_table t tab, true)
    else Some (t, false).

(** The loop of [Get] over the two hash functions, on either table. *)
Definition lookup_two (t : CuckooHash) (cap : Z) (tab : list Pair) (key : Key_t) : option Value_t :=
  f_idx ← urem (f_hash key) cap;
  _ ← lock_slot t f_idx;
  pf ← tab !! Z.to_nat f_idx;
  if has_key key pf then Some (pvalue pf)
  else
    s_idx ← urem (s_hash key) cap;
    _ ← lock_slot t s_idx;
    ps ← tab !! Z.to_nat s_idx;
    if has_key key ps then Some (pvalue ps) else Some NONE.

Definition Get (t : CuckooHash) (key : Key_t) : option Value_t :=
  if resizing_lock t =? 0 then lookup_two t (capacity t) (table t) key
  else lookup_two t (old_cap t) (old_tab t) key.

Definition Delete (t : CuckooHash) (key : Key_t) : option (CuckooHash * bool) := Some (t, false).

(** The loop of [Utilization]: the number of slots in use. *)
Definition Utilization_size (t : CuckooHash) : option Z :=
  foldM (fun n i => p ← table t !! i; Some (if is_free p then n else u64 (n + 1)))
    (seq 0 (Z.to_nat (capacity t))) 0.

End Operations.

(** ** Positions and chains *)

#[global] Opaque f_hash s_hash.

Section Chains.
Context `{StdHash}.
Implicit Types (tab : list Pair) (l : list Z).

Definition idx1 (cap : Z) (k : Key_t) : Z := f_hash k mod cap.
Definition idx2 (cap : Z) (k : Key_t) : Z := s_hash k mod cap.
Definition home (cap : Z) (k : Key_t) (i : Z) : Prop := i = idx1 cap k \/ i = idx2 cap k.

Lemma home_range cap k i : 0 < cap -> home cap k i -> 0 <= i < cap.
Proof. intros Hc [->| ->]; by apply Z.mod_pos_bound. Qed.

(** Every pair sits at a position of its key. *)
Record placed (cap : Z) tab : Prop := {
  pl_length : length tab = Z.to_nat cap;
  pl_home : forall i p, tab !! i = Some p -> pkey p <> INVALID -> home cap (pkey p) (Z.of_nat i);
}.

(** Where the pair at [cur] would move. *)
Definition other (cap : Z) (k : Key_t) (cur : Z) : Z :=
  if idx1 cap k =? cur then idx2 cap k else idx1 cap k.

Lemma other_home cap k cur : home cap k (other cap k cur).
Proof. unfold other, home. destruct (_ =? _); auto. Qed.

(** The positions from [cur] to the first free one. *)
Inductive chain (cap : Z) tab : Z -> list Z -> Prop :=
| chain_free cur p :
    tab !! Z.to_nat cur = Some p -> pkey p = INVALID -> chain cap tab cur [cur]
| chain_step cur p l :
    tab !! Z.to_nat cur = Some p -> pkey p <> INVALID ->
    chain cap tab (other cap (pkey p) cur) l -> chain cap tab cur (cur :: l).

Lemma chain_det cap tab cur l l' : chain cap tab cur l -> chain cap tab cur l' -> l = l'.
Proof.
  intros Hc. revert l'. induction Hc as [cur p Hp Hf|cur p l Hp Hu Hc IH]; intros l' Hc';
    inversion Hc' as [? p' Hp' Hf'|? p' l1 Hp' Hu' Hc1]; simplify_eq; try done.
  f_equal. by apply IH.
Qed.

(** Every position of a chain starts a shorter chain. *)
Lemma chain_suffix cap tab cur l q :
  chain cap tab cur l -> q ∈ l -> exists l', chain cap tab q l' /\ (length l' <= length l)%nat
    /\ (q <> cur -> length l' < length l)%nat.
Proof.
  induction 1 as [cur p Hp Hf|cur p l Hp Hu Hc IH]; intros Hq.
  - apply list_elem_of_singleton in Hq as ->. exists [cur]. split_and!; [by econstructor|done|done].
  - apply elem_of_cons in Hq as [->|Hq].
    + exists (cur :: l). split_and!; [by econstructor|done|done].
    + destruct (IH Hq) as (l' & Hc' & Hle & _). exists l'. split_and!; [done|simpl; lia|simpl; lia].
Qed.

(** A chain never visits a position twice: the walk is a function of the
    position, so a second visit would give the same chain a shorter length. *)
Lemma chain_NoDup cap tab cur l : chain cap tab cur l -> NoDup l.
Proof.
  induction 1 as [cur p Hp Hf|cur p l Hp Hu Hc IH]; [apply NoDup_singleton|].
  apply NoDup_cons. split; [|done]. intros Hin.
  destruct (chain_suffix _ _ _ _ _ Hc Hin) as (l' & Hc' & Hle & _).
  assert (chain cap tab cur (cur :: l)) as Hfull by (by econstructor).
  rewrite (chain_det _ _ _ _ _ Hc' Hfull) in Hle. simpl in Hle. lia.
Qed.

Lemma chain_range cap tab cur l q :
  0 < cap -> 0 <= cur < cap -> chain cap tab cur l -> q ∈ l -> 0 <= q < cap.
Proof.
  intros Hcap Hcur. induction 1 as [cur p Hp Hf|cur p l Hp Hu Hc IH]; intros Hq.
  - by apply list_elem_of_singleton in Hq as ->.
  - apply elem_of_cons in Hq as [->|Hq]; [done|]. apply IH; [|done].
    apply (home_range cap (pkey p)); [done|apply other_home].
Qed.

Lemma chain_ext cap tab tab' cur l :
  chain cap tab cur l -> (forall q, q ∈ l -> tab !! Z.to_nat q = tab' !! Z.to_nat q) ->
  chain cap tab' cur l.
Proof.
  induction 1 as [cur p Hp Hf|cur p l Hp Hu Hc IH]; intros Hext.
  - econstructor; [|exact Hf]. rewrite <- Hext; [done|apply list_elem_of_here].
  - econstructor; [|exact Hu|].
    + rewrite <- Hext; [done|apply list_elem_of_here].
    + apply IH. intros q Hq. apply Hext. by apply list_elem_of_further.
Qed.

(** ** The path that is found *)

Definition with_keys tab l : list (Z * Key_t) :=
  (fun q => (q, from_option pkey INVALID (tab !! Z.to_nat q))) <$> l.

Lemma with_keys_fst tab l : (with_keys tab l).*1 = l.
Proof. unfold with_keys. induction l as [|q l IH]; [done|]. rewrite !fmap_cons. by rewrite IH. Qed.

Lemma find_loop_chain cap tab n cur path :
  0 < cap -> placed cap tab -> 0 <= cur < cap ->
  exists r, find_loop n cap tab cur path = Some (Ret r)
    /\ (r = [] \/ exists l, chain cap tab cur (cur :: l) /\ r = path ++ with_keys tab l
                            /\ (length l < n)%nat).
Proof.
  intros Hcap [Hlen Hhome]. revert cur path. induction n as [|n IH]; intros cur path Hcur; simpl; [eauto|].
  destruct (lookup_lt_is_Some_2 tab (Z.to_nat cur)) as [p Hp]; [lia|]. rewrite Hp. simpl.
  destruct (is_free p) eqn:Hf.
  { apply is_free_true in Hf. exists path. split; [done|]. right. exists [].
    split_and!; [by econstructor|by rewrite app_nil_r|simpl; lia]. }
  apply is_free_false in Hf. rewrite !urem_pos by done. simpl.
  fold (idx1 cap (pkey p)) (idx2 cap (pkey p)).
  pose proof (Hhome _ _ Hp Hf) as Hh. rewrite Z2Nat.id in Hh by lia.
  assert (forall q, q = other cap (pkey p) cur ->
    exists r, (x ← tab !! Z.to_nat q; find_loop n cap tab q (path ++ [(q, pkey x)])) = Some (Ret r)
      /\ (r = [] \/ exists l, chain cap tab cur (cur :: l) /\ r = path ++ with_keys tab l
                              /\ (length l < S n)%nat)) as Hnext.
  { intros q Hq. assert (0 <= q < cap) as Hqr.
    { apply (home_range cap (pkey p)); [done|]. rewrite Hq. apply other_home. }
    destruct (lookup_lt_is_Some_2 tab (Z.to_nat q)) as [x Hx]; [lia|]. rewrite Hx. simpl.
    destruct (IH q (path ++ [(q, pkey x)]) Hqr) as (r & Hr & Hcase). exists r. split; [done|].
    destruct Hcase as [->|(l & Hc & -> & Hl)]; [by left|]. right. exists (q :: l). split_and!.
    - econstructor; [exact Hp|exact Hf|]. by rewrite <- Hq.
    - rewrite <- app_assoc. simpl. rewrite Hx. done.
    - simpl. lia. }
  unfold other in Hnext. destruct (Z.eqb_spec (idx1 cap (pkey p)) cur) as [H1|H1]; [by apply Hnext|].
  destruct (Z.eqb_spec (idx2 cap (pkey p)) cur) as [H2|H2]; [by apply Hnext|].
  exfalso. destruct Hh as [?|?]; congruence.
Qed.

Lemma find_path_ok t target :
  0 < capacity t -> placed (capacity t) (table t) -> 0 <= target < capacity t ->
  exists r, find_path t target = Some (Ret r)
    /\ (r = [] \/ exists l, chain (capacity t) (table t) target l /\ r = with_keys (table t) l
                            /\ NoDup l /\ (length l <= kCuckooThreshold)%nat).
Proof.
  intros Hcap Hpl Ht. unfold find_path.
  destruct (lookup_lt_is_Some_2 (table t) (Z.to_nat target)) as [p Hp].
  { rewrite (pl_length _ _ Hpl). lia. }
  rewrite Hp. cbn [mbind option_bind].
  destruct (find_loop_chain (capacity t) (table t) kCuckooThreshold target [(target, pkey p)])
    as (r & Hr & Hcase); [done..|].
  exists r. split; [done|]. destruct Hcase as [->|(l & Hc & -> & Hl)]; [by left|]. right.
  exists (target :: l). split_and!; [done| |by eapply chain_NoDup|simpl; lia].
  simpl. by rewrite Hp.
Qed.


(** ** Moving pairs along a path *)

(** A pair pushed in at the first position pushes the others on; the pair
    that falls out at the end is returned. *)
Fixpoint push tab (carry : Pair) l : list Pair * Pair :=
  match l with
  | [] => (tab, carry)
  | q :: l => push (<[Z.to_nat q := carry]> tab) (default carry (tab !! Z.to_nat q)) l
  end.

Lemma push_length tab c l : length (push tab c l).1 = length tab.
Proof. revert tab c. induction l; intros tab c; simpl; [done|]. by rewrite IHl, length_insert. Qed.

Lemma nat_of_ne q q' : 0 <= q -> 0 <= q' -> q <> q' -> Z.to_nat q <> Z.to_nat q'.
Proof. lia. Qed.

Lemma placed_insert cap tab cur p :
  0 <= cur -> placed cap tab -> home cap (pkey p) cur -> placed cap (<[Z.to_nat cur := p]> tab).
Proof.
  intros Hcur [Hl Hh] Hp. split; [by rewrite length_insert|]. intros i q Hq Hu.
  apply list_lookup_insert_Some in Hq as [(<- & <- & _)|[_ Hq]]; [by rewrite Z2Nat.id by lia|eauto].
Qed.

Lemma push_ok cap l tab cur carry :
  0 < cap -> 0 <= cur < cap -> chain cap tab cur l -> placed cap tab ->
  pkey carry <> INVALID -> home cap (pkey carry) cur ->
  placed cap (push tab carry l).1 /\ used (push tab carry l).1 ≡ₚ carry :: used tab.
Proof.
  intros Hcap. revert tab cur carry.
  induction l as [|q l IH]; intros tab cur carry Hcur Hc Hpl Hcu Hch; [by inversion Hc|].
  pose proof (chain_NoDup _ _ _ _ Hc) as [Hout _]%NoDup_cons.
  assert (placed cap (<[Z.to_nat cur := carry]> tab)) as Hpl' by (apply placed_insert; [lia|done..]).
  inversion Hc as [? p Hp Hf|? p l' Hp Hu Hc']; subst; cbn [push]; rewrite Hp; cbn [default push fst].
  - split; [done|]. by apply (used_insert _ _ p).
  - assert (0 <= other cap (pkey p) q < cap) as Hor
      by (apply (home_range cap (pkey p)); [done|apply other_home]).
    assert (chain cap (<[Z.to_nat q := carry]> tab) (other cap (pkey p) q) l) as Hc1.
    { eapply chain_ext; [exact Hc'|]. intros q' Hq'. rewrite list_lookup_insert_ne; [done|].
      pose proof (chain_range _ _ _ _ _ Hcap Hor Hc' Hq').
      apply nat_of_ne; [lia|lia|]. by intros ->. }
    destruct (IH _ _ p Hor Hc1 Hpl' Hu (other_home _ _ _)) as [Hpl2 Hperm]. split; [done|].
    rewrite Hperm. by apply used_replace.
Qed.

(** Off the path nothing is touched. *)
Lemma push_insert_comm tab c l q x :
  0 <= q -> Forall (fun q' => 0 <= q' /\ q' <> q) l ->
  (push (<[Z.to_nat q := x]> tab) c l).1 = <[Z.to_nat q := x]> (push tab c l).1.
Proof.
  intros Hq Hl. revert tab c. induction Hl as [|q' l [Hq' Hne] _ IH]; intros tab c; [done|].
  cbn [push]. rewrite list_lookup_insert_ne by lia.
  rewrite <- IH. by rewrite list_insert_insert_ne by lia.
Qed.

Lemma execute_pushed_push tab a c (i : bool) l :
  Forall (fun q => (Z.to_nat q < length tab)%nat) l ->
  exists pushed', execute_pushed tab (if i then (a, c) else (c, a)) i (with_keys tab l)
    = Some ((push tab c l).1, pushed').
Proof.
  assert (forall (keys : list (Z * Key_t)) tab a c (i : bool),
    Forall (fun q => (Z.to_nat q < length tab)%nat) keys.*1 ->
    exists pushed', execute_pushed tab (if i then (a, c) else (c, a)) i keys
      = Some ((push tab c keys.*1).1, pushed')) as Hgen.
  { clear. induction keys as [|[q k] keys IH]; intros tab a c i Hl; cbn [fmap list_fmap fst] in *.
    { by eexists. }
    apply Forall_cons in Hl as [Hq Hl]. cbn [execute_pushed push fst snd].
    destruct (lookup_lt_is_Some_2 tab (Z.to_nat q) Hq) as [old Hold]. rewrite Hold.
    cbn [mbind option_bind default].
    rewrite store_Some by done. cbn [mbind option_bind].
    assert (Forall (fun q0 => (Z.to_nat q0 < length (<[Z.to_nat q := c]> tab))%nat) keys.*1) as Hl'
      by (by rewrite length_insert).
    destruct i; simpl.
    - apply (IH (<[Z.to_nat q := c]> tab) c old false Hl').
    - apply (IH (<[Z.to_nat q := c]> tab) c old true Hl'). }
  intros Hl. specialize (Hgen (with_keys tab l) tab a c i).
  rewrite with_keys_fst in Hgen. by apply Hgen.
Qed.
(** [execute_path] on a path without repetitions: the same as [push]. *)
Definition move_step (path : list (Z * Key_t)) tab (i : nat) : option (list Pair) :=
  to ← path !! i; from ← path !! (i - 1)%nat;
  p ← tab !! Z.to_nat from.1;
  store tab (Z.to_nat to.1) p.

Definition move_loop (path : list (Z * Key_t)) tab : option (list Pair) :=
  foldM (move_step path) (rev (seq 1 (length path - 1))) tab.

Lemma move_loop_cons q0 q1 path tab :
  move_loop (q0 :: q1 :: path) tab
  = (tab ← move_loop (q1 :: path) tab; move_step (q0 :: q1 :: path) tab 1).
Proof.
  unfold move_loop. cbn [length]. rewrite !Nat.sub_succ, !Nat.sub_0_r.
  change (seq 1 (S (length path))) with (1%nat :: seq 2 (length path)). cbn [rev].
  rewrite foldM_snoc. f_equal.
  rewrite <- (seq_shift (length path) 1), <- map_rev, foldM_map.
  apply foldM_ext. intros i s Hi. apply list_elem_of_In, in_rev, list_elem_of_In, elem_of_seq in Hi.
  unfold move_step. destruct i as [|i]; [lia|]. simpl. by rewrite Nat.sub_0_r.
Qed.

Definition path_ok tab (path : list (Z * Key_t)) : Prop :=
  NoDup path.*1 /\ Forall (fun q => 0 <= q /\ (Z.to_nat q < length tab)%nat) path.*1.

(** The loop leaves the first position alone. *)
Lemma move_loop_frame path tab tab' q :
  Forall (fun q => 0 <= q) path.*1 -> 0 <= q -> q ∉ path.*1 ->
  move_loop path tab = Some tab' ->
  tab' !! Z.to_nat q = tab !! Z.to_nat q /\ length tab' = length tab.
Proof.
  intros Hpos Hq Hout. revert tab'.
  induction path as [|q0 path IH]; intros tab' Hm; [cbn in Hm; by simplify_eq|].
  cbn [fmap list_fmap] in *. apply Forall_cons in Hpos as [Hq0 Hpos]. apply not_elem_of_cons in Hout as [Hne Hout].
  destruct path as [|q1 path]; [cbn in Hm; by simplify_eq|].
  rewrite move_loop_cons in Hm.
  destruct (move_loop (q1 :: path) tab) as [tab1|] eqn:Hm1; [|done].
  unfold move_step in Hm. simpl in Hm.
  destruct (IH Hpos Hout tab1 eq_refl) as [Hlk Hlen].
  destruct (tab1 !! Z.to_nat q0.1) as [p|]; [|done]. simpl in Hm.
  apply store_inv in Hm as [_ ->]. rewrite length_insert. split; [|done].
  apply Forall_cons in Hpos as [Hq1 _]. cbn [fmap list_fmap] in Hout. apply not_elem_of_cons in Hout as [Hne1 _].
  by rewrite list_lookup_insert_ne by lia.
Qed.

Lemma move_then_store path tab q x :
  path_ok tab (q :: path) ->
  (tab' ← move_loop (q :: path) tab; store tab' (Z.to_nat q.1) x)
  = Some (push tab x (q :: path).*1).1.
Proof.
  revert q x. induction path as [|q1 path IH]; intros q x [Hnd Hr].
  - cbn [fmap list_fmap] in Hr. apply Forall_cons in Hr as [[_ Hq] _].
    simpl. by rewrite store_Some.
  - rewrite move_loop_cons. rewrite fmap_cons in *. apply NoDup_cons in Hnd as [Hout Hnd].
    apply Forall_cons in Hr as [[Hq0 Hq] Hr].
    destruct (lookup_lt_is_Some_2 tab (Z.to_nat q.1) Hq) as [y Hy].
    specialize (IH q1 y (conj Hnd Hr)).
    destruct (move_loop (q1 :: path) tab) as [tab1|] eqn:Hm; [|done]. cbn [mbind option_bind] in *.
    destruct (move_loop_frame (q1 :: path) tab tab1 q.1) as [Hlk Hlen]; [|done|done|done|].
    { eapply Forall_impl; [exact Hr|]. simpl. tauto. }
    unfold move_step. change ((q :: q1 :: path) !! 1%nat) with (Some q1).
    change ((q :: q1 :: path) !! (1 - 1)%nat) with (Some q). cbn [mbind option_bind].
    rewrite Hlk, Hy. cbn [mbind option_bind]. rewrite IH. cbn [mbind option_bind].
    rewrite store_Some by (by rewrite push_length). cbn [push]. rewrite Hy. cbn [default].
    rewrite push_insert_comm; [done|done|]. apply Forall_forall. intros q' Hq'.
    rewrite Forall_forall in Hr. split; [by apply Hr|]. by intros ->.
Qed.

Lemma execute_path_push tab path k v :
  path <> [] -> path_ok tab path ->
  execute_path tab path k v = Some (push tab (MkPair k v) path.*1).1.
Proof.
  intros Hne Hok. destruct path as [|q path]; [done|].
  rewrite <- (move_then_store path tab q (MkPair k v) Hok).
  unfold execute_path. fold (move_step (q :: path)). fold (move_loop (q :: path) tab).
  destruct (move_loop (q :: path) tab); done.
Qed.

Lemma chain_path_ok cap tab cur l :
  0 < cap -> 0 <= cur < cap -> placed cap tab -> chain cap tab cur l ->
  path_ok tab (with_keys tab l) /\ with_keys tab l <> [].
Proof.
  intros Hcap Hcur Hpl Hc. unfold path_ok. rewrite with_keys_fst. split_and!.
  - by eapply chain_NoDup.
  - apply Forall_forall. intros q Hq. pose proof (chain_range _ _ _ _ _ Hcap Hcur Hc Hq).
    rewrite (pl_length _ _ Hpl). lia.
  - by inversion Hc.
Qed.

(** [find_path] always returns and never takes the branch that is
    marked as terribly wrong; what it returns is empty, or the positions,
    all different and at most sixteen, from the target to a free slot, each
    the other position of the key before it. *)
Theorem find_path_chain t target :
  0 < capacity t -> placed (capacity t) (table t) -> 0 <= target < capacity t ->
  exists r, find_path t target = Some (Ret r)
    /\ (r = [] \/ exists l, chain (capacity t) (table t) target l /\ r = with_keys (table t) l
                            /\ NoDup l /\ (length l <= kCuckooThreshold)%nat).
Proof. apply find_path_ok. Qed.

End Chains.

(** ** Insertion *)

Section Insertion.
Context `{StdHash}.
Implicit Types (t : CuckooHash) (tab : list Pair).

(** Adding a pair to a table, whichever way it is done. *)
Definition adds (cap : Z) tab tab' (p : Pair) : Prop :=
  placed cap tab' /\ used tab' ≡ₚ p :: used tab.

Lemma store_adds cap tab i q k v :
  0 < cap -> placed cap tab -> home cap k i -> k <> INVALID ->
  tab !! Z.to_nat i = Some q -> is_free q = true ->
  exists tab', store tab (Z.to_nat i) (MkPair k v) = Some tab' /\ adds cap tab tab' (MkPair k v).
Proof.
  intros Hcap Hpl Hi Hk Hq Hf. pose proof (home_range cap k i Hcap Hi).
  pose proof (lookup_lt_Some _ _ _ Hq). rewrite store_Some by done.
  eexists. split; [done|]. split; [apply placed_insert; [lia|done|done]|].
  apply (used_insert _ _ q); [done|by apply is_free_true|done].
Qed.

Lemma execute_adds cap tab cur l k v :
  0 < cap -> placed cap tab -> home cap k cur -> k <> INVALID -> chain cap tab cur l ->
  exists tab', execute_path tab (with_keys tab l) k v = Some tab' /\ adds cap tab tab' (MkPair k v).
Proof.
  intros Hcap Hpl Hh Hk Hc. pose proof (home_range cap k cur Hcap Hh) as Hcur.
  destruct (chain_path_ok cap tab cur l Hcap Hcur Hpl Hc) as [Hok Hne].
  eexists. split; [by apply execute_path_push|]. rewrite with_keys_fst. by apply push_ok with cur.
Qed.

Lemma execute_pushed_adds cap tab cur l k v a :
  0 < cap -> placed cap tab -> home cap k cur -> k <> INVALID -> chain cap tab cur l ->
  exists tab' pushed', execute_pushed tab (MkPair k v, a) false (with_keys tab l) = Some (tab', pushed')
    /\ adds cap tab tab' (MkPair k v).
Proof.
  intros Hcap Hpl Hh Hk Hc. pose proof (home_range cap k cur Hcap Hh) as Hcur.
  destruct (chain_path_ok cap tab cur l Hcap Hcur Hpl Hc) as [[_ Hr] _]. rewrite with_keys_fst in Hr.
  destruct (execute_pushed_push tab a (MkPair k v) false l) as (pushed' & He).
  { eapply Forall_impl; [exact Hr|]. simpl. tauto. }
  do 2 eexists. split; [exact He|]. by apply push_ok with cur.
Qed.

(** The members that filling the table does not touch. *)
Definition same_frame t t' : Prop :=
  capacity t' = capacity t /\ old_cap t' = old_cap t /\ old_tab t' = old_tab t
  /\ resizing_lock t' = resizing_lock t /\ nlocks t' = nlocks t /\ locksize t' = locksize t.

#[export] Instance same_frame_preorder : PreOrder same_frame.
Proof.
  split; [by intros t|]. intros t1 t2 t3 (?&?&?&?&?&?) (?&?&?&?&?&?). repeat split; congruence.
Qed.

Lemma insert4resize_ok t k v :
  0 < capacity t -> placed (capacity t) (table t) -> k <> INVALID ->
  exists t' (b : bool), insert4resize t k v = Some (Ret (t', b)) /\ same_frame t t'
    /\ if b then adds (capacity t) (table t) (table t') (MkPair k v) else placed (capacity t) (table t').
Proof.
  intros Hcap Hpl Hk. unfold insert4resize. rewrite !urem_pos by done. cbn [mbind option_bind].
  change (f_hash k mod capacity t) with (idx1 (capacity t) k).
  change (s_hash k mod capacity t) with (idx2 (capacity t) k).
  assert (home (capacity t) k (idx1 (capacity t) k)) as H1 by (by left).
  assert (home (capacity t) k (idx2 (capacity t) k)) as H2 by (by right).
  pose proof (home_range _ _ _ Hcap H1) as Hr1. pose proof (home_range _ _ _ Hcap H2) as Hr2.
  pose proof (pl_length _ _ Hpl) as Hlen.
  destruct (lookup_lt_is_Some_2 (table t) (Z.to_nat (idx1 (capacity t) k))) as [pf Hpf]; [lia|].
  destruct (lookup_lt_is_Some_2 (table t) (Z.to_nat (idx2 (capacity t) k))) as [ps Hps]; [lia|].
  rewrite Hpf, Hps. cbn [mbind option_bind]. destruct (is_free pf) eqn:Hf1.
  { destruct (store_adds _ _ _ _ k v Hcap Hpl H1 Hk Hpf Hf1) as (tab' & -> & Ha).
    by exists (set_table t tab'), true. }
  destruct (is_free ps) eqn:Hf2.
  { destruct (store_adds _ _ _ _ k v Hcap Hpl H2 Hk Hps Hf2) as (tab' & -> & Ha).
    by exists (set_table t tab'), true. }
  destruct (find_path_ok t _ Hcap Hpl Hr1) as (r1 & -> & Hc1). cbn [mbind option_bind].
  destruct (find_path_ok t _ Hcap Hpl Hr2) as (r2 & -> & Hc2). cbn [mbind option_bind].
  assert (forall i l, home (capacity t) k i -> chain (capacity t) (table t) i l ->
    exists t' (b : bool),
      ('(tab, pushed) ← execute_pushed (table t) (MkPair k v, (pushed t).2) false (with_keys (table t) l);
       Some (Ret (set_pushed (set_table (set_pushed t (MkPair k v, (CuckooHash.pushed t).2)) tab) pushed, true)))
      = Some (Ret (t', b)) /\ same_frame t t'
      /\ if b then adds (capacity t) (table t) (table t') (MkPair k v) else placed (capacity t) (table t'))
    as Hexec.
  { intros i l Hi Hc. destruct (execute_pushed_adds _ _ _ _ k v (pushed t).2 Hcap Hpl Hi Hk Hc)
      as (tab' & pushed' & -> & Ha). cbn [mbind option_bind]. by do 2 eexists. }
  destruct Hc1 as [->|(l1 & Hc1 & -> & _)], Hc2 as [->|(l2 & Hc2 & -> & _)].
  - by do 2 eexists.
  - destruct (with_keys (table t) l2) eqn:He; [inversion Hc2; subst; done|]. rewrite <- He.
    by apply (Hexec (idx2 (capacity t) k)).
  - destruct (with_keys (table t) l1) eqn:He; [inversion Hc1; subst; done|]. rewrite <- He.
    by apply (Hexec (idx1 (capacity t) k)).
  - destruct (with_keys (table t) l1) eqn:He1; [inversion Hc1; subst; done|].
    destruct (with_keys (table t) l2) eqn:He2; [inversion Hc2; subst; done|].
    rewrite <- He1, <- He2. destruct (_ <? _)%nat;
      [by apply (Hexec (idx1 (capacity t) k))|by apply (Hexec (idx2 (capacity t) k))].
Qed.

Lemma refill_ok l t :
  0 < capacity t -> placed (capacity t) (table t) ->
  exists t' (b : bool), refill t l = Some (Ret (t', b)) /\ same_frame t t' /\ placed (capacity t) (table t')
    /\ (b = true -> used (table t') ≡ₚ used l ++ used (table t)).
Proof.
  revert t. induction l as [|p l IH]; intros t Hcap Hpl; cbn [refill].
  { exists t, true. split_and!; try done. }
  destruct (is_free p) eqn:Hf.
  { apply is_free_true in Hf. destruct (IH t Hcap Hpl) as (t' & b & -> & ? & ? & Hu).
    exists t', b. split_and!; try done. intros Hb. rewrite (Hu Hb).
    unfold used at 3. rewrite filter_cons_False by naive_solver. done. }
  apply is_free_false in Hf.
  destruct (insert4resize_ok t (pkey p) (pvalue p) Hcap Hpl Hf) as (t1 & b1 & -> & Hfr & Hb1).
  cbn [mbind option_bind]. destruct b1; [|by exists t1, false].
  destruct Hb1 as [Hpl1 Hu1]. destruct Hfr as [Hc1 Hfr].
  rewrite <- Hc1 in Hcap, Hpl1. destruct (IH t1 Hcap Hpl1) as (t' & b & -> & Hfr' & Hpl' & Hu').
  exists t', b. split; [done|]. split; [etrans; [|exact Hfr']; by split|].
  rewrite Hc1 in Hpl'. split; [done|]. intros Hb. rewrite (Hu' Hb), Hu1.
  unfold used at 3. rewrite filter_cons_True by done. fold (used l).
  destruct p as [pk pv]. simpl. symmetry. apply Permutation_middle.
Qed.

Lemma float_of_pos n : 0 < n -> 0 < float_of n.
Proof.
  intros Hn. unfold float_of. destruct (Z.leb_spec (Z.log2 n - 23) 0); [done|].
  set (e := Z.log2 n - 23) in *. cbv zeta.
  assert (0 < n ≫ e).
  { rewrite Z.shiftr_div_pow2 by lia. apply Z.div_str_pos. split; [apply Z.pow_pos_nonneg; lia|].
    etrans; [|apply (Z.log2_spec n Hn)]. apply Z.pow_le_mono_r; lia. }
  destruct (_ || _); rewrite Z.shiftl_mul_pow2 by lia; apply Z.mul_pos_pos; try lia;
    apply Z.pow_pos_nonneg; lia.
Qed.

Lemma grow_loop_ok n junk t r :
  0 < capacity t -> grow_loop n junk t = Some r ->
  exists t' (b : bool), r = Ret (t', b)
    /\ 0 < capacity t' /\ resizing_lock t' = resizing_lock t /\ locksize t' = locksize t
    /\ (b = true -> placed (capacity t') (table t') /\ used (table t') ≡ₚ used (old_tab t)).
Proof.
  revert t. induction n as [|n IH]; intros t Hcap Hg; cbn [grow_loop] in Hg.
  { simplify_eq. by exists t, false. }
  pose proof (float_of_pos _ Hcap) as Hfl. cbv zeta in Hg.
  destruct (2 ^ 64 <=? 2 * float_of (capacity t)); [done|].
  set (t1 := MkCH _ _ _ _ _ _ _ _) in Hg.
  destruct (refill_ok (old_tab t1) t1) as (t2 & b & Hr & Hfr & Hpl & Hu).
  - simpl. lia.
  - split; [apply new_Pairs_length|]. intros i p Hp Hu. by apply new_Pairs_lookup in Hp.
  - rewrite Hr in Hg. cbn [mbind option_bind] in Hg.
    destruct Hfr as (Hc & _ & Hot & Hrl & _ & Hls). destruct b.
    + simplify_eq. exists t2, true. rewrite Hc. split_and!; try done; [simpl; lia|].
      intros _. split; [done|]. rewrite (Hu eq_refl). simpl. by rewrite new_Pairs_used, app_nil_r.
    + destruct (IH t2) as (t' & b & -> & ? & Hrl' & Hls' & Hb); [rewrite Hc; simpl; lia|done|].
      exists t', b. split_and!; try done; [by rewrite Hrl'|by rewrite Hls'|].
      intros Hbt. destruct (Hb Hbt) as [? Hp]. split; [done|]. by rewrite Hp, Hot.
Qed.

Lemma resize_ok junk t t' :
  0 < capacity t -> resize junk t = Some (Ret t') ->
  0 < capacity t' /\ placed (capacity t') (table t') /\ used (table t') ≡ₚ used (table t)
  /\ resizing_lock t' = resizing_lock t /\ locksize t' = locksize t
  /\ nlocks t' = s32 (capacity t' / locksize t' + 1).
Proof.
  intros Hcap Hres. unfold resize in Hres. set (t1 := MkCH _ _ _ _ _ _ _ _) in Hres.
  destruct (grow_loop kMaxGrows junk t1) as [r|] eqn:Hg; [|done]. cbn [mbind option_bind] in Hres.
  destruct (grow_loop_ok _ _ t1 _ Hcap Hg) as (t2 & b & -> & Hc & Hrl & Hls & Hb).
  destruct b; [|done]. destruct (Hb eq_refl) as [Hpl Hu]. injection Hres as <-. done.
Qed.

(** ** The invariant of the table *)

Record ch_inv t : Prop := {
  ch_cap : 0 < capacity t;
  ch_placed : placed (capacity t) (table t);
  ch_locksize : locksize t = 256;
  ch_nlocks : nlocks t = s32 (capacity t / 256 + 1);
  ch_idle : resizing_lock t = 0;
}.

Lemma ch_inv_set t tab : ch_inv t -> placed (capacity t) tab -> ch_inv (set_table t tab).
Proof. intros [? ? ? ? ?] ?. by split. Qed.

Lemma lock_slot_ok t idx :
  ch_inv t -> capacity t < 2 ^ 38 -> 0 <= idx < capacity t -> lock_slot t idx = Some tt.
Proof.
  intros [_ _ Hls Hnl _] Hc Hi. unfold lock_slot. rewrite Hls, Hnl.
  assert (capacity t / 256 < 2 ^ 30) by (apply Z.div_lt_upper_bound; lia).
  assert (0 <= capacity t / 256) by (apply Z.div_pos; lia).
  rewrite s32_small by lia. assert (idx / 256 <= capacity t / 256) by (apply Z.div_le_mono; lia).
  destruct (Z.ltb_spec (idx / 256) (capacity t / 256 + 1)); [done|lia].
Qed.

Lemma choose_path_cases path1 path2 :
  (length path1 =? 0)%nat && (length path2 =? 0)%nat = false ->
  choose_path path1 path2 <> [] /\ (choose_path path1 path2 = path1 \/ choose_path path1 path2 = path2).
Proof.
  unfold choose_path. destruct path1 as [|[q k] path1], path2 as [|p2 path2]; simpl; intros ?; try done; auto.
  destruct (_ || _); auto.
Qed.

Lemma path_keys_valid cap tab cur l :
  0 < cap -> 0 <= cur < cap -> placed cap tab -> chain cap tab cur l ->
  forallb (fun p => match tab !! Z.to_nat p.1 with Some x => pkey x =? p.2 | None => false end)
    (with_keys tab l) = true.
Proof.
  intros Hcap Hcur Hpl Hc. apply forallb_forall. intros [q k] Hin. apply list_elem_of_In in Hin.
  apply list_elem_of_fmap in Hin as (q' & Heq & Hq). simplify_eq. simpl.
  pose proof (chain_range _ _ _ _ _ Hcap Hcur Hc Hq).
  destruct (lookup_lt_is_Some_2 tab (Z.to_nat q')) as [x Hx]; [rewrite (pl_length _ _ Hpl); lia|].
  rewrite Hx. simpl. apply Z.eqb_refl.
Qed.

Lemma chosen_chain t k r1 r2 :
  (r1 = [] \/ exists l, chain (capacity t) (table t) (idx1 (capacity t) k) l /\ r1 = with_keys (table t) l
                        /\ NoDup l /\ (length l <= kCuckooThreshold)%nat) ->
  (r2 = [] \/ exists l, chain (capacity t) (table t) (idx2 (capacity t) k) l /\ r2 = with_keys (table t) l
                        /\ NoDup l /\ (length l <= kCuckooThreshold)%nat) ->
  (length r1 =? 0)%nat && (length r2 =? 0)%nat = false ->
  exists i l, home (capacity t) k i /\ chain (capacity t) (table t) i l
    /\ choose_path r1 r2 = with_keys (table t) l.
Proof.
  intros Hc1 Hc2 Hempty. destruct (choose_path_cases r1 r2 Hempty) as [Hne [Hp|Hp]]; rewrite Hp in *.
  - destruct Hc1 as [->|(l & ? & ? & _)]; [done|]. exists (idx1 (capacity t) k), l.
    split_and!; [by left|done|done].
  - destruct Hc2 as [->|(l & ? & ? & _)]; [done|]. exists (idx2 (capacity t) k), l.
    split_and!; [by right|done|done].
Qed.

Lemma find_path_complete t target l :
  0 < capacity t -> placed (capacity t) (table t) -> 0 <= target < capacity t ->
  chain (capacity t) (table t) target l -> (length l <= kCuckooThreshold)%nat ->
  find_path t target = Some (Ret (with_keys (table t) l)).
Proof.
  intros Hcap Hpl Ht Hc Hl.
  assert (forall n cur l path, 0 <= cur < capacity t -> chain (capacity t) (table t) cur (cur :: l) ->
    (length l < n)%nat ->
    find_loop n (capacity t) (table t) cur path = Some (Ret (path ++ with_keys (table t) l))) as Hloop.
  { clear Hc Hl l. induction n as [|n IH]; intros cur l path Hcur Hc Hl; [lia|]. cbn [find_loop].
    inversion Hc as [? p Hp Hf|? p l' Hp Hu Hc']; subst; rewrite Hp; cbn [mbind option_bind].
    - rewrite (proj2 (is_free_true p) Hf). simpl. by rewrite app_nil_r.
    - rewrite (proj2 (is_free_false p) Hu), !urem_pos by done. cbn [mbind option_bind].
      change (f_hash (pkey p) mod capacity t) with (idx1 (capacity t) (pkey p)).
      change (s_hash (pkey p) mod capacity t) with (idx2 (capacity t) (pkey p)).
      pose proof (pl_home _ _ Hpl _ _ Hp Hu) as Hh. rewrite Z2Nat.id in Hh by lia.
      pose proof (other_home (capacity t) (pkey p) cur) as Hoh.
      pose proof (home_range _ _ _ Hcap Hoh) as Hor. unfold other in Hc', Hor.
      assert (forall q, 0 <= q < capacity t -> chain (capacity t) (table t) q l ->
        (x ← table t !! Z.to_nat q; find_loop n (capacity t) (table t) q (path ++ [(q, pkey x)]))
        = Some (Ret (path ++ with_keys (table t) l))) as Hnext.
      { intros q Hq Hcq. destruct l as [|q' l']; [by inversion Hcq|].
        assert (q' = q) as -> by (by inversion Hcq).
        destruct (lookup_lt_is_Some_2 (table t) (Z.to_nat q)) as [x Hx];
          [rewrite (pl_length _ _ Hpl); lia|]. rewrite Hx. cbn [mbind option_bind].
        rewrite (IH q l') by (try done; simpl in Hl; lia). rewrite <- app_assoc. simpl. by rewrite Hx. }
      destruct (Z.eqb_spec (idx1 (capacity t) (pkey p)) cur); [by apply Hnext|].
      destruct (Z.eqb_spec (idx2 (capacity t) (pkey p)) cur); [by apply Hnext|].
      exfalso. destruct Hh; congruence. }
  assert (exists l', l = target :: l') as [l' ->] by (inversion Hc; eauto).
  unfold find_path. destruct (lookup_lt_is_Some_2 (table t) (Z.to_nat target)) as [p Hp];
    [rewrite (pl_length _ _ Hpl); lia|]. rewrite Hp. cbn [mbind option_bind].
  rewrite (Hloop _ _ l') by (done || (simpl in Hl; lia)). simpl. by rewrite Hp.
Qed.

Lemma locks_ok t tab l :
  (forall q, q ∈ l -> lock_slot t q = Some tt) ->
  foldM (fun _ p => lock_slot t p.1) (with_keys tab l) tt = Some tt.
Proof.
  unfold with_keys. induction l as [|q l IH]; intros Hl; [done|]. rewrite fmap_cons. cbn [foldM fst].
  rewrite (Hl q) by apply list_elem_of_here. simpl. apply IH. intros q' Hq'.
  apply Hl. by apply list_elem_of_further.
Qed.

Lemma Insert_ok fuel junk t k v t' :
  ch_inv t -> k <> INVALID -> Insert fuel junk t k v = Some (Ret t') ->
  ch_inv t' /\ used (table t') ≡ₚ MkPair k v :: used (table t).
Proof.
  revert t. induction fuel as [|fuel IH]; intros t Hinv Hk Hins; [done|]. cbn [Insert] in Hins.
  pose proof Hinv as [Hcap Hpl Hls Hnl Hidle]. rewrite Hidle in Hins. cbn [Z.eqb] in Hins.
  rewrite !urem_pos in Hins by done. cbn [mbind option_bind] in Hins.
  change (f_hash k mod capacity t) with (idx1 (capacity t) k) in Hins.
  change (s_hash k mod capacity t) with (idx2 (capacity t) k) in Hins.
  assert (home (capacity t) k (idx1 (capacity t) k)) as H1 by (by left).
  assert (home (capacity t) k (idx2 (capacity t) k)) as H2 by (by right).
  pose proof (home_range _ _ _ Hcap H1) as Hr1. pose proof (home_range _ _ _ Hcap H2) as Hr2.
  destruct (lock_slot t (idx1 (capacity t) k)); [|done]. cbn [mbind option_bind] in Hins.
  destruct (table t !! Z.to_nat (idx1 (capacity t) k)) as [pf|] eqn:Hpf; [|done]. cbn [mbind option_bind] in Hins.
  destruct (is_free pf) eqn:Hf1.
  { destruct (store_adds _ _ _ _ k v Hcap Hpl H1 Hk Hpf Hf1) as (tab' & Hs & Hpl' & Hu).
    rewrite Hs in Hins. simplify_eq/=. split; [by apply ch_inv_set|done]. }
  destruct (lock_slot t (idx2 (capacity t) k)); [|done]. cbn [mbind option_bind] in Hins.
  destruct (table t !! Z.to_nat (idx2 (capacity t) k)) as [ps|] eqn:Hps; [|done]. cbn [mbind option_bind] in Hins.
  destruct (is_free ps) eqn:Hf2.
  { destruct (store_adds _ _ _ _ k v Hcap Hpl H2 Hk Hps Hf2) as (tab' & Hs & Hpl' & Hu).
    rewrite Hs in Hins. simplify_eq/=. split; [by apply ch_inv_set|done]. }
  set (t1 := set_resizing t 1) in *.
  destruct (find_path_ok t1 _ Hcap Hpl Hr1) as (r1 & Hfp1 & Hc1).
  destruct (find_path_ok t1 _ Hcap Hpl Hr2) as (r2 & Hfp2 & Hc2).
  rewrite Hfp1, Hfp2 in Hins. cbn [mbind option_bind] in Hins.
  destruct ((length r1 =? 0)%nat && (length r2 =? 0)%nat) eqn:Hempty.
  { destruct (resize junk t1) as [[t2|]|] eqn:Hres; try done. cbn [mbind option_bind] in Hins.
    destruct (resize_ok junk t1 t2 Hcap Hres) as (Hcap2 & Hpl2 & Hu2 & _ & Hls2 & Hnl2).
    apply IH in Hins; [|split; simpl; try done|done].
    - destruct Hins as [Hinv' Hu]. split; [done|]. by rewrite Hu; simpl; rewrite Hu2.
    - by rewrite Hls2.
    - rewrite Hnl2, Hls2. simpl. by rewrite Hls. }
  destruct (chosen_chain t1 k r1 r2 Hc1 Hc2 Hempty) as (i & l & Hi & Hc & Hpath).
  rewrite Hpath in Hins. destruct (foldM _ _ tt); [|done]. cbn [mbind option_bind] in Hins.
  destruct (forallb _ _); [|done].
  destruct (execute_adds _ _ _ _ k v Hcap Hpl Hi Hk Hc) as (tab' & He & Hpl' & Hu).
  change (table t1) with (table t) in Hins. rewrite He in Hins. cbn [mbind option_bind] in Hins.
  injection Hins as <-. split; [by split|done].
Qed.

(** C19: Whenever [Insert] returns, by storing at one of the two positions, by
    moving pairs along a path or after doubling the table any number of
    times, the new table holds exactly the pairs it held before and the new
    one, and every pair sits at a position of its key. *)
Theorem cuckoo_insert_correct fuel junk t k v t' :
  ch_inv t -> valid_key k -> Insert fuel junk t k v = Some (Ret t') ->
  ch_inv t' /\ used (table t') ≡ₚ MkPair k v :: used (table t).
Proof. intros Hinv (_ & Hk & _). by apply Insert_ok. Qed.

(** C21: [Insert] returns in the first round, in a table of less than 2^38 slots,
    when a chain of at most sixteen slots, the free one at its end included, leads
    from one of the two positions of the key to a free slot. *)
Theorem cuckoo_insert_total junk t k v i l :
  ch_inv t -> capacity t < 2 ^ 38 -> valid_key k ->
  home (capacity t) k i -> chain (capacity t) (table t) i l -> (length l <= 16)%nat ->
  exists t', Insert 1 junk t k v = Some (Ret t').
Proof.
  intros Hinv Hmax (_ & Hk & _) Hi Hc Hl. pose proof Hinv as [Hcap Hpl Hls Hnl Hidle].
  change 16%nat with kCuckooThreshold in Hl.
  assert (home (capacity t) k (idx1 (capacity t) k)) as H1 by (by left).
  assert (home (capacity t) k (idx2 (capacity t) k)) as H2 by (by right).
  pose proof (home_range _ _ _ Hcap H1) as Hr1. pose proof (home_range _ _ _ Hcap H2) as Hr2.
  pose proof (pl_length _ _ Hpl) as Hlen.
  destruct (lookup_lt_is_Some_2 (table t) (Z.to_nat (idx1 (capacity t) k))) as [pf Hpf]; [lia|].
  destruct (lookup_lt_is_Some_2 (table t) (Z.to_nat (idx2 (capacity t) k))) as [ps Hps]; [lia|].
  cbn [Insert]. rewrite Hidle, !urem_pos by done. cbn [Z.eqb mbind option_bind].
  change (f_hash k mod capacity t) with (idx1 (capacity t) k).
  change (s_hash k mod capacity t) with (idx2 (capacity t) k).
  rewrite !lock_slot_ok, Hpf, Hps by done. cbn [mbind option_bind]. destruct (is_free pf) eqn:Hf1.
  { destruct (store_adds _ _ _ _ k v Hcap Hpl H1 Hk Hpf Hf1) as (tab' & -> & _). by eexists. }
  destruct (is_free ps) eqn:Hf2.
  { destruct (store_adds _ _ _ _ k v Hcap Hpl H2 Hk Hps Hf2) as (tab' & -> & _). by eexists. }
  set (t1 := set_resizing t 1).
  destruct (find_path_ok t1 _ Hcap Hpl Hr1) as (r1 & Hfp1 & Hc1).
  destruct (find_path_ok t1 _ Hcap Hpl Hr2) as (r2 & Hfp2 & Hc2).
  rewrite Hfp1, Hfp2. cbn [mbind option_bind].
  assert ((length r1 =? 0)%nat && (length r2 =? 0)%nat = false) as Hempty.
  { pose proof (find_path_complete t1 i l Hcap Hpl (home_range _ _ _ Hcap Hi) Hc Hl) as Hfp.
    assert (with_keys (table t1) l <> []) as Hne by (by inversion Hc).
    apply andb_false_iff. rewrite !Nat.eqb_neq.
    destruct Hi as [->| ->]; [left; rewrite Hfp1 in Hfp|right; rewrite Hfp2 in Hfp];
      injection Hfp as ->; intros He; by apply nil_length_inv in He. }
  rewrite Hempty. destruct (choose_path_cases r1 r2 Hempty) as [Hne Hch].
  destruct (chosen_chain t1 k r1 r2) as (i' & l' & Hi' & Hc' & ->); [done..|].
  pose proof (home_range _ _ _ Hcap Hi') as Hir.
  rewrite (locks_ok t1) by
    (intros q Hq; by apply (lock_slot_ok t q Hinv Hmax), (chain_range _ _ _ _ _ Hcap Hir Hc')).
  cbn [mbind option_bind]. change (table t1) with (table t).
  rewrite (path_keys_valid (capacity t) (table t) i' l') by done.
  destruct (execute_adds _ _ _ _ k v Hcap Hpl Hi' Hk Hc') as (tab' & He & _).
  rewrite He. by eexists.
Qed.

Lemma Get_two t k pf ps :
  ch_inv t -> capacity t < 2 ^ 38 ->
  table t !! Z.to_nat (idx1 (capacity t) k) = Some pf ->
  table t !! Z.to_nat (idx2 (capacity t) k) = Some ps ->
  Get t k = Some (if has_key k pf then pvalue pf else if has_key k ps then pvalue ps else NONE).
Proof.
  intros Hinv Hmax Hpf Hps. pose proof (ch_cap _ Hinv) as Hcap.
  unfold Get. rewrite (ch_idle _ Hinv). change (0 =? 0) with true. cbv iota.
  unfold lookup_two, idx1, idx2 in *. revert Hpf Hps.
  generalize (f_hash k) as f, (s_hash k) as s. intros f s Hpf Hps.
  pose proof (Z.mod_pos_bound f (capacity t) Hcap). pose proof (Z.mod_pos_bound s (capacity t) Hcap).
  rewrite (urem_pos f) by done. cbn [mbind option_bind].
  rewrite lock_slot_ok, Hpf by done. cbn [mbind option_bind]. destruct (has_key k pf); [reflexivity|].
  rewrite (urem_pos s) by done. cbn [mbind option_bind].
  rewrite lock_slot_ok, Hps by done. cbn [mbind option_bind]. destruct (has_key k ps); reflexivity.
Qed.

(** Without repeated keys a stored key has one value. *)
Lemma used_unique tab k v v' :
  NoDup (pkey <$> used tab) -> MkPair k v ∈ used tab -> MkPair k v' ∈ used tab -> v = v'.
Proof.
  intros Hnd Hin Hin'. apply list_elem_of_lookup in Hin as [a Ha].
  apply list_elem_of_lookup in Hin' as [b Hb]. assert (a = b) as ->; [|congruence].
  eapply (NoDup_lookup (pkey <$> used tab));
    [done|rewrite list_lookup_fmap, Ha; done|rewrite list_lookup_fmap, Hb; done].
Qed.

(** In a table without repeated keys, [Get] finds every stored pair and
    answers [NONE] for every other key. *)
Theorem cuckoo_get_correct t k :
  ch_inv t -> capacity t < 2 ^ 38 -> valid_key k -> NoDup (pkey <$> used (table t)) ->
  exists v, Get t k = Some v
    /\ (forall v', MkPair k v' ∈ used (table t) -> v = v')
    /\ ((forall v', MkPair k v' ∉ used (table t)) -> v = NONE).
Proof.
  intros Hinv Hmax (_ & Hk & _) Hnd. pose proof Hinv as [Hcap Hpl _ _ _].
  pose proof (pl_length _ _ Hpl) as Hlen.
  pose proof (home_range _ k _ Hcap (or_introl eq_refl)) as Hr1.
  pose proof (home_range _ k _ Hcap (or_intror eq_refl)) as Hr2.
  destruct (lookup_lt_is_Some_2 (table t) (Z.to_nat (idx1 (capacity t) k))) as [pf Hpf]; [lia|].
  destruct (lookup_lt_is_Some_2 (table t) (Z.to_nat (idx2 (capacity t) k))) as [ps Hps]; [lia|].
  rewrite (Get_two t k pf ps) by done.
  assert (forall i p, table t !! i = Some p -> pkey p = k -> MkPair k (pvalue p) ∈ used (table t)) as Hin.
  { intros i [pk pv] Hp <-. apply elem_of_used. split; [done|]. by eapply list_elem_of_lookup_2. }
  destruct (has_key k pf) eqn:Hk1; [|destruct (has_key k ps) eqn:Hk2].
  - apply has_key_true in Hk1. eexists. split; [reflexivity|]. split.
    + intros v' Hv'. by apply (used_unique (table t) k); [|eapply Hin|].
    + intros Hno. by destruct (Hno _ (Hin _ _ Hpf Hk1)).
  - apply has_key_true in Hk2. eexists. split; [reflexivity|]. split.
    + intros v' Hv'. by apply (used_unique (table t) k); [|eapply Hin|].
    + intros Hno. by destruct (Hno _ (Hin _ _ Hps Hk2)).
  - apply has_key_false in Hk1, Hk2. eexists. split; [reflexivity|]. split; [|done].
    intros v' [_ [i Hi]%list_elem_of_lookup]%elem_of_used. exfalso.
    destruct (pl_home _ _ Hpl i _ Hi Hk) as [Hh|Hh]; cbn [pkey] in Hh.
    + assert (i = Z.to_nat (idx1 (capacity t) k)) as -> by (rewrite <- Hh; symmetry; apply Nat2Z.id).
      rewrite Hpf in Hi. injection Hi as ->. by apply Hk1.
    + assert (i = Z.to_nat (idx2 (capacity t) k)) as -> by (rewrite <- Hh; symmetry; apply Nat2Z.id).
      rewrite Hps in Hi. injection Hi as ->. by apply Hk2.
Qed.

(** The two ways of executing a path, from its end with a new pair and
    from its start with the [pushed] pairs, leave the same table. *)
Theorem execute_paths_agree cap tab cur l k v a :
  0 < cap -> 0 <= cur < cap -> placed cap tab -> chain cap tab cur l ->
  exists tab' pushed',
    execute_path tab (with_keys tab l) k v = Some tab'
    /\ execute_pushed tab (MkPair k v, a) false (with_keys tab l) = Some (tab', pushed').
Proof.
  intros Hcap Hcur Hpl Hc. destruct (chain_path_ok cap tab cur l Hcap Hcur Hpl Hc) as [Hok Hne].
  pose proof Hok as [_ Hr]. rewrite with_keys_fst in Hr.
  destruct (execute_pushed_push tab a (MkPair k v) false l) as (pushed' & He).
  { eapply Forall_impl; [exact Hr|]. simpl. tauto. }
  do 2 eexists. split; [by apply execute_path_push|]. rewrite with_keys_fst. exact He.
Qed.

End Insertion.

(** ** Concrete runs *)

Section Examples.
#[local] Existing Instance plain_hash.

Definition insert_all (t : CuckooHash) (kvs : list (Key_t * Value_t)) : option (outcome CuckooHash) :=
  foldM (fun r kv => match r with
                     | Ret t => Insert 4 (fun _ => 0) t kv.1 kv.2
                     | Exited => Some Exited
                     end) kvs (Ret t).

(** An empty table of eight slots. *)
Definition eight : CuckooHash := new_table (fun _ => 0) 8.

Lemma eight_inv : ch_inv eight.
Proof.
  split; [vm_compute; done| |reflexivity|reflexivity|reflexivity].
  split; [apply new_Pairs_length|]. intros i p Hp Hu. by apply new_Pairs_lookup in Hp.
Qed.

Lemma eight_placed : placed 8 (table eight).
Proof. apply (ch_placed _ eight_inv). Qed.

Lemma eight_chain : chain 8 (table eight) 3 [3].
Proof. by apply (chain_free _ _ _ (Pair_void 0)). Qed.

Lemma find_path_chain_witness :
  exists r, find_path eight 3 = Some (Ret r) /\ find_path eight 3 = Some (Ret [(3, INVALID)]).
Proof.
  destruct (find_path_chain eight 3) as (r & Hr & _).
  - vm_compute. reflexivity.
  - exact eight_placed.
  - vm_compute. split; [discriminate|reflexivity].
  - exists r. split; [exact Hr|]. vm_compute. reflexivity.
Defined.

Lemma cuckoo_insert_correct_witness :
  exists t', Insert 1 (fun _ => 0) eight 3 30 = Some (Ret t')
    /\ used (table t') ≡ₚ MkPair 3 30 :: used (table eight).
Proof.
  destruct (Insert 1 (fun _ => 0) eight 3 30) as [[t'|]|] eqn:Hi;
    [|vm_compute in Hi; discriminate|vm_compute in Hi; discriminate].
  exists t'. split; [reflexivity|].
  apply (cuckoo_insert_correct 1 (fun _ => 0) eight 3 30 t'); [exact eight_inv| |exact Hi].
  vm_compute. repeat split; discriminate.
Defined.

(** Two pairs are stored, at the positions 3 and 4. *)
Definition returned (r : option (outcome CuckooHash)) : CuckooHash := match r with Some (Ret t) => t | _ => eight end.
Definition returns (r : option (outcome CuckooHash)) : bool := match r with Some (Ret _) => true | _ => false end.
Definition one_pair : CuckooHash := returned (Insert 1 (fun _ => 0) eight 3 30).
Definition two_pairs : CuckooHash := returned (Insert 1 (fun _ => 0) one_pair 11 31).

Lemma returned_inv t k v :
  ch_inv t -> k <> INVALID -> returns (Insert 1 (fun _ => 0) t k v) = true -> ch_inv (returned (Insert 1 (fun _ => 0) t k v)).
Proof.
  intros Hinv Hk. destruct (Insert 1 (fun _ => 0) t k v) as [[t'|]|] eqn:E; [|done..]. intros _. by destruct (Insert_ok 1 (fun _ => 0) t k v t').
Qed.

Lemma two_pairs_inv : ch_inv two_pairs.
Proof.
  apply returned_inv; [apply returned_inv; [exact eight_inv|discriminate|]|discriminate|]; vm_compute; reflexivity.
Qed.

(** The position 3 is taken by the key 3, whose other position is free. *)
Lemma two_pairs_chain : chain 8 (table two_pairs) 3 [3; 2].
Proof.
  apply (chain_step _ _ _ (MkPair 3 30)); [vm_compute; reflexivity|discriminate|].
  replace (other 8 (pkey (MkPair 3 30)) 3) with 2 by (vm_compute; reflexivity).
  apply (chain_free _ _ _ (Pair_void 0)); vm_compute; reflexivity.
Qed.

(** Both positions of the key 19 are 3: the pair there has to move. *)
Lemma cuckoo_insert_total_witness : exists t', Insert 1 (fun _ => 0) two_pairs 19 32 = Some (Ret t').
Proof.
  apply (cuckoo_insert_total (fun _ => 0) two_pairs 19 32 3 [3; 2]).
  - exact two_pairs_inv.
  - vm_compute. reflexivity.
  - vm_compute. repeat split; discriminate.
  - left. vm_compute. reflexivity.
  - exact two_pairs_chain.
  - vm_compute. lia.
Defined.

Lemma cuckoo_get_correct_witness : exists v, Get eight 3 = Some v.
Proof.
  destruct (cuckoo_get_correct eight 3) as (v & Hv & _).
  - exact eight_inv.
  - vm_compute. reflexivity.
  - vm_compute. repeat split; discriminate.
  - assert (used (table eight) = []) as -> by (vm_compute; reflexivity). constructor.
  - exists v. exact Hv.
Defined.

Lemma execute_paths_agree_witness :
  exists tab' pushed', execute_path (table eight) (with_keys (table eight) [3]) 3 30 = Some tab'
    /\ execute_pushed (table eight) (MkPair 3 30, MkPair 0 0) false (with_keys (table eight) [3])
       = Some (tab', pushed').
Proof.
  apply (execute_paths_agree 8 (table eight) 3 [3] 3 30 (MkPair 0 0));
    [lia|lia|exact eight_placed|exact eight_chain].
Defined.

(** A run that moves a pair and doubles the table. *)
Example cuckoo_run :
  match insert_all eight [(3, 30); (11, 31); (19, 32); (27, 33)] with
  | Some (Ret t) => (Get t 3, Get t 11, Get t 19, Get t 27, capacity t)
  | _ => (None, None, None, None, 0)
  end = (Some 30, Some 31, Some 32, Some 33, 16).
Proof. vm_compute. done. Qed.

End Examples.
