(* ===== verification/LevelHash.v ===== *)
(** * The level hashing table (server/src/Level_hashing.cpp, Level_hashing.h)

    Two levels of nodes of three slots, the bottom level half as large as the
    top level.  A key has two nodes in each level, one in each half.  When all
    twelve slots of a key are taken, [try_movement] moves a pair to its other
    node of the same level, [b2t_movement] one from the bottom to the top, and
    [resize] makes a new top level of twice the size, moves the pairs of the
    bottom level into it and makes the old top level the bottom.

    A level is the list of its slots, three for each node.  The tokens of a new
    node are not initialised; they are the argument [junk].  The locks never
    make a single thread wait; the checks [lock] are that the mutex exists. *)

From S2P Require Import Prelude PairDefs HashFun.

Definition ASSOC_NUM : nat := 3.

(** A slot of a node with its token. *)
Record Cell : Type := MkCell { token : Z; entry : Pair }.

Record LevelHashing : Type := MkLevel {
  top : list Cell;                (** [buckets[0]] *)
  bottom : list Cell;             (** [buckets[1]] *)
  top_num : Z;                    (** [level_item_num] *)
  bottom_num : Z;
  levels : Z;
  addr_capacity : Z;
  total_capacity : Z;
  f_seed : Z;
  s_seed : Z;
  resize_num : Z;
  nlocks : Z;
  locksize : Z;
}.

Section Operations.
Context `{StdHash}.

Definition set_top (t : LevelHashing) (l : list Cell) (n : Z) : LevelHashing :=
  MkLevel l (bottom t) n (bottom_num t) (levels t) (addr_capacity t) (total_capacity t) (f_seed t) (s_seed t)
    (resize_num t) (nlocks t) (locksize t).
Definition set_bottom (t : LevelHashing) (l : list Cell) (n : Z) : LevelHashing :=
  MkLevel (top t) l (top_num t) n (levels t) (addr_capacity t) (total_capacity t) (f_seed t) (s_seed t)
    (resize_num t) (nlocks t) (locksize t).

Definition F_HASH (t : LevelHashing) (key : Key_t) : Z := h key (f_seed t).
Definition S_HASH (t : LevelHashing) (key : Key_t) : Z := h key (s_seed t).
Definition F_IDX (hash capacity : Z) : option Z := urem hash (capacity / 2).
Definition S_IDX (hash capacity : Z) : option Z := x ← urem hash (capacity / 2); Some (x + capacity / 2).

Definition indices (t : LevelHashing) (key : Key_t) (capacity : Z) : option (Z * Z) :=
  f_idx ← F_IDX (F_HASH t key) capacity;
  s_idx ← S_IDX (S_HASH t key) capacity;
  Some (f_idx, s_idx).
(** The same as [uint32_t]. *)
Definition indices32 (t : LevelHashing) (key : Key_t) (capacity : Z) : option (Z * Z) :=
  '(f_idx, s_idx) ← indices t key capacity;
  Some (u32 f_idx, u32 s_idx).

Definition lock (t : LevelHashing) (idx : Z) : option unit :=
  if idx / locksize t <? nlocks t then Some tt else None.

(** Slot [j] of node [idx], the slots of a node, and the slots of two nodes in
    the order of the loops that look at both. *)
Definition slot_no (idx : Z) (j : nat) : nat := (ASSOC_NUM * Z.to_nat idx + j)%nat.
Definition node_slots (idx : Z) : list nat := slot_no idx <$> seq 0 ASSOC_NUM.
Definition both_slots (f_idx s_idx : Z) : list nat :=
  seq 0 ASSOC_NUM ≫= fun j => [slot_no f_idx j; slot_no s_idx j].

Definition no_token (c : Cell) : bool := token c =? 0.
Definition holds_key (key : Key_t) (c : Cell) : bool := (token c =? 1) && (pkey (entry c) =? key).

Definition new_level (junk : nat -> Z) (n : Z) : list Cell :=
  (fun i => MkCell (junk i) (MkPair INVALID NONE)) <$> seq 0 (ASSOC_NUM * Z.to_nat n).

(** The constructor; the seeds come from [generate_seeds]. *)
Definition new_table (junk0 junk1 : nat -> Z) (_levels f s : Z) : LevelHashing :=
  let addr_capacity := 2 ^ _levels in
  MkLevel (new_level junk0 addr_capacity) (new_level junk1 (addr_capacity / 2)) 0 0 _levels addr_capacity
    (2 ^ _levels + 2 ^ (_levels - 1)) f s 0 (s32 (3 * addr_capacity / 2 / 256 + 1)) 256.

(** The first free slot of the two nodes takes the pair. *)
Definition insert_level (l : list Cell) (f_idx s_idx : Z) (p : Pair) : option (option (list Cell)) :=
  r ← probe (both_slots f_idx s_idx) no_token l;
  match r with
  | None => Some None
  | Some i => l ← store l i (MkCell 1 p); Some (Some l)
  end.

(** The loop of [try_movement] on a level of [capacity] nodes. *)
Fixpoint move_loop (t : LevelHashing) (l : list Cell) (capacity idx : Z) (p : Pair) (js : list nat)
  : option (option (list Cell)) :=
  match js with
  | [] => Some None
  | i :: js =>
      c ← l !! slot_no idx i;
      '(f_idx, s_idx) ← indices t (pkey (entry c)) capacity;
      let jdx := if f_idx =? idx then s_idx else f_idx in
      _ ← lock t jdx;
      r ← probe (node_slots jdx) no_token l;
      match r with
      | Some j =>
          l ← store l j (MkCell 1 (entry c));
          l ← store l (slot_no idx i) (MkCell 1 p);
          Some (Some l)
      | None => move_loop t l capacity idx p js
      end
  end.

(** [None] inside is the result 1: nothing could be moved. *)
Definition try_movement (t : LevelHashing) (idx : Z) (level_num : bool) (p : Pair) : option (option LevelHashing) :=
  _ ← lock t idx;
  if level_num then
    r ← move_loop t (bottom t) (addr_capacity t / 2) idx p (seq 0 ASSOC_NUM);
    Some (match r with Some l => Some (set_bottom t l (u64 (bottom_num t + 1))) | None => None end)
  else
    r ← move_loop t (top t) (addr_capacity t) idx p (seq 0 ASSOC_NUM);
    Some (match r with Some l => Some (set_top t l (u64 (top_num t + 1))) | None => None end).

(** [None] inside is the result -1. *)
Fixpoint b2t_loop (t : LevelHashing) (idx : Z) (js : list nat) : option (option (LevelHashing * nat)) :=
  match js with
  | [] => Some None
  | i :: js =>
      c ← bottom t !! slot_no idx i;
      '(f_idx, s_idx) ← indices t (pkey (entry c)) (addr_capacity t);
      _ ← lock t f_idx;
      _ ← lock t s_idx;
      r ← probe (both_slots f_idx s_idx) no_token (top t);
      match r with
      | Some j =>
          l ← store (top t) j (MkCell 1 (entry c));
          let t := set_top t l (u64 (top_num t + 1)) in
          l ← store (bottom t) (slot_no idx i) (MkCell 0 (entry c));
          Some (Some (set_bottom t l (u64 (bottom_num t - 1)), i))
      | None => b2t_loop t idx js
      end
  end.
Definition b2t_movement (t : LevelHashing) (idx : Z) : option (option (LevelHashing * nat)) :=
  b2t_loop t idx (seq 0 ASSOC_NUM).

(** A pair of the old bottom level goes to the new top level, or is lost. *)
Definition move_up (t : LevelHashing) (capacity : Z) (st : list Cell * Z) (c : Cell) : option (list Cell * Z) :=
  if token c =? 1 then
    '(f_idx, s_idx) ← indices32 t (pkey (entry c)) capacity;
    r ← insert_level st.1 f_idx s_idx (entry c);
    Some (match r with Some l => (l, u64 (st.2 + 1)) | None => st end)
  else Some st.

Definition resize (junk : nat -> Z) (t : LevelHashing) : option LevelHashing :=
  let new_nlocks := s32 (nlocks t + 2 * addr_capacity t / locksize t + 1) in
  let new_addr_capacity := 2 ^ (levels t + 1) in
  let old := take (ASSOC_NUM * Z.to_nat (2 ^ (levels t - 1))) (bottom t) in
  '(l, n) ← foldM (move_up t new_addr_capacity) old (new_level junk new_addr_capacity, 0);
  let levels := levels t + 1 in
  Some (MkLevel l (top t) n (top_num t) levels new_addr_capacity (2 ^ levels + 2 ^ (levels - 1))
          (f_seed t) (s_seed t) (u32 (resize_num t + 1)) new_nlocks (locksize t)).

(** The second half of a round of [Insert]: the part under [resizing_lock], which
    ends with [resize] when no pair could be moved. *)
Definition insert_b2t (t : LevelHashing) (idx : Z) (p : Pair) : option (option LevelHashing) :=
  _ ← lock t idx;
  r ← b2t_movement t idx;
  match r with
  | Some (t, i) =>
      l ← store (bottom t) (slot_no idx i) (MkCell 1 p);
      Some (Some (set_bottom t l (u64 (bottom_num t + 1))))
  | None => Some None
  end.

(** One try after the other; the first that succeeds ends the call. *)
Definition or_else {A} (m k : option (option A)) : option (option A) :=
  r ← m; match r with Some a => Some (Some a) | None => k end.

Definition insert_free (t : LevelHashing) (f s f' s' : Z) (p : Pair) : option (option LevelHashing) :=
  _ ← lock t f; _ ← lock t s;
  or_else (r ← insert_level (top t) f s p;
           Some (match r with Some l => Some (set_top t l (u64 (top_num t + 1))) | None => None end))
    (_ ← lock t f'; _ ← lock t s';
     r ← insert_level (bottom t) f' s' p;
     Some (match r with Some l => Some (set_bottom t l (u64 (bottom_num t + 1))) | None => None end)).

Definition insert_moving (t : LevelHashing) (f s f' s' : Z) (p : Pair) : option (option LevelHashing) :=
  or_else (try_movement t f false p) (or_else (try_movement t s false p)
    (or_else (try_movement t f' true p) (or_else (try_movement t s' true p)
      (if 0 <? resize_num t then or_else (insert_b2t t f' p) (insert_b2t t s' p) else Some None)))).

(** A round for each jump to [RETRY]. *)
Fixpoint Insert (fuel : nat) (junk : nat -> Z) (t : LevelHashing) (key : Key_t) (value : Value_t)
  : option LevelHashing :=
  match fuel with
  | O => None
  | S fuel =>
      '(f, s) ← indices32 t key (addr_capacity t);
      '(f', s') ← indices32 t key (addr_capacity t / 2);
      r ← or_else (insert_free t f s f' s' (MkPair key value)) (insert_moving t f s f' s' (MkPair key value));
      match r with
      | Some t => Some t
      | None => t ← resize junk t; Insert fuel junk t key value
      end
  end.

Definition InsertOnly (t : LevelHashing) (key : Key_t) (value : Value_t) : option (LevelHashing * bool) :=
  Some (t, false).
Definition Delete (t : LevelHashing) (key : Key_t) : option (LevelHashing * bool) := Some (t, false).

(** A level of [Get]: the slots of the one node, then those of the other. *)
Definition get_level (t : LevelHashing) (l : list Cell) (f_idx s_idx : Z) (key : Key_t)
  : option (option Value_t) :=
  _ ← lock t f_idx; _ ← lock t s_idx;
  r ← probe (node_slots f_idx ++ node_slots s_idx) (holds_key key) l;
  match r with
  | Some i => c ← l !! i; Some (Some (pvalue (entry c)))
  | None => Some None
  end.

Definition Get (t : LevelHashing) (key : Key_t) : option Value_t :=
  '(f, s) ← indices32 t key (addr_capacity t);
  r ← get_level t (top t) f s key;
  match r with
  | Some v => Some v
  | None =>
      '(f, s) ← indices32 t key (addr_capacity t / 2);
      r ← get_level t (bottom t) f s key;
      Some (default NONE r)
  end.

Definition Capacity (t : LevelHashing) : Z := u64 (u64 (addr_capacity t + addr_capacity t / 2) * 3).

(** The count of [Utilization]: slots whose key is set, whatever their token. *)
Definition Utilization_sum (t : LevelHashing) : Z :=
  Z.of_nat (length (filter (fun c => pkey (entry c) <> INVALID) (top t ++ bottom t))).

End Operations.

(** ** The pairs of a level *)

(** The slots of a new node hold the key [INVALID] under any token; these are no pairs. *)
Definition pairs_of (l : list Cell) : list Pair := entry <$> filter (fun c => token c = 1 /\ pkey (entry c) <> INVALID) l.
Definition pairs (t : LevelHashing) : list Pair := pairs_of (top t) ++ pairs_of (bottom t).
Definition cell_pairs (c : Cell) : list Pair := if decide (token c = 1 /\ pkey (entry c) <> INVALID) then [entry c] else [].
(** What a stored pair counts for. *)
Definition real (p : Pair) : list Pair := if decide (pkey p <> INVALID) then [p] else [].

Lemma cell_pairs_stored p : cell_pairs (MkCell 1 p) = real p.
Proof. unfold cell_pairs, real. cbn [token entry]. repeat case_decide; tauto. Qed.

Lemma cell_pairs_empty c : token c = 0 -> cell_pairs c = [].
Proof. intros Hc. unfold cell_pairs. rewrite decide_False; [done|]. rewrite Hc. by intros [? _]. Qed.

Lemma real_valid p : pkey p <> INVALID -> real p = [p].
Proof. intros Hp. unfold real. by rewrite decide_True. Qed.

Lemma pairs_of_cons c l : pairs_of (c :: l) = cell_pairs c ++ pairs_of l.
Proof. unfold pairs_of, cell_pairs. rewrite filter_cons. by destruct (decide (token c = 1 /\ pkey (entry c) <> INVALID)). Qed.

Lemma pairs_of_insert l i c c' :
  l !! i = Some c -> cell_pairs c ++ pairs_of (<[i := c']> l) ≡ₚ (cell_pairs c' ++ pairs_of l).
Proof.
  revert i. induction l as [|c0 l IH]; intros [|i] Hi; try done; cbn [lookup list_lookup] in Hi.
  - injection Hi as ->. change (<[0%nat := c']> (c :: l)) with (c' :: l). rewrite !pairs_of_cons.
    rewrite !(assoc (++)). by rewrite (comm (++) (cell_pairs c)).
  - change (<[S i := c']> (c0 :: l)) with (c0 :: <[i := c']> l). rewrite !pairs_of_cons.
    rewrite (Permutation_app_comm (cell_pairs c)), <- (assoc (++)).
    rewrite (Permutation_app_comm _ (cell_pairs c)), (IH i Hi).
    rewrite (Permutation_app_comm (cell_pairs c') (pairs_of l)), (assoc (++)).
    by rewrite (Permutation_app_comm _ (cell_pairs c')).
Qed.

Lemma pairs_of_fill l i c p : l !! i = Some c -> token c = 0 ->
  pairs_of (<[i := MkCell 1 p]> l) ≡ₚ real p ++ pairs_of l.
Proof.
  intros Hi Hc. pose proof (pairs_of_insert l i c (MkCell 1 p) Hi) as Hp. by rewrite cell_pairs_empty, cell_pairs_stored in Hp.
Qed.

(** A taken slot: a pair, or the key [INVALID]. *)
Definition taken (c : Cell) : Prop := token c <> 0 /\ (pkey (entry c) = INVALID \/ token c = 1).

Lemma cell_pairs_taken c : taken c -> cell_pairs c = real (entry c).
Proof. intros [_ Hc]. unfold cell_pairs, real. repeat case_decide; tauto. Qed.

Lemma pairs_of_swap l i c p : l !! i = Some c -> taken c ->
  real (entry c) ++ pairs_of (<[i := MkCell 1 p]> l) ≡ₚ real p ++ pairs_of l.
Proof.
  intros Hi Hc. pose proof (pairs_of_insert l i c (MkCell 1 p) Hi) as Hp. by rewrite cell_pairs_taken, cell_pairs_stored in Hp.
Qed.

Lemma elem_of_pairs_of l p : p ∈ pairs_of l <-> pkey p <> INVALID /\ exists i c, l !! i = Some c /\ token c = 1 /\ entry c = p.
Proof.
  unfold pairs_of. rewrite list_elem_of_fmap. split.
  - intros (c & -> & Hc). apply list_elem_of_filter in Hc as [[H1 H2] Hc]. apply list_elem_of_lookup in Hc as [i Hi].
    split; [done|]. by exists i, c.
  - intros (H2 & i & c & Hi & H1 & <-). exists c. split; [done|]. apply list_elem_of_filter. split; [done|].
    by apply list_elem_of_lookup_2 with i.
Qed.

(** ** Positions *)

Lemma slot_no_div idx j : (j < 3)%nat -> (slot_no idx j / 3)%nat = Z.to_nat idx.
Proof.
  intros Hj. unfold slot_no, ASSOC_NUM. rewrite Nat.mul_comm, Nat.div_add_l by lia.
  rewrite (Nat.div_small j) by lia. lia.
Qed.

Lemma elem_of_node_slots i idx : i ∈ node_slots idx -> (i / 3)%nat = Z.to_nat idx.
Proof.
  unfold node_slots. intros (j & -> & Hj)%list_elem_of_fmap. apply elem_of_seq in Hj. apply slot_no_div.
  unfold ASSOC_NUM in Hj. lia.
Qed.

Lemma node_slots_elem i idx : (i / 3)%nat = Z.to_nat idx -> i ∈ node_slots idx.
Proof.
  intros Hi. unfold node_slots. apply list_elem_of_fmap. exists (i mod 3)%nat. split.
  - unfold slot_no, ASSOC_NUM. rewrite <- Hi. apply Nat.div_mod. lia.
  - apply elem_of_seq. pose proof (Nat.mod_upper_bound i 3 ltac:(lia)). unfold ASSOC_NUM. lia.
Qed.

Lemma elem_of_both i f s : i ∈ both_slots f s <-> i ∈ node_slots f \/ i ∈ node_slots s.
Proof.
  unfold both_slots, node_slots. rewrite list_elem_of_bind. setoid_rewrite list_elem_of_fmap. split.
  - intros (j & Hj & Hi). rewrite !elem_of_cons, elem_of_nil in Hj. naive_solver.
  - intros [(j & -> & Hj)|(j & -> & Hj)]; exists j; (split; [|done]); rewrite !elem_of_cons; auto.
Qed.

Section Proofs.
Context `{StdHash}.

(** The nodes of a key in a level of [cap] nodes. *)
Definition f_node (t : LevelHashing) (k : Key_t) (cap : Z) : Z := F_HASH t k mod (cap / 2).
Definition s_node (t : LevelHashing) (k : Key_t) (cap : Z) : Z := S_HASH t k mod (cap / 2) + cap / 2.
Definition node_of (t : LevelHashing) (k : Key_t) (cap idx : Z) : Prop :=
  idx = f_node t k cap \/ idx = s_node t k cap.

Definition even_cap (cap : Z) : Prop := 2 <= cap <= 2 ^ 32 /\ cap mod 2 = 0.

Lemma node_range t k cap idx : even_cap cap -> node_of t k cap idx -> 0 <= idx < cap.
Proof.
  intros [Hc He] [-> | ->]; unfold f_node, s_node; pose proof (Z.div_mod cap 2 ltac:(lia)).
  - pose proof (Z.mod_pos_bound (F_HASH t k) (cap / 2) ltac:(lia)). lia.
  - pose proof (Z.mod_pos_bound (S_HASH t k) (cap / 2) ltac:(lia)). lia.
Qed.

Lemma nodes_differ t k cap : even_cap cap -> f_node t k cap <> s_node t k cap.
Proof.
  intros [Hc He]. unfold f_node, s_node. pose proof (Z.div_mod cap 2 ltac:(lia)).
  pose proof (Z.mod_pos_bound (F_HASH t k) (cap / 2) ltac:(lia)).
  pose proof (Z.mod_pos_bound (S_HASH t k) (cap / 2) ltac:(lia)). lia.
Qed.

Lemma indices_eq t k cap : even_cap cap -> indices t k cap = Some (f_node t k cap, s_node t k cap).
Proof.
  intros [Hc He]. pose proof (Z.div_mod cap 2 ltac:(lia)). unfold indices, F_IDX, S_IDX.
  by rewrite !urem_pos by lia.
Qed.

Lemma indices32_eq t k cap : even_cap cap -> indices32 t k cap = Some (f_node t k cap, s_node t k cap).
Proof.
  intros Hc. unfold indices32. rewrite indices_eq by done. cbn [mbind option_bind].
  pose proof (node_range t k cap _ Hc (or_introl eq_refl)). pose proof (node_range t k cap _ Hc (or_intror eq_refl)).
  destruct Hc as [Hc _]. by rewrite !wrap_small by lia.
Qed.

(** ** The invariant *)

(** A level: a slot is free, or holds the key [INVALID], or holds a pair, which sits in a node of
    its key. *)
Definition cell_ok (t : LevelHashing) (cap : Z) (i : nat) (c : Cell) : Prop :=
  token c = 0 \/ pkey (entry c) = INVALID \/ (token c = 1 /\ node_of t (pkey (entry c)) cap (Z.of_nat (i / 3))).

Record lvl_ok (t : LevelHashing) (cap : Z) (l : list Cell) : Prop := {
  lo_length : length l = (3 * Z.to_nat cap)%nat;
  lo_cell : forall i c, l !! i = Some c -> cell_ok t cap i c;
}.

Lemma cell_ok_taken t cap i c : cell_ok t cap i c -> token c <> 0 -> taken c.
Proof. intros [?|[?|[? _]]] Hc; split; auto; done. Qed.

Record level_ok (t : LevelHashing) : Prop := {
  lk_levels : 2 <= levels t <= 32;
  lk_cap : addr_capacity t = 2 ^ levels t;
  lk_top : lvl_ok t (addr_capacity t) (top t);
  lk_bottom : lvl_ok t (addr_capacity t / 2) (bottom t);
  lk_locksize : locksize t = 256;
  lk_locks : addr_capacity t / 256 < nlocks t;
  lk_locks_max : 256 * (nlocks t - levels t) <= 2 * addr_capacity t;
}.

Lemma level_caps t : level_ok t -> even_cap (addr_capacity t) /\ even_cap (addr_capacity t / 2).
Proof.
  intros [Hl Hc _ _ _ _ _]. rewrite Hc.
  replace (levels t) with (Z.succ (Z.succ (levels t - 2))) by lia. rewrite !Z.pow_succ_r by lia.
  assert (1 <= 2 ^ (levels t - 2) <= 2 ^ 30).
  { split; [|apply Z.pow_le_mono_r; lia]. apply (Z.pow_le_mono_r 2 0); lia. }
  set (x := 2 ^ (levels t - 2)) in *. rewrite (Z.mul_comm 2 (2 * x)), Z.div_mul by lia.
  unfold even_cap. rewrite (Z.mul_comm 2 x) at 1 2. split; (split; [lia|]).
  - rewrite Z.mul_comm, Z.mul_comm, Z.mod_mul; lia.
  - rewrite Z.mul_comm, Z.mod_mul; lia.
Qed.

Lemma lock_ok t idx : level_ok t -> 0 <= idx < addr_capacity t -> lock t idx = Some tt.
Proof.
  intros [_ _ _ _ Hs Hn _] Hi. unfold lock. rewrite Hs.
  pose proof (Z.div_le_mono idx (addr_capacity t) 256 ltac:(lia) ltac:(lia)).
  destruct (Z.ltb_spec (idx / 256) (nlocks t)); [done|lia].
Qed.

(** ** A pair goes into a level *)

Lemma lvl_ok_put t cap l i c' :
  lvl_ok t cap l -> cell_ok t cap i c' ->
  lvl_ok t cap (<[i := c']> l).
Proof.
  intros [Hl Hc] Hc'. split; [by rewrite length_insert|]. intros j c Hj.
  apply list_lookup_insert_Some in Hj as [(<- & <- & _)|[_ Hj]]; [done|by apply Hc].
Qed.

(** A free slot in a node of the key. *)
Lemma lvl_fill t cap l i idx p c l' :
  lvl_ok t cap l -> node_of t (pkey p) cap idx -> even_cap cap -> i ∈ node_slots idx ->
  l !! i = Some c -> no_token c = true -> store l i (MkCell 1 p) = Some l' ->
  lvl_ok t cap l' /\ pairs_of l' ≡ₚ real p ++ pairs_of l.
Proof.
  intros Hok Hn Hcap Hi Hc Hf [_ ->]%store_inv. apply elem_of_node_slots in Hi. apply Z.eqb_eq in Hf. split.
  - apply lvl_ok_put; [done|]. right. right. split; [done|]. cbn [entry]. rewrite Hi.
    pose proof (node_range _ _ _ _ Hcap Hn). by rewrite Z2Nat.id by lia.
  - by apply pairs_of_fill with c.
Qed.

Lemma insert_level_ok t cap l f s p l' :
  lvl_ok t cap l -> even_cap cap -> node_of t (pkey p) cap f -> node_of t (pkey p) cap s ->
  insert_level l f s p = Some (Some l') ->
  lvl_ok t cap l' /\ pairs_of l' ≡ₚ real p ++ pairs_of l.
Proof.
  intros Hok Hcap Hf Hs Hi. unfold insert_level in Hi. inv_bind Hi r Hr. destruct r as [i|]; [|done].
  inv_bind Hi l1 Hst. injection Hi as <-. apply probe_found_lookup in Hr as (Hin & c & Hc & Hfree).
  apply elem_of_both in Hin as [Hin|Hin]; [by apply (lvl_fill t cap l i f p c)|by apply (lvl_fill t cap l i s p c)].
Qed.

(** All slots of a node are taken. *)
Definition full_node (l : list Cell) (idx : Z) : Prop :=
  forall i c, i ∈ node_slots idx -> l !! i = Some c -> taken c.

Lemma insert_level_full t cap l f s p :
  lvl_ok t cap l -> insert_level l f s p = Some None -> full_node l f /\ full_node l s.
Proof.
  intros [_ Hc] Hi. unfold insert_level in Hi. inv_bind Hi r Hr. destruct r as [i|]; [by inv_bind Hi l1 Hst|].
  apply probe_exhausted in Hr. rewrite Forall_forall in Hr.
  assert (forall i c, i ∈ both_slots f s -> l !! i = Some c -> taken c) as Hall.
  { intros i c Hin Hic. destruct (Hr i Hin) as (c' & Hc' & Hf). apply Z.eqb_neq in Hf.
    apply (cell_ok_taken _ _ _ _ (Hc i c Hic)). congruence. }
  split; intros i c Hin; apply Hall; apply elem_of_both; auto.
Qed.

(** *** [try_movement] *)

Lemma slot_in_node idx i : (i < 3)%nat -> slot_no idx i ∈ node_slots idx.
Proof. intros Hi. apply node_slots_elem. by apply slot_no_div. Qed.

Lemma move_loop_ok t cap l idx p js l' :
  lvl_ok t cap l -> even_cap cap -> node_of t (pkey p) cap idx -> full_node l idx ->
  Forall (fun i => (i < 3)%nat) js ->
  move_loop t l cap idx p js = Some (Some l') ->
  lvl_ok t cap l' /\ pairs_of l' ≡ₚ real p ++ pairs_of l.
Proof.
  intros Hok Hcap Hn Hfull Hjs. induction Hjs as [|i js Hi _ IH]; cbn [move_loop]; intros Hm; [done|].
  inv_bind Hm c Hc. rewrite indices_eq in Hm by done. cbn [mbind option_bind] in Hm. inv_bind Hm u Hu.
  set (jdx := if _ =? idx then _ else _) in *. inv_bind Hm r Hr. destruct r as [j|]; [|by apply IH].
  inv_bind Hm l1 H1'. inv_bind Hm l2 H2'. injection Hm as <-.
  pose proof (Hfull _ c (slot_in_node idx i Hi) Hc) as Htok.
  assert (Hjn : node_of t (pkey (entry c)) cap jdx /\ jdx <> idx).
  { unfold jdx. destruct (Z.eqb_spec (f_node t (pkey (entry c)) cap) idx) as [He|Hne].
    - split; [by right|]. rewrite <- He. apply not_eq_sym. by apply nodes_differ.
    - split; [by left|done]. }
  destruct Hjn as [Hjn Hne]. clearbody jdx.
  apply probe_found_lookup in Hr as (Hin & c' & Hc' & Hfree).
  destruct (lvl_fill t cap l j jdx (entry c) c' l1 Hok Hjn Hcap Hin Hc' Hfree H1') as [Hok1 Hp1].
  assert (Hc1 : l1 !! slot_no idx i = Some c).
  { apply store_inv in H1' as [_ ->]. rewrite list_lookup_insert_ne; [done|]. intros ->.
    apply elem_of_node_slots in Hin. rewrite slot_no_div in Hin by done.
    pose proof (node_range _ _ _ _ Hcap Hn). pose proof (node_range _ _ _ _ Hcap Hjn). lia. }
  apply store_inv in H2' as [_ ->]. split.
  - apply lvl_ok_put; [done|]. right. right. split; [done|]. cbn [entry]. rewrite slot_no_div by done.
    pose proof (node_range _ _ _ _ Hcap Hn). by rewrite Z2Nat.id by lia.
  - pose proof (pairs_of_swap l1 _ c p Hc1 Htok) as Hp2. rewrite Hp1 in Hp2.
    apply (Permutation_app_inv_l (real (entry c))). rewrite Hp2, !(assoc (++)). by rewrite (comm (++) (real p)).
Qed.

(** What a successful try of [Insert] does to the table. *)
Definition added (t t' : LevelHashing) (p : Pair) : Prop :=
  level_ok t' /\ levels t' = levels t /\ pairs t' ≡ₚ real p ++ pairs t.

Lemma lvl_ok_seeds t t' cap l : f_seed t' = f_seed t -> s_seed t' = s_seed t -> lvl_ok t cap l -> lvl_ok t' cap l.
Proof.
  intros Hf Hs [H1' H2']. split; [done|]. intros i c Hi. unfold cell_ok, node_of, f_node, s_node, F_HASH, S_HASH.
  rewrite Hf, Hs. by apply H2'.
Qed.

Lemma added_top t l n p :
  level_ok t -> lvl_ok t (addr_capacity t) l -> pairs_of l ≡ₚ real p ++ pairs_of (top t) -> added t (set_top t l n) p.
Proof.
  intros [L1 L2 L3 L4 L5 L6 L7] Hl Hp. split_and!; [|done|].
  - split; try done; by apply (lvl_ok_seeds t).
  - unfold pairs. cbn [top bottom set_top]. by rewrite Hp, (assoc (++)).
Qed.

Lemma added_bottom t l n p :
  level_ok t -> lvl_ok t (addr_capacity t / 2) l -> pairs_of l ≡ₚ real p ++ pairs_of (bottom t) ->
  added t (set_bottom t l n) p.
Proof.
  intros [L1 L2 L3 L4 L5 L6 L7] Hl Hp. split_and!; [|done|].
  - split; try done; by apply (lvl_ok_seeds t).
  - unfold pairs. cbn [top bottom set_bottom]. rewrite Hp, !(assoc (++)). by rewrite (comm (++) (real p)).
Qed.

Lemma try_movement_ok t idx (b : bool) p t' :
  level_ok t -> node_of t (pkey p) (if b then addr_capacity t / 2 else addr_capacity t) idx ->
  full_node (if b then bottom t else top t) idx ->
  try_movement t idx b p = Some (Some t') -> added t t' p.
Proof.
  intros Hok Hn Hfull Hm. pose proof (level_caps t Hok) as [Hc1 Hc2]. unfold try_movement in Hm. inv_bind Hm u Hu.
  assert (Hjs : Forall (fun i => (i < 3)%nat) (seq 0 ASSOC_NUM)).
  { apply Forall_forall. intros i Hi. apply elem_of_seq in Hi. unfold ASSOC_NUM in Hi. lia. }
  destruct b; inv_bind Hm r Hr; destruct r as [l|]; try done; injection Hm as <-.
  - destruct (move_loop_ok t _ _ _ _ _ _ (lk_bottom _ Hok) Hc2 Hn Hfull Hjs Hr). by apply added_bottom.
  - destruct (move_loop_ok t _ _ _ _ _ _ (lk_top _ Hok) Hc1 Hn Hfull Hjs Hr). by apply added_top.
Qed.

(** *** [b2t_movement] *)

Lemma b2t_loop_ok t idx js t' i :
  level_ok t -> full_node (bottom t) idx -> Forall (fun i => (i < 3)%nat) js ->
  b2t_loop t idx js = Some (Some (t', i)) ->
  level_ok t' /\ levels t' = levels t /\ addr_capacity t' = addr_capacity t
  /\ f_seed t' = f_seed t /\ s_seed t' = s_seed t
  /\ pairs t' ≡ₚ pairs t /\ (i < 3)%nat /\ exists c, bottom t' !! slot_no idx i = Some c /\ token c = 0.
Proof.
  intros Hok Hfull Hjs. induction Hjs as [|i0 js Hi0 _ IH]; cbn [b2t_loop]; intros Hm; [done|].
  pose proof (level_caps t Hok) as [Hcap _]. pose proof Hok as [L1 L2 L3 L4 L5 L6 L7].
  inv_bind Hm c Hc. rewrite indices_eq in Hm by done. cbn [mbind option_bind] in Hm.
  inv_bind Hm u1 Hu1. inv_bind Hm u2 Hu2. inv_bind Hm r Hr. destruct r as [j|]; [|by apply IH].
  inv_bind Hm l1 H1'. inv_bind Hm l2 H2'. injection Hm as <- <-.
  pose proof (Hfull _ c (slot_in_node idx i0 Hi0) Hc) as Htok.
  apply probe_found_lookup in Hr as (Hin & c' & Hc' & Hfree). apply elem_of_both in Hin.
  assert (Hl1 : lvl_ok t (addr_capacity t) l1 /\ pairs_of l1 ≡ₚ real (entry c) ++ pairs_of (top t)).
  { destruct Hin as [Hin|Hin];
      [apply (lvl_fill t _ _ j (f_node t (pkey (entry c)) (addr_capacity t)) (entry c) c')
      |apply (lvl_fill t _ _ j (s_node t (pkey (entry c)) (addr_capacity t)) (entry c) c')];
      try done; [by left|by right]. }
  destruct Hl1 as [Hok1 Hp1]. cbn [bottom set_top] in H2'. apply store_inv in H2' as [Hlt ->].
  split_and!; try done.
  - split; try done; cbn [top bottom set_top set_bottom addr_capacity]; [by apply (lvl_ok_seeds t)|].
    apply (lvl_ok_seeds t); [done..|]. apply lvl_ok_put; [done|by left].
  - unfold pairs. cbn [top bottom set_top set_bottom]. rewrite Hp1.
    pose proof (pairs_of_insert (bottom t) _ c (MkCell 0 (entry c)) Hc) as Hp2.
    rewrite (cell_pairs_taken c Htok), (cell_pairs_empty (MkCell 0 (entry c)) eq_refl) in Hp2. cbn [app] in Hp2. rewrite <- Hp2.
    rewrite !(assoc (++)). by rewrite (comm (++) (real (entry c))).
  - exists (MkCell 0 (entry c)). split; [|done]. cbn [bottom set_bottom]. by apply list_lookup_insert_eq.
Qed.

Lemma insert_b2t_ok t idx p t' :
  level_ok t -> node_of t (pkey p) (addr_capacity t / 2) idx -> full_node (bottom t) idx ->
  insert_b2t t idx p = Some (Some t') -> added t t' p.
Proof.
  intros Hok Hn Hfull Hm. unfold insert_b2t in Hm. inv_bind Hm u Hu. inv_bind Hm r Hr.
  destruct r as [[t1 i]|]; [|done]. inv_bind Hm l Hl. injection Hm as <-.
  apply b2t_loop_ok in Hr as (Hok1 & Hlev & Hcap & Hfs & Hss & Hp & Hi & c & Hc & Hz); [|done..|].
  2: { apply Forall_forall. intros j Hj. apply elem_of_seq in Hj. unfold ASSOC_NUM in Hj. lia. }
  assert (Hn' : node_of t1 (pkey p) (addr_capacity t1 / 2) idx).
  { unfold node_of, f_node, s_node, F_HASH, S_HASH. by rewrite Hcap, Hfs, Hss. }
  destruct (lvl_fill t1 _ _ _ idx p c l (lk_bottom _ Hok1) Hn' (proj2 (level_caps _ Hok1))
    (slot_in_node idx i Hi) Hc ltac:(by apply Z.eqb_eq) Hl) as [Hl1 Hl2].
  destruct (added_bottom t1 l (u64 (bottom_num t1 + 1)) p Hok1 Hl1 Hl2) as (Ha1 & Ha2 & Ha3).
  split_and!; [done|congruence|]. by rewrite Ha3, Hp.
Qed.

(** *** A round of [Insert] *)

Lemma or_else_inv {A} (m k : option (option A)) r :
  or_else m k = Some r -> (exists a, m = Some (Some a) /\ r = Some a) \/ (m = Some None /\ k = Some r).
Proof.
  intros Ho. unfold or_else in Ho. inv_bind Ho r1 Hr. destruct r1 as [a|]; [left|by right].
  injection Ho as <-. by exists a.
Qed.

Section Round.
Context (t : LevelHashing) (p : Pair).
Hypothesis Hok : level_ok t.
Let f := f_node t (pkey p) (addr_capacity t).
Let s := s_node t (pkey p) (addr_capacity t).
Let f' := f_node t (pkey p) (addr_capacity t / 2).
Let s' := s_node t (pkey p) (addr_capacity t / 2).

Lemma insert_free_ok r :
  insert_free t f s f' s' p = Some r ->
  match r with
  | Some t' => added t t' p
  | None => full_node (top t) f /\ full_node (top t) s /\ full_node (bottom t) f' /\ full_node (bottom t) s'
  end.
Proof.
  pose proof (level_caps t Hok) as [Hc1 Hc2]. intros Hi. unfold insert_free in Hi.
  inv_bind Hi u1 Hu1. inv_bind Hi u2 Hu2. apply or_else_inv in Hi as [(t' & Hi & ->)|[Hi Hk]].
  - inv_bind Hi r1 Hr. destruct r1 as [l|]; [|done]. injection Hi as <-.
    destruct (insert_level_ok t _ _ _ _ _ _ (lk_top _ Hok) Hc1 (or_introl eq_refl) (or_intror eq_refl) Hr).
    by apply added_top.
  - inv_bind Hi r1 Hr. destruct r1 as [l|]; [done|]. inv_bind Hk u3 Hu3. inv_bind Hk u4 Hu4. inv_bind Hk r2 Hr2.
    destruct (insert_level_full t _ _ _ _ _ (lk_top _ Hok) Hr). destruct r2 as [l|]; injection Hk as <-.
    + destruct (insert_level_ok t _ _ _ _ _ _ (lk_bottom _ Hok) Hc2 (or_introl eq_refl) (or_intror eq_refl) Hr2).
      by apply added_bottom.
    + destruct (insert_level_full t _ _ _ _ _ (lk_bottom _ Hok) Hr2). done.
Qed.

Lemma insert_moving_ok t' :
  full_node (top t) f -> full_node (top t) s -> full_node (bottom t) f' -> full_node (bottom t) s' ->
  insert_moving t f s f' s' p = Some (Some t') -> added t t' p.
Proof.
  intros F1 F2 F3 F4 Hm. unfold insert_moving in Hm.
  apply or_else_inv in Hm as [(t1 & Hm & [= <-])|[_ Hm]];
    [by apply (try_movement_ok t f false p); [|left|..]|].
  apply or_else_inv in Hm as [(t1 & Hm & [= <-])|[_ Hm]];
    [by apply (try_movement_ok t s false p); [|right|..]|].
  apply or_else_inv in Hm as [(t1 & Hm & [= <-])|[_ Hm]];
    [by apply (try_movement_ok t f' true p); [|left|..]|].
  apply or_else_inv in Hm as [(t1 & Hm & [= <-])|[_ Hm]];
    [by apply (try_movement_ok t s' true p); [|right|..]|].
  destruct (0 <? resize_num t); [|done].
  apply or_else_inv in Hm as [(t1 & Hm & [= <-])|[_ Hm]]; [by apply (insert_b2t_ok t f' p); [|left|..]|].
  by apply (insert_b2t_ok t s' p); [|right|..].
Qed.

End Round.

(** *** [resize] *)

Lemma new_level_ok t junk cap : lvl_ok t cap (new_level junk cap).
Proof.
  split; [by unfold new_level; rewrite length_fmap, length_seq|]. intros i c Hi.
  apply list_lookup_fmap_Some in Hi as (n & -> & Hn). right. by left.
Qed.

Lemma new_level_pairs junk cap : pairs_of (new_level junk cap) = [].
Proof.
  unfold pairs_of, new_level. generalize (seq 0 (ASSOC_NUM * Z.to_nat cap)). intros l.
  induction l as [|i l IH]; [done|]. rewrite fmap_cons, filter_cons, decide_False; [done|]. by intros [_ ?].
Qed.

Lemma move_up_loop t cap old st st' :
  even_cap cap -> lvl_ok t cap st.1 -> foldM (move_up t cap) old st = Some st' ->
  lvl_ok t cap st'.1 /\ pairs_of st'.1 ⊆+ pairs_of st.1 ++ pairs_of old.
Proof.
  intros Hcap. revert st. induction old as [|c old IH]; intros st Hok Hf; cbn [foldM] in Hf.
  { injection Hf as <-. split; [done|]. by rewrite app_nil_r. }
  inv_bind Hf st1 Hm. unfold move_up in Hm. rewrite pairs_of_cons.
  destruct (Z.eqb_spec (token c) 1) as [Ht|Ht].
  - rewrite cell_pairs_taken by (split; [lia|by right]). rewrite indices32_eq in Hm by done. cbn [mbind option_bind] in Hm.
    inv_bind Hm r Hr. injection Hm as <-. destruct r as [l|].
    + destruct (insert_level_ok t _ _ _ _ _ _ Hok Hcap (or_introl eq_refl) (or_intror eq_refl) Hr) as [Hok1 Hp1].
      destruct (IH (l, u64 (st.2 + 1)) Hok1 Hf) as [Hok' Hp']. split; [done|]. etrans; [exact Hp'|]. cbn [fst].
      rewrite Hp1, !(assoc (++)). by rewrite (comm (++) (real (entry c))).
    + destruct (IH st Hok Hf) as [Hok' Hp']. split; [done|]. etrans; [exact Hp'|].
      apply submseteq_app; [done|]. apply submseteq_inserts_l. done.
  - assert (cell_pairs c = []) as -> by (unfold cell_pairs; rewrite decide_False; [done|tauto]). injection Hm as <-. by apply IH.
Qed.

Lemma resize_level_ok junk t t' :
  level_ok t -> levels t < 32 -> resize junk t = Some t' ->
  level_ok t' /\ levels t' = levels t + 1 /\ pairs t' ⊆+ pairs t.
Proof.
  intros Hok Hlev Hr. pose proof (level_caps t Hok) as [Hc1 _]. pose proof Hok as [L1 L2 L3 L4 L5 L6 L7].
  assert (Hcap' : 2 ^ (levels t + 1) = 2 * addr_capacity t).
  { rewrite L2. replace (levels t + 1) with (Z.succ (levels t)) by lia. by rewrite Z.pow_succ_r by lia. }
  assert (Hmax : addr_capacity t <= 2 ^ 31) by (rewrite L2; apply Z.pow_le_mono_r; lia).
  unfold resize in Hr. inv_bind Hr st Hf. destruct st as [l n]. injection Hr as <-.
  rewrite take_ge in Hf.
  2: { rewrite (lo_length _ _ _ L4), L2. replace (levels t) with (Z.succ (levels t - 1)) at 1 by lia.
       rewrite Z.pow_succ_r, Z.mul_comm, Z.div_mul by lia. unfold ASSOC_NUM. lia. }
  assert (Hev : even_cap (2 ^ (levels t + 1))).
  { rewrite Hcap'. unfold even_cap in *. split; [lia|]. rewrite Z.mul_comm. by apply Z.mod_mul. }
  destruct (move_up_loop t _ _ (new_level junk (2 ^ (levels t + 1)), 0) _ Hev (new_level_ok t junk _) Hf) as [Hl Hp]. cbn [fst] in Hl, Hp.
  rewrite new_level_pairs in Hp.
  assert (Hn : s32 (nlocks t + 2 * addr_capacity t / locksize t + 1) = nlocks t + 2 * addr_capacity t / 256 + 1).
  { rewrite L5. apply s32_small. pose proof (Z.div_pos (2 * addr_capacity t) 256 ltac:(unfold even_cap in *; lia) ltac:(lia)).
    pose proof (Z.div_pos (addr_capacity t) 256 ltac:(unfold even_cap in *; lia) ltac:(lia)).
    pose proof (Z.mul_div_le (2 * addr_capacity t) 256 ltac:(lia)). unfold even_cap in *. lia. }
  split_and!; [|done|unfold pairs; cbn [top bottom]; rewrite (Permutation_app_comm (pairs_of l));
    by apply submseteq_app].
  split; cbn [levels addr_capacity top bottom locksize nlocks]; try lia.
  - by apply (lvl_ok_seeds t).
  - rewrite Hcap', Z.mul_comm, Z.div_mul by lia. by apply (lvl_ok_seeds t).
  - rewrite Hn, Hcap'. pose proof (Z.div_pos (addr_capacity t) 256 ltac:(unfold even_cap in *; lia) ltac:(lia)). lia.
  - rewrite Hn, Hcap'. pose proof (Z.mul_div_le (2 * addr_capacity t) 256 ltac:(lia)). lia.
Qed.

(** ** [Insert] and [Get] *)

Lemma Insert_level_ok fuel junk t k v t' :
  k <> INVALID -> level_ok t -> levels t + Z.of_nat fuel <= 33 ->
  Insert fuel junk t k v = Some t' ->
  level_ok t' /\ levels t <= levels t' < levels t + Z.of_nat fuel /\ MkPair k v ∈ pairs t' /\ pairs t' ⊆+ MkPair k v :: pairs t
  /\ (levels t' = levels t -> pairs t' ≡ₚ MkPair k v :: pairs t).
Proof.
  intros Hk. revert t. induction fuel as [|fuel IH]; intros t Hok Hfuel Hi; cbn [Insert] in Hi; [done|].
  pose proof (level_caps t Hok) as [Hc1 Hc2].
  rewrite !indices32_eq in Hi by done. cbn [mbind option_bind] in Hi. inv_bind Hi r Hr.
  assert (Hr' : match r with Some t1 => added t t1 (MkPair k v) | None => True end).
  { apply or_else_inv in Hr as [(t1 & Hr & ->)|[Hr Hm]].
    - by apply (insert_free_ok t (MkPair k v) Hok (Some t1)).
    - apply (insert_free_ok t (MkPair k v) Hok None) in Hr as (F1 & F2 & F3 & F4). destruct r as [t1|]; [|done].
      by apply (insert_moving_ok t (MkPair k v) Hok). }
  destruct r as [t1|].
  - injection Hi as <-. destruct Hr' as (Hok1 & Hlev & Hp). rewrite (real_valid (MkPair k v) Hk) in Hp. cbn [app] in Hp. rewrite Hlev. split_and!; try done; try lia.
    + rewrite Hp. left.
    + by rewrite Hp.
  - inv_bind Hi t1 Hrs. destruct fuel as [|fuel]; [done|].
    destruct (resize_level_ok junk t t1) as (Hok1 & Hlev & Hp); try done; [lia|].
    destruct (IH t1 Hok1 ltac:(lia) Hi) as (Hok' & Hlev' & Hin & Hsub & _). split_and!; try done; try lia.
    etrans; [exact Hsub|]. by apply submseteq_skip.
Qed.

Lemma get_level_ok t cap l k :
  k <> INVALID -> level_ok t -> even_cap cap -> cap <= addr_capacity t -> lvl_ok t cap l ->
  exists r, get_level t l (f_node t k cap) (s_node t k cap) k = Some r
  /\ match r with
     | Some v => MkPair k v ∈ pairs_of l
     | None => forall p, p ∈ pairs_of l -> pkey p <> k
     end.
Proof.
  intros Hk0 Hok Hcap Hle [Hlen Hcell]. unfold get_level.
  pose proof (node_range t k cap _ Hcap (or_introl eq_refl)) as Hf.
  pose proof (node_range t k cap _ Hcap (or_intror eq_refl)) as Hs.
  rewrite !lock_ok by (done || lia). cbn [mbind option_bind].
  destruct (probe_total (node_slots (f_node t k cap) ++ node_slots (s_node t k cap)) (holds_key k) l) as [r Hr].
  { apply Forall_forall. intros i Hi. rewrite Hlen.
    assert ((i / 3 < Z.to_nat cap)%nat) as Hlt.
    { apply elem_of_app in Hi as [Hi|Hi]; apply elem_of_node_slots in Hi; lia. }
    pose proof (Nat.div_mod i 3 ltac:(lia)). pose proof (Nat.mod_upper_bound i 3 ltac:(lia)). lia. }
  rewrite Hr. cbn [mbind option_bind]. destruct r as [i|].
  - apply probe_found_lookup in Hr as (_ & c & Hc & Hk). rewrite Hc. cbn [mbind option_bind].
    eexists. split; [done|]. apply andb_true_iff in Hk as [Ht Hk]. apply Z.eqb_eq in Ht, Hk.
    apply elem_of_pairs_of. split; [done|]. exists i, c. split_and!; [done..|]. by destruct c as [? [? ?]]; cbn in *; subst.
  - eexists. split; [done|]. intros p Hp Hpk. apply elem_of_pairs_of in Hp as (_ & i & c & Hi & Ht & <-).
    apply probe_exhausted in Hr. rewrite Forall_forall in Hr.
    destruct (Hcell i c Hi) as [?|[?|[_ Hn]]]; [congruence..|]. rewrite Hpk in Hn.
    destruct (Hr i) as (c' & Hc' & Hk').
    { apply elem_of_app. destruct Hn as [Hn|Hn]; [left|right]; apply node_slots_elem; lia. }
    assert (c' = c) as -> by congruence. unfold holds_key in Hk'. by rewrite Ht, Hpk, !Z.eqb_refl in Hk'.
Qed.

Lemma Get_level_ok t k :
  k <> INVALID -> level_ok t -> exists v, Get t k = Some v /\
    (MkPair k v ∈ pairs t \/ (v = NONE /\ forall p, p ∈ pairs t -> pkey p <> k)).
Proof.
  intros Hk Hok. pose proof (level_caps t Hok) as [Hc1 Hc2]. unfold Get. rewrite !indices32_eq by done.
  cbn [mbind option_bind]. setoid_rewrite elem_of_app.
  destruct (get_level_ok t _ _ k Hk Hok Hc1 ltac:(lia) (lk_top _ Hok)) as (r & -> & Hr). cbn [mbind option_bind].
  destruct r as [v|]; [exists v; auto|].
  assert (addr_capacity t / 2 <= addr_capacity t) as Hle.
  { unfold even_cap in *. apply Z.div_le_upper_bound; lia. }
  destruct (get_level_ok t _ _ k Hk Hok Hc2 Hle (lk_bottom _ Hok)) as (r' & -> & Hr'). cbn [mbind option_bind].
  eexists. split; [done|]. destruct r' as [v|]; cbn [default]; [auto|]. right. split; [done|].
  intros p [Hp|Hp]; auto.
Qed.

(** In a table without repeated keys the answer of [Get] is determined. *)
Lemma Get_unique t k v :
  level_ok t -> NoDup (pkey <$> pairs t) -> MkPair k v ∈ pairs t -> Get t k = Some v.
Proof.
  intros Hok Hnd Hin. assert (k <> INVALID) as Hk by (apply elem_of_app in Hin as [Hin|Hin]; by apply elem_of_pairs_of in Hin as [? _]).
  destruct (Get_level_ok t k Hk Hok) as (v' & -> & [Hin'|[_ Hno]]); [|by destruct (Hno _ Hin)].
  f_equal. apply list_elem_of_lookup in Hin as [i Hi], Hin' as [j Hj].
  assert (i = j) as -> by (eapply NoDup_lookup; [exact Hnd|by rewrite list_lookup_fmap, Hi|by rewrite list_lookup_fmap, Hj]).
  congruence.
Qed.

(** C36: In a table of at most 32 levels a key that is new to it is found after an [Insert] that
    returns, through moves in a level, from the bottom to the top, and through any number of
    resizes, whatever the tokens of new nodes are.  No answer for another key changes, but that
    a resize may lose a pair, and then its key is no longer found.  The key [INVALID] is excluded. *)
Theorem level_insert_get fuel junk t k v t' :
  k <> INVALID -> level_ok t -> levels t + Z.of_nat fuel <= 33 -> NoDup (pkey <$> pairs t) ->
  (forall p, p ∈ pairs t -> pkey p <> k) ->
  Insert fuel junk t k v = Some t' ->
  level_ok t' /\ NoDup (pkey <$> pairs t') /\ Get t' k = Some v
  /\ forall k', k' <> k -> k' <> INVALID -> Get t' k' = Get t k' \/ (levels t < levels t' /\ Get t' k' = Some NONE).
Proof.
  intros Hk Hok Hfuel Hnd Hnew Hi.
  destruct (Insert_level_ok fuel junk t k v t' Hk Hok Hfuel Hi) as (Hok' & Hlev & Hin & Hsub & Hsame).
  assert (Hnd' : NoDup (pkey <$> pairs t')).
  { apply (NoDup_sub _ (pkey <$> (MkPair k v :: pairs t))); [by apply fmap_submseteq|].
    rewrite fmap_cons. constructor; [|done]. intros (p & Hp & Hpin)%list_elem_of_fmap. by apply (Hnew p). }
  split_and!; [done|done|by apply Get_unique|]. intros k' Hk' Hv'.
  destruct (Get_level_ok t' k' Hv' Hok') as (v1 & Hg1 & [Hin1|[-> Hno1]]).
  - left. rewrite Hg1. symmetry. apply Get_unique; [done..|].
    apply (elem_of_submseteq _ _ _ Hin1) in Hsub. apply elem_of_cons in Hsub as [?|?]; [congruence|done].
  - destruct (decide (levels t' = levels t)) as [He|Hne]; [|right; split; [lia|done]].
    left. rewrite Hg1. destruct (Get_level_ok t k' Hv' Hok) as (v2 & -> & [Hin2|[-> _]]); [|done].
    exfalso. apply (Hno1 (MkPair k' v2)); [|done]. rewrite (Hsame He). by right.
Qed.

End Proofs.

(** ** Runs *)

Definition zero (_ : nat) : Z := 0.

Section Examples.

(** A hash function with two independent halves, one for each seed. *)
#[local] Instance two_hash : StdHash :=
  fun bs seed => if seed =? 1 then le_word bs mod 2 ^ 16 else le_word bs / 2 ^ 16.

Definition insert_all (t : LevelHashing) (ks : list Key_t) : option LevelHashing :=
  foldM (fun t k => Insert 8 zero t k (k + 1)) ks t.

Definition small : LevelHashing := new_table zero zero 2 1 2.

Definition fourteen : list Key_t :=
  [75501186; 197133058; 171969730; 16778370; 25165826; 243271746; 96472384; 125830658; 163579074; 184550272;
   71305474; 130025666; 67109506; 239076162].

Lemma small_ok : level_ok small.
Proof. split; [vm_compute; done|done|apply new_level_ok|apply new_level_ok|vm_compute; done..]. Qed.

(** [resize] has no place for a pair whose two nodes of the new level are taken, and goes
    on: the fifteenth insertion of this run takes the fourteenth key out of the table,
    without an error. *)
Theorem level_resize_loses :
  (t ← insert_all small fourteen; Get t 239076162) = Some 239076163
  /\ (t ← insert_all small (fourteen ++ [142606658]); Get t 239076162) = Some NONE.
Proof. split; vm_compute; reflexivity. Qed.

(** A token that is not zero keeps a slot of a new table from being used, and one that is 1
    is taken for a pair. *)
Example level_junk_tokens :
  Get (new_table (fun _ => 1) zero 2 1 2) INVALID = Some NONE
  /\ (t ← Insert 1 zero (new_table (fun _ => 1) zero 2 1 2) 7 8; Some (pairs_of (bottom t)))
     = Some [MkPair 7 8].
Proof. split; vm_compute; reflexivity. Qed.

(** The fourteen keys are stored without a resize. *)
Definition insert_ones (t : LevelHashing) (ks : list Key_t) : option LevelHashing :=
  foldM (fun t k => Insert 1 zero t k (k + 1)) ks t.
Definition crowded : LevelHashing := default small (insert_ones small fourteen).
(** New nodes whose tokens are 0, 1, 2 and 3. *)
Definition mixed (i : nat) : Z := Z.of_nat (i mod 4).

Lemma insert_ones_ok ks t t' :
  Forall (fun k => k <> INVALID) ks -> level_ok t -> insert_ones t ks = Some t' -> level_ok t'.
Proof.
  intros Hk. revert t. induction Hk as [|k ks Hk _ IH]; intros t Hok Hi; unfold insert_ones in Hi; cbn [foldM] in Hi; [by injection Hi as <-|].
  inv_bind Hi t1 H1'. apply (IH t1); [|exact Hi]. pose proof (lk_levels _ Hok).
  by destruct (Insert_level_ok 1 zero t k (k + 1) t1 Hk Hok ltac:(lia) H1') as (? & _).
Qed.

Lemma crowded_ok : level_ok crowded.
Proof.
  unfold crowded. destruct (insert_ones small fourteen) as [t|] eqn:E; [|apply small_ok].
  apply (insert_ones_ok fourteen small t); [|apply small_ok|exact E]. repeat (apply Forall_cons_2; [discriminate|]). apply Forall_nil_2.
Qed.

(** The next key does not fit: the table grows, and loses a pair. *)
Lemma level_insert_get_witness :
  exists t', Insert 2 mixed crowded 142606658 9 = Some t' /\ Get t' 142606658 = Some 9
    /\ (Get t' 75501186 = Get crowded 75501186 \/ (levels crowded < levels t' /\ Get t' 75501186 = Some NONE)).
Proof.
  destruct (Insert 2 mixed crowded 142606658 9) as [t'|] eqn:Hi.
  - exists t'. split; [reflexivity|].
    destruct (level_insert_get 2 mixed crowded 142606658 9 t') as (_ & _ & Hg & Ho); [discriminate|exact crowded_ok| | | |exact Hi|].
    + apply Z.leb_le. vm_compute. reflexivity.
    + apply (bool_decide_eq_true_1 (NoDup (pkey <$> pairs crowded))). vm_compute. reflexivity.
    + apply Forall_forall, (bool_decide_eq_true_1 (Forall (fun p => pkey p <> 142606658) (pairs crowded))). vm_compute. reflexivity.
    + split; [exact Hg|]. apply (Ho 75501186); discriminate.
  - exfalso. assert (bool_decide (is_Some (Insert 2 mixed crowded 142606658 9)) = true) as Hs by (vm_compute; reflexivity).
    rewrite Hi in Hs. discriminate Hs.
Defined.

End Examples.
