(* ===== verification/PathHash.v ===== *)
(** * The path hashing table (server/src/path_hashing.cpp, path_hashing.hpp)

    The cells are the levels of a binary tree, the widest level first: level
    [i] starts at [2^levels - 2^(levels-i)].  A key has two leaves, one in each
    half of the widest level, and may be stored in any cell of the two paths
    from them towards the root, of which the first [reserved_levels] cells
    exist.  When both paths are full the tree grows by one level and every pair
    is stored again.

    [pow] is exact on the powers of two that occur; a conversion to an integer
    type that the value does not fit is an error.  The locks never make a single
    thread wait; what is checked is that the mutex exists.  The [Node] of the
    code has the fields of a [Pair]. *)

From S2P Require Import Prelude PairDefs HashFun.

Record PathHashing : Type := MkPath {
  levels : Z;
  reserved_levels : Z;
  addr_capacity : Z;
  total_capacity : Z;
  psize : Z;                      (** [size] *)
  f_seed : Z;
  s_seed : Z;
  nlocks : Z;
  locksize : Z;
  table : list Pair;
}.

(** [pow(2, e)] for an [e] of type [uint32_t]: a double below 2^1024. *)
Definition pow2 (e : Z) : option Z := if e <? 1024 then Some (2 ^ e) else None.
Definition to_int (d : Z) : option Z := if (- 2 ^ 31 <=? d) && (d <? 2 ^ 31) then Some d else None.
Definition to_uint32 (d : Z) : option Z := if (0 <=? d) && (d <? 2 ^ 32) then Some d else None.

(** Where the level after level [i] starts, as [Insert] computes it and as
    [Get] does. *)
Definition next_base (levels i : Z) : option Z :=
  a ← pow2 levels; a ← to_int a;
  b ← pow2 (u32 (levels - i - 1)); b ← to_int b;
  Some (a - b).
Definition next_base_Get (levels i : Z) : option Z :=
  a ← pow2 levels;
  b ← pow2 (u32 (levels - i - 1));
  to_int (a - b).

Definition new_nodes (n : Z) : list Pair := replicate (Z.to_nat n) (MkPair INVALID NONE).

(** The loops over the levels, which differ in the width [w] of the indices,
    in the locks and in the test.  The result is the cell that passes. *)
Fixpoint walk_up (w : Z) (lock : Z -> option unit) (base : Z -> option Z) (test : Pair -> bool)
    (tab : list Pair) (n : nat) (i f_idx s_idx sub_f_idx sub_s_idx : Z) : option (option nat) :=
  match n with
  | O => Some None
  | S n =>
      _ ← lock f_idx;
      p ← tab !! Z.to_nat f_idx;
      if test p then Some (Some (Z.to_nat f_idx)) else
      _ ← lock s_idx;
      p ← tab !! Z.to_nat s_idx;
      if test p then Some (Some (Z.to_nat s_idx)) else
      let sub_f_idx := sub_f_idx / 2 in
      let sub_s_idx := sub_s_idx / 2 in
      capacity ← base i;
      walk_up w lock base test tab n (i + 1) (wrap w (sub_f_idx + capacity)) (wrap w (sub_s_idx + capacity))
        sub_f_idx sub_s_idx
  end.

Section Operations.
Context `{StdHash}.

Definition F_HASH (t : PathHashing) (key : Key_t) : Z := h key (f_seed t).
Definition S_HASH (t : PathHashing) (key : Key_t) : Z := h key (s_seed t).
Definition F_IDX (hash capacity : Z) : option Z := urem hash (capacity / 2).
Definition S_IDX (hash capacity : Z) : option Z := x ← urem hash (capacity / 2); Some (x + capacity / 2).

Definition lock (t : PathHashing) (idx : Z) : option unit :=
  if idx / locksize t <? nlocks t then Some tt else None.
Definition no_lock (idx : Z) : option unit := Some tt.

(** The constructor; the seeds come from [generate_seeds]. *)
Definition new_table (_levels _reserved_levels f s : Z) : option PathHashing :=
  let levels := u32 _levels in
  let reserved_levels := u32 _reserved_levels in
  a ← pow2 (u32 (levels - 1)); addr_capacity ← to_uint32 a;
  a ← pow2 levels; a ← to_uint32 a;
  b ← pow2 (u32 (levels - reserved_levels)); b ← to_uint32 b;
  let total_capacity := u32 (a - b) in
  let locksize := 256 in
  Some (MkPath levels reserved_levels addr_capacity total_capacity 0 f s
    (s32 (u32 (total_capacity / locksize + 1))) locksize (new_nodes total_capacity)).

(** The cell for a new pair, and the table that has it there. *)
Definition put_at (t : PathHashing) (i : nat) (p : Pair) : option PathHashing :=
  tab ← store (table t) i p;
  Some (MkPath (levels t) (reserved_levels t) (addr_capacity t) (total_capacity t) (u32 (psize t + 1))
    (f_seed t) (s_seed t) (nlocks t) (locksize t) tab).

(** One pair of the old table goes into the new one; the loop looks at no lock
    and the indices have 32 bits.  A pair that finds no cell is not stored, and
    [insertSuccess] is not read. *)
Definition rehash (t : PathHashing) (tab : list Pair) (p : Pair) : option (list Pair) :=
  if is_free p then Some tab else
  f_idx ← F_IDX (F_HASH t (pkey p)) (addr_capacity t);
  s_idx ← S_IDX (S_HASH t (pkey p)) (addr_capacity t);
  let f_idx := u32 f_idx in
  let s_idx := u32 s_idx in
  r ← walk_up 32 no_lock (next_base (levels t)) is_free tab (Z.to_nat (reserved_levels t)) 0
    f_idx s_idx f_idx s_idx;
  match r with
  | Some i => store tab i p
  | None => Some tab
  end.

Definition resize (t : PathHashing) : option PathHashing :=
  let levels := u32 (levels t + 1) in
  a ← pow2 (u32 (levels - 1)); addr_capacity ← to_uint32 a;
  a ← pow2 levels;
  b ← pow2 (u32 (levels - reserved_levels t));
  total_capacity ← to_uint32 (a - b);
  let t' := MkPath levels (reserved_levels t) addr_capacity total_capacity (psize t) (f_seed t) (s_seed t)
    (s32 (u32 (total_capacity / locksize t + 1))) (locksize t) (new_nodes total_capacity) in
  tab ← foldM (rehash t') (table t) (table t');
  Some (MkPath levels (reserved_levels t) addr_capacity total_capacity (psize t) (f_seed t) (s_seed t)
    (nlocks t') (locksize t) tab).

(** The loop of [Insert] and that of [InsertOnly], without locks. *)
Definition find_cell (lk : Z -> option unit) (t : PathHashing) (key : Key_t) : option (option nat) :=
  f_idx ← F_IDX (F_HASH t key) (addr_capacity t);
  s_idx ← S_IDX (S_HASH t key) (addr_capacity t);
  walk_up 64 lk (next_base (levels t)) is_free (table t) (Z.to_nat (reserved_levels t)) 0
    f_idx s_idx f_idx s_idx.

(** [fuel] bounds the jumps to [RETRY]; each one but the first follows a resize. *)
Fixpoint Insert (fuel : nat) (t : PathHashing) (key : Key_t) (value : Value_t) : option PathHashing :=
  match fuel with
  | O => None
  | S fuel =>
      r ← find_cell (lock t) t key;
      match r with
      | Some i => put_at t i (MkPair key value)
      | None => t ← resize t; Insert fuel t key value
      end
  end.

Definition InsertOnly (t : PathHashing) (key : Key_t) (value : Value_t) : option (PathHashing * bool) :=
  r ← find_cell no_lock t key;
  match r with
  | Some i => t ← put_at t i (MkPair key value); Some (t, true)
  | None => Some (t, false)
  end.

Definition Delete (t : PathHashing) (key : Key_t) : PathHashing * bool := (t, false).

Definition Get (t : PathHashing) (key : Key_t) : option Value_t :=
  f_idx ← F_IDX (F_HASH t key) (addr_capacity t);
  s_idx ← S_IDX (S_HASH t key) (addr_capacity t);
  r ← walk_up 64 (lock t) (next_base_Get (levels t)) (has_key key) (table t) (Z.to_nat (reserved_levels t)) 0
    f_idx s_idx f_idx s_idx;
  match r with
  | Some i => p ← table t !! i; Some (pvalue p)
  | None => Some NONE
  end.

Definition Insert_extent (t : PathHashing) (_ : Key_t) (_ _ : Z) (_ : Value_t) : PathHashing := t.
Definition Get_extent (t : PathHashing) (_ : Key_t) (_ : Z) : Value_t := NONE.
Definition FindAnyway (t : PathHashing) (_ : Key_t) : Value_t := NONE.
Definition Recovery (t : PathHashing) : PathHashing * bool := (t, false).
Definition Capacity (t : PathHashing) : Z := total_capacity t.
(** The count that [Utilization] divides. *)
Definition Utilization_sum (t : PathHashing) : nat := length (used (table t)).

End Operations.

(** ** The cells of the two paths *)

(** The cell at level [i] above leaf [x] of a tree of [lev] levels. *)
Definition cell (lev i x : Z) : Z := 2 ^ lev - 2 ^ (lev - i) + x / 2 ^ i.

(** The cells [n] levels up from level [i], in the order the loops visit them. *)
Fixpoint cells (lev f s : Z) (i : Z) (n : nat) : list nat :=
  match n with
  | O => []
  | S n => Z.to_nat (cell lev i f) :: Z.to_nat (cell lev i s) :: cells lev f s (i + 1) n
  end.

Lemma elem_of_cells lev f s i n y :
  y ∈ cells lev f s i n <->
  exists j (b : bool), i <= j < i + Z.of_nat n /\ y = Z.to_nat (cell lev j (if b then s else f)).
Proof.
  revert i. induction n as [|n IH]; intros i.
  { cbn [cells]. split; [by intros ?%elem_of_nil|]. intros (j & b & Hj & _). lia. }
  cbn [cells]. rewrite !elem_of_cons, IH. split.
  - intros [->|[->|(j & b & Hj & ->)]]; [exists i, false|exists i, true|exists j, b]; (split; [lia|done]).
  - intros (j & b & Hj & ->). destruct (decide (j = i)) as [->|].
    + destruct b; auto.
    + right; right. exists j, b. split; [lia|done].
Qed.

(** Level [i] occupies the cells from [2^lev - 2^(lev-i)] to the start of the next. *)
Lemma cell_level lev i x :
  0 <= i < lev -> 0 <= x < 2 ^ (lev - 1) ->
  0 <= 2 ^ lev - 2 ^ (lev - i) <= cell lev i x /\ cell lev i x < 2 ^ lev - 2 ^ (lev - (i + 1)).
Proof.
  intros Hi Hx. unfold cell. pose proof (pow_pos i ltac:(lia)).
  assert (2 ^ (lev - i) <= 2 ^ lev) by (apply Z.pow_le_mono_r; lia).
  assert (0 <= x / 2 ^ i) by (apply Z.div_pos; lia).
  assert (x / 2 ^ i < 2 ^ (lev - 1 - i)).
  { apply Z.div_lt_upper_bound; [lia|]. rewrite Z.mul_comm, <- pow_split by lia. lia. }
  pose proof (pow_half (lev - i) ltac:(lia)). replace (lev - (i + 1)) with (lev - 1 - i) by lia.
  replace (lev - i - 1) with (lev - 1 - i) in * by lia. lia.
Qed.

(** A later level starts after an earlier one. *)
Lemma level_starts lev i j : 0 <= i <= j -> j <= lev -> 2 ^ lev - 2 ^ (lev - i) <= 2 ^ lev - 2 ^ (lev - j).
Proof. intros. assert (2 ^ (lev - j) <= 2 ^ (lev - i)) by (apply Z.pow_le_mono_r; lia). lia. Qed.

Lemma cell_order lev i j x y :
  0 <= i < lev -> 0 <= j < lev -> 0 <= x < 2 ^ (lev - 1) -> 0 <= y < 2 ^ (lev - 1) ->
  cell lev i x <= cell lev j y -> i <= j.
Proof.
  intros Hi Hj Hx Hy Hle. destruct (decide (i <= j)) as [|Hn]; [done|]. exfalso.
  pose proof (cell_level lev i x Hi Hx). pose proof (cell_level lev j y Hj Hy).
  pose proof (level_starts lev (j + 1) i). lia.
Qed.

Lemma cell_top lev x : cell lev 0 x = x.
Proof. unfold cell. rewrite Z.sub_0_r, Z.pow_0_r, Z.div_1_r. lia. Qed.

Lemma cell_up lev i x :
  0 <= i -> x / 2 ^ i / 2 + (2 ^ lev - 2 ^ (lev - i - 1)) = cell lev (i + 1) x.
Proof.
  intros Hi. unfold cell. pose proof (pow_pos i Hi).
  rewrite Z.div_div, Z.pow_add_r by lia. change (2 ^ 1) with 2.
  replace (lev - (i + 1)) with (lev - i - 1) by lia. lia.
Qed.

(** The loops look at the cells of the two paths. *)
Lemma walk_up_cells w lk base test tab lev f s n i :
  0 <= i -> i + Z.of_nat n <= lev -> lev <= w -> 0 <= f < 2 ^ (lev - 1) -> 0 <= s < 2 ^ (lev - 1) ->
  (forall j, i <= j < i + Z.of_nat n -> base j = Some (2 ^ lev - 2 ^ (lev - j - 1))) ->
  (forall y, 0 <= y < 2 ^ lev - 2 ^ (lev - (i + Z.of_nat n)) -> lk y = Some tt) ->
  walk_up w lk base test tab n i (cell lev i f) (cell lev i s) (f / 2 ^ i) (s / 2 ^ i)
  = probe (cells lev f s i n) test tab.
Proof.
  revert i. induction n as [|n IH]; intros i Hi Hn Hw Hf Hs Hbase Hlk; [done|]. cbn [walk_up cells probe].
  pose proof (cell_level lev i f ltac:(lia) Hf). pose proof (cell_level lev i s ltac:(lia) Hs).
  pose proof (level_starts lev (i + 1) (i + Z.of_nat (S n))).
  rewrite !Hlk by lia. cbn [mbind option_bind].
  destruct (tab !! Z.to_nat (cell lev i f)) as [p|]; cbn [mbind option_bind]; [|done]. destruct (test p); [done|].
  destruct (tab !! Z.to_nat (cell lev i s)) as [q|]; cbn [mbind option_bind]; [|done]. destruct (test q); [done|].
  rewrite Hbase by lia. cbn [mbind option_bind]. destruct n as [|n]; [done|]. rewrite !cell_up by lia.
  assert (2 ^ lev <= 2 ^ w) by (apply Z.pow_le_mono_r; lia).
  pose proof (cell_level lev (i + 1) f ltac:(lia) Hf). pose proof (cell_level lev (i + 1) s ltac:(lia) Hs).
  pose proof (pow_pos (lev - (i + 1 + 1)) ltac:(lia)).
  rewrite !wrap_small by lia. rewrite !Z.div_div by (lia || apply Z.pow_nonzero; lia).
  replace (2 ^ i * 2) with (2 ^ (i + 1)) by (rewrite Z.pow_add_r by lia; lia).
  apply IH; try lia; intros; [apply Hbase; lia|apply Hlk]. replace (i + Z.of_nat (S (S n))) with (i + 1 + Z.of_nat (S n)) by lia. done.
Qed.

(** ** Well-formed tables *)

Section Proofs.
Context `{StdHash}.

(** The leaf of a key in the first or the second half of the widest level. *)
Definition leaf (seed : bool -> Z) (lev : Z) (b : bool) (k : Key_t) : Z :=
  h k (seed b) mod 2 ^ (lev - 2) + (if b then 2 ^ (lev - 2) else 0).

Lemma leaf_range seed lev b k :
  2 <= lev -> 0 <= leaf seed lev b k < 2 ^ (lev - 1).
Proof.
  intros Hlev. unfold leaf. pose proof (Z.mod_pos_bound (h k (seed b)) _ (pow_pos (lev - 2) ltac:(lia))).
  pose proof (pow_half (lev - 1) ltac:(lia)). replace (lev - 1 - 1) with (lev - 2) in * by lia.
  destruct b; lia.
Qed.

(** The cell of a key at level [i] of one of its paths. *)
Definition on_path (seed : bool -> Z) (lev i : Z) (b : bool) (k : Key_t) : nat :=
  Z.to_nat (cell lev i (leaf seed lev b k)).
Definition paths (seed : bool -> Z) (lev res : Z) (k : Key_t) : list nat :=
  cells lev (leaf seed lev false k) (leaf seed lev true k) 0 (Z.to_nat res).

Lemma elem_of_paths seed lev res k y :
  0 <= res -> y ∈ paths seed lev res k <-> exists i b, 0 <= i < res /\ y = on_path seed lev i b k.
Proof.
  intros Hres. unfold paths, on_path. rewrite elem_of_cells, Z2Nat.id by done.
  split; intros (i & b & Hi & ->); exists i, b; (split; [done|by destruct b]).
Qed.

Definition placed (seed : bool -> Z) (lev res : Z) (tab : list Pair) : Prop :=
  forall y p, tab !! y = Some p -> pkey p <> INVALID -> y ∈ paths seed lev res (pkey p).

Definition seeds (t : PathHashing) (b : bool) : Z := if b then s_seed t else f_seed t.

Record path_ok (t : PathHashing) : Prop := {
  pk_levels : 2 <= levels t <= 30;
  pk_reserved : 1 <= reserved_levels t <= levels t;
  pk_addr : addr_capacity t = 2 ^ (levels t - 1);
  pk_total : total_capacity t = 2 ^ levels t - 2 ^ (levels t - reserved_levels t);
  pk_locks : locksize t = 256 /\ nlocks t = total_capacity t / 256 + 1;
  pk_length : length (table t) = Z.to_nat (total_capacity t);
  pk_placed : placed (seeds t) (levels t) (reserved_levels t) (table t);
}.

Lemma pow2_ok e : 0 <= e < 1024 -> pow2 e = Some (2 ^ e).
Proof. intros. unfold pow2. destruct (Z.ltb_spec e 1024); [done|lia]. Qed.

Lemma to_int_ok d : - 2 ^ 31 <= d < 2 ^ 31 -> to_int d = Some d.
Proof. intros. unfold to_int. rewrite (proj2 (Z.leb_le _ _)), (proj2 (Z.ltb_lt _ _)) by lia. done. Qed.

Lemma to_uint32_ok d : 0 <= d < 2 ^ 32 -> to_uint32 d = Some d.
Proof. intros. unfold to_uint32. rewrite (proj2 (Z.leb_le _ _)), (proj2 (Z.ltb_lt _ _)) by lia. done. Qed.

Lemma next_base_ok lev i :
  lev <= 30 -> 0 <= i < lev -> next_base lev i = Some (2 ^ lev - 2 ^ (lev - i - 1)).
Proof.
  intros Hlev Hi. unfold next_base. pose proof (pow_bounds lev 30). pose proof (pow_bounds (lev - i - 1) 30).
  rewrite (wrap_small 32) by lia. rewrite !pow2_ok by lia. cbn [mbind option_bind].
  rewrite !to_int_ok by lia. done.
Qed.

Lemma next_base_Get_ok lev i :
  lev <= 30 -> 0 <= i < lev -> next_base_Get lev i = Some (2 ^ lev - 2 ^ (lev - i - 1)).
Proof.
  intros Hlev Hi. unfold next_base_Get. pose proof (pow_bounds lev 30). pose proof (pow_bounds (lev - i - 1) 30).
  rewrite (wrap_small 32) by lia. rewrite !pow2_ok by lia. cbn [mbind option_bind].
  by rewrite to_int_ok by lia.
Qed.

Lemma leaves_ok t k :
  2 <= levels t -> addr_capacity t = 2 ^ (levels t - 1) ->
  F_IDX (F_HASH t k) (addr_capacity t) = Some (leaf (seeds t) (levels t) false k)
  /\ S_IDX (S_HASH t k) (addr_capacity t) = Some (leaf (seeds t) (levels t) true k).
Proof.
  intros Hlev Ha. pose proof (pow_pos (levels t - 2) ltac:(lia)).
  assert (addr_capacity t / 2 = 2 ^ (levels t - 2)) as Hh.
  { rewrite Ha, (pow_half (levels t - 1)), Z.mul_comm, Z.div_mul by lia. f_equal. lia. }
  unfold F_IDX, S_IDX. rewrite Hh, !urem_pos by done. unfold leaf, F_HASH, S_HASH, seeds.
  split; [by rewrite Z.add_0_r|done].
Qed.

(** Every loop over the two paths is a scan of [paths]. *)
Lemma walk_up_paths w lk base test t tab k :
  2 <= levels t <= 30 -> 1 <= reserved_levels t <= levels t -> 30 <= w ->
  (forall i, 0 <= i < levels t -> base i = Some (2 ^ levels t - 2 ^ (levels t - i - 1))) ->
  (forall y, 0 <= y < 2 ^ levels t - 2 ^ (levels t - reserved_levels t) -> lk y = Some tt) ->
  let f := leaf (seeds t) (levels t) false k in
  let s := leaf (seeds t) (levels t) true k in
  walk_up w lk base test tab (Z.to_nat (reserved_levels t)) 0 f s f s
  = probe (paths (seeds t) (levels t) (reserved_levels t) k) test tab.
Proof.
  intros Hlev Hres Hw Hbase Hlk f s. unfold paths. fold f s.
  rewrite <- (walk_up_cells w lk base test tab (levels t)) ; try (lia || (apply leaf_range; lia)).
  - rewrite !cell_top, Z.pow_0_r, !Z.div_1_r. done.
  - intros j Hj. apply Hbase. lia.
  - intros y Hy. apply Hlk. by rewrite Z2Nat.id in Hy by lia.
Qed.

Lemma lock_path_ok t y :
  path_ok t -> 0 <= y < 2 ^ levels t - 2 ^ (levels t - reserved_levels t) -> lock t y = Some tt.
Proof.
  intros Hok Hy. unfold lock. destruct (pk_locks t Hok) as [-> ->]. rewrite <- (pk_total t Hok) in Hy.
  assert (y / 256 <= total_capacity t / 256) by (apply Z.div_le_mono; lia).
  destruct (Z.ltb_spec (y / 256) (total_capacity t / 256 + 1)); [done|lia].
Qed.

Lemma find_cell_paths lk t k :
  path_ok t -> (forall y, 0 <= y < 2 ^ levels t - 2 ^ (levels t - reserved_levels t) -> lk y = Some tt) ->
  find_cell lk t k = probe (paths (seeds t) (levels t) (reserved_levels t) k) is_free (table t).
Proof.
  intros Hok Hlk. unfold find_cell. pose proof (pk_levels t Hok). pose proof (pk_reserved t Hok).
  destruct (leaves_ok t k ltac:(lia) (pk_addr t Hok)) as [-> ->]. cbn [mbind option_bind].
  apply (walk_up_paths 64); try done || lia. intros i Hi. apply next_base_ok; lia.
Qed.

(** The cells of a path are cells of the table. *)
Lemma on_path_range seed lev res i b k :
  2 <= lev -> 0 <= i < res -> res <= lev -> (on_path seed lev i b k < Z.to_nat (2 ^ lev - 2 ^ (lev - res)))%nat.
Proof.
  intros Hlev Hi Hres. unfold on_path.
  pose proof (cell_level lev i _ ltac:(lia) (leaf_range seed lev b k Hlev)).
  pose proof (level_starts lev (i + 1) res). lia.
Qed.

Lemma paths_range t k :
  path_ok t -> Forall (fun y => (y < length (table t))%nat) (paths (seeds t) (levels t) (reserved_levels t) k).
Proof.
  intros Hok. pose proof (pk_levels t Hok). pose proof (pk_reserved t Hok).
  apply Forall_forall. intros y (i & b & Hi & ->)%elem_of_paths; [|lia].
  rewrite (pk_length t Hok), (pk_total t Hok). apply on_path_range; lia.
Qed.

(** ** A new level keeps the order of the paths *)

(** The place of a cell in the order of the loops: by level, then by half. *)
Definition turn (i : Z) (b : bool) : Z := 2 * i + Z.b2z b.

Lemma turn_inj i j b c : turn i b = turn j c -> i = j /\ b = c.
Proof. unfold turn. destruct b, c; cbn [Z.b2z]; lia. Qed.

Lemma cell_eq_div lev i x y :
  cell lev i x = cell lev i y <-> x / 2 ^ i = y / 2 ^ i.
Proof. unfold cell. lia. Qed.

Lemma on_path_cell seed lev i j b c k k' :
  2 <= lev -> 0 <= i < lev -> 0 <= j < lev ->
  on_path seed lev i b k = on_path seed lev j c k' <->
  cell lev i (leaf seed lev b k) = cell lev j (leaf seed lev c k').
Proof.
  intros Hlev Hi Hj. unfold on_path. split; [|by intros ->].
  pose proof (cell_level lev i _ Hi (leaf_range seed lev b k Hlev)).
  pose proof (cell_level lev j _ Hj (leaf_range seed lev c k' Hlev)). lia.
Qed.

(** The first half lies before the second at every level that has two cells. *)
Lemma halves_apart seed lev i k k' :
  0 <= i <= lev - 2 -> leaf seed lev false k / 2 ^ i < leaf seed lev true k' / 2 ^ i.
Proof.
  intros Hi. pose proof (pow_pos i ltac:(lia)). pose proof (pow_split (lev - 2) i ltac:(lia)) as Hp.
  pose proof (pow_pos (lev - 2) ltac:(lia)). unfold leaf.
  pose proof (Z.mod_pos_bound (h k (seed false)) _ (pow_pos (lev - 2) ltac:(lia))).
  pose proof (Z.mod_pos_bound (h k' (seed true)) _ (pow_pos (lev - 2) ltac:(lia))).
  assert ((h k (seed false) mod 2 ^ (lev - 2) + 0) / 2 ^ i < 2 ^ (lev - 2 - i)) by (apply Z.div_lt_upper_bound; lia).
  assert (2 ^ (lev - 2 - i) <= (h k' (seed true) mod 2 ^ (lev - 2) + 2 ^ (lev - 2)) / 2 ^ i)
    by (apply Z.div_le_lower_bound; lia).
  lia.
Qed.

(** At a level with two cells or more a cell tells its level and its half. *)
Lemma on_path_turn seed lev i j b c k k' :
  2 <= lev -> 0 <= i <= lev - 2 -> 0 <= j <= lev - 2 ->
  on_path seed lev i b k = on_path seed lev j c k' -> i = j /\ b = c.
Proof.
  intros Hlev Hi Hj He%on_path_cell; [|lia..].
  assert (i = j) as ->.
  { pose proof (cell_order lev i j _ _ ltac:(lia) ltac:(lia) (leaf_range seed lev b k Hlev) (leaf_range seed lev c k' Hlev)).
    pose proof (cell_order lev j i _ _ ltac:(lia) ltac:(lia) (leaf_range seed lev c k' Hlev) (leaf_range seed lev b k Hlev)).
    lia. }
  split; [done|]. apply cell_eq_div in He. pose proof (halves_apart seed lev j k k' Hj).
  pose proof (halves_apart seed lev j k' k Hj). destruct b, c; (done || lia).
Qed.

Lemma on_path_mono seed lev i j b c k k' :
  2 <= lev -> 0 <= i < lev -> 0 <= j < lev ->
  (on_path seed lev i b k < on_path seed lev j c k')%nat -> turn i b <= turn j c.
Proof.
  intros Hlev Hi Hj Hlt. unfold on_path in Hlt. apply Z2Nat.inj_lt in Hlt;
    [|pose proof (cell_level lev i _ Hi (leaf_range seed lev b k Hlev));
      pose proof (cell_level lev j _ Hj (leaf_range seed lev c k' Hlev)); lia..].
  pose proof (cell_order lev i j _ _ Hi Hj (leaf_range seed lev b k Hlev) (leaf_range seed lev c k' Hlev) ltac:(lia)).
  unfold turn. destruct (decide (i = j)) as [->|]; [|destruct b, c; cbn [Z.b2z]; lia].
  destruct b, c; cbn [Z.b2z]; try lia. exfalso.
  assert (leaf seed lev false k' <= leaf seed lev true k) as Hle.
  { unfold leaf. pose proof (Z.mod_pos_bound (h k' (seed false)) _ (pow_pos (lev - 2) ltac:(lia))).
    pose proof (Z.mod_pos_bound (h k (seed true)) _ (pow_pos (lev - 2) ltac:(lia))). lia. }
  apply (Z.div_le_mono _ _ (2 ^ j)) in Hle; [|apply pow_pos; lia]. unfold cell in Hlt. lia.
Qed.

(** Two keys that share a cell after the growth shared one before. *)
Lemma on_path_grow seed lev i b k k' :
  2 <= lev -> 0 <= i < lev ->
  on_path seed (lev + 1) i b k = on_path seed (lev + 1) i b k' ->
  on_path seed lev i b k = on_path seed lev i b k'.
Proof.
  intros Hlev Hi He%on_path_cell; [|lia..]. apply on_path_cell; [lia..|]. apply cell_eq_div.
  apply cell_eq_div in He. destruct (decide (i = lev - 1)) as [->|].
  { pose proof (leaf_range seed lev b k Hlev). pose proof (leaf_range seed lev b k' Hlev). by rewrite !Z.div_small. }
  unfold leaf in *. replace (lev + 1 - 2) with (lev - 1) in He by lia.
  set (x := h k (seed b)) in *. set (x' := h k' (seed b)) in *.
  assert (forall a u, i <= a ->
    (u mod 2 ^ a + (if b then 2 ^ a else 0)) / 2 ^ i = (u / 2 ^ i) mod 2 ^ (a - i) + (if b then 2 ^ (a - i) else 0)) as Hd.
  { intros a u Ha. rewrite <- mod_div_pow by lia. destruct b; [|by rewrite !Z.add_0_r].
    rewrite (pow_split a i) at 2 by lia. apply Z.div_add. apply Z.pow_nonzero; lia. }
  rewrite !Hd in He by lia. rewrite !Hd by lia.
  assert ((x / 2 ^ i) mod 2 ^ (lev - 1 - i) = (x' / 2 ^ i) mod 2 ^ (lev - 1 - i)) as Hm by lia. f_equal.
  assert (forall u, u mod 2 ^ (lev - 2 - i) = (u mod 2 ^ (lev - 1 - i)) mod 2 ^ (lev - 2 - i)) as Hmm.
  { intros u. symmetry; apply Z.mod_mod_divide. exists 2. rewrite (pow_half (lev - 1 - i)) by lia.
    f_equal. f_equal. lia. }
  by rewrite Hmm, Hm, <- Hmm.
Qed.

(** ** [resize] finds a cell for every pair *)

Lemma cells_app lev f s i n m :
  cells lev f s i (n + m) = cells lev f s i n ++ cells lev f s (i + Z.of_nat n) m.
Proof.
  revert i. induction n as [|n IH]; intros i; cbn [cells Nat.add app]; [f_equal; lia|].
  rewrite IH. do 3 f_equal. f_equal. lia.
Qed.

(** The cells before one of a path have an earlier turn. *)
Lemma paths_split seed lev res i b k :
  0 <= i < res -> exists pre post,
    paths seed lev res k = pre ++ on_path seed lev i b k :: post
    /\ forall z, z ∈ pre -> exists j c, 0 <= j /\ z = on_path seed lev j c k /\ turn j c <= turn i b.
Proof.
  intros Hi. unfold paths. replace (Z.to_nat res) with (Z.to_nat i + S (Z.to_nat (res - i - 1)))%nat by lia.
  rewrite cells_app, Z2Nat.id, Z.add_0_l by lia. cbn [cells].
  set (before := cells _ _ _ 0 _). set (after := cells _ _ _ (i + 1) _).
  assert (forall z, z ∈ before -> exists j c, 0 <= j /\ z = on_path seed lev j c k /\ turn j c <= turn i b) as Hb.
  { intros z (j & c & Hj & ->)%elem_of_cells. exists j, c.
    split_and!; [lia|by destruct c|]. unfold turn. destruct b, c; cbn [Z.b2z]; lia. }
  destruct b.
  - exists (before ++ [on_path seed lev i false k]), after. rewrite <- app_assoc. split; [done|].
    intros z [Hz|Hz]%elem_of_app; [by apply Hb|]. apply list_elem_of_singleton in Hz as ->.
    exists i, false. split_and!; [lia|done|]. unfold turn. cbn [Z.b2z]. lia.
  - by exists before, (on_path seed lev i true k :: after).
Qed.

Section Growth.
Context (seed : bool -> Z) (lev res : Z) (old : list Pair).
Hypothesis (Hlev : 2 <= lev) (Hres : 1 <= res <= lev) (Hold : placed seed lev res old).

(** The pairs of the new table come from the first [m] cells of the old one,
    each to a cell whose turn is not after that of its old cell. *)
Definition moved (m : nat) (tab : list Pair) : Prop :=
  forall y p, tab !! y = Some p -> pkey p <> INVALID ->
  exists x i b j c, (x < m)%nat /\ old !! x = Some p /\ 0 <= i < res /\ x = on_path seed lev i b (pkey p)
    /\ 0 <= j /\ y = on_path seed (lev + 1) j c (pkey p) /\ turn j c <= turn i b.

(** The cell of the same turn is still free for the next pair. *)
Lemma own_cell_free m tab p i b q :
  moved m tab -> 0 <= i < res -> m = on_path seed lev i b (pkey p) ->
  tab !! on_path seed (lev + 1) i b (pkey p) = Some q -> is_free q = true.
Proof.
  intros Hm Hi Hmi Hq. destruct (is_free q) eqn:Hf; [done|]. apply is_free_false in Hf. exfalso.
  destruct (Hm _ _ Hq Hf) as (x & i' & b' & j & c & Hx & _ & Hi' & Hxi & Hj & Hy & Ht).
  assert (turn i' b' <= turn i b) as Ht' by (apply (on_path_mono seed lev i' i b' b (pkey q) (pkey p)); lia).
  assert (j <= i) by (unfold turn in *; destruct b, b', c; cbn [Z.b2z] in *; lia).
  apply on_path_turn in Hy as Hij; [|lia..]. destruct Hij as [<- <-].
  assert (turn i' b' = turn i b) as [-> ->]%turn_inj by lia.
  apply on_path_grow in Hy; lia.
Qed.

Lemma moved_store m tab p i b y :
  moved m tab -> old !! m = Some p -> 0 <= i < res -> m = on_path seed lev i b (pkey p) ->
  (exists j c, 0 <= j /\ y = on_path seed (lev + 1) j c (pkey p) /\ turn j c <= turn i b) ->
  moved (S m) (<[y := p]> tab).
Proof.
  intros Hm Hp Hi Hmi (j & c & Hj & Hy & Ht) y' p' Hp' Hk.
  apply list_lookup_insert_Some in Hp' as [(-> & -> & _)|[_ Hp']].
  - exists m, i, b, j, c. split_and!; (done || lia).
  - destruct (Hm _ _ Hp' Hk) as (x & i' & b' & j' & c' & ? & Hrest).
    exists x, i', b', j', c'. split; [lia|exact Hrest].
Qed.

Lemma moved_skip m tab : moved m tab -> moved (S m) tab.
Proof.
  intros Hm y p Hp Hk. destruct (Hm _ _ Hp Hk) as (x & i & b & j & c & ? & Hrest).
  exists x, i, b, j, c. split; [lia|exact Hrest].
Qed.

Lemma moved_placed m tab : moved m tab -> placed seed (lev + 1) res tab.
Proof.
  intros Hm y p Hp Hk. destruct (Hm _ _ Hp Hk) as (x & i & b & j & c & ? & ? & Hi & ? & Hj & -> & Ht).
  apply elem_of_paths; [lia|]. exists j, c. split; [|done].
  unfold turn in Ht. destruct b, c; cbn [Z.b2z] in Ht; lia.
Qed.

End Growth.

(** The new table of [resize], before the pairs are moved. *)
Definition grown (t : PathHashing) (tab : list Pair) : PathHashing :=
  let total := 2 ^ (levels t + 1) - 2 ^ (levels t + 1 - reserved_levels t) in
  MkPath (levels t + 1) (reserved_levels t) (2 ^ levels t) total (psize t)
    (f_seed t) (s_seed t) (total / 256 + 1) 256 tab.

Lemma rehash_paths t tab0 tab p :
  path_ok t -> levels t < 30 -> pkey p <> INVALID ->
  rehash (grown t tab0) tab p =
  (r ← probe (paths (seeds t) (levels t + 1) (reserved_levels t) (pkey p)) is_free tab;
   match r with Some i => store tab i p | None => Some tab end).
Proof.
  intros Hok Hlt Hf%is_free_false. pose proof (pk_levels t Hok) as Hlev. pose proof (pk_reserved t Hok) as Hres.
  set (t1 := grown t tab0). unfold rehash. rewrite Hf.
  destruct (leaves_ok t1 (pkey p)) as [-> ->];
    [cbn [levels grown t1]; lia|cbn [addr_capacity levels grown t1]; f_equal; lia|]. cbn [mbind option_bind].
  assert (forall b, u32 (leaf (seeds t1) (levels t1) b (pkey p)) = leaf (seeds t1) (levels t1) b (pkey p)) as Hu.
  { intros b. pose proof (leaf_range (seeds t1) (levels t1) b (pkey p) ltac:(cbn [levels grown t1]; lia)).
    pose proof (pow_bounds (levels t1 - 1) 30 ltac:(cbn [levels grown t1]; lia)). apply wrap_small. lia. }
  rewrite !Hu, (walk_up_paths 32); [done|cbn [levels reserved_levels grown t1]; lia..| |done].
  intros i Hi. apply next_base_ok; cbn [levels grown t1] in *; lia.
Qed.

Lemma rehash_step t tab0 tab m p :
  path_ok t -> levels t < 30 -> table t !! m = Some p ->
  length tab = Z.to_nat (total_capacity (grown t tab0)) ->
  moved (seeds t) (levels t) (reserved_levels t) (table t) m tab ->
  exists tab', rehash (grown t tab0) tab p = Some tab' /\ length tab' = length tab
    /\ moved (seeds t) (levels t) (reserved_levels t) (table t) (S m) tab'
    /\ used tab' ≡ₚ if is_free p then used tab else p :: used tab.
Proof.
  intros Hok Hlt Hp Hlen Hm. destruct (is_free p) eqn:Hf.
  { unfold rehash. rewrite Hf. exists tab. split_and!; [done|done|by apply moved_skip|done]. }
  apply is_free_false in Hf. pose proof (pk_levels t Hok) as Hlev. pose proof (pk_reserved t Hok) as Hres.
  rewrite rehash_paths by done.
  pose proof (pk_placed t Hok m p Hp Hf) as (i & b & Hi & Hmi)%elem_of_paths; [|lia].
  destruct (paths_split (seeds t) (levels t + 1) (reserved_levels t) i b (pkey p) Hi) as (pre & post & -> & Hpre).
  assert (forall j c, 0 <= j -> turn j c <= turn i b ->
    (on_path (seeds t) (levels t + 1) j c (pkey p) < length tab)%nat) as Hrange.
  { intros j c Hj Ht. rewrite Hlen. apply on_path_range; [lia| |lia].
    unfold turn in Ht. destruct b, c; cbn [Z.b2z] in Ht; lia. }
  destruct (lookup_lt_is_Some_2 tab (on_path (seeds t) (levels t + 1) i b (pkey p))) as [q Hq];
    [apply Hrange; lia|].
  destruct (probe_stops pre (on_path (seeds t) (levels t + 1) i b (pkey p)) post is_free tab q) as (z & Hprobe & Hz).
  { apply Forall_forall. intros y Hy. destruct (Hpre y Hy) as (j & c & ? & -> & ?). by apply Hrange. }
  { exact Hq. }
  { by apply (own_cell_free (seeds t) (levels t) (reserved_levels t) (table t) ltac:(lia) ltac:(lia) m tab p i b). }
  rewrite Hprobe. cbn [mbind option_bind].
  apply probe_found_lookup in Hprobe as (_ & u & Hu & Hfree).
  rewrite store_Some by (by eapply lookup_lt_Some). eexists. split_and!; [done|by rewrite length_insert| |].
  - apply (moved_store _ _ _ _ m tab p i b); try done.
    apply elem_of_app in Hz as [Hz|Hz]; [by apply Hpre|]. apply list_elem_of_singleton in Hz as ->.
    exists i, b. split_and!; [lia|done|lia].
  - apply is_free_true in Hfree. by apply (used_insert _ _ u).
Qed.

Lemma new_nodes_used n : used (new_nodes n) = [].
Proof.
  unfold new_nodes. induction (Z.to_nat n) as [|m IH]; [done|]. cbn [replicate]. by rewrite used_cons.
Qed.

Lemma new_nodes_free n y p : new_nodes n !! y = Some p -> pkey p = INVALID.
Proof. unfold new_nodes. intros [-> _]%lookup_replicate. done. Qed.

(** [resize] returns on every table of less than 30 levels, and the new table holds the same pairs. *)
Lemma path_resize_ok t :
  path_ok t -> levels t < 30 ->
  exists t', resize t = Some t' /\ path_ok t' /\ used (table t') ≡ₚ used (table t) /\ levels t' = levels t + 1.
Proof.
  intros Hok Hlt. pose proof (pk_levels t Hok) as Hlev. pose proof (pk_reserved t Hok) as Hres.
  destruct (pk_locks t Hok) as [Hls _]. unfold resize.
  pose proof (pow_bounds (levels t + 1) 30). pose proof (pow_bounds (levels t) 30).
  pose proof (pow_bounds (levels t + 1 - reserved_levels t) (levels t + 1) ltac:(lia)).
  rewrite (wrap_small 32 (levels t + 1)) by lia. rewrite !(wrap_small 32) by lia.
  rewrite !pow2_ok by lia. cbn [mbind option_bind].
  replace (levels t + 1 - 1) with (levels t) by lia. rewrite !to_uint32_ok by lia. cbn [mbind option_bind].
  set (total := 2 ^ (levels t + 1) - 2 ^ (levels t + 1 - reserved_levels t)).
  assert (s32 (u32 (total / 256 + 1)) = total / 256 + 1) as Hnl.
  { assert (0 <= total / 256) by (apply Z.div_pos; lia).
    assert (total / 256 < 2 ^ 30) by (apply Z.div_lt_upper_bound; lia).
    rewrite wrap_small by lia. apply s32_small. lia. }
  rewrite Hls, Hnl. cbn [table nlocks].
  change (MkPath _ _ _ _ _ _ _ _ _ (new_nodes total)) with (grown t (new_nodes total)).
  destruct (foldM_array (fun m tab => length tab = Z.to_nat total
      /\ moved (seeds t) (levels t) (reserved_levels t) (table t) m tab /\ used tab ≡ₚ used (take m (table t)))
    (rehash (grown t (new_nodes total))) (table t) (new_nodes total)) as (tab & -> & Hl & Hm & Hu).
  { split_and!; [apply length_replicate| |by rewrite new_nodes_used].
    intros y p Hp Hk. by apply new_nodes_free in Hp. }
  { intros m p tab Hp (Hl & Hm & Hu).
    destruct (rehash_step t (new_nodes total) tab m p Hok Hlt Hp Hl Hm) as (tab' & -> & Hl' & Hm' & Hu').
    exists tab'. split_and!; [done|by rewrite Hl'|done|]. rewrite (used_take_S _ _ _ Hp), Hu'. by destruct (is_free p); rewrite Hu. }
  cbn [mbind option_bind]. rewrite firstn_all in Hu. eexists. split_and!; [done| |exact Hu|done].
  split; cbn [levels reserved_levels addr_capacity total_capacity locksize nlocks table];
    [lia|lia|f_equal; lia|done|done|exact Hl|]. by eapply (moved_placed (seeds t) (levels t) (reserved_levels t)).
Qed.

(** ** [Insert] and [Get] *)

Lemma put_at_ok t i q p :
  path_ok t -> table t !! i = Some q -> is_free q = true -> pkey p <> INVALID ->
  i ∈ paths (seeds t) (levels t) (reserved_levels t) (pkey p) ->
  exists t', put_at t i p = Some t' /\ path_ok t' /\ used (table t') ≡ₚ p :: used (table t) /\ levels t' = levels t.
Proof.
  intros Hok Hq Hfree Hk Hi. unfold put_at. rewrite store_Some by (by eapply lookup_lt_Some).
  cbn [mbind option_bind]. eexists. split_and!; [done| | |done].
  - destruct Hok. split; cbn [levels reserved_levels addr_capacity total_capacity locksize nlocks table];
      [done..|by rewrite length_insert|].
    intros y p' Hp' Hk'. apply list_lookup_insert_Some in Hp' as [(<- & <- & _)|[_ Hp']]; [done|by apply pk_placed0].
  - cbn [table]. apply (used_insert _ _ q); [done|by apply is_free_true|done].
Qed.

(** One round: the pair goes into the first free cell, or every cell of the two paths is taken. *)
Lemma find_cell_ok lk t k v :
  path_ok t -> k <> INVALID ->
  (forall y, 0 <= y < 2 ^ levels t - 2 ^ (levels t - reserved_levels t) -> lk y = Some tt) ->
  exists r, find_cell lk t k = Some r /\
    match r with
    | Some i => exists t', put_at t i (MkPair k v) = Some t' /\ path_ok t'
                  /\ used (table t') ≡ₚ MkPair k v :: used (table t) /\ levels t' = levels t
    | None => Forall (passed is_free (table t)) (paths (seeds t) (levels t) (reserved_levels t) k)
    end.
Proof.
  intros Hok Hk Hlk. rewrite find_cell_paths by done.
  destruct (probe_total _ is_free (table t) (paths_range t k Hok)) as [r Hr]. exists r. split; [done|].
  destruct r as [i|]; [|by apply probe_exhausted].
  apply probe_found_lookup in Hr as (Hi & q & Hq & Hf). by apply (put_at_ok t i q).
Qed.

Lemma Insert_path_ok fuel t k v t' :
  path_ok t -> k <> INVALID -> levels t + Z.of_nat fuel <= 31 -> Insert fuel t k v = Some t' ->
  path_ok t' /\ used (table t') ≡ₚ MkPair k v :: used (table t) /\ levels t <= levels t'.
Proof.
  revert t. induction fuel as [|fuel IH]; intros t Hok Hk Hfuel Hi; [done|]. cbn [Insert] in Hi.
  destruct (find_cell_ok (lock t) t k v Hok Hk) as (r & Hr & Hcase).
  { intros y. by apply lock_path_ok. }
  rewrite Hr in Hi. cbn [mbind option_bind] in Hi. destruct r as [i|].
  - destruct Hcase as (t1 & Ht1 & Hok1 & Hu & Hl). assert (t1 = t') as -> by congruence.
    split_and!; [done|done|lia].
  - destruct fuel as [|fuel]; [by inv_bind Hi t1 E1|].
    destruct (path_resize_ok t Hok ltac:(lia)) as (t1 & Ht1 & Hok1 & Hu1 & Hl1).
    rewrite Ht1 in Hi. cbn [mbind option_bind] in Hi.
    destruct (IH t1 Hok1 Hk ltac:(lia) Hi) as (Hok' & Hu & Hl). split_and!; [done|by rewrite Hu, Hu1|lia].
Qed.

Lemma Get_path_ok t k :
  path_ok t -> k <> INVALID -> exists v, Get t k = Some v /\
    (MkPair k v ∈ used (table t) \/ (v = NONE /\ forall p, p ∈ used (table t) -> pkey p <> k)).
Proof.
  intros Hok Hk. unfold Get. pose proof (pk_levels t Hok) as Hlev. pose proof (pk_reserved t Hok) as Hres.
  destruct (leaves_ok t k ltac:(lia) (pk_addr t Hok)) as [-> ->]. cbn [mbind option_bind].
  rewrite (walk_up_paths 64); [|lia..| |].
  2: { intros i Hi. apply next_base_Get_ok; lia. }
  2: { intros y Hy. by apply lock_path_ok. }
  destruct (probe_total _ (has_key k) (table t) (paths_range t k Hok)) as [r Hr]. rewrite Hr. cbn [mbind option_bind].
  destruct r as [i|].
  - apply probe_found_lookup in Hr as (_ & p & Hp & Hpk%has_key_true). rewrite Hp. cbn [mbind option_bind].
    eexists. split; [done|]. left. subst k. rewrite elem_of_used. split; [done|].
    apply list_elem_of_lookup. exists i. by destruct p.
  - eexists. split; [done|]. right. split; [done|]. intros p [Hpi [i Hi]%list_elem_of_lookup]%elem_of_used Hpk.
    apply probe_exhausted in Hr. rewrite Forall_forall in Hr. subst k.
    destruct (Hr i (pk_placed t Hok i p Hi Hk)) as (p' & Hp' & Hf). assert (p' = p) as -> by congruence.
    by apply has_key_false in Hf.
Qed.

(** ** The table as a finite map *)

Definition contents (t : PathHashing) : gmap Z Z :=
  list_to_map ((fun p => (pkey p, pvalue p)) <$> used (table t)).

Definition path_inv (t : PathHashing) : Prop := path_ok t /\ NoDup (pkey <$> used (table t)).

Lemma pair_keys (l : list Pair) : ((fun p => (pkey p, pvalue p)) <$> l).*1 = pkey <$> l.
Proof. induction l as [|p l IH]; [done|]. cbn. by rewrite <- IH. Qed.

Lemma contents_Some t k v :
  NoDup (pkey <$> used (table t)) -> contents t !! k = Some v <-> MkPair k v ∈ used (table t).
Proof.
  intros Hnd. unfold contents. rewrite <- elem_of_list_to_map by (by rewrite pair_keys).
  rewrite list_elem_of_fmap. split.
  - by intros ([k' v'] & [= -> ->] & Hp).
  - intros Hp. by exists (MkPair k v).
Qed.

Lemma contents_perm t t' :
  NoDup (pkey <$> used (table t)) -> used (table t') ≡ₚ used (table t) -> contents t' = contents t.
Proof.
  intros Hnd Hp. unfold contents. apply list_to_map_proper; [|by rewrite Hp].
  by rewrite pair_keys, Hp.
Qed.

Lemma Get_contents t k : path_inv t -> k <> INVALID -> Get t k = Some (default NONE (contents t !! k)).
Proof.
  intros [Hok Hnd] Hk. destruct (Get_path_ok t k Hok Hk) as (v & -> & [Hin|[-> Hno]]).
  - apply contents_Some in Hin as ->; done.
  - destruct (contents t !! k) as [v|] eqn:Hv; [|done].
    apply contents_Some in Hv; [|done]. by destruct (Hno _ Hv).
Qed.

(** Storing a pair of a new key. *)
Lemma contents_add t t' k v :
  path_inv t -> path_ok t' -> contents t !! k = None -> used (table t') ≡ₚ MkPair k v :: used (table t) ->
  path_inv t' /\ contents t' = <[k := v]> (contents t).
Proof.
  intros [Hok Hnd] Hok' Hnew Hp.
  assert (NoDup (pkey <$> MkPair k v :: used (table t))) as Hnd1.
  { cbn. constructor; [|done]. intros ([k' v'] & -> & Hin)%list_elem_of_fmap. cbn [pkey] in Hnew.
    apply contents_Some in Hin; [|done]. congruence. }
  split; [split; [done|by rewrite Hp]|]. unfold contents.
  transitivity (list_to_map (M := gmap Z Z) ((fun p => (pkey p, pvalue p)) <$> MkPair k v :: used (table t))); [|done].
  apply list_to_map_proper; [by rewrite pair_keys, Hp|by rewrite Hp].
Qed.

Lemma path_new_table_ok lev res f s :
  2 <= lev <= 30 -> 1 <= res <= lev ->
  exists t, new_table lev res f s = Some t /\ path_inv t /\ contents t = ∅ /\ levels t = lev.
Proof.
  intros Hlev Hres. unfold new_table.
  pose proof (pow_bounds lev 30 ltac:(lia)). pose proof (pow_bounds (lev - 1) 30 ltac:(lia)).
  pose proof (pow_bounds (lev - res) lev ltac:(lia)).
  rewrite !(wrap_small 32 lev), !(wrap_small 32 res), !(wrap_small 32 (lev - _)) by lia.
  rewrite !pow2_ok by lia. cbn [mbind option_bind]. rewrite !to_uint32_ok by lia. cbn [mbind option_bind].
  set (total := 2 ^ lev - 2 ^ (lev - res)). rewrite (wrap_small 32 total) by lia.
  assert (0 <= total / 256) by (apply Z.div_pos; lia).
  assert (total / 256 < 2 ^ 30) by (apply Z.div_lt_upper_bound; lia).
  rewrite (wrap_small 32) by lia. rewrite s32_small by lia.
  eexists. split_and!; [done| | |done].
  - split; [|cbn [table]; rewrite new_nodes_used; constructor].
    split; cbn [levels reserved_levels addr_capacity total_capacity locksize nlocks table]; try done.
    + apply length_replicate.
    + intros y p Hp Hk. by apply new_nodes_free in Hp.
  - unfold contents. cbn [table]. by rewrite new_nodes_used.
Qed.

(** C11: [resize] returns on every well-formed table of less than 30 levels and keeps all its pairs:
    the cell at the same level and in the same half of the wider tree is free when a pair is
    moved, although the result of the search is never looked at.  No answer changes. *)
Theorem path_resize_keeps t :
  path_inv t -> levels t < 30 ->
  exists t', resize t = Some t' /\ path_inv t' /\ levels t' = levels t + 1 /\ contents t' = contents t
    /\ forall k, k <> INVALID -> Get t' k = Get t k.
Proof.
  intros [Hok Hnd] Hlt. destruct (path_resize_ok t Hok Hlt) as (t' & -> & Hok' & Hp & Hl).
  assert (path_inv t') as Hinv by (split; [done|by rewrite Hp]).
  pose proof (contents_perm t t' Hnd Hp) as Hc. exists t'. split_and!; try done.
  intros k Hk. by rewrite !Get_contents, Hc.
Qed.

(** C13: [Insert] of a new key, through any number of resizes, adds the key to the map the table stands
    for; the pair goes in without a resize when a cell of the two paths is free; and [Get] answers
    from that map. *)
Theorem path_insert_refines t k v :
  path_inv t -> k <> INVALID -> contents t !! k = None ->
  (forall fuel t', levels t + Z.of_nat fuel <= 31 -> Insert fuel t k v = Some t' ->
     path_inv t' /\ contents t' = <[k := v]> (contents t)
     /\ forall k', k' <> INVALID -> Get t' k' = Some (default NONE (contents t' !! k')))
  /\ ((exists y p, y ∈ paths (seeds t) (levels t) (reserved_levels t) k /\ table t !! y = Some p /\ is_free p = true) ->
      exists t', Insert 1 t k v = Some t' /\ levels t' = levels t).
Proof.
  intros Hinv Hk Hnew. split.
  - intros fuel t' Hfuel Hi. destruct (Insert_path_ok fuel t k v t' (proj1 Hinv) Hk Hfuel Hi) as (Hok & Hp & _).
    destruct (contents_add t t' k v Hinv Hok Hnew Hp) as [Hinv' Hc]. split_and!; [done|done|].
    intros k' Hk'. by apply Get_contents.
  - intros (y & p & Hy & Hp & Hf). cbn [Insert].
    destruct (find_cell_ok (lock t) t k v (proj1 Hinv) Hk) as (r & -> & Hcase).
    { intros z. apply lock_path_ok, Hinv. }
    cbn [mbind option_bind]. destruct r as [i|]; [|].
    + destruct Hcase as (t' & -> & _ & _ & Hl). by exists t'.
    + rewrite Forall_forall in Hcase. destruct (Hcase y Hy) as (q & Hq & Hqf). congruence.
Qed.

(** [InsertOnly] always returns; it answers false exactly when the two paths of the key are full. *)
Theorem path_InsertOnly_total t k v :
  path_inv t -> k <> INVALID -> contents t !! k = None ->
  exists t' b, InsertOnly t k v = Some (t', b) /\ path_inv t' /\
    if b then contents t' = <[k := v]> (contents t)
    else t' = t /\ Forall (passed is_free (table t)) (paths (seeds t) (levels t) (reserved_levels t) k).
Proof.
  intros Hinv Hk Hnew. unfold InsertOnly.
  destruct (find_cell_ok no_lock t k v (proj1 Hinv) Hk ltac:(done)) as (r & -> & Hcase). cbn [mbind option_bind].
  destruct r as [i|]; [|by exists t, false].
  destruct Hcase as (t' & -> & Hok & Hp & _). exists t', true. cbn [mbind option_bind].
  by destruct (contents_add t t' k v Hinv Hok Hnew Hp).
Qed.

End Proofs.

(** ** Runs *)

Section Examples.

(** A hash function with two independent halves, one for each seed. *)
#[local] Instance two_hash : StdHash :=
  fun bs seed => if seed =? 1 then le_word bs mod 2 ^ 16 else le_word bs / 2 ^ 16.

Definition blank : PathHashing := MkPath 3 2 4 6 0 1 2 1 256 (new_nodes 6).

Lemma blank_inv : new_table 3 2 1 2 = Some blank /\ path_inv blank /\ contents blank = ∅.
Proof.
  destruct (path_new_table_ok 3 2 1 2) as (t & Ht & Hinv & Hc & _); [lia..|].
  assert (new_table 3 2 1 2 = Some blank) as Hb by (vm_compute; reflexivity).
  assert (t = blank) as -> by congruence. done.
Qed.

(** Four keys that have both leaves in common. *)
Definition four : option PathHashing :=
  foldM (fun t k => Insert 1 t k (k + 1)) [0; 2; 4; 6] blank.

(** The paths of the four keys have four cells: the fifth insertion adds a level. *)
Example path_grows :
  (t ← four; Some (pkey <$> table t)) = Some [0; INVALID; 2; INVALID; 4; 6]
  /\ (t ← four; t ← Insert 3 t 8 9; Some (levels t)) = Some 4.
Proof. split; vm_compute; reflexivity. Qed.

(** [Insert] does not look for the key: the second value of a key is stored behind the first. *)
Example path_update_hidden :
  (t ← Insert 1 blank 5 6; t ← Insert 1 t 5 7; Get t 5) = Some 6.
Proof. vm_compute. reflexivity. Qed.

Lemma four_inv : exists t, four = Some t /\ path_inv t /\ levels t = 3 /\ contents t = {[0 := 1; 2 := 3; 4 := 5; 6 := 7]}.
Proof.
  destruct four as [t|] eqn:Hf; [|by vm_compute in Hf]. exists t. split; [done|].
  unfold four in Hf. cbn [foldM] in Hf. destruct blank_inv as (_ & Hinv & Hc).
  inv_bind Hf t1 E1. inv_bind Hf t2 E2. inv_bind Hf t3 E3. inv_bind Hf t4 E4. injection Hf as <-.
  assert (forall ta k tb, path_inv ta -> levels ta = 3 -> k <> INVALID -> contents ta !! k = None ->
    Insert 1 ta k (k + 1) = Some tb -> path_inv tb /\ levels tb = 3 /\ contents tb = <[k := k + 1]> (contents ta)) as Hs.
  { intros ta k tb Ha Hl Hk Hn Hi.
    assert (levels ta + Z.of_nat 1 <= 31) as Hfuel by lia.
    destruct (Insert_path_ok 1 ta k (k + 1) tb (proj1 Ha) Hk Hfuel Hi) as (Hok & Hp & _).
    destruct (contents_add ta tb k (k + 1) Ha Hok Hn Hp). split_and!; try done.
    cbn [Insert] in Hi. inv_bind Hi r Er. destruct r; [|by inv_bind Hi t5 E5].
    unfold put_at in Hi. inv_bind Hi tab Et. by injection Hi as <-. }
  apply Hs in E1 as (Hi1 & Hl1 & Hc1); [|done..|by rewrite Hc].
  apply Hs in E2 as (Hi2 & Hl2 & Hc2); [|done..|by rewrite Hc1, Hc].
  apply Hs in E3 as (Hi3 & Hl3 & Hc3); [|done..|by rewrite Hc2, Hc1, Hc].
  apply Hs in E4 as (Hi4 & Hl4 & Hc4); [|done..|by rewrite Hc3, Hc2, Hc1, Hc].
  split_and!; [done..|]. rewrite Hc4, Hc3, Hc2, Hc1, Hc. vm_compute. reflexivity.
Qed.

Lemma path_resize_keeps_witness :
  exists t t', four = Some t /\ resize t = Some t' /\ Get t' 6 = Get t 6 /\ contents t' !! 4 = Some 5.
Proof.
  destruct four_inv as (t & Hf & Hinv & Hl & Hc).
  destruct (path_resize_keeps t Hinv ltac:(lia)) as (t' & Hr & _ & _ & Hc' & Hg).
  exists t, t'. split_and!; [done|done|by apply Hg|by rewrite Hc', Hc].
Defined.

Lemma path_InsertOnly_total_witness :
  exists t, InsertOnly blank 5 6 = Some (t, true) /\ contents t !! 5 = Some 6.
Proof.
  destruct blank_inv as (_ & Hinv & Hc).
  destruct (path_InsertOnly_total blank 5 6 Hinv ltac:(done) ltac:(by rewrite Hc)) as (t & b & Hi & _ & Hb).
  destruct b; [|by vm_compute in Hi]. exists t. split; [done|]. by rewrite Hb, lookup_insert_eq.
Defined.

Lemma path_insert_refines_witness :
  exists t t', four = Some t /\ Insert 3 t 8 9 = Some t' /\ Get t' 8 = Some 9 /\ Get t' 2 = Some 3.
Proof.
  destruct four_inv as (t & Hf & Hinv & Hl & Hc).
  assert (is_Some (t0 ← four; Insert 3 t0 8 9)) as [t' Hi] by (vm_compute; eauto).
  rewrite Hf in Hi. cbn [mbind option_bind] in Hi.
  exists t, t'. destruct (proj1 (path_insert_refines t 8 9 Hinv ltac:(done) ltac:(by rewrite Hc)) 3%nat t') as (_ & Hc' & Hg);
    [lia|done|]. split_and!; [done|done|by rewrite Hg, Hc', Hc by done..].
Defined.

End Examples.
