(* ===== verification/ExtendibleHash.v ===== *)
(** * Extendible hashing (server/src/extendible_hash.cpp, extendible_hash.h)

    A directory of [2^global_depth] pointers to blocks of 16384 slots, chosen
    by the low bits of the hash.  A block knows how many of the bits its pairs
    share, [local_depth], and which, [pattern]; a full block is split on the
    next bit, and the directory doubled when it has no more bits than the block.

    The build with LSB, which the header defines, and without INPLACE, under
    one thread: the lock of the directory is free.  A pointer is an index into
    the list [blocks]; the blocks that were split stay in it. *)

From S2P Require Import Prelude PairDefs HashFun.

Definition kBlockSize : Z := 256 * 1024.
Definition kNumSlot : nat := Z.to_nat (kBlockSize / 16).

Record Block : Type := MkBlock { slots : list Pair; local_depth : Z; sema : Z; pattern : Z }.

(** [dir._], whose length is [dir.capacity]. *)
Record ExtendibleHash : Type := MkEH { global_depth : Z; dir : list nat; blocks : list Block }.

Definition new_Block (junk : nat -> Value_t) (depth : Z) : Block := MkBlock (new_Pairs junk kNumSlot) depth 0 0.
Definition set_pattern (b : Block) (pat : Z) : Block := MkBlock (slots b) (local_depth b) (sema b) pat.

(** [dir{initCap}], and [log2] of zero is no integer. *)
Definition new_table (junk : nat -> Value_t) (initCap : Z) : option ExtendibleHash :=
  if initCap =? 0 then None
  else
    let d := Z.log2 initCap in
    let n := Z.to_nat initCap in
    Some (MkEH d (seq 0 n) ((fun i => set_pattern (new_Block junk d) (Z.of_nat i)) <$> seq 0 n)).

(** [LSBUpdate] on the entries; [fuel] bounds the recursion and [s0] and [s1] are the new blocks. *)
Fixpoint LSBUpdate (fuel : nat) (e : list nat) (local_depth global_depth dir_cap x : Z) (s0 s1 : nat)
  : option (list nat) :=
  match fuel with
  | O => None
  | S fuel =>
      let depth_diff := global_depth - local_depth in
      _ ← urem x dir_cap;
      if depth_diff =? 0 then
        if dir_cap / 2 <=? x mod dir_cap then
          e ← store e (Z.to_nat (x - dir_cap / 2)) s0;
          store e (Z.to_nat x) s1
        else
          e ← store e (Z.to_nat x) s0;
          store e (Z.to_nat (x + dir_cap / 2)) s1
      else
        if dir_cap / 2 <=? x mod dir_cap then
          e ← LSBUpdate fuel e (local_depth + 1) global_depth (dir_cap / 2) (x - dir_cap / 2) s0 s1;
          LSBUpdate fuel e (local_depth + 1) global_depth (dir_cap / 2) x s0 s1
        else
          e ← LSBUpdate fuel e (local_depth + 1) global_depth (dir_cap / 2) x s0 s1;
          LSBUpdate fuel e (local_depth + 1) global_depth (dir_cap / 2) (x + dir_cap / 2) s0 s1
  end.

Section Operations.
Context `{StdHash}.

(** [Block::Insert]: the slot, -1 when the block is full, -2 when it is not for this hash. *)
Definition Block_Insert (b : Block) (key : Key_t) (value : Value_t) (key_hash : Z) : option (Block * Z) :=
  if sema b =? -1 then Some (b, -2)
  else if negb (Z.land key_hash (2 ^ local_depth b - 1) =? pattern b) then Some (b, -2)
  else
    r ← probe (seq 0 kNumSlot) is_free (slots b);
    match r with
    | Some i => s ← store (slots b) i (MkPair key value); Some (MkBlock s (local_depth b) (sema b) (pattern b), Z.of_nat i)
    | None => Some (b, -1)
    end.

Definition Insert4split (s : list Pair) (key : Key_t) (value : Value_t) : option (list Pair) :=
  r ← probe (seq 0 kNumSlot) is_free s;
  match r with
  | Some i => store s i (MkPair key value)
  | None => Some s
  end.

Definition split_step (mask : Z) (halves : list Pair * list Pair) (p : Pair) : option (list Pair * list Pair) :=
  let key_hash := h (pkey p) h_seed in
  if Z.land key_hash mask =? 0 then s ← Insert4split halves.1 (pkey p) (pvalue p); Some (s, halves.2)
  else s ← Insert4split halves.2 (pkey p) (pvalue p); Some (halves.1, s).

(** [Split]: the block, locked for ever, and the two new ones; or a null pointer. *)
Definition Split (junk : nat -> Value_t) (b : Block) : option (Block * option (Block * Block)) :=
  if negb (sema b =? 0) then Some (b, None)
  else
    mask ← (if (0 <=? local_depth b) && (local_depth b <? 64) then Some (2 ^ local_depth b) else None);
    '(x, y) ← foldM (split_step mask) (slots b) (slots (new_Block junk 0), slots (new_Block junk 0));
    Some (MkBlock (slots b) (local_depth b) (-1) (pattern b),
          Some (MkBlock x (local_depth b + 1) 0 0, MkBlock y (local_depth b + 1) 0 0)).

(** [1 << n] as an [int]. *)
Definition int_shl1 (n : Z) : option Z := if (0 <=? n) && (n <? 31) then Some (2 ^ n) else None.

(** The critical section: the new directory.  The capacity is passed as an [int]. *)
Definition update_dir (t : ExtendibleHash) (key_hash : Z) (s0_depth : Z) (s0 s1 : nat) : option ExtendibleHash :=
  let capacity := Z.of_nat (length (dir t)) in
  x ← urem key_hash capacity;
  id ← dir t !! Z.to_nat x;
  b ← blocks t !! id;
  if local_depth b <? global_depth t then
    _ ← (if capacity <? 2 ^ 31 then Some tt else None);
    e ← LSBUpdate (S (Z.to_nat (global_depth t - s0_depth))) (dir t) s0_depth (global_depth t) capacity x s0 s1;
    Some (MkEH (global_depth t) e (blocks t))
  else
    let _dir := dir t ++ dir t in
    _dir ← store _dir (Z.to_nat x) s0;
    _dir ← store _dir (Z.to_nat (x + capacity)) s1;
    Some (MkEH (global_depth t + 1) _dir (blocks t)).

(** The rounds of [Insert]: a retry, or the call of itself after -2. *)
Fixpoint Insert (fuel : nat) (junk : nat -> Value_t) (t : ExtendibleHash) (key : Key_t) (value : Value_t)
  : option ExtendibleHash :=
  match fuel with
  | O => None
  | S fuel =>
      let key_hash := h key h_seed in
      x ← urem key_hash (Z.of_nat (length (dir t)));
      id ← dir t !! Z.to_nat x;
      target ← blocks t !! id;
      '(target, ret) ← Block_Insert target key value key_hash;
      bs ← store (blocks t) id target;
      if ret =? -1 then
        '(target, s) ← Split junk target;
        bs ← store bs id target;
        match s with
        | None => Insert fuel junk (MkEH (global_depth t) (dir t) bs) key value
        | Some (a, b) =>
            let pat := key_hash mod 2 ^ (local_depth a - 1) in
            bit ← int_shl1 (local_depth a - 1);
            let n := length bs in
            let bs := bs ++ [set_pattern a pat; set_pattern b (pat + bit)] in
            t ← update_dir (MkEH (global_depth t) (dir t) bs) key_hash (local_depth a) n (S n);
            Insert fuel junk t key value
        end
      else if ret =? -2 then Insert fuel junk (MkEH (global_depth t) (dir t) bs) key value
      else Some (MkEH (global_depth t) (dir t) bs)
  end.

Definition InsertOnly (t : ExtendibleHash) (key : Key_t) (value : Value_t) : option (ExtendibleHash * bool) :=
  let key_hash := h key h_seed in
  x ← urem key_hash (Z.of_nat (length (dir t)));
  id ← dir t !! Z.to_nat x;
  target ← blocks t !! id;
  '(target, ret) ← Block_Insert target key value key_hash;
  bs ← store (blocks t) id target;
  Some (MkEH (global_depth t) (dir t) bs, -1 <? ret).

Definition Delete (t : ExtendibleHash) (key : Key_t) : option (ExtendibleHash * bool) := Some (t, false).

Definition Get (t : ExtendibleHash) (key : Key_t) : option Value_t :=
  x ← urem (h key h_seed) (Z.of_nat (length (dir t)));
  id ← dir t !! Z.to_nat x;
  dir_ ← blocks t !! id;
  r ← probe (seq 0 kNumSlot) (has_key key) (slots dir_);
  match r with
  | Some i => p ← slots dir_ !! i; Some (pvalue p)
  | None => Some NONE
  end.

(** [FindAnyway] of the source file: the first block of the directory with the key. *)
Fixpoint find_anyway (bs : list Block) (e : list nat) (key : Key_t) : option Value_t :=
  match e with
  | [] => Some NONE
  | id :: e =>
      b ← bs !! id;
      r ← probe (seq 0 kNumSlot) (has_key key) (slots b);
      match r with
      | Some i => p ← slots b !! i; Some (pvalue p)
      | None => find_anyway bs e key
      end
  end.
Definition FindAnyway (t : ExtendibleHash) (key : Key_t) : option Value_t := find_anyway (blocks t) (dir t) key.

End Operations.

Definition numElem (b : Block) : Z := Z.of_nat (length (used (slots b))).
Definition Capacity (t : ExtendibleHash) : Z := Z.of_nat (length (remove_dups (dir t))) * Z.of_nat kNumSlot.
(** The counts [sum] and [set.size() * kNumSlot] of [Utilization]. *)
Definition Utilization_counts (t : ExtendibleHash) : option (Z * Z) :=
  sum ← foldM (fun sum id => b ← blocks t !! id; Some (sum + numElem b)) (remove_dups (dir t)) 0;
  Some (sum, Capacity t).

#[local] Opaque h kNumSlot.

(** ** Low bits *)

(** One more low bit. *)
Lemma mod_bit z d : 0 <= d -> z mod 2 ^ (d + 1) = z mod 2 ^ d + Z.b2z (Z.testbit z d) * 2 ^ d.
Proof.
  intros Hd. pose proof (pow_pos d Hd). rewrite Z.testbit_spec' by done. rewrite Z.pow_add_r by lia.
  change (2 ^ 1) with 2. rewrite Z.rem_mul_r by lia. lia.
Qed.

Lemma div_bit z d : 0 <= d -> z / 2 ^ d = 2 * (z / 2 ^ (d + 1)) + Z.b2z (Z.testbit z d).
Proof.
  intros Hd. pose proof (pow_pos d Hd). rewrite Z.testbit_spec' by done.
  rewrite Z.pow_add_r, <- Z.div_div by lia. apply (Z.div_mod (z / 2 ^ d) 2). lia.
Qed.

Lemma mod_shift z m d a : 0 <= d <= a -> (z + m * 2 ^ a) mod 2 ^ d = z mod 2 ^ d.
Proof. intros Hd. rewrite (pow_split a d) by lia. rewrite Z.mul_assoc. apply Z.mod_add. pose proof (pow_pos d). lia. Qed.

(** Fewer of the same low bits. *)
Lemma mod_fewer y z d a : 0 <= d <= a -> y mod 2 ^ a = z mod 2 ^ a -> y mod 2 ^ d = z mod 2 ^ d.
Proof.
  intros Hd Heq. pose proof (pow_pos a ltac:(lia)). rewrite (Z.div_mod y (2 ^ a)), (Z.div_mod z (2 ^ a)) by lia.
  rewrite Heq, !(Z.add_comm (2 ^ a * _)), !(Z.mul_comm (2 ^ a)), !mod_shift by lia. done.
Qed.

(** A number by its bits above [d], the bit [d], and those below. *)
Lemma bit_parts y d : 0 <= d -> y = y / 2 ^ (d + 1) * 2 ^ (d + 1) + Z.b2z (Z.testbit y d) * 2 ^ d + y mod 2 ^ d.
Proof.
  intros Hd. pose proof (pow_pos (d + 1) ltac:(lia)). pose proof (Z.div_mod y (2 ^ (d + 1)) ltac:(lia)) as Hy.
  rewrite mod_bit in Hy by done. lia.
Qed.

(** [x] with bit [d] cleared. *)
Definition lower (x d : Z) : Z := x / 2 ^ (d + 1) * 2 ^ (d + 1) + x mod 2 ^ d.

Lemma lower_cases x d :
  0 <= d ->
  (2 ^ d <= x mod 2 ^ (d + 1) /\ x - 2 ^ d = lower x d /\ Z.testbit x d = true)
  \/ (x mod 2 ^ (d + 1) < 2 ^ d /\ x = lower x d /\ Z.testbit x d = false).
Proof.
  intros Hd. pose proof (bit_parts x d Hd) as Hx. pose proof (mod_bit x d Hd) as Hm.
  pose proof (Z.mod_pos_bound x (2 ^ d) (pow_pos d Hd)). unfold lower.
  destruct (Z.testbit x d); cbn [Z.b2z] in *; [left|right]; (split; [lia|split; [lia|done]]).
Qed.

(** Division and remainder of the numbers that differ from [x] in the bit [d] only. *)
Lemma lower_parts x d (b : bool) :
  0 <= x -> 0 <= d -> let y := lower x d + Z.b2z b * 2 ^ d in
  0 <= y /\ y / 2 ^ d = 2 * (x / 2 ^ (d + 1)) + Z.b2z b /\ y / 2 ^ (d + 1) = x / 2 ^ (d + 1)
  /\ y mod 2 ^ d = x mod 2 ^ d /\ Z.testbit y d = b.
Proof.
  intros Hx Hd y. pose proof (pow_pos d Hd) as Hp. pose proof (Z.mod_pos_bound x (2 ^ d) Hp) as Hm.
  assert (2 ^ (d + 1) = 2 * 2 ^ d) as Hp1 by (rewrite Z.pow_add_r by lia; lia).
  assert (0 <= x / 2 ^ (d + 1)) as Hq by (apply Z.div_pos; lia).
  assert (y = (2 * (x / 2 ^ (d + 1)) + Z.b2z b) * 2 ^ d + x mod 2 ^ d) as Hy by (unfold y, lower; rewrite Hp1; lia).
  assert (y / 2 ^ d = 2 * (x / 2 ^ (d + 1)) + Z.b2z b) as Hdiv.
  { symmetry. apply (Z.div_unique y (2 ^ d) _ (x mod 2 ^ d)); lia. }
  pose proof (div_bit y d Hd) as Hb. rewrite Hdiv in Hb. split_and!; [destruct b; cbn [Z.b2z] in *; nia|done| | |].
  - destruct b, (Z.testbit y d); cbn [Z.b2z] in *; lia.
  - symmetry. apply (Z.mod_unique y (2 ^ d) (2 * (x / 2 ^ (d + 1)) + Z.b2z b)); lia.
  - destruct b, (Z.testbit y d); cbn [Z.b2z] in *; (done || lia).
Qed.

(** ** The update of the directory *)

(** Both branches of a call treat the half with the bit clear first. *)
Lemma LSBUpdate_step n e gd d x s0 s1 :
  0 <= d ->
  let lo := lower x d in
  LSBUpdate (S n) e (gd - Z.of_nat n) gd (2 ^ (d + 1)) x s0 s1 =
  match n with
  | O => e ← store e (Z.to_nat lo) s0; store e (Z.to_nat (lo + 2 ^ d)) s1
  | S m => e ← LSBUpdate n e (gd - Z.of_nat m) gd (2 ^ d) lo s0 s1;
           LSBUpdate n e (gd - Z.of_nat m) gd (2 ^ d) (lo + 2 ^ d) s0 s1
  end.
Proof.
  intros Hd lo. pose proof (pow_pos (d + 1) ltac:(lia)). cbn [LSBUpdate]. rewrite urem_pos by done. cbn [mbind option_bind].
  assert (2 ^ (d + 1) / 2 = 2 ^ d) as -> by (rewrite Z.pow_add_r by lia; apply Z.div_mul; lia).
  replace (gd - (gd - Z.of_nat n) =? 0) with (match n with O => true | S _ => false end) by (destruct n; symmetry; [apply Z.eqb_eq|apply Z.eqb_neq]; lia).
  destruct (lower_cases x d Hd) as [(Hge & Hlo & _)|(Hlt & Hlo & _)].
  - rewrite (proj2 (Z.leb_le _ _)), Hlo by done. fold lo. assert (lo + 2 ^ d = x) as -> by (unfold lo; lia).
    destruct n as [|m]; [done|]. by replace (gd - Z.of_nat (S m) + 1) with (gd - Z.of_nat m) by lia.
  - rewrite (proj2 (Z.leb_gt _ _)) by done. fold lo in Hlo. rewrite <- Hlo.
    destruct n as [|m]; [done|]. by replace (gd - Z.of_nat (S m) + 1) with (gd - Z.of_nat m) by lia.
Qed.

(** [LSBUpdate] sets exactly the entries that agree with [x] in the bits that the old block shared, to the
    first new block where the next bit is 0 and to the second where it is 1. *)
Lemma LSBUpdate_ok n e gd d x s0 s1 :
  0 <= x -> Z.of_nat n <= d -> (x / 2 ^ (d + 1) + 1) * 2 ^ (d + 1) <= Z.of_nat (length e) ->
  let b := d - Z.of_nat n in
  exists e', LSBUpdate (S n) e (gd - Z.of_nat n) gd (2 ^ (d + 1)) x s0 s1 = Some e' /\ length e' = length e
    /\ forall y, 0 <= y -> e' !! Z.to_nat y =
         if decide (y / 2 ^ (d + 1) = x / 2 ^ (d + 1) /\ y mod 2 ^ b = x mod 2 ^ b)
         then Some (if Z.testbit y b then s1 else s0) else e !! Z.to_nat y.
Proof.
  revert e d x. induction n as [|n IH]; intros e d x Hx Hd Hlen b; rewrite LSBUpdate_step by lia.
  all: pose proof (pow_pos d ltac:(lia)) as Hp; pose proof (pow_pos (d + 1) ltac:(lia)) as Hp1.
  all: assert (2 ^ (d + 1) = 2 * 2 ^ d) as Hdbl by (rewrite Z.pow_add_r by lia; lia).
  all: destruct (lower_parts x d false Hx ltac:(lia)) as (Hl0 & Hld & Hlq & Hlm & Hlb).
  all: destruct (lower_parts x d true Hx ltac:(lia)) as (Hh0 & Hhd & Hhq & Hhm & Hhb).
  all: cbn [Z.b2z] in *; rewrite Z.mul_0_l, Z.add_0_r in Hl0, Hld, Hlq, Hlm, Hlb; rewrite Z.mul_1_l in Hh0, Hhd, Hhq, Hhm, Hhb.
  all: set (lo := lower x d) in *; set (q := x / 2 ^ (d + 1)) in *.
  all: pose proof (Z.div_mod (lo + 2 ^ d) (2 ^ (d + 1)) ltac:(lia)) as Hhi; pose proof (Z.mod_pos_bound (lo + 2 ^ d) (2 ^ (d + 1)) Hp1).
  - assert (b = d) as -> by (unfold b; lia).
    rewrite store_Some by nia. cbn [mbind option_bind]. rewrite store_Some by (rewrite length_insert; nia).
    eexists. split; [done|]. split; [by rewrite !length_insert|]. intros y Hy. pose proof (bit_parts y d ltac:(lia)) as Hyp.
    case_decide as Hc.
    + destruct Hc as [Hyq Hym].
      assert (lo = q * 2 ^ (d + 1) + x mod 2 ^ d) as Hlo by done.
      destruct (Z.testbit y d); cbn [Z.b2z] in Hyp.
      * assert (y = lo + 2 ^ d) as -> by (rewrite Hyp, Hyq, Hym; lia). apply list_lookup_insert_eq. rewrite length_insert. nia.
      * assert (y = lo) as -> by (rewrite Hyp, Hyq, Hym; lia). rewrite list_lookup_insert_ne by lia. apply list_lookup_insert_eq. nia.
    + rewrite !list_lookup_insert_ne; [done| |]; intros Heq; apply Z2Nat.inj in Heq; try lia; subst y; apply Hc; by split.
  - assert (exists d', d = d' + 1) as [d' ->] by (exists (d - 1); lia).
    assert (d' - Z.of_nat n = b) as Hb by (unfold b; lia).
    destruct (IH e d' lo) as (e1 & He1 & Hl1 & Hy1); [done|lia|rewrite Hld; nia|]. rewrite He1. cbn [mbind option_bind].
    destruct (IH e1 d' (lo + 2 ^ (d' + 1))) as (e2 & He2 & Hl2 & Hy2); [done|lia|rewrite Hhd, Hl1; nia|]. rewrite He2.
    exists e2. split; [done|]. split; [congruence|]. intros y Hy. rewrite Hy2, Hy1 by done. rewrite Hb, Hhd, Hld.
    pose proof (div_bit y (d' + 1) ltac:(lia)) as Hyd.
    assert (lo mod 2 ^ b = x mod 2 ^ b) as Hlmb by (apply (mod_fewer _ _ b (d' + 1)); [lia|done]).
    assert ((lo + 2 ^ (d' + 1)) mod 2 ^ b = x mod 2 ^ b) as Hhmb by (apply (mod_fewer _ _ b (d' + 1)); [lia|done]).
    rewrite Hlmb, Hhmb. destruct (decide (y mod 2 ^ b = x mod 2 ^ b)) as [Hm|Hm].
    + destruct (Z.testbit y (d' + 1)); cbn [Z.b2z] in Hyd; repeat case_decide; (done || (exfalso; lia) || idtac); exfalso; intuition lia.
    + repeat case_decide; (done || (exfalso; tauto)).
Qed.

(** A step of the monad, as an equation. *)
Lemma bind_ret {X Y} (x : X) (f : X -> option Y) : (Some x ≫= f) = f x.
Proof. done. Qed.

(** ** Blocks *)

Section Tables.
Context `{StdHash}.

Definition hash (k : Key_t) : Z := h k h_seed.

Lemma eh_hash_bound k : 0 <= hash k < 2 ^ 64.
Proof. apply h_bound. Qed.

Record block_ok (b : Block) : Prop := {
  bo_length : length (slots b) = kNumSlot;
  bo_sema : sema b = 0;
  bo_hash : forall p, p ∈ used (slots b) -> hash (pkey p) mod 2 ^ local_depth b = pattern b;
}.

(** A scan over all slots finds a free one as long as there is one. *)
Lemma scan_free (s : list Pair) :
  length s = kNumSlot ->
  (exists i p, probe (seq 0 kNumSlot) is_free s = Some (Some i) /\ s !! i = Some p /\ pkey p = INVALID)
  \/ (probe (seq 0 kNumSlot) is_free s = Some None /\ length (used s) = kNumSlot).
Proof.
  intros Hl. destruct (probe_total (seq 0 kNumSlot) is_free s) as [[i|] Hr].
  { apply Forall_forall. intros i Hi%elem_of_seq. lia. }
  - left. destruct (probe_found_lookup _ _ _ _ Hr) as (_ & p & Hp & Hf). exists i, p. split_and!; [done|done|by apply is_free_true].
  - right. split; [done|]. rewrite <- Hl. apply probe_exhausted in Hr. unfold used. rewrite filter_all; [done|].
    apply Forall_forall. intros p [i Hi]%list_elem_of_lookup. rewrite Forall_forall in Hr.
    destruct (Hr i) as (q & Hq & Hf); [apply elem_of_seq; apply lookup_lt_Some in Hi; lia|]. rewrite Hi in Hq. injection Hq as <-.
    by apply is_free_false.
Qed.

Lemma Insert4split_fits s p :
  length s = kNumSlot -> (pkey p <> INVALID -> (length (used s) < kNumSlot)%nat) ->
  exists s', Insert4split s (pkey p) (pvalue p) = Some s' /\ length s' = kNumSlot
    /\ used s' ≡ₚ if is_free p then used s else p :: used s.
Proof.
  intros Hl Hroom. unfold Insert4split. replace (MkPair (pkey p) (pvalue p)) with p by (by destruct p).
  destruct (scan_free s Hl) as [(i & q & -> & Hq & Hf)|[-> Hu]]; cbn [mbind option_bind].
  - pose proof (lookup_lt_Some _ _ _ Hq). rewrite store_Some by done. eexists. split; [done|]. split; [by rewrite length_insert|].
    destruct (is_free p) eqn:Hp.
    + apply is_free_true in Hp. unfold used. rewrite insert_take_drop by done. rewrite <- (take_drop_middle s i q Hq) at 3.
      rewrite !filter_app, !filter_cons_False by naive_solver. done.
    + apply is_free_false in Hp. by eapply used_insert.
  - eexists. split; [done|]. split; [done|]. destruct (is_free p) eqn:Hp; [done|]. apply is_free_false, Hroom in Hp. lia.
Qed.

(** The pairs of the two halves. *)
Definition left_of (d : Z) (l : list Pair) : list Pair := filter (fun p => Z.testbit (hash (pkey p)) d = false) l.
Definition right_of (d : Z) (l : list Pair) : list Pair := filter (fun p => Z.testbit (hash (pkey p)) d = true) l.

Lemma land_bit z d : 0 <= d -> (Z.land z (2 ^ d) =? 0) = negb (Z.testbit z d).
Proof.
  intros Hd. apply eq_true_iff_eq. rewrite Z.eqb_eq, negb_true_iff. split.
  - intros Hz. pose proof (f_equal (fun w => Z.testbit w d) Hz) as Hb. cbv beta in Hb.
    rewrite Z.land_spec, Z.pow2_bits_true, Z.testbit_0_l, andb_true_r in Hb by done. done.
  - intros Hb. apply Z.bits_inj'. intros i Hi. rewrite Z.land_spec, Z.pow2_bits_eqb, Z.testbit_0_l by done.
    destruct (Z.eqb_spec d i) as [<-|]; [by rewrite Hb|apply andb_false_r].
Qed.

Lemma used_take d i p : d !! i = Some p -> used (take (S i) d) = used (take i d) ++ (if is_free p then [] else [p]).
Proof.
  intros Hp. rewrite (take_S_r _ _ _ Hp). unfold used. rewrite filter_app. f_equal. rewrite filter_cons.
  destruct (is_free p) eqn:Hf; [apply is_free_true in Hf|apply is_free_false in Hf]; case_decide; done.
Qed.

(** Nothing is lost in a split: a block has as many slots as the one it is filled from. *)
Lemma split_loop d s s1 s2 :
  0 <= d -> length s = kNumSlot -> length s1 = kNumSlot -> length s2 = kNumSlot -> used s1 = [] -> used s2 = [] ->
  exists a b, foldM (split_step (2 ^ d)) s (s1, s2) = Some (a, b) /\ length a = kNumSlot /\ length b = kNumSlot
    /\ used a ≡ₚ left_of d (used s) /\ used b ≡ₚ right_of d (used s).
Proof.
  intros Hd Hs Hl1 Hl2 Hu1 Hu2.
  destruct (foldM_array (fun i (st : list Pair * list Pair) => length st.1 = kNumSlot /\ length st.2 = kNumSlot
    /\ used st.1 ≡ₚ left_of d (used (take i s)) /\ used st.2 ≡ₚ right_of d (used (take i s))) (split_step (2 ^ d)) s (s1, s2))
    as ([a b] & Hf & Ha & Hb & Hpa & Hpb).
  - cbn [fst snd]. rewrite Hu1, Hu2. done.
  - intros i p [a b] Hp (Ha & Hb & Hpa & Hpb). cbn [fst snd] in *. pose proof (lookup_lt_Some _ _ _ Hp) as Hi.
    assert (length (used (take i s)) <= i)%nat as Hui by (etrans; [apply used_length|]; rewrite length_take; lia).
    assert (length (used a) < kNumSlot)%nat as Hra.
    { rewrite Hpa. unfold left_of. pose proof (length_filter (fun p => Z.testbit (hash (pkey p)) d = false) (used (take i s))). lia. }
    assert (length (used b) < kNumSlot)%nat as Hrb.
    { rewrite Hpb. unfold right_of. pose proof (length_filter (fun p => Z.testbit (hash (pkey p)) d = true) (used (take i s))). lia. }
    unfold split_step. fold (hash (pkey p)). rewrite land_bit by done. rewrite (used_take _ _ _ Hp).
    unfold left_of, right_of in *. rewrite !filter_app.
    destruct (Z.testbit (hash (pkey p)) d) eqn:Hbit; cbn [negb fst snd].
    + destruct (Insert4split_fits b p Hb) as (b' & -> & Hb' & Hub); [done|]. cbn [mbind option_bind]. eexists. split; [done|].
      cbn [fst snd]. split_and!; [done|done|rewrite Hpa|rewrite Hub]; destruct (is_free p); cbn [filter list_filter]; rewrite ?app_nil_r; try done.
      * rewrite decide_False by congruence. by rewrite app_nil_r.
      * rewrite decide_True by done. rewrite Hpb. apply Permutation_cons_append.
    + destruct (Insert4split_fits a p Ha) as (a' & -> & Ha' & Hua); [done|]. cbn [mbind option_bind]. eexists. split; [done|].
      cbn [fst snd]. split_and!; [done|done|rewrite Hua|rewrite Hpb]; destruct (is_free p); cbn [filter list_filter]; rewrite ?app_nil_r; try done.
      * rewrite decide_True by done. rewrite Hpa. apply Permutation_cons_append.
      * rewrite decide_False by congruence. by rewrite app_nil_r.
  - rewrite firstn_all in Hpa, Hpb. exists a, b. done.
Qed.

(** ** The table *)

Record eh_ok (t : ExtendibleHash) : Prop := {
  to_depth : 0 <= global_depth t;
  to_dir : Z.of_nat (length (dir t)) = 2 ^ global_depth t;
  to_block : forall j id, 0 <= j -> dir t !! Z.to_nat j = Some id ->
    exists b, blocks t !! id = Some b /\ block_ok b /\ 0 <= local_depth b <= global_depth t
      /\ pattern b = j mod 2 ^ local_depth b;
  to_share : forall i j id b, 0 <= i -> dir t !! Z.to_nat i = Some id -> blocks t !! id = Some b ->
    0 <= j < 2 ^ global_depth t -> j mod 2 ^ local_depth b = i mod 2 ^ local_depth b -> dir t !! Z.to_nat j = Some id;
}.

(** The entry of a key. *)
Definition entry_of (t : ExtendibleHash) (k : Key_t) : Z := hash k mod 2 ^ global_depth t.
Definition holds (t : ExtendibleHash) (k : Key_t) (v : Value_t) : Prop :=
  exists id b, dir t !! Z.to_nat (entry_of t k) = Some id /\ blocks t !! id = Some b /\ MkPair k v ∈ used (slots b).

Lemma entry_bound t k : 0 <= global_depth t -> 0 <= entry_of t k < 2 ^ global_depth t.
Proof. intros Hd. apply Z.mod_pos_bound. by apply pow_pos. Qed.

Lemma entry_ok t k : eh_ok t ->
  urem (hash k) (Z.of_nat (length (dir t))) = Some (entry_of t k)
  /\ exists id b, dir t !! Z.to_nat (entry_of t k) = Some id /\ blocks t !! id = Some b /\ block_ok b
    /\ 0 <= local_depth b <= global_depth t /\ pattern b = hash k mod 2 ^ local_depth b.
Proof.
  intros Ht. pose proof (to_depth _ Ht) as Hd. pose proof (entry_bound t k Hd) as He. pose proof (pow_pos _ Hd). split.
  - rewrite (to_dir _ Ht). by apply urem_pos.
  - destruct (lookup_lt_is_Some_2 (dir t) (Z.to_nat (entry_of t k))) as [id Hid]; [pose proof (to_dir _ Ht); lia|].
    destruct (to_block _ Ht (entry_of t k) id) as (b & Hb & Hok & Hld & Hpat); [lia|done|]. exists id, b. split_and!; try done; try lia.
    rewrite Hpat. apply (mod_fewer _ _ _ (global_depth t)); [lia|]. unfold entry_of. by rewrite Z.mod_mod by lia.
Qed.

(** The directory after the block [id] of depth [ld] was split for the hash [kh]. *)
Definition split_entry (t : ExtendibleHash) (kh ld : Z) (n : nat) (y : Z) : option nat :=
  if decide (y mod 2 ^ ld = kh mod 2 ^ ld) then Some (if Z.testbit y ld then S n else n)
  else dir t !! Z.to_nat (y mod 2 ^ global_depth t).

Lemma eh_update_dir_ok t bs k id b n :
  eh_ok t -> dir t !! Z.to_nat (entry_of t k) = Some id -> bs !! id = Some b -> 0 <= local_depth b <= global_depth t ->
  global_depth t <= 30 ->
  exists t', update_dir (MkEH (global_depth t) (dir t) bs) (hash k) (local_depth b + 1) n (S n) = Some t'
    /\ blocks t' = bs /\ global_depth t' = Z.max (global_depth t) (local_depth b + 1)
    /\ Z.of_nat (length (dir t')) = 2 ^ global_depth t'
    /\ forall y, 0 <= y < 2 ^ global_depth t' -> dir t' !! Z.to_nat y = split_entry t (hash k) (local_depth b) n y.
Proof.
  intros Ht Hid Hb Hld Hgd. pose proof (to_depth _ Ht) as Hd. pose proof (to_dir _ Ht) as Hlen.
  pose proof (entry_bound t k Hd) as Hx. pose proof (pow_pos _ Hd) as Hp. destruct (entry_ok t k Ht) as [Hu _].
  unfold update_dir. cbn [global_depth dir blocks]. rewrite Hu. cbn [mbind option_bind]. rewrite Hid. cbn [mbind option_bind].
  rewrite Hb. cbn [mbind option_bind]. set (ld := local_depth b) in *. set (gd := global_depth t) in *. unfold split_entry. fold gd.
  assert (forall y, y mod 2 ^ ld = entry_of t k mod 2 ^ ld <-> y mod 2 ^ ld = hash k mod 2 ^ ld) as Hmk.
  { intros y. assert (entry_of t k mod 2 ^ ld = hash k mod 2 ^ ld) as ->; [|done].
    apply (mod_fewer _ _ _ gd); [lia|]. unfold entry_of. by rewrite Z.mod_mod by lia. }
  destruct (Z.ltb_spec ld gd) as [Hlt|Hge].
  - rewrite Hlen. rewrite (proj2 (Z.ltb_lt _ _)) by (pose proof (Z.pow_lt_mono_r 2 gd 31); lia). cbn [mbind option_bind].
    destruct (LSBUpdate_ok (Z.to_nat (gd - (ld + 1))) (dir t) gd (gd - 1) (entry_of t k) n (S n)) as (e & He & Hle & Hy).
    { lia. } { lia. }
    { replace (gd - 1 + 1) with gd by lia. rewrite Z.div_small by lia. lia. }
    replace (gd - Z.of_nat (Z.to_nat (gd - (ld + 1)))) with (ld + 1) in He by lia. replace (gd - 1 + 1) with gd in He by lia.
    rewrite He. cbn [mbind option_bind]. eexists. split; [done|]. cbn [blocks global_depth dir].
    replace (Z.max gd (ld + 1)) with gd by lia. split_and!; [done|done|lia|]. intros y Hyb. rewrite Hy by lia.
    replace (gd - 1 + 1) with gd by lia. replace (gd - 1 - Z.of_nat (Z.to_nat (gd - (ld + 1)))) with ld by lia.
    rewrite (Z.div_small y), (Z.div_small (entry_of t k)) by lia. rewrite (Z.mod_small y (2 ^ gd)) by lia. apply decide_ext. rewrite Hmk. tauto.
  - assert (ld = gd) as Heq by lia. rewrite Hlen. rewrite store_Some by (rewrite length_app; lia). cbn [mbind option_bind].
    rewrite store_Some by (rewrite length_insert, length_app; lia). cbn [mbind option_bind]. eexists. split; [done|].
    cbn [blocks global_depth dir]. replace (Z.max gd (ld + 1)) with (gd + 1) by lia.
    assert (2 ^ (gd + 1) = 2 * 2 ^ gd) as Hp1 by (rewrite Z.pow_add_r by lia; lia).
    split_and!; [done|done|rewrite !length_insert, length_app; lia|]. intros y Hy. rewrite Heq.
    pose proof (bit_parts y gd Hd) as Hyp. rewrite (Z.div_small y) in Hyp by lia. rewrite Z.mul_0_l, Z.add_0_l in Hyp.
    pose proof (Z.mod_pos_bound y (2 ^ gd) Hp) as Hyb. case_decide as Hc.
    + change (hash k mod 2 ^ gd) with (entry_of t k) in Hc. destruct (Z.testbit y gd); cbn [Z.b2z] in Hyp.
      * replace y with (entry_of t k + 2 ^ gd) by lia. apply list_lookup_insert_eq. rewrite length_insert, length_app. lia.
      * rewrite list_lookup_insert_ne by lia. replace y with (entry_of t k) by lia. apply list_lookup_insert_eq. rewrite length_app. lia.
    + change (hash k mod 2 ^ gd) with (entry_of t k) in Hc. destruct (Z.testbit y gd); cbn [Z.b2z] in Hyp.
      * rewrite !list_lookup_insert_ne by lia. rewrite lookup_app_r by lia. f_equal. lia.
      * rewrite !list_lookup_insert_ne by lia. rewrite lookup_app_l by lia. f_equal. lia.
Qed.

(** ** After a split *)

Section AfterSplit.
Context (t t' : ExtendibleHash) (k : Key_t) (id : nat) (b A B L : Block).
Let ld := local_depth b.
Let n := length (blocks t).
Hypothesis Ht : eh_ok t.
Hypothesis Hid : dir t !! Z.to_nat (entry_of t k) = Some id.
Hypothesis Hb : blocks t !! id = Some b.
Hypothesis Hblocks : blocks t' = <[id := L]> (blocks t) ++ [A; B].
Hypothesis Hgd : global_depth t' = Z.max (global_depth t) (ld + 1).
Hypothesis Hlen : Z.of_nat (length (dir t')) = 2 ^ global_depth t'.
Hypothesis Hent : forall y, 0 <= y < 2 ^ global_depth t' -> dir t' !! Z.to_nat y = split_entry t (hash k) ld n y.
Hypothesis HA : length (slots A) = kNumSlot /\ sema A = 0 /\ local_depth A = ld + 1 /\ pattern A = hash k mod 2 ^ ld.
Hypothesis HB : length (slots B) = kNumSlot /\ sema B = 0 /\ local_depth B = ld + 1 /\ pattern B = hash k mod 2 ^ ld + 2 ^ ld.
Hypothesis HuA : used (slots A) ≡ₚ left_of ld (used (slots b)).
Hypothesis HuB : used (slots B) ≡ₚ right_of ld (used (slots b)).

Lemma split_old : block_ok b /\ 0 <= ld <= global_depth t /\ pattern b = hash k mod 2 ^ ld /\ (id < n)%nat.
Proof.
  destruct (entry_ok t k Ht) as (_ & id' & b' & Hid' & Hb' & Hok & Hld & Hpat). rewrite Hid in Hid'. injection Hid' as <-.
  rewrite Hb in Hb'. injection Hb' as <-. split_and!; try done; try lia. by eapply lookup_lt_Some.
Qed.

Lemma split_blocks : blocks t' !! n = Some A /\ blocks t' !! S n = Some B /\
  forall i, (i < n)%nat -> i <> id -> blocks t' !! i = blocks t !! i.
Proof.
  rewrite Hblocks. assert (length (<[id := L]> (blocks t)) = n) as Hn by apply length_insert.
  split_and!; [by rewrite lookup_app_r, Hn, Nat.sub_diag by lia| |].
  - rewrite lookup_app_r, Hn by lia. by replace (S n - n)%nat with 1%nat by lia.
  - intros i Hi Hne. rewrite lookup_app_l by lia. by rewrite list_lookup_insert_ne.
Qed.

(** The new block for an entry or a hash with the bits of [k]. *)
Definition side (y : Z) : Block := if Z.testbit y ld then B else A.

Lemma side_ok y : y mod 2 ^ ld = hash k mod 2 ^ ld ->
  block_ok (side y) /\ local_depth (side y) = ld + 1 /\ pattern (side y) = y mod 2 ^ (ld + 1).
Proof.
  intros Hy. destruct split_old as (Hok & Hld & Hpat & _). rewrite mod_bit by lia. rewrite Hy. unfold side.
  assert (forall p, p ∈ used (slots b) -> hash (pkey p) mod 2 ^ (ld + 1) = hash k mod 2 ^ ld + Z.b2z (Z.testbit (hash (pkey p)) ld) * 2 ^ ld) as Hp.
  { intros p Hp. rewrite mod_bit by lia. f_equal. pose proof (bo_hash _ Hok p Hp) as Hh. fold ld in Hh. congruence. }
  destruct HA as (? & ? & HldA & HpA), HB as (? & ? & HldB & HpB).
  destruct (Z.testbit y ld); cbn [Z.b2z]; (split; [split; try done|split; [done|lia]]); intros p Hpu.
  - rewrite HuB in Hpu. apply list_elem_of_filter in Hpu as [Hbit Hpu]. rewrite HldB, HpB, (Hp p Hpu), Hbit. cbn [Z.b2z]. lia.
  - rewrite HuA in Hpu. apply list_elem_of_filter in Hpu as [Hbit Hpu]. rewrite HldA, HpA, (Hp p Hpu), Hbit. cbn [Z.b2z]. lia.
Qed.

Lemma mod_dir y m : 0 <= m <= global_depth t -> (y mod 2 ^ global_depth t) mod 2 ^ m = y mod 2 ^ m.
Proof. intros Hm. apply (mod_fewer _ _ m (global_depth t)); [lia|]. rewrite Z.mod_mod; [done|]. pose proof (pow_pos (global_depth t)). lia. Qed.

(** An entry of the new directory is one of the two new blocks, or that of an old block that was not split. *)
Lemma eh_split_entry_cases y id' :
  0 <= y < 2 ^ global_depth t' -> dir t' !! Z.to_nat y = Some id' ->
  (y mod 2 ^ ld = hash k mod 2 ^ ld /\ blocks t' !! id' = Some (side y) /\ id' = if Z.testbit y ld then S n else n)
  \/ (y mod 2 ^ ld <> hash k mod 2 ^ ld /\ dir t !! Z.to_nat (y mod 2 ^ global_depth t) = Some id' /\ id' <> id
      /\ blocks t' !! id' = blocks t !! id').
Proof.
  intros Hy. rewrite Hent by done. unfold split_entry, side. destruct split_blocks as (HA' & HB' & Hold). case_decide as Hc.
  - intros [= <-]. left. split; [done|]. by destruct (Z.testbit y ld).
  - intros Hd. right. destruct split_old as (_ & Hld & Hpat & _). pose proof (to_depth _ Ht) as Hd0.
    pose proof (Z.mod_pos_bound y (2 ^ global_depth t) (pow_pos _ Hd0)) as Hm.
    destruct (to_block _ Ht _ _ (proj1 Hm) Hd) as (b' & Hb' & _ & _ & Hpat').
    assert (id' <> id) as Hne.
    { intros ->. rewrite Hb in Hb'. injection Hb' as <-. apply Hc. rewrite <- Hpat, Hpat'. fold ld. by rewrite mod_dir by lia. }
    split_and!; try done. apply Hold; [by eapply lookup_lt_Some|done].
Qed.

(** In the old table the entries with the bits of [k] have its block. *)
Lemma split_class y : y mod 2 ^ ld = hash k mod 2 ^ ld -> dir t !! Z.to_nat (y mod 2 ^ global_depth t) = Some id.
Proof.
  intros Hy. destruct split_old as (_ & Hld & _ & _). pose proof (to_depth _ Ht) as Hd.
  apply (to_share _ Ht (entry_of t k) _ id b); [apply entry_bound; done|done|done|apply Z.mod_pos_bound; by apply pow_pos|].
  fold ld. unfold entry_of. by rewrite !mod_dir by lia.
Qed.

Lemma eh_ok_split : eh_ok t'.
Proof.
  destruct split_old as (_ & Hld & Hpat & Hidn). pose proof (to_depth _ Ht) as Hd. split; [lia|done| |].
  - intros j id' Hj Hjd. assert (0 <= j < 2 ^ global_depth t') as Hjb by (apply lookup_lt_Some in Hjd; lia).
    destruct (eh_split_entry_cases j id' Hjb Hjd) as [(Hc & Hb' & _)|(Hc & Hd' & _ & ->)].
    + exists (side j). destruct (side_ok j Hc) as (? & Hl & ?). split_and!; try done; try lia. congruence.
    + destruct (to_block _ Ht _ _ (proj1 (Z.mod_pos_bound j _ (pow_pos _ Hd))) Hd') as (b' & ? & ? & ? & Hp).
      exists b'. split_and!; try done; try lia. rewrite Hp. by apply mod_dir.
  - intros i j id' b' Hi Hid' Hb' Hj Hij. assert (0 <= i < 2 ^ global_depth t') as Hib by (apply lookup_lt_Some in Hid'; lia).
    rewrite Hent by done. unfold split_entry. destruct (eh_split_entry_cases i id' Hib Hid') as [(Hc & Hbs & ->)|(Hc & Hd' & Hne & Heq)].
    + rewrite Hbs in Hb'. injection Hb' as <-. destruct (side_ok i Hc) as (_ & Hl & _). rewrite Hl in Hij.
      rewrite (mod_bit i), (mod_bit j) in Hij by lia. assert (j mod 2 ^ ld = i mod 2 ^ ld) as Hji.
      { apply (mod_fewer _ _ ld (ld + 1)); [lia|]. by rewrite (mod_bit i), (mod_bit j) by lia. }
      rewrite decide_True by congruence. pose proof (pow_pos ld). destruct (Z.testbit i ld), (Z.testbit j ld); cbn [Z.b2z] in Hij; (done || lia).
    + rewrite Heq in Hb'. pose proof (Z.mod_pos_bound i _ (pow_pos _ Hd)) as Him. pose proof (Z.mod_pos_bound j _ (pow_pos _ Hd)) as Hjm.
      destruct (to_block _ Ht _ _ (proj1 Him) Hd') as (b2 & Hb2 & _ & Hl2 & _). rewrite Hb' in Hb2. injection Hb2 as <-.
      assert (dir t !! Z.to_nat (j mod 2 ^ global_depth t) = Some id') as Hjd.
      { apply (to_share _ Ht (i mod 2 ^ global_depth t) _ id' b'); try done; try lia. by rewrite !mod_dir by lia. }
      rewrite decide_False; [done|]. intros Hc2. rewrite (split_class j Hc2) in Hjd. congruence.
Qed.

Lemma entry_split k' : 0 <= entry_of t' k' < 2 ^ global_depth t' /\ entry_of t' k' mod 2 ^ ld = hash k' mod 2 ^ ld
  /\ Z.testbit (entry_of t' k') ld = Z.testbit (hash k') ld /\ entry_of t' k' mod 2 ^ global_depth t = entry_of t k'.
Proof.
  destruct split_old as (_ & Hld & _ & _). pose proof (to_depth _ Ht) as Hd. pose proof (pow_pos (global_depth t') ltac:(lia)).
  split_and!; try apply entry_bound; try lia.
  - unfold entry_of. apply (mod_fewer _ _ ld (global_depth t')); [lia|]. by rewrite Z.mod_mod by lia.
  - unfold entry_of. apply Z.mod_pow2_bits_low. lia.
  - unfold entry_of. apply (mod_fewer _ _ _ (global_depth t')); [lia|]. by rewrite Z.mod_mod by lia.
Qed.

(** No pair is lost and none appears. *)
Lemma holds_split k' v : holds t' k' v <-> holds t k' v.
Proof.
  destruct (entry_split k') as (Hb1 & Hm & Hbit & Hold). unfold holds. split.
  - intros (id' & b' & Hid' & Hb' & Hin). destruct (eh_split_entry_cases _ _ Hb1 Hid') as [(Hc & Hbs & _)|(Hc & Hd' & _ & Heq)].
    + exists id, b. split_and!; [rewrite <- Hold; by apply split_class|done|]. rewrite Hbs in Hb'. injection Hb' as <-.
      unfold side in Hin. destruct (Z.testbit _ _); [rewrite HuB in Hin|rewrite HuA in Hin]; by apply list_elem_of_filter in Hin as [_ ?].
    + exists id', b'. rewrite Hold in Hd'. split_and!; [done|congruence|done].
  - intros (id' & b' & Hid' & Hb' & Hin). rewrite Hent by done. unfold split_entry. case_decide as Hc.
    + assert (dir t !! Z.to_nat (entry_of t k') = Some id) as Hk by (rewrite <- Hold; by apply split_class).
      rewrite Hid' in Hk. injection Hk as ->. rewrite Hb in Hb'. injection Hb' as <-. destruct split_blocks as (HA' & HB' & _).
      rewrite Hbit. destruct (Z.testbit (hash k') ld) eqn:Hbk.
      * exists (S n), B. split_and!; [done|done|]. rewrite HuB. by apply list_elem_of_filter.
      * exists n, A. split_and!; [done|done|]. rewrite HuA. by apply list_elem_of_filter.
    + exists id', b'. rewrite Hold. split_and!; [done| |done]. destruct split_blocks as (_ & _ & Heq). rewrite Heq; [done|by eapply lookup_lt_Some|].
      intros ->. rewrite Hb in Hb'. injection Hb' as <-. pose proof (to_depth _ Ht) as Hd. destruct split_old as (_ & Hld & Hpat & _).
      destruct (to_block _ Ht _ _ (proj1 (entry_bound t k' Hd)) Hid') as (b2 & Hb2 & _ & _ & Hp2). rewrite Hb in Hb2. injection Hb2 as <-.
      apply Hc. rewrite <- Hpat, Hp2, <- Hold. fold ld. by rewrite mod_dir by lia.
Qed.

End AfterSplit.

(** ** Insertion *)

Definition put (t : ExtendibleHash) (id : nat) (b : Block) (i : nat) (p : Pair) : ExtendibleHash :=
  MkEH (global_depth t) (dir t) (<[id := MkBlock (<[i := p]> (slots b)) (local_depth b) (sema b) (pattern b)]> (blocks t)).

Lemma land_low z d : 0 <= d -> Z.land z (2 ^ d - 1) = z mod 2 ^ d.
Proof. intros Hd. rewrite <- Z.land_ones by done. f_equal. rewrite Z.ones_equiv. lia. Qed.

(** A round that finds a free slot. *)
Lemma Insert_free fuel junk t k v id b i p :
  eh_ok t -> dir t !! Z.to_nat (entry_of t k) = Some id -> blocks t !! id = Some b ->
  probe (seq 0 kNumSlot) is_free (slots b) = Some (Some i) -> slots b !! i = Some p ->
  Insert (S fuel) junk t k v = Some (put t id b i (MkPair k v)).
Proof.
  intros Ht Hid Hb Hr Hp. destruct (entry_ok t k Ht) as (Hu & id' & b' & Hid' & Hb' & Hok & Hld & Hpat).
  rewrite Hid in Hid'. injection Hid' as <-. rewrite Hb in Hb'. injection Hb' as <-.
  cbn [Insert]. fold (hash k). rewrite Hu. cbn [mbind option_bind]. rewrite Hid. cbn [mbind option_bind]. rewrite Hb. cbn [mbind option_bind].
  unfold Block_Insert. rewrite (bo_sema _ Hok). change (0 =? -1) with false. cbv iota.
  rewrite land_low, Hpat, Z.eqb_refl by lia. cbn [negb]. rewrite Hr. cbn [mbind option_bind].
  rewrite store_Some by (by eapply lookup_lt_Some). cbn [mbind option_bind]. rewrite store_Some by (by eapply lookup_lt_Some). cbn [mbind option_bind].
  rewrite (proj2 (Z.eqb_neq (Z.of_nat i) (-1))), (proj2 (Z.eqb_neq (Z.of_nat i) (-2))) by lia. unfold put. by rewrite (bo_sema _ Hok), Hpat.
Qed.

(** A round that does not. *)
Lemma Insert_full fuel junk t k v id b :
  eh_ok t -> dir t !! Z.to_nat (entry_of t k) = Some id -> blocks t !! id = Some b ->
  probe (seq 0 kNumSlot) is_free (slots b) = Some None ->
  let ld := local_depth b in let n := length (blocks t) in
  exists L A B,
    (length (slots A) = kNumSlot /\ sema A = 0 /\ local_depth A = ld + 1 /\ pattern A = hash k mod 2 ^ ld) /\
    (length (slots B) = kNumSlot /\ sema B = 0 /\ local_depth B = ld + 1 /\ pattern B = hash k mod 2 ^ ld + 2 ^ ld) /\
    used (slots A) ≡ₚ left_of ld (used (slots b)) /\ used (slots B) ≡ₚ right_of ld (used (slots b)) /\
    local_depth L = ld /\ slots L = slots b /\
    Insert (S fuel) junk t k v =
      if ld <? 31 then t' ← update_dir (MkEH (global_depth t) (dir t) (<[id := L]> (blocks t) ++ [A; B])) (hash k) (ld + 1) n (S n);
        Insert fuel junk t' k v
      else None.
Proof.
  intros Ht Hid Hb Hr ld n. destruct (entry_ok t k Ht) as (Hu & id' & b' & Hid' & Hb' & Hok & Hld & Hpat).
  rewrite Hid in Hid'. injection Hid' as <-. rewrite Hb in Hb'. injection Hb' as <-. fold ld in Hld, Hpat.
  pose proof (lookup_lt_Some _ _ _ Hb) as Hidn. pose proof (new_Pairs_length junk kNumSlot) as Hnl.
  assert (used (new_Pairs junk kNumSlot) = []) as Hnu.
  { apply filter_none, Forall_forall. intros p [i Hi]%list_elem_of_lookup. intros Hp. exact (Hp (new_Pairs_lookup _ _ _ _ Hi)). }
  destruct (split_loop ld (slots b) (new_Pairs junk kNumSlot) (new_Pairs junk kNumSlot)) as (a & c & Hsp & Ha & Hc & Hua & Huc);
    [lia|apply Hok|done|done|done|done|].
  exists (MkBlock (slots b) ld (-1) (pattern b)), (MkBlock a (ld + 1) 0 (hash k mod 2 ^ ld)), (MkBlock c (ld + 1) 0 (hash k mod 2 ^ ld + 2 ^ ld)).
  cbn [slots sema local_depth pattern]. split_and!; [done|done|done|done|done|done|done|done|done|done|done|done|].
  cbn [Insert]. fold (hash k). rewrite Hu. cbn [mbind option_bind]. rewrite Hid. cbn [mbind option_bind]. rewrite Hb. cbn [mbind option_bind].
  unfold Block_Insert. rewrite (bo_sema _ Hok). change (0 =? -1) with false. cbv iota. fold ld.
  rewrite land_low, Hpat, Z.eqb_refl by lia. cbn [negb]. rewrite Hr. cbn [mbind option_bind].
  rewrite store_Some by done. cbn [mbind option_bind]. change (-1 =? -1) with true. cbv iota.
  rewrite list_insert_id by done. unfold Split. rewrite (bo_sema _ Hok). change (negb (0 =? 0)) with false. cbv iota. fold ld.
  unfold int_shl1. destruct (Z.ltb_spec ld 31) as [Hlt|Hge].
  - rewrite (proj2 (andb_true_iff _ _)) by lia. cbn [mbind option_bind new_Block slots]. rewrite Hsp. cbn [mbind option_bind].
    rewrite store_Some by done. cbn [mbind option_bind local_depth]. replace (ld + 1 - 1) with ld by lia.
    rewrite (proj2 (andb_true_iff _ _)) by lia. cbn [mbind option_bind set_pattern slots local_depth sema]. rewrite length_insert. fold n. by rewrite Hpat.
  - destruct ((0 <=? ld) && (ld <? 64)); [|done]. cbn [mbind option_bind new_Block slots]. rewrite Hsp. cbn [mbind option_bind].
    rewrite store_Some by done. cbn [mbind option_bind local_depth]. replace (ld + 1 - 1) with ld by lia.
    by rewrite (proj2 (andb_false_iff _ _)) by lia.
Qed.

Lemma update_dir_needs t bs k id b s0 s1 t' :
  eh_ok t -> dir t !! Z.to_nat (entry_of t k) = Some id -> bs !! id = Some b -> local_depth b < 31 ->
  update_dir (MkEH (global_depth t) (dir t) bs) (hash k) (local_depth b + 1) s0 s1 = Some t' -> global_depth t <= 30.
Proof.
  intros Ht Hid Hb Hld Hup. destruct (entry_ok t k Ht) as [Hu _]. unfold update_dir in Hup. cbn [global_depth dir blocks] in Hup.
  rewrite Hu in Hup. cbn [mbind option_bind] in Hup. rewrite Hid in Hup. cbn [mbind option_bind] in Hup. rewrite Hb in Hup. cbn [mbind option_bind] in Hup.
  destruct (Z.ltb_spec (local_depth b) (global_depth t)); [|lia]. rewrite (to_dir _ Ht) in Hup.
  destruct (Z.ltb_spec (2 ^ global_depth t) (2 ^ 31)) as [Hlt|]; [|done].
  apply Z.pow_lt_mono_r_iff in Hlt; lia.
Qed.

Lemma eh_holds_put t k v id b i p k' v' :
  dir t !! Z.to_nat (entry_of t k) = Some id -> blocks t !! id = Some b -> slots b !! i = Some p -> pkey p = INVALID ->
  k <> INVALID -> holds (put t id b i (MkPair k v)) k' v' <-> holds t k' v' \/ (k' = k /\ v' = v).
Proof.
  intros Hid Hb Hp Hf Hk. pose proof (used_insert _ _ _ (MkPair k v) Hp Hf Hk) as Hu. pose proof (lookup_lt_Some _ _ _ Hb) as Hidn.
  unfold holds, put, entry_of. cbn [global_depth dir blocks]. fold (entry_of t k'). split.
  - intros (id' & b' & Hid' & Hb' & Hin). apply list_lookup_insert_Some in Hb' as [(<- & <- & _)|[_ Hb']].
    + cbn [slots] in Hin. rewrite Hu in Hin. apply elem_of_cons in Hin as [[= -> ->]|Hin]; [by right|left; eauto].
    + left. eauto.
  - intros [(id' & b' & Hid' & Hb' & Hin)|[-> ->]].
    + destruct (decide (id' = id)) as [->|Hne].
      * rewrite Hb in Hb'. injection Hb' as <-. eexists _, _. split_and!; [done|by apply list_lookup_insert_eq|].
        cbn [slots]. rewrite Hu. by right.
      * exists id', b'. split_and!; [done|by rewrite list_lookup_insert_ne|done].
    + eexists _, _. split_and!; [done|by apply list_lookup_insert_eq|]. cbn [slots]. rewrite Hu. by left.
Qed.

Lemma eh_ok_put t k v id b i p :
  eh_ok t -> dir t !! Z.to_nat (entry_of t k) = Some id -> blocks t !! id = Some b -> slots b !! i = Some p ->
  pkey p = INVALID -> k <> INVALID -> eh_ok (put t id b i (MkPair k v)).
Proof.
  intros Ht Hid Hb Hp Hf Hk. pose proof (used_insert _ _ _ (MkPair k v) Hp Hf Hk) as Hu. pose proof (lookup_lt_Some _ _ _ Hb) as Hidn.
  destruct (entry_ok t k Ht) as (_ & id0 & b0 & Hid0 & Hb0 & Hok & Hld & Hpat). rewrite Hid in Hid0. injection Hid0 as <-.
  rewrite Hb in Hb0. injection Hb0 as <-.
  assert (forall id' b', blocks (put t id b i (MkPair k v)) !! id' = Some b' ->
    exists b0, blocks t !! id' = Some b0 /\ local_depth b' = local_depth b0 /\ pattern b' = pattern b0 /\ (block_ok b0 -> block_ok b')) as Hbl.
  { intros id' b' Hb'. apply list_lookup_insert_Some in Hb' as [(<- & <- & _)|[_ Hb']]; [|eauto 10].
    exists b. split_and!; [done|done|done|]. intros _. split; cbn [slots sema local_depth pattern]; [rewrite length_insert; apply Hok|apply Hok|].
    intros q Hq. rewrite Hu in Hq. apply elem_of_cons in Hq as [->|Hq]; [done|by apply Hok]. }
  split; cbn [put global_depth dir]; [apply Ht|apply Ht| |].
  - intros j id' Hj Hjd. destruct (to_block _ Ht j id' Hj Hjd) as (b' & Hb' & Hok' & Hld' & Hpat').
    destruct (lookup_lt_is_Some_2 (blocks (put t id b i (MkPair k v))) id') as [b2 Hb2].
    { cbn. rewrite length_insert. by eapply lookup_lt_Some. }
    destruct (Hbl id' b2 Hb2) as (b3 & Hb3 & Hl3 & Hp3 & Hok3). rewrite Hb' in Hb3. injection Hb3 as <-.
    exists b2. split_and!; [done|by apply Hok3|lia|lia|congruence].
  - intros i' j id' b' Hi' Hid' Hb' Hj Hij. destruct (Hbl id' b' Hb') as (b3 & Hb3 & Hl3 & _). rewrite Hl3 in Hij.
    by apply (to_share _ Ht i' j id' b3).
Qed.

Lemma eh_Get_spec t k :
  eh_ok t -> k <> INVALID -> exists r, Get t k = Some r /\ (holds t k r \/ r = NONE /\ forall v, ~ holds t k v).
Proof.
  intros Ht Hk. destruct (entry_ok t k Ht) as (Hu & id & b & Hid & Hb & Hok & _ & _). unfold Get. fold (hash k). rewrite Hu.
  rewrite bind_ret. rewrite Hid. rewrite bind_ret. rewrite Hb. rewrite bind_ret.
  destruct (probe_total (seq 0 kNumSlot) (has_key k) (slots b)) as [[i|] Hr].
  { apply Forall_forall. intros i Hi%elem_of_seq. rewrite (bo_length _ Hok). lia. }
  - rewrite Hr. rewrite bind_ret. destruct (probe_found_lookup _ _ _ _ Hr) as (_ & [pk pv] & Hp & Hkey). rewrite Hp, bind_ret.
    apply has_key_true in Hkey. cbn in Hkey. subst pk. exists pv. split; [done|left]. exists id, b. split_and!; [done|done|].
    apply elem_of_used. split; [done|]. by apply (list_elem_of_lookup_2 _ i).
  - rewrite Hr, bind_ret. exists NONE. split; [done|right]. split; [done|]. intros v (id' & b' & Hid' & Hb' & Hin).
    rewrite Hid in Hid'. injection Hid' as <-. rewrite Hb in Hb'. injection Hb' as <-. apply elem_of_used in Hin as [_ [i Hi]%list_elem_of_lookup].
    apply probe_exhausted in Hr. rewrite Forall_forall in Hr. destruct (Hr i) as (q & Hq & Hf).
    { apply elem_of_seq. apply lookup_lt_Some in Hi. rewrite (bo_length _ Hok) in Hi. lia. }
    rewrite Hi in Hq. injection Hq as <-. by apply has_key_false in Hf.
Qed.

(** The pairs in the block of [k] that share the low [P] bits of its hash. *)
Definition crowd (t : ExtendibleHash) (P : Z) (k : Key_t) : nat :=
  match (id ← dir t !! Z.to_nat (entry_of t k); blocks t !! id) with
  | Some b => length (filter (fun p => hash (pkey p) mod 2 ^ P = hash k mod 2 ^ P) (used (slots b)))
  | None => 0
  end.

(** What a split leaves. *)
Record splits (t : ExtendibleHash) (k : Key_t) (b : Block) (t1 : ExtendibleHash) : Prop := {
  sp_ok : eh_ok t1;
  sp_holds : forall k' v', holds t1 k' v' <-> holds t k' v';
  sp_depth : global_depth t1 = Z.max (global_depth t) (local_depth b + 1);
  sp_block : exists id1 b1, dir t1 !! Z.to_nat (entry_of t1 k) = Some id1 /\ blocks t1 !! id1 = Some b1
    /\ local_depth b1 = local_depth b + 1 /\ used (slots b1) ⊆+ used (slots b);
  sp_all : forall b1, b1 ∈ blocks t1 -> exists b0, b0 ∈ blocks t /\ used (slots b1) ⊆+ used (slots b0);
}.

Lemma eh_Insert_splits fuel junk t k v id b :
  eh_ok t -> dir t !! Z.to_nat (entry_of t k) = Some id -> blocks t !! id = Some b ->
  probe (seq 0 kNumSlot) is_free (slots b) = Some None -> local_depth b < 31 -> global_depth t <= 30 ->
  exists t1, Insert (S fuel) junk t k v = Insert fuel junk t1 k v /\ splits t k b t1.
Proof.
  intros Ht Hid Hb Hr Hlt Hgd. destruct (entry_ok t k Ht) as (_ & id0 & b0 & Hid0 & Hb0 & _ & Hld & _).
  rewrite Hid in Hid0. injection Hid0 as <-. rewrite Hb in Hb0. injection Hb0 as <-.
  destruct (Insert_full fuel junk t k v id b Ht Hid Hb Hr) as (L & A & B & HA & HB & HuA & HuB & HL & HsL & Heq).
  pose proof (lookup_lt_Some _ _ _ Hb) as Hidn. set (bs := <[id := L]> (blocks t) ++ [A; B]) in *.
  assert (bs !! id = Some L) as HbsL.
  { unfold bs. rewrite lookup_app_l by (by rewrite length_insert). by apply list_lookup_insert_eq. }
  destruct (eh_update_dir_ok t bs k id L (length (blocks t))) as (t1 & Ht1 & Hbs & Hg & Hlen & Hent); try done; [lia|].
  rewrite HL in Ht1, Hg, Hent. exists t1. rewrite Heq, (proj2 (Z.ltb_lt _ _)), Ht1 by done. split; [done|].
  assert (eh_ok t1) as Hok1 by (by apply (eh_ok_split t t1 k id b A B L)).
  assert (used (slots A) ⊆+ used (slots b)) as HsA by (rewrite HuA; apply sublist_submseteq, sublist_filter).
  assert (used (slots B) ⊆+ used (slots b)) as HsB by (rewrite HuB; apply sublist_submseteq, sublist_filter).
  split; [done|intros k' v'; by apply (holds_split t t1 k id b A B L)|done| |].
  2: { intros b1 Hb1. rewrite Hbs in Hb1. pose proof (list_elem_of_lookup_2 _ _ _ Hb) as Hbin.
    apply elem_of_app in Hb1 as [[j Hj]%list_elem_of_lookup|[->|[->|?%not_elem_of_nil]%elem_of_cons]%elem_of_cons]; [|by exists b..|done].
    apply list_lookup_insert_Some in Hj as [(_ & <- & _)|[_ Hj]]; [exists b; by rewrite HsL|].
    exists b1. split; [by eapply list_elem_of_lookup_2|done]. }
  destruct (entry_ok t1 k Hok1) as (_ & id1 & b1 & Hid1 & Hb1 & _). exists id1, b1.
  destruct (entry_split t t1 k id b A B Ht Hid Hb Hg HA HB k) as (Hb2 & Hm & _ & _).
  destruct (eh_split_entry_cases t t1 k id b A B L Ht Hid Hb Hbs Hg Hent HA HB _ _ Hb2 Hid1) as [(Hc & Hbs1 & _)|(Hc & _)]; [|done].
  rewrite Hbs1 in Hb1. injection Hb1 as <-. split_and!; [done|done| |].
  - by apply (side_ok t t1 k id b A B).
  - unfold side. by destruct (Z.testbit _ _).
Qed.

(** What is needed for a round with a split to return. *)
Lemma eh_Insert_needs fuel junk t k v id b t' :
  eh_ok t -> dir t !! Z.to_nat (entry_of t k) = Some id -> blocks t !! id = Some b ->
  probe (seq 0 kNumSlot) is_free (slots b) = Some None -> Insert (S fuel) junk t k v = Some t' ->
  local_depth b < 31 /\ global_depth t <= 30.
Proof.
  intros Ht Hid Hb Hr Hi. destruct (Insert_full fuel junk t k v id b Ht Hid Hb Hr) as (L & A & B & _ & _ & _ & _ & HL & _ & Heq).
  rewrite Heq in Hi. destruct (Z.ltb_spec (local_depth b) 31) as [Hlt|]; [|done]. inv_bind Hi t1 Ht1. rewrite <- HL in Ht1. split; [done|].
  refine (update_dir_needs t _ k id L _ _ t1 Ht Hid _ _ Ht1); [|lia]. pose proof (lookup_lt_Some _ _ _ Hb).
  rewrite lookup_app_l by (by rewrite length_insert). by apply list_lookup_insert_eq.
Qed.

(** The effect of [Insert], when it returns. *)
Lemma eh_Insert_inv fuel junk t k v t' :
  eh_ok t -> k <> INVALID -> Insert fuel junk t k v = Some t' ->
  eh_ok t' /\ forall k' v', holds t' k' v' <-> holds t k' v' \/ (k' = k /\ v' = v).
Proof.
  intros Ht Hk. revert t Ht. induction fuel as [|fuel IH]; intros t Ht Hi; [done|].
  destruct (entry_ok t k Ht) as (_ & id & b & Hid & Hb & Hok & Hld & Hpat).
  destruct (scan_free (slots b) (bo_length _ Hok)) as [(i & p & Hr & Hp & Hf)|[Hr _]].
  - rewrite (Insert_free _ _ _ _ _ _ _ _ _ Ht Hid Hb Hr Hp) in Hi. injection Hi as <-.
    split; [by eapply eh_ok_put|]. intros k' v'. by eapply eh_holds_put.
  - destruct (eh_Insert_needs _ _ _ _ _ _ _ _ Ht Hid Hb Hr Hi) as [Hl Hg].
    destruct (eh_Insert_splits fuel junk t k v id b Ht Hid Hb Hr Hl Hg) as (t1 & Heq & [Hok1 Hh1 _ _ _]). rewrite Heq in Hi.
    destruct (IH t1 Hok1 Hi) as [Hok' Hh']. split; [done|]. intros k' v'. by rewrite Hh', Hh1.
Qed.

(** The blocks hold no more than what was inserted. *)
Definition within (t : ExtendibleHash) (ps : list Pair) : Prop := forall b, b ∈ blocks t -> used (slots b) ⊆+ ps.

Lemma eh_Insert_within fuel junk t k v t' ps :
  eh_ok t -> k <> INVALID -> within t ps -> Insert fuel junk t k v = Some t' -> within t' (MkPair k v :: ps).
Proof.
  intros Ht Hk. revert t Ht. induction fuel as [|fuel IH]; intros t Ht Hw Hi; [done|].
  destruct (entry_ok t k Ht) as (_ & id & b & Hid & Hb & Hok & Hld & Hpat).
  destruct (scan_free (slots b) (bo_length _ Hok)) as [(i & p & Hr & Hp & Hf)|[Hr _]].
  - rewrite (Insert_free _ _ _ _ _ _ _ _ _ Ht Hid Hb Hr Hp) in Hi. injection Hi as <-.
    intros b1 [j Hj]%list_elem_of_lookup. apply list_lookup_insert_Some in Hj as [(_ & <- & _)|[_ Hj]]; cbn [slots].
    + rewrite (used_insert _ _ _ (MkPair k v) Hp Hf Hk). apply submseteq_skip, Hw. by eapply list_elem_of_lookup_2.
    + apply submseteq_cons, Hw. by eapply list_elem_of_lookup_2.
  - destruct (eh_Insert_needs _ _ _ _ _ _ _ _ Ht Hid Hb Hr Hi) as [Hl Hg].
    destruct (eh_Insert_splits fuel junk t k v id b Ht Hid Hb Hr Hl Hg) as (t1 & Heq & [Hok1 _ _ _ Hall]). rewrite Heq in Hi.
    apply (IH t1 Hok1); [|done]. intros b1 Hb1. destruct (Hall b1 Hb1) as (b0 & Hb0 & Hs). rewrite Hs. by apply Hw.
Qed.

(** [Insert] returns as soon as the pairs that keep following the key do not fill a block. *)
Lemma eh_Insert_returns fuel junk t k v id b P :
  eh_ok t -> dir t !! Z.to_nat (entry_of t k) = Some id -> blocks t !! id = Some b -> 0 <= P <= 30 -> global_depth t <= 30 ->
  (crowd t P k < kNumSlot)%nat -> (0 < fuel)%nat -> P - local_depth b < Z.of_nat fuel ->
  exists t', Insert fuel junk t k v = Some t' /\ global_depth t' <= 30.
Proof.
  intros Ht Hid Hb HP. revert t id b Ht Hid Hb. induction fuel as [|fuel IH]; intros t id b Ht Hid Hb Hgd Hc Hf Hfuel; [lia|].
  destruct (entry_ok t k Ht) as (_ & id0 & b0 & Hid0 & Hb0 & Hok & Hld & Hpat).
  rewrite Hid in Hid0. injection Hid0 as <-. rewrite Hb in Hb0. injection Hb0 as <-.
  destruct (scan_free (slots b) (bo_length _ Hok)) as [(i & p & Hr & Hp & _)|[Hr Hu]].
  { rewrite (Insert_free _ _ _ _ _ _ _ _ _ Ht Hid Hb Hr Hp). eauto. }
  assert (crowd t P k = length (filter (fun p => hash (pkey p) mod 2 ^ P = hash k mod 2 ^ P) (used (slots b)))) as Hcr
    by (unfold crowd; by rewrite Hid, bind_ret, Hb).
  assert (local_depth b < P) as Hlt.
  { apply Znot_ge_lt. intros Hge. rewrite Hcr, filter_all, Hu in Hc; [lia|]. apply Forall_forall. intros p Hp.
    apply (mod_fewer _ _ P (local_depth b)); [lia|]. rewrite <- Hpat. by apply Hok. }
  destruct (eh_Insert_splits fuel junk t k v id b Ht Hid Hb Hr) as (t1 & -> & [Hok1 _ Hd1 (id1 & b1 & Hid1 & Hb1 & Hl1 & Hs1) _]); [lia|done|].
  apply (IH t1 id1 b1 Hok1 Hid1 Hb1); [lia| |lia|lia]. rewrite Hcr in Hc. unfold crowd. rewrite Hid1, bind_ret, Hb1.
  pose proof (filter_submseteq_length (fun p => hash (pkey p) mod 2 ^ P = hash k mod 2 ^ P) _ _ Hs1). lia.
Qed.

(** ** Refinement *)

Definition eh_maps (t : ExtendibleHash) (m : gmap Z Z) : Prop := eh_ok t /\ forall k v, holds t k v <-> m !! k = Some v.

(** C14: The table refines a finite map, whatever splits and doublings an insertion needs: it returns when fewer
    pairs than a block has slots share the low [P] bits of the key's hash, in at most [P] rounds of splitting, the
    new key is added, and [Get] answers every key from the map. *)
Theorem eh_refines_map junk t m k v P :
  eh_maps t m -> valid_key k -> m !! k = None -> 0 <= P <= 30 -> global_depth t <= 30 -> (crowd t P k < kNumSlot)%nat ->
  exists t', Insert (S (Z.to_nat P)) junk t k v = Some t' /\ eh_maps t' (<[k := v]> m)
    /\ forall k', k' <> INVALID -> Get t' k' = Some (default NONE (<[k := v]> m !! k')).
Proof.
  intros [Ht Hm] (_ & Hk & _) Hnew HP Hgd Hc. destruct (entry_ok t k Ht) as (_ & id & b & Hid & Hb & _ & Hld & _).
  destruct (eh_Insert_returns (S (Z.to_nat P)) junk t k v id b P) as (t' & Hi & _); try done; [lia|lia|].
  destruct (eh_Insert_inv _ _ _ _ _ _ Ht Hk Hi) as [Ht' Hh]. exists t'. split; [done|].
  assert (eh_maps t' (<[k := v]> m)) as Hm'.
  { split; [done|]. intros k' v'. rewrite Hh, Hm, lookup_insert_Some. destruct (decide (k' = k)) as [->|]; naive_solver. }
  split; [done|]. intros k' Hk'. destruct (eh_Get_spec t' k' Ht' Hk') as (r & -> & Hr). f_equal. destruct Hm' as [_ Hm'].
  destruct Hr as [Hr%Hm'|[-> Hr]]; [by rewrite Hr|]. destruct (<[k := v]> m !! k') as [w|] eqn:Hw; [|done].
  apply Hm' in Hw. by destruct (Hr w).
Qed.

(** A new table of [2^d] blocks. *)
Lemma eh_new_table_ok junk d : 0 <= d ->
  exists t, new_table junk (2 ^ d) = Some t /\ global_depth t = d /\ eh_ok t /\ forall k v, ~ holds t k v.
Proof.
  intros Hd. pose proof (pow_pos d Hd) as Hp. unfold new_table. destruct (Z.eqb_spec (2 ^ d) 0); [lia|]. rewrite Z.log2_pow2 by done.
  set (N := Z.to_nat (2 ^ d)). eexists. split; [done|]. cbn [global_depth]. split; [done|].
  assert (used (new_Pairs junk kNumSlot) = []) as Hnu.
  { apply filter_none, Forall_forall. intros p [i Hi]%list_elem_of_lookup. intros Hp'. exact (Hp' (new_Pairs_lookup _ _ _ _ Hi)). }
  assert (forall id, (id < N)%nat -> ((fun i => set_pattern (new_Block junk d) (Z.of_nat i)) <$> seq 0 N) !! id
    = Some (set_pattern (new_Block junk d) (Z.of_nat id))) as Hbl by (intros id Hid; rewrite list_lookup_fmap, lookup_seq_lt by done; done).
  split.
  - split; cbn [global_depth dir blocks]; [done|rewrite length_seq; lia| |].
    + intros j id Hj [-> Hlt]%lookup_seq. exists (set_pattern (new_Block junk d) (Z.of_nat (Z.to_nat j))).
      split_and!; [by apply Hbl| |cbn; lia|cbn; lia|cbn; rewrite Z.mod_small by lia; lia].
      split; cbn [set_pattern new_Block slots sema]; [apply new_Pairs_length|done|]. rewrite Hnu. intros p Hin. destruct (not_elem_of_nil p Hin).
    + intros i j id b Hi [-> Hlt]%lookup_seq Hb Hj. cbn [Nat.add] in Hb. rewrite Hbl in Hb by lia. injection Hb as <-.
      cbn [set_pattern new_Block local_depth]. rewrite !Z.mod_small by lia. intros ->. rewrite lookup_seq. lia.
  - intros k v (id & b & Hid & Hb & Hin). cbn [dir blocks] in *. apply lookup_seq in Hid as [-> Hlt]. cbn [Nat.add] in Hb.
    rewrite Hbl in Hb by lia. injection Hb as <-. cbn [set_pattern new_Block slots] in Hin. rewrite Hnu in Hin. exact (not_elem_of_nil _ Hin).
Qed.

Definition puts (fuel : nat) (junk : nat -> Value_t) (t : ExtendibleHash) (kvs : list (Key_t * Value_t)) : option ExtendibleHash :=
  foldM (fun t p => Insert fuel junk t p.1 p.2) kvs t.

(** The keys of a list that share the low [P] bits of the hash of [k]. *)
Definition followers (P : Z) (k : Key_t) (kvs : list (Key_t * Value_t)) : list (Key_t * Value_t) :=
  filter (fun p => hash p.1 mod 2 ^ P = hash k mod 2 ^ P) kvs.

Definition pairs_of (kvs : list (Key_t * Value_t)) : list Pair := (fun p => MkPair p.1 p.2) <$> kvs.

Lemma crowd_followers t P k kvs : within t (pairs_of kvs) -> (crowd t P k <= length (followers P k kvs))%nat.
Proof.
  intros Hw. unfold crowd. destruct (dir t !! _) as [id|]; [|cbn; lia]. rewrite bind_ret. destruct (blocks t !! id) as [b|] eqn:Hb; [|lia].
  etrans; [apply filter_submseteq_length, (Hw b); by eapply list_elem_of_lookup_2|]. unfold followers, pairs_of. clear.
  induction kvs as [|[k' v'] kvs IH]; [done|]. rewrite fmap_cons, !filter_cons. cbn [pkey fst]. case_decide; cbn [length]; lia.
Qed.

Lemma puts_total P junk kvs : forall t old,
  0 <= P <= 30 -> eh_ok t -> global_depth t <= 30 -> within t (pairs_of old) -> Forall (fun p => valid_key p.1) kvs ->
  Forall (fun p => length (followers P p.1 (rev kvs ++ old)) <= kNumSlot)%nat kvs ->
  exists t', puts (S (Z.to_nat P)) junk t kvs = Some t' /\ eh_ok t' /\ forall k v, holds t' k v <-> holds t k v \/ (k, v) ∈ kvs.
Proof.
  induction kvs as [|[k v] kvs IH]; intros t old HP Ht Hg Hw Hk Hf.
  { exists t. split_and!; [done|done|]. intros k v. rewrite elem_of_nil. tauto. }
  apply Forall_cons in Hk as [(Hk0 & Hk1 & Hk2) Hk]. apply Forall_cons in Hf as [Hf0 Hf]. cbn [fst rev] in Hf0, Hf.
  assert (crowd t P k < kNumSlot)%nat as Hc.
  { eapply Nat.lt_le_trans; [|exact Hf0]. pose proof (crowd_followers t P k old Hw). unfold followers in *.
    rewrite <- app_assoc, !filter_app, filter_cons_True, !length_app by done. cbn [length]. lia. }
  destruct (entry_ok t k Ht) as (_ & id & b & Hid & Hb & _ & Hld & _).
  destruct (eh_Insert_returns (S (Z.to_nat P)) junk t k v id b P) as (t1 & Hi & Hg1); try done; [lia|lia|].
  destruct (eh_Insert_inv _ _ _ _ _ _ Ht Hk1 Hi) as [Ht1 Hh].
  destruct (IH t1 ((k, v) :: old)) as (t' & Hp & Ht' & Hh'); try done.
  - by apply (eh_Insert_within _ _ _ _ _ _ _ Ht Hk1 Hw Hi).
  - eapply Forall_impl; [exact Hf|]. cbn. intros p. by rewrite <- app_assoc.
  - exists t'. split_and!; [|done|].
    + unfold puts. cbn [foldM fst snd]. rewrite Hi. exact Hp.
    + intros k' v'. rewrite Hh', Hh, elem_of_cons. split; [intros [[?|[-> ->]]|?]; auto|]. intros [?|[[= -> ->]|?]]; auto.
Qed.

(** C33: A table created with [2^d] blocks takes every sequence of valid keys of which no more than a block has slots
    share the low [P] bits of their hashes ([d] and [P] at most 30): all insertions return, each after at most [P] + 1
    rounds, and the directory is well formed at the end: it has a power of two of entries, each of which names a block of
    no more bits than the directory and of the pattern of the entry's low bits, entries with the bits of a block share it,
    and every pair is in a block of its pattern.  The table holds the pairs of the sequence and no others. *)
Theorem eh_well_typed P junk d kvs :
  0 <= d <= 30 -> 0 <= P <= 30 -> Forall (fun p => valid_key p.1) kvs ->
  Forall (fun p => length (followers P p.1 kvs) <= kNumSlot)%nat kvs ->
  exists t t', new_table junk (2 ^ d) = Some t /\ puts (S (Z.to_nat P)) junk t kvs = Some t' /\ eh_ok t'
    /\ forall k v, holds t' k v <-> (k, v) ∈ kvs.
Proof.
  intros Hd HP Hk Hf. destruct (eh_new_table_ok junk d ltac:(lia)) as (t & Ht & Hg & Hok & Hno). exists t.
  destruct (puts_total P junk kvs t [] HP Hok) as (t' & Hp & Hok' & Hh); [lia| |done| |].
  - intros b Hb. assert (used (slots b) = []) as ->; [|done]. unfold new_table in Ht. destruct (2 ^ d =? 0); [done|]. injection Ht as <-.
    cbn [blocks] in Hb. apply list_elem_of_fmap in Hb as (i & -> & _). cbn. apply filter_none, Forall_forall.
    intros p [j Hj]%list_elem_of_lookup. intros Hp'. exact (Hp' (new_Pairs_lookup _ _ _ _ Hj)).
  - eapply Forall_impl; [exact Hf|]. cbn. intros p. rewrite app_nil_r. unfold followers.
    assert (rev kvs ≡ₚ kvs) as Hrev by (symmetry; apply Permutation_rev). by rewrite Hrev.
  - exists t'. split_and!; try done. intros k v. rewrite Hh. split; [intros [Hx|]; [by destruct (Hno k v)|done]|by right].
Qed.

(** A round that comes to a block of another pattern changes nothing. *)
Lemma Insert_foreign fuel junk t k v x id b :
  urem (hash k) (Z.of_nat (length (dir t))) = Some x -> dir t !! Z.to_nat x = Some id -> blocks t !! id = Some b ->
  sema b = 0 -> 0 <= local_depth b -> hash k mod 2 ^ local_depth b <> pattern b ->
  Insert (S fuel) junk t k v = Insert fuel junk t k v.
Proof.
  intros Hx Hid Hb Hs Hld Hpat. cbn [Insert]. fold (hash k). rewrite Hx, bind_ret, Hid, bind_ret, Hb, bind_ret.
  unfold Block_Insert. rewrite Hs. change (0 =? -1) with false. cbv iota. rewrite land_low by done.
  rewrite (proj2 (Z.eqb_neq _ _)) by done. cbn [negb]. rewrite bind_ret. rewrite store_Some by (by eapply lookup_lt_Some).
  rewrite bind_ret. change (-2 =? -1) with false. change (-2 =? -2) with true. cbv iota.
  rewrite list_insert_id by done. by destruct t.
Qed.

(** A capacity that is no power of two is not rejected, and an insertion need not return: in a table of three blocks a
    key whose hash is 2 modulo 3 is sent to the block of pattern 2, which takes hashes of one bit, and [Insert] calls
    itself for ever. *)
Theorem eh_capacity_three fuel junk k v :
  hash k mod 3 = 2 -> (t ← new_table junk 3; Insert fuel junk t k v) = None.
Proof.
  intros Hk. set (t := MkEH 1 [0; 1; 2]%nat ((fun i => set_pattern (new_Block junk 1) (Z.of_nat i)) <$> [0; 1; 2]%nat)).
  assert (new_table junk 3 = Some t) as -> by done.
  rewrite bind_ret. induction fuel as [|fuel IH]; [done|].
  rewrite (Insert_foreign _ _ _ _ _ 2 2 (set_pattern (new_Block junk 1) 2)); [exact IH| |done|done|done|cbn; lia|].
  - cbn [t dir length]. rewrite urem_pos by lia. change (Z.of_nat 3) with 3. by rewrite Hk.
  - cbn. pose proof (Z.mod_pos_bound (hash k) 2 ltac:(lia)). change (2 ^ 1) with 2. lia.
Qed.

End Tables.

(** ** Concrete runs *)

Section Examples.
#[local] Existing Instance plain_hash.
#[local] Transparent h kNumSlot.

Definition no_words : nat -> Value_t := fun _ => 0.

(** A table of two blocks with nothing in it. *)
Definition two_blocks : ExtendibleHash :=
  MkEH 1 [0; 1]%nat ((fun i => set_pattern (new_Block no_words 1) (Z.of_nat i)) <$> [0; 1]%nat).

Lemma two_blocks_maps : eh_maps two_blocks ∅.
Proof.
  destruct (eh_new_table_ok no_words 1) as (t & Ht & _ & Hok & Hempty); [lia|].
  change (Some two_blocks = Some t) in Ht. injection Ht as <-. split; [exact Hok|].
  intros k v. rewrite lookup_empty. split; [intros Hh; destruct (Hempty k v Hh)|done].
Qed.

Lemma eh_refines_map_witness :
  exists t', Insert 1 no_words two_blocks 5 7 = Some t' /\ Get t' 5 = Some 7 /\ Get t' 6 = Some NONE.
Proof.
  destruct (eh_refines_map no_words two_blocks ∅ 5 7 0 two_blocks_maps) as (t' & Hi & _ & Hg).
  - vm_compute. repeat split; discriminate.
  - apply lookup_empty.
  - lia.
  - cbn. lia.
  - vm_compute. lia.
  - exists t'. split; [exact Hi|]. split; [apply (Hg 5); vm_compute; discriminate|apply (Hg 6); vm_compute; discriminate].
Defined.

Lemma eh_well_typed_witness :
  exists t t', new_table no_words (2 ^ 1) = Some t /\ puts (S (Z.to_nat 8)) no_words t [(5, 7); (6, 8); (7, 9)] = Some t' /\ eh_ok t'
    /\ forall k v, holds t' k v <-> (k, v) ∈ [(5, 7); (6, 8); (7, 9)].
Proof.
  apply (eh_well_typed 8 no_words 1 [(5, 7); (6, 8); (7, 9)]); [lia|lia| |].
  - repeat (apply Forall_cons_2; [vm_compute; repeat split; discriminate|]). apply Forall_nil_2.
  - repeat (apply Forall_cons_2; [apply Nat.leb_le; vm_compute; reflexivity|]). apply Forall_nil_2.
Defined.

Lemma eh_capacity_three_witness : hash 5 mod 3 = 2 /\ (t ← new_table no_words 3; Insert 9 no_words t 5 7) = None.
Proof. split; [vm_compute; reflexivity|]. apply (eh_capacity_three 9 no_words 5 7). vm_compute. reflexivity. Defined.

End Examples.
