(* ===== verification/HotRing.v ===== *)
(** * The hot ring (server/hotring/hotring.c, hotring.h, list.h)

    A hash table whose buckets are rings of nodes, kept in the cyclic order of
    their tags.  The head pointer of a bucket may point to any node of its ring;
    [hotspot_shift] moves it to the node whose accesses would cost least, and
    asks for a larger table when they still cost too much.

    The heap has the [head] and the [hash_node] objects by address; address 0 is
    [NULL], and reading an object that is not there is an error.  [calloc]
    returns a new address.  The link of a node is a 48-bit address with a 14-bit
    counter in the same word; addresses fit 48 bits, and the two flags beside the
    counter are never set.  A walk around a ring that does not come back to its
    start is an error after as many steps as there are nodes.  The incomes of
    [do_hotspot_shift] are binary64 numbers. *)

From Stdlib Require Import SpecFloat.
From stdpp Require Import sorting.
From S2P Require Import Prelude.

Definition NBITS : Z := 10.
Definition INCOME_THRESHOLD : Z := 5.
Definition INTERVAL : Z := 10.
Definition EEXIST : Z := 17.
Definition LIST_POISON1 : Z := 0x100100.

Record list_head : Type := MkList { addr : Z; counter : Z }.
Record hash_node : Type := MkNode { list_ : list_head; tag : Z; key : Z; value : Z }.
Record head : Type := MkHead { haddr : Z; hcounter : Z; active : Z }.
Record hash : Type := MkHash { nbits : Z; kbits : Z; size_ : Z; slots : list Z }.

Record heap : Type := MkHeap {
  heads : gmap Z head;
  nodes : gmap Z hash_node;
  brk : Z;                        (** the next address of [calloc] *)
  nr_request : Z;
}.

Definition set_nodes (hp : heap) (ns : gmap Z hash_node) : heap := MkHeap (heads hp) ns (brk hp) (nr_request hp).
Definition set_heads (hp : heap) (hs : gmap Z head) : heap := MkHeap hs (nodes hp) (brk hp) (nr_request hp).
Definition set_requests (hp : heap) (n : Z) : heap := MkHeap (heads hp) (nodes hp) (brk hp) n.

(** An assignment through a pointer. *)
Definition on_node (hp : heap) (p : Z) (f : hash_node -> hash_node) : option heap :=
  nd ← nodes hp !! p; Some (set_nodes hp (<[p := f nd]> (nodes hp))).
Definition on_head (hp : heap) (p : Z) (f : head -> head) : option heap :=
  hd ← heads hp !! p; Some (set_heads hp (<[p := f hd]> (heads hp))).

Definition set_list (nd : hash_node) (l : list_head) : hash_node := MkNode l (tag nd) (key nd) (value nd).
Definition set_addr (nd : hash_node) (a : Z) : hash_node := set_list nd (MkList a (counter (list_ nd))).
Definition set_counter (nd : hash_node) (c : Z) : hash_node := set_list nd (MkList (addr (list_ nd)) c).

(** ** list.h *)

Definition INIT_LIST_HEAD (hp : heap) (p : Z) : option heap := on_node hp p (fun nd => set_list nd (MkList p 0)).

(** [new->next = next] copies the whole word, [prev->addr] keeps the counter. *)
Definition __list_add (hp : heap) (new prev : Z) (next : list_head) : option heap :=
  hp ← on_node hp new (fun nd => set_list nd next);
  on_node hp prev (fun nd => set_addr nd new).
Definition list_add (hp : heap) (new prev : Z) : option heap :=
  nd ← nodes hp !! prev; __list_add hp new prev (list_ nd).

Definition list_del (hp : heap) (prev entry : Z) : option heap :=
  nd ← nodes hp !! entry;
  hp ← on_node hp prev (fun p => set_addr p (addr (list_ nd)));
  on_node hp entry (fun e => set_list e (MkList LIST_POISON1 0)).

(** [list_for_each(pos, head) body]: [inl] goes on with a new state, [inr] leaves the loop. *)
Section ForEach.
Context {A R : Type} (body : heap -> A -> Z -> option (heap * (A + R))).

Fixpoint for_each (fuel : nat) (head pos : Z) (hp : heap) (s : A) : option (heap * (A + R)) :=
  match fuel with
  | O => None
  | S fuel =>
      if pos =? head then Some (hp, inl s) else
      '(hp, r) ← body hp s pos;
      match r with
      | inr x => Some (hp, inr x)
      | inl s => nd ← nodes hp !! pos; for_each fuel head (addr (list_ nd)) hp s
      end
  end.

Definition list_for_each (hp : heap) (head : Z) (s : A) : option (heap * (A + R)) :=
  nd ← nodes hp !! head;
  for_each (S (size (nodes hp))) head (addr (list_ nd)) hp s.

End ForEach.

(** ** Allocation *)

Definition head_alloc (hp : heap) : heap * Z :=
  (MkHeap (<[brk hp := MkHead 0 0 0]> (heads hp)) (nodes hp) (brk hp + 1) (nr_request hp), brk hp).
Definition hash_node_alloc (hp : heap) : heap * Z :=
  (MkHeap (heads hp) (<[brk hp := MkNode (MkList 0 0) 0 0 0]> (nodes hp)) (brk hp + 1) (nr_request hp), brk hp).

Definition hotring_alloc (nbits kbits : Z) : option hash :=
  if (0 <=? kbits) && (kbits <? 31) then
    Some (MkHash nbits kbits (2 ^ kbits) (replicate (Z.to_nat (2 ^ kbits)) 0))
  else None.

(** The index and the tag of a key; [1 << (n - k)] is an [int]. *)
Definition hashCode (h : hash) (k : Z) : option (Z * Z) :=
  let b := u64 (nbits h - kbits h) in
  if (nbits h <? 64) && (b <? 31) then
    let hash_value := k mod 2 ^ nbits h in
    Some (hash_value / 2 ^ b, hash_value mod 2 ^ b)
  else None.

Definition slot (h : hash) (index : Z) : option Z := slots h !! Z.to_nat index.
Definition set_slot (h : hash) (index p : Z) : option hash :=
  s ← store (slots h) (Z.to_nat index) p; Some (MkHash (nbits h) (kbits h) (size_ h) s).

Definition get_head_node_by_head_pointer (hp : heap) (head_pointer : Z) : option Z :=
  if head_pointer =? 0 then Some 0 else hd ← heads hp !! head_pointer; Some (haddr hd).

Definition __hotring_get_first (hp : heap) (h : hash) (index : Z) : option (option Z) :=
  s ← slot h index;
  if s =? 0 then Some None else nd ← get_head_node_by_head_pointer hp s; Some (Some nd).

(** ** Look-up *)

Inductive hotring_get_t : Type := GET_NOT_FOUND | GET_SUCCESS | GET_ACCESS_HOT | GET_ACCESS_COLD.

Definition stops (prev tmp k : Z) : bool :=
  ((prev <? k) && (k <? tmp)) || ((k <? tmp) && (tmp <? prev)) || ((tmp <? prev) && (prev <? k)).

Definition bump (nd : hash_node) : hash_node := set_counter nd (wrap 14 (counter (list_ nd) + 1)).

(** The body of the loop; [prev] is its state, the result a node and its predecessor. *)
Definition get_body (k : Z) (hp : heap) (prev p : Z) : option (heap * (Z + option (Z * Z))) :=
  tmp ← nodes hp !! p;
  if key tmp =? k then
    hp ← on_node hp p bump;
    Some (hp, inr (Some (p, prev)))
  else
    pnd ← nodes hp !! prev;
    if stops (key pnd) (key tmp) k then Some (hp, inr None) else Some (hp, inl p).

(** The answer with [*nodep], which is left alone when nothing is found, and [*prevp]. *)
Definition __hotring_get (hp : heap) (h : hash) (k : Z) : option (heap * (hotring_get_t * option Z * Z)) :=
  '(hashIndex, hashTag) ← hashCode h k;
  head_pointer ← slot h hashIndex;
  if head_pointer =? 0 then Some (hp, (GET_NOT_FOUND, None, 0)) else
  hp ← on_head hp head_pointer (fun hd => MkHead (haddr hd) (wrap 15 (hcounter hd + 1)) (active hd));
  head_node ← get_head_node_by_head_pointer hp head_pointer;
  nd ← nodes hp !! head_node;
  if key nd =? k then
    hp ← on_node hp head_node bump;
    Some (hp, (GET_ACCESS_HOT, Some head_node, 0))
  else
    '(hp, r) ← list_for_each (get_body k) hp head_node head_node;
    match r with
    | inr (Some (p, prev)) => Some (hp, (GET_ACCESS_COLD, Some p, prev))
    | _ => Some (hp, (GET_NOT_FOUND, None, 0))
    end.

Definition largest_body (hp : heap) (prev p : Z) : option (heap * (Z + Z)) :=
  pnd ← nodes hp !! prev;
  nd ← nodes hp !! p;
  if tag nd <? tag pnd then Some (hp, inr prev) else Some (hp, inl p).

Definition __hotring_get_largest (hp : heap) (h : hash) (hashIndex : Z) : option (option Z) :=
  s ← slot h hashIndex;
  if s =? 0 then Some None else
  head_node ← get_head_node_by_head_pointer hp s;
  '(_, r) ← list_for_each largest_body hp head_node head_node;
  Some (Some (match r with inl prev => prev | inr prev => prev end)).

(** ** Insertion *)

(** Does [t] go between two neighbours? *)
Definition fits (prev next t : Z) : bool :=
  ((next <? prev) && ((t <=? next) || (prev <? t))) || ((prev <? t) && (t <=? next)).

Definition create_body (node t : Z) (hp : heap) (prev p : Z) : option (heap * (Z + unit)) :=
  pnd ← nodes hp !! prev;
  nd ← nodes hp !! p;
  if fits (tag pnd) (tag nd) t then
    hp ← list_add hp node prev; Some (hp, inr tt)
  else Some (hp, inl p).

(** The new node is linked in where its tag fits, or after the last node. *)
Definition attach (hp : heap) (head_node node t : Z) : option heap :=
  '(hp, r) ← list_for_each (create_body node t) hp head_node head_node;
  match r with
  | inl prev => list_add hp node prev
  | inr _ => Some hp
  end.

Definition __hash_create (hp : heap) (h : hash) (index t : Z) : option (heap * hash * Z) :=
  head_pointer ← slot h index;
  '(hp, h, node) ←
    (if negb (head_pointer =? 0) then
       head_node ← get_head_node_by_head_pointer hp head_pointer;
       let '(hp, node) := hash_node_alloc hp in
       hp ← attach hp head_node node t;
       Some (hp, h, node)
     else
       let '(hp, head_pointer) := head_alloc hp in
       h ← set_slot h index head_pointer;
       let '(hp, node) := hash_node_alloc hp in
       hp ← INIT_LIST_HEAD hp node;
       hp ← on_head hp head_pointer (fun _ => MkHead node 0 0);
       Some (hp, h, node));
  hp ← on_node hp node (fun nd => set_counter nd 1);
  Some (hp, h, node).

Definition insert_entries (hp : heap) (node k t v : Z) : option (heap * Z) :=
  nd ← nodes hp !! node;
  if negb (value nd =? 0) then Some (hp, - EEXIST) else
  hp ← on_node hp node (fun nd => MkNode (list_ nd) t k v);
  Some (hp, 1).

Definition hotring_insert (hp : heap) (h : hash) (k v : Z) : option (heap * hash * Z) :=
  '(hashIndex, hashTag) ← hashCode h k;
  '(hp, h, node) ← __hash_create hp h hashIndex hashTag;
  '(hp, error) ← insert_entries hp node k hashTag v;
  Some (hp, h, if error <? 0 then error else 0).

(** ** Deletion *)

(** [free] of an object that is there. *)
Definition hotring_node_free (hp : heap) (p : Z) : option heap :=
  _ ← nodes hp !! p; Some (set_nodes hp (delete p (nodes hp))).
Definition hotring_head_free_by_index (hp : heap) (h : hash) (index : Z) : option (heap * hash) :=
  head_pointer ← slot h index;
  h ← set_slot h index 0;
  _ ← heads hp !! head_pointer;
  Some (set_heads hp (delete head_pointer (heads hp)), h).
Definition hotring_head_free (hp : heap) (h : hash) (k : Z) : option (heap * hash) :=
  '(hashIndex, _) ← hashCode h k;
  hotring_head_free_by_index hp h hashIndex.

(** [prev] is not initialised before the loop. *)
Definition last_body (hp : heap) (prev : option Z) (p : Z) : option (heap * (option Z + unit)) :=
  Some (hp, inl (Some p)).

Definition hotring_delete_head (hp : heap) (h : hash) (index : Z) : option (heap * hash * bool) :=
  head_pointer ← slot h index;
  head_node ← get_head_node_by_head_pointer hp head_pointer;
  nd ← nodes hp !! head_node;
  if (addr (list_ nd) =? head_node) && (counter (list_ nd) =? 0) then
    hp ← hotring_node_free hp head_node;
    '(hp, h) ← hotring_head_free_by_index hp h index;
    Some (hp, h, true)
  else
    let next_head_node := addr (list_ nd) in
    hp ← on_head hp head_pointer (fun _ => MkHead next_head_node 0 0);
    '(hp, r) ← list_for_each last_body hp head_node None;
    match r with
    | inl (Some prev) =>
        hp ← list_del hp prev head_node;
        hp ← hotring_node_free hp head_node;
        Some (hp, h, true)
    | _ => None
    end.

Definition hotring_delete (hp : heap) (h : hash) (k : Z) : option (heap * hash * bool) :=
  '(hp, (ret, target, prev)) ← __hotring_get hp h k;
  match ret, target with
  | GET_NOT_FOUND, _ => Some (hp, h, false)
  | _, None => None
  | _, Some target =>
      hp ← (if negb (prev =? 0) then list_del hp prev target else Some hp);
      hp ← hotring_node_free hp target;
      '(hp, h) ← (if prev =? 0 then hotring_head_free hp h k else Some (hp, h));
      Some (hp, h, true)
  end.

(** ** Rehashing *)

Definition show_body (hp : heap) (_ : unit) (p : Z) : option (heap * (unit + unit)) :=
  _ ← nodes hp !! p; Some (hp, inl tt).

(** [display] prints every node; what is left of it here are its reads. *)
Definition display (hp : heap) (h : hash) : option unit :=
  foldM (fun _ i =>
    r ← __hotring_get_first hp h (Z.of_nat i);
    match r with
    | Some node => '(hp, _) ← list_for_each show_body hp node tt; Some tt
    | None => Some tt
    end) (seq 0 (Z.to_nat (size_ h))) tt.

(** [i << bits] of an [int]. *)
Definition int_shift (i bits : Z) : option Z :=
  if (0 <=? bits) && (bits <? 32) && (i * 2 ^ bits <? 2 ^ 31) then Some (i * 2 ^ bits) else None.

(** A milestone of tag [t] in bucket [i] of the old table becomes the head of bucket [j] of the new one. *)
Definition milestone (hp : heap) (h new : hash) (i t k j : Z) : option (heap * hash * hash) :=
  '(hp, h, node) ← __hash_create hp h i t;
  '(hp, _) ← insert_entries hp node k t 0;
  let '(hp, head_pointer) := head_alloc hp in
  new ← set_slot new j head_pointer;
  hp ← on_head hp head_pointer (fun _ => MkHead node 0 0);
  Some (hp, h, new).

Definition rehash_init_step (bits halfTag : Z) (s : heap * hash * hash) (n : nat) : option (heap * hash * hash) :=
  let '(hp, h, new) := s in
  let i := Z.of_nat n in
  p ← slot h i;
  if p =? 0 then Some (hp, h, new) else
  base ← int_shift i bits;
  '(hp, h, new) ← milestone hp h new i halfTag (base + halfTag) (i * 2 + 1);
  milestone hp h new i 0 base (i * 2).

Definition hotring_rehash_init (hp : heap) (h : hash) : option (heap * hash * hash) :=
  let hash_tag_bits := nbits h - kbits h in
  if (0 <? hash_tag_bits) && (hash_tag_bits <? 64) then
    new ← hotring_alloc NBITS (kbits h + 1);
    foldM (rehash_init_step hash_tag_bits (2 ^ (hash_tag_bits - 1))) (seq 0 (Z.to_nat (size_ h))) (hp, h, new)
  else None.

(** [tail->list.next = &head->list]; a head that was not found is not initialised. *)
Definition relink (hp : heap) (tail : Z) (head : option Z) : option heap :=
  hd ← head; on_node hp tail (fun nd => set_list nd (MkList hd 0)).

Definition split_step (new : hash) (bits halfTag : Z) (hp : heap) (n : nat) : option heap :=
  let i := Z.of_nat n in
  p ← slot new i;
  if p =? 0 then Some hp else
  base ← int_shift i bits;
  '(hp, (_, ring1_head, ring2_tail)) ← __hotring_get hp new base;
  '(hp, (_, ring2_head, ring1_tail)) ← __hotring_get hp new (base + halfTag);
  hp ← relink hp ring1_tail ring1_head;
  relink hp ring2_tail ring2_head.

Definition drop_milestone (s : heap * hash) (n : nat) : option (heap * hash) :=
  let '(hp, new) := s in
  p ← slot new (Z.of_nat n);
  if p =? 0 then Some (hp, new) else
  '(hp, new, _) ← hotring_delete_head hp new (Z.of_nat n);
  Some (hp, new).

Definition hotring_rehash (hp : heap) (h : hash) : option (heap * hash) :=
  '(hp, h, new) ← hotring_rehash_init hp h;
  let hash_tag_bits := nbits h - kbits h in
  let idx := seq 0 (Z.to_nat (size_ new)) in
  hp ← foldM (split_step new hash_tag_bits (2 ^ (hash_tag_bits - 1))) idx hp;
  '(hp, new) ← foldM drop_milestone idx (hp, new);
  _ ← display hp new;
  Some (hp, new).

(** ** Moving the head *)

Inductive hotspot_shift_t : Type := SHIFT_REHASH | SHIFT_SUCCESS.

(** [double] *)
Definition dbl (z : Z) : spec_float := binary_normalize 53 1024 z 0 false.
Definition dadd : spec_float -> spec_float -> spec_float := SFadd 53 1024.
Definition dmul : spec_float -> spec_float -> spec_float := SFmul 53 1024.
Definition ddiv : spec_float -> spec_float -> spec_float := SFdiv 53 1024.

(** The counters of the nodes after the first are read and reset; the array has 100000 elements. *)
Definition collect_body (hp : heap) (cs : list Z) (p : Z) : option (heap * (list Z + unit)) :=
  tmp ← nodes hp !! p;
  if (length cs <? Z.to_nat 100000)%nat then
    hp ← on_node hp p (fun nd => set_counter nd 0);
    Some (hp, inl (cs ++ [counter (list_ tmp)]))
  else None.

Definition income (counters : list Z) (total_counter : Z) (t : nat) : spec_float :=
  let nr_node := Z.of_nat (length counters) in
  (fix go (i : Z) (cs : list Z) (acc : spec_float) : spec_float :=
     match cs with
     | [] => acc
     | c :: cs =>
         go (i + 1) cs
           (dadd acc (dmul (ddiv (dbl c) (dbl total_counter)) (dbl (Z.abs (Z.rem (i - Z.of_nat t) nr_node)))))
     end) 0 counters (S754_zero false).

(** [min_income], [nr_hottest] and [head_income] after the loop over [t]. *)
Definition hottest_step (counters : list Z) (total : Z) (s : spec_float * nat * spec_float) (t : nat)
  : spec_float * nat * spec_float :=
  let '(min_income, nr_hottest, head_income) := s in
  let inc := income counters total t in
  let head_income := if (t =? 0)%nat then inc else head_income in
  if SFltb inc min_income then (inc, t, head_income) else (min_income, nr_hottest, head_income).
Definition find_hottest (counters : list Z) (total : Z) : spec_float * nat * spec_float :=
  foldl (hottest_step counters total) (dbl 1000000000, 0%nat, S754_zero false) (seq 0 (length counters)).

Definition nth_body (nr_hottest : nat) (hp : heap) (i : nat) (p : Z) : option (heap * (nat + Z)) :=
  if (i =? nr_hottest)%nat then Some (hp, inr p) else Some (hp, inl (S i)).

(** The counter of the head and those of the nodes, which are reset. *)
Definition take_counters (hp : heap) (head_pointer head_node : Z) : option (heap * Z * list Z) :=
  hd ← heads hp !! head_pointer;
  hp ← on_head hp head_pointer (fun hd => MkHead (haddr hd) (hcounter hd) 1);
  let total_counter := hcounter hd in
  nd ← nodes hp !! head_node;
  hp ← on_node hp head_node (fun nd => set_counter nd 0);
  '(hp, r) ← list_for_each collect_body hp head_node [counter (list_ nd)];
  match r with
  | inl counters => Some (hp, total_counter, counters)
  | inr _ => None
  end.

(** The node at position [nr_hottest] becomes the head, unless the head is as good. *)
Definition install_hottest (hp : heap) (head_pointer head_node : Z) (min_income : spec_float) (nr_hottest : nat)
    (head_income : spec_float) : option (heap * hotspot_shift_t) :=
  if SFeqb min_income head_income then
    hp ← on_head hp head_pointer (fun hd => MkHead (haddr hd) 0 0);
    Some (hp, SHIFT_SUCCESS)
  else
    '(hp, r) ← list_for_each (nth_body nr_hottest) hp head_node 1%nat;
    let hottest := match r with inr p => p | inl _ => 0 end in
    hp ← on_head hp head_pointer (fun _ => MkHead hottest 0 0);
    if SFltb (dbl INCOME_THRESHOLD) min_income then Some (hp, SHIFT_REHASH) else
    hp ← on_head hp head_pointer (fun hd => MkHead (haddr hd) 0 0);
    Some (hp, SHIFT_SUCCESS).

Definition do_hotspot_shift (hp : heap) (head_pointer head_node : Z) : option (heap * hotspot_shift_t) :=
  '(hp, total_counter, counters) ← take_counters hp head_pointer head_node;
  let '(min_income, nr_hottest, head_income) := find_hottest counters total_counter in
  install_hottest hp head_pointer head_node min_income nr_hottest head_income.

Definition hotspot_shift (hp : heap) (h : hash) (index : Z) : option (heap * hash) :=
  head_pointer ← slot h index;
  head_node ← get_head_node_by_head_pointer hp head_pointer;
  '(hp, ret) ← do_hotspot_shift hp head_pointer head_node;
  match ret with
  | SHIFT_SUCCESS => Some (hp, h)
  | SHIFT_REHASH => hotring_rehash hp h
  end.

(** The new value of [*hashp], the result, [*nodep] and [*prevp]. *)
Definition hotring_get (hp : heap) (h : hash) (k : Z) : option (heap * hash * (Z * option Z * Z)) :=
  if nr_request hp =? 2 ^ 31 - 1 then None else
  let hp := set_requests hp (nr_request hp + 1) in
  '(hp, (ret, nodep, prevp)) ← __hotring_get hp h k;
  '(hashIndex, _) ← hashCode h k;
  match ret with
  | GET_NOT_FOUND => Some (hp, h, (0, nodep, prevp))
  | GET_SUCCESS | GET_ACCESS_HOT => Some (hp, h, (1, nodep, prevp))
  | GET_ACCESS_COLD =>
      if INTERVAL <=? nr_request hp then
        '(hp, h) ← hotspot_shift hp h hashIndex;
        Some (set_requests hp 0, h, (1, nodep, prevp))
      else Some (hp, h, (1, nodep, prevp))
  end.

(** ** The order of a ring

    [cyc a b c]: going around from [a] one meets [b] before [c]. *)

Definition cyc (a b c : Z) : Prop := a < b < c \/ b < c < a \/ c < a < b.

Definition ring_sorted (ks : list Z) : Prop :=
  match ks with
  | [] => True
  | k :: ks => StronglySorted (cyc k) ks
  end.

Lemma stops_cyc p t k : stops p t k = true <-> cyc p k t.
Proof. unfold stops, cyc. rewrite !orb_true_iff, !andb_true_iff, !Z.ltb_lt. lia. Qed.

Lemma fits_cyc p n t : t <> n -> p <> n -> p <> t -> fits p n t = true <-> cyc p t n.
Proof.
  intros. unfold fits, cyc. rewrite !orb_true_iff, !andb_true_iff, orb_true_iff, !Z.ltb_lt, !Z.leb_le. lia.
Qed.

Lemma cyc_rot a b c : cyc a b c <-> cyc b c a.
Proof. unfold cyc. lia. Qed.

Lemma cyc_total a b c : a <> b -> b <> c -> a <> c -> ~ cyc a b c -> cyc a c b.
Proof. unfold cyc. lia. Qed.

Lemma cyc_asym a b c : cyc a b c -> ~ cyc a c b.
Proof. unfold cyc. lia. Qed.

Lemma cyc_trans a b c d : cyc a b c -> cyc a c d -> cyc a b d.
Proof. unfold cyc. lia. Qed.

Lemma cyc_inner p t x y : cyc p t x -> cyc p t y -> cyc p x y -> cyc t x y.
Proof. unfold cyc. lia. Qed.

Lemma ring_sorted_tail p t ks : ring_sorted (p :: t :: ks) -> ring_sorted (t :: ks).
Proof.
  cbn. intros [Hs Ht]%StronglySorted_inv. induction Hs as [|x ks Hs IH Hx]; constructor.
  - apply IH. by apply Forall_cons in Ht as [_ Ht].
  - apply Forall_cons in Ht as [Htx Ht]. rewrite Forall_forall in Hx, Ht |- *. intros y Hy.
    apply (cyc_inner p); auto.
Qed.

(** The same ring from another node. *)
Lemma ring_sorted_step a b l : ring_sorted (a :: b :: l) -> ring_sorted (b :: l ++ [a]).
Proof.
  intros Hs. pose proof (ring_sorted_tail _ _ _ Hs) as Hs2. apply StronglySorted_inv in Hs as [_ Hb].
  cbn in *. apply StronglySorted_app. split_and!; [|done|repeat constructor].
  intros x y Hx ->%list_elem_of_singleton. rewrite Forall_forall in Hb. by apply (proj1 (cyc_rot a b x)), Hb.
Qed.

Lemma ring_sorted_rotate a l1 b l2 :
  ring_sorted (a :: l1 ++ b :: l2) -> ring_sorted (b :: l2 ++ a :: l1).
Proof.
  revert a l2. induction l1 as [|x l1 IH]; intros a l2 Hs; [by apply ring_sorted_step|].
  apply ring_sorted_step in Hs. rewrite <- app_assoc in Hs. apply IH in Hs. by rewrite <- app_assoc in Hs.
Qed.

(** ** Walks around a ring *)

(** The nodes of [l] point to one another in turn, the last to [last]. *)
Fixpoint linked (ns : gmap Z hash_node) (l : list Z) (last : Z) : Prop :=
  match l with
  | [] => True
  | a :: l => (exists nd, ns !! a = Some nd /\ addr (list_ nd) = hd last l) /\ linked ns l last
  end.

Lemma linked_app ns x y z : linked ns (x ++ y) z <-> linked ns x (hd z y) /\ linked ns y z.
Proof.
  induction x as [|a x IH]; cbn [app linked]; [tauto|]. rewrite IH.
  assert (hd z (x ++ y) = hd (hd z y) x) as -> by (by destruct x). tauto.
Qed.

Lemma linked_ext ns ns' l z :
  (forall a, a ∈ l -> ns' !! a = ns !! a) -> linked ns l z -> linked ns' l z.
Proof.
  induction l as [|a l IH]; intros Heq; cbn [linked]; [done|]. intros [(nd & Ha & Hn) Hl]. split.
  - exists nd. rewrite Heq by set_solver. done.
  - apply IH; [|done]. set_solver.
Qed.

Lemma linked_elem ns l z a : linked ns l z -> a ∈ l -> exists nd, ns !! a = Some nd.
Proof.
  induction l as [|b l IH]; cbn [linked]; intros Hl Ha; [by apply elem_of_nil in Ha|].
  destruct Hl as [(nd & Hb & _) Hl]. apply elem_of_cons in Ha as [->|Ha]; eauto.
Qed.

Lemma linked_size ns l z : linked ns l z -> NoDup l -> (length l <= size ns)%nat.
Proof.
  intros Hl Hnd. rewrite <- (size_dom ns), <- (size_list_to_set (C := gset Z) l Hnd).
  apply subseteq_size. intros a Ha%elem_of_list_to_set. destruct (linked_elem _ _ _ _ Hl Ha) as [nd Hn].
  by apply elem_of_dom_2 in Hn.
Qed.

(** What a loop over a list of nodes does. *)
Fixpoint run_list {A R} (body : heap -> A -> Z -> option (heap * (A + R))) (l : list Z) (hp : heap) (s : A)
  : option (heap * (A + R)) :=
  match l with
  | [] => Some (hp, inl s)
  | p :: l =>
      '(hp, r) ← body hp s p;
      match r with
      | inr x => Some (hp, inr x)
      | inl s => run_list body l hp s
      end
  end.

(** Counters aside, the nodes and the heads of a heap. *)
Definition erase (nd : hash_node) : hash_node := set_counter nd 0.
Definition view (hp : heap) : gmap Z hash_node := erase <$> nodes hp.

Lemma view_lookup hp a nd : view hp !! a = Some nd -> exists nd', nodes hp !! a = Some nd' /\ erase nd' = nd.
Proof. unfold view. rewrite lookup_fmap. intros (nd' & Hn & He)%fmap_Some. eauto. Qed.

Lemma lookup_view hp a nd : nodes hp !! a = Some nd -> view hp !! a = Some (erase nd).
Proof. unfold view. intros Hn. by rewrite lookup_fmap, Hn. Qed.

Lemma linked_view hp l z : linked (view hp) l z <-> linked (nodes hp) l z.
Proof.
  induction l as [|a l IH]; cbn [linked]; [done|]. rewrite IH. split; intros [(nd & Ha & Hn) Hl]; (split; [|done]).
  - apply view_lookup in Ha as (nd' & Ha & <-). by exists nd'.
  - apply lookup_view in Ha. by exists (erase nd).
Qed.

Lemma for_each_run {A R} (body : heap -> A -> Z -> option (heap * (A + R))) head l fuel hp s :
  (forall hp s p hp' s', body hp s p = Some (hp', inl s') -> view hp' = view hp) ->
  linked (view hp) l head -> head ∉ l -> (length l < fuel)%nat ->
  for_each body fuel head (hd head l) hp s = run_list body l hp s.
Proof.
  intros Hbody. revert fuel hp s. induction l as [|p l IH]; intros [|fuel] hp s Hl Hh Hfuel;
    cbn [length] in Hfuel; [lia| |lia|]; cbn [for_each hd run_list].
  { by rewrite Z.eqb_refl. }
  rewrite (proj2 (Z.eqb_neq p head)) by set_solver.
  destruct (body hp s p) as [[hp' [s'|x]]|] eqn:Hb; cbn [mbind option_bind]; [|done|done].
  apply Hbody in Hb. rewrite <- Hb in Hl. destruct Hl as [(nd & Hp & Hn) Hl].
  apply view_lookup in Hp as (nd' & -> & <-). cbn [mbind option_bind]. cbn in Hn. rewrite Hn.
  apply IH; [done|set_solver|lia].
Qed.

Lemma list_for_each_run {A R} (body : heap -> A -> Z -> option (heap * (A + R))) a l hp s :
  (forall hp s p hp' s', body hp s p = Some (hp', inl s') -> view hp' = view hp) ->
  linked (view hp) (a :: l) a -> NoDup (a :: l) ->
  list_for_each body hp a s = run_list body l hp s.
Proof.
  intros Hbody Hl Hnd. unfold list_for_each. pose proof (linked_size _ _ _ Hl Hnd) as Hsz.
  unfold view in Hsz. rewrite map_size_fmap in Hsz. cbn [length] in Hsz.
  destruct Hl as [(nd & Ha & Hn) Hl]. apply view_lookup in Ha as (nd' & -> & <-). cbn [mbind option_bind].
  cbn in Hn. rewrite Hn. apply NoDup_cons in Hnd as [Hh Hnd]. apply for_each_run; [done..|lia].
Qed.

(** The nodes at the addresses of a list. *)
Definition nodes_at (ns : gmap Z hash_node) (l : list Z) (nds : list hash_node) : Prop :=
  Forall2 (fun a nd => ns !! a = Some nd) l nds.

Lemma on_node_view hp p f hp' :
  on_node hp p f = Some hp' -> (forall nd, erase (f nd) = erase nd) ->
  view hp' = view hp /\ heads hp' = heads hp /\ brk hp' = brk hp /\ nr_request hp' = nr_request hp.
Proof.
  unfold on_node. intros Ho Hf. inv_bind Ho nd Hp. injection Ho as <-. split_and!; try done.
  unfold view. cbn [nodes set_nodes]. rewrite fmap_insert, Hf. apply insert_id. by rewrite lookup_fmap, Hp.
Qed.

Lemma get_body_view k hp prev p hp' r :
  get_body k hp prev p = Some (hp', r) ->
  view hp' = view hp /\ heads hp' = heads hp /\ brk hp' = brk hp /\ nr_request hp' = nr_request hp.
Proof.
  unfold get_body. intros Hb. inv_bind Hb tmp Ht. destruct (key tmp =? k).
  - inv_bind Hb hp1 Ho. injection Hb as <- <-. by apply on_node_view in Ho.
  - inv_bind Hb pnd Hp. destruct (stops _ _ _); by injection Hb as <- <-.
Qed.

(** The search finds a key of the ring, with its predecessor, and stops without it otherwise. *)
Lemma get_run k l : forall hp prev pnd nds,
  view hp !! prev = Some pnd -> nodes_at (view hp) l nds ->
  ring_sorted (key pnd :: (key <$> nds)) ->
  exists hp' r, run_list (get_body k) l hp prev = Some (hp', r)
    /\ view hp' = view hp /\ heads hp' = heads hp /\ brk hp' = brk hp /\ nr_request hp' = nr_request hp
    /\ match r with
       | inr (Some (a, p)) => exists l1 l2 nd, prev :: l = l1 ++ p :: a :: l2 /\ view hp !! a = Some nd /\ key nd = k
       | _ => k ∉ (key <$> nds)
       end.
Proof.
  induction l as [|a l IH]; intros hp prev pnd nds Hprev Hnds Hs.
  { apply Forall2_nil_inv_l in Hnds as ->. cbn [run_list]. eexists _, _. split_and!; [done..|].
    apply not_elem_of_nil. }
  apply Forall2_cons_inv_l in Hnds as (nd & nds' & Ha & Hnds & ->). cbn [run_list].
  pose proof (view_lookup _ _ _ Ha) as (nd' & Ha' & <-). pose proof (view_lookup _ _ _ Hprev) as (pnd' & Hp' & <-).
  destruct (get_body k hp prev a) as [[hp1 r]|] eqn:Hb; [|exfalso].
  2: { unfold get_body in Hb. rewrite Ha', Hp' in Hb. cbn [mbind option_bind] in Hb. unfold on_node in Hb. rewrite Ha' in Hb.
       cbn [mbind option_bind] in Hb. repeat case_match; done. }
  cbn [mbind option_bind]. pose proof (get_body_view _ _ _ _ _ _ Hb) as (Hv & Hh & Hbr & Hnr).
  unfold get_body in Hb. rewrite Ha', Hp' in Hb. cbn [mbind option_bind] in Hb.
  destruct (Z.eqb_spec (key nd') k) as [Hk|Hk].
  - inv_bind Hb hp2 Ho. injection Hb as <- <-. eexists _, _. split_and!; [done..|].
    exists [], l, (erase nd'). done.
  - destruct (stops _ _ _) eqn:Hst; injection Hb as <- <-.
    + eexists _, _. split_and!; [done..|]. apply stops_cyc in Hst. cbn in Hs. apply StronglySorted_inv in Hs as [_ Hall].
      cbn. intros [->|Hin]%elem_of_cons; [done|]. rewrite Forall_forall in Hall. apply Hall in Hin.
      by apply cyc_asym in Hin.
    + destruct (IH hp a (erase nd') nds' Ha Hnds (ring_sorted_tail _ _ _ Hs))
        as (hp' & r & Hrun & Hv' & Hh' & Hb' & Hn' & Hr).
      exists hp', r. split_and!; [done..|]. destruct r as [x|[[b p]|]].
      * cbn. by intros [->|Hin]%elem_of_cons.
      * destruct Hr as (l1 & l2 & nd & Heq & Hb2 & Hkb). exists (prev :: l1), l2, nd. by rewrite Heq.
      * cbn. by intros [->|Hin]%elem_of_cons.
Qed.

(** The place of a new tag: after the nodes one meets before it, from the head [ta] on. *)
Lemma create_run node t ta l : forall hp prev pnd nds,
  view hp !! prev = Some pnd -> nodes_at (view hp) l nds ->
  (tag pnd = ta \/ cyc ta (tag pnd) t /\ Forall (cyc ta (tag pnd)) (tag <$> nds)) ->
  StronglySorted (cyc ta) (tag <$> nds) -> t <> ta -> t ∉ (tag <$> nds) ->
  Forall (fun x => x <> ta) (tag <$> nds) ->
  exists l1 l2 nds1 nds2, l = l1 ++ l2 /\ nds = nds1 ++ nds2 /\ length l1 = length nds1
    /\ Forall (fun nd => cyc ta (tag nd) t) nds1 /\ Forall (fun nd => cyc ta t (tag nd)) nds2
    /\ run_list (create_body node t) l hp prev =
       match l2 with
       | [] => Some (hp, inl (List.last l1 prev))
       | _ => hp ← list_add hp node (List.last l1 prev); Some (hp, inr tt)
       end.
Proof.
  induction l as [|a l IH]; intros hp prev pnd nds Hprev Hnds Hp Hs Ht Hout Hne.
  { apply Forall2_nil_inv_l in Hnds as ->. exists [], [], [], []. split_and!; (done || constructor). }
  apply Forall2_cons_inv_l in Hnds as (nd & nds' & Ha & Hnds & ->). cbn [run_list].
  pose proof (view_lookup _ _ _ Ha) as (nd' & Ha' & He). pose proof (view_lookup _ _ _ Hprev) as (pnd' & Hp' & Hpe).
  assert (tag nd' = tag nd /\ tag pnd' = tag pnd) as [Htn Htp] by (by subst).
  assert (create_body node t hp prev a = if fits (tag pnd) (tag nd) t
    then hp ← list_add hp node prev; Some (hp, inr tt) else Some (hp, inl a)) as ->.
  { unfold create_body. rewrite Ha', Hp'. cbn [mbind option_bind]. by rewrite Htn, Htp. }
  cbn in Hs, Hout, Hne. apply StronglySorted_inv in Hs as [Hs Hall]. apply not_elem_of_cons in Hout as [Htn' Hout].
  apply Forall_cons in Hne as [Hna Hne].
  assert (tag pnd <> tag nd /\ tag pnd <> t) as [Hpn Hpt].
  { destruct Hp as [->|[Hc Hf]]; [lia|]. cbn in Hf. apply Forall_cons in Hf as [Hf _]. unfold cyc in *. lia. }
  destruct (fits (tag pnd) (tag nd) t) eqn:Hfit.
  - apply fits_cyc in Hfit; [|done..]. exists [], (a :: l), [], (nd :: nds'). split_and!; try done.
    + assert (cyc ta t (tag nd)) as Hc.
      { destruct Hp as [<-|[Hc Hf]]; [done|]. apply Forall_cons in Hf as [Hf _]. unfold cyc in *. lia. }
      constructor; [done|]. rewrite Forall_fmap in Hall. rewrite Forall_forall in Hall |- *. intros x Hx.
      apply (cyc_trans _ _ _ _ Hc). by apply Hall.
    + cbn [List.last]. by destruct (list_add hp node prev).
  - assert (cyc ta (tag nd) t) as Hc.
    { assert (~ cyc (tag pnd) t (tag nd)) as Hn by (rewrite <- fits_cyc by done; by rewrite Hfit).
      destruct Hp as [<-|[Hc Hf]]; [by apply cyc_total in Hn|]. apply Forall_cons in Hf as [Hf _].
      unfold cyc in *. lia. }
    destruct (IH hp a nd nds' Ha Hnds) as (l1 & l2 & n1 & n2 & -> & -> & Hlen & H1 & H2 & Hrun); try done.
    { right. done. }
    exists (a :: l1), l2, (nd :: n1), n2. split_and!; try done.
    + cbn. lia.
    + by constructor.
    + cbn [mbind option_bind]. rewrite Hrun.
      assert (List.last (a :: l1) prev = List.last l1 a) as ->.
      { destruct l1 as [|b l1] using rev_ind; [done|]. rewrite app_comm_cons, !List.last_last. done. }
      done.
Qed.

(** ** Tables that stand for a finite map *)

Definition hview (hp : heap) : gmap Z Z := haddr <$> heads hp.

(** A ring of bucket [i], from its head: its nodes are linked, carry the tags of their keys, and are in order. *)
Definition node_ok (b : Z) (i : nat) (nd : hash_node) : Prop :=
  0 <= key nd < 2 ^ NBITS /\ key nd / 2 ^ b = Z.of_nat i /\ tag nd = key nd mod 2 ^ b.

Definition ring_ok (ns : gmap Z hash_node) (b : Z) (i : nat) (r : list Z) : Prop :=
  NoDup r /\ linked ns r (hd 0 r) /\
  exists nds, nodes_at ns r nds /\ Forall (node_ok b i) nds /\ ring_sorted (key <$> nds) /\ NoDup (key <$> nds).

Definition slot_ok (hs : gmap Z Z) (p : Z) (r : list Z) : Prop :=
  match r with
  | [] => p = 0
  | a :: _ => p <> 0 /\ hs !! p = Some a
  end.

Definition ring_holds (ns : gmap Z hash_node) (r : list Z) (k v : Z) : Prop :=
  exists a nd, a ∈ r /\ ns !! a = Some nd /\ key nd = k /\ value nd = v.

Definition tag_bits (h : hash) : Z := nbits h - kbits h.
Definition index_of (h : hash) (k : Z) : nat := Z.to_nat (k / 2 ^ tag_bits h).

Record rep (hp : heap) (h : hash) (rings : list (list Z)) (m : gmap Z Z) : Prop := {
  rp_bits : nbits h = NBITS /\ 0 <= kbits h <= NBITS /\ size_ h = 2 ^ kbits h;
  rp_slots : length (slots h) = Z.to_nat (2 ^ kbits h);
  rp_rings : length rings = Z.to_nat (2 ^ kbits h);
  rp_bucket : forall i p r, slots h !! i = Some p -> rings !! i = Some r ->
    slot_ok (hview hp) p r /\ ring_ok (view hp) (tag_bits h) i r;
  rp_apart : forall i j r r' a, rings !! i = Some r -> rings !! j = Some r' -> a ∈ r -> a ∈ r' -> i = j;
  rp_heads : forall i j p, slots h !! i = Some p -> slots h !! j = Some p -> p <> 0 -> i = j;
  rp_fresh : 0 < brk hp /\ forall a, is_Some (view hp !! a) \/ is_Some (hview hp !! a) -> 0 < a < brk hp;
  rp_keys : forall a nd, view hp !! a = Some nd -> 0 <= key nd < 2 ^ NBITS;
  rp_map : forall k v, m !! k = Some v <-> exists r, rings !! index_of h k = Some r /\ ring_holds (view hp) r k v;
}.

(** Only the counters differ. *)
Lemma rep_same hp hp' h rings m :
  view hp' = view hp -> hview hp' = hview hp -> brk hp' = brk hp -> rep hp h rings m -> rep hp' h rings m.
Proof. intros Hv Hh Hb []. split; rewrite ?Hv, ?Hh, ?Hb; done. Qed.

Lemma ring_ok_ext ns ns' b i r : (forall a, a ∈ r -> ns' !! a = ns !! a) -> ring_ok ns b i r -> ring_ok ns' b i r.
Proof.
  intros Heq (Hnd & Hl & nds & Hn & Hrest). split_and!; [done|by apply (linked_ext ns)|].
  exists nds. split; [|done]. unfold nodes_at in *. apply Forall2_same_length_lookup. 
  apply Forall2_same_length_lookup in Hn as [Hlen Hn]. split; [done|]. intros j a nd Ha Hj.
  rewrite Heq by (by eapply list_elem_of_lookup_2). eauto.
Qed.

Lemma ring_holds_ext ns ns' r k v :
  (forall a, a ∈ r -> ns' !! a = ns !! a) -> ring_holds ns r k v -> ring_holds ns' r k v.
Proof. intros Heq (a & nd & Ha & Hn & Hr). exists a, nd. rewrite Heq by done. done. Qed.

(** One bucket of the table changes; its nodes are old ones or new. *)
Lemma rep_update hp h rings m hp' i r p r' p' m' :
  rep hp h rings m -> rings !! i = Some r -> slots h !! i = Some p ->
  slot_ok (hview hp') p' r' -> ring_ok (view hp') (tag_bits h) i r' ->
  (forall a, a ∈ r' -> a ∈ r \/ brk hp <= a) -> (p' = 0 \/ p' = p \/ brk hp <= p') ->
  (forall a, a < brk hp -> a ∉ r -> view hp' !! a = view hp !! a) ->
  (forall q, q < brk hp -> q <> p -> hview hp' !! q = hview hp !! q) ->
  brk hp <= brk hp' ->
  (forall a, is_Some (view hp' !! a) \/ is_Some (hview hp' !! a) -> 0 < a < brk hp') ->
  (forall a nd, view hp' !! a = Some nd -> 0 <= key nd < 2 ^ NBITS) ->
  (forall k, index_of h k <> i -> m' !! k = m !! k) ->
  (forall k v, index_of h k = i -> m' !! k = Some v <-> ring_holds (view hp') r' k v) ->
  rep hp' (MkHash (nbits h) (kbits h) (size_ h) (<[i := p']> (slots h))) (<[i := r']> rings) m'.
Proof.
  intros Hrep Hr Hp Hslot Hring Hnew Hp' Hv Hh Hbrk Hfresh Hkeys Hother Hhere.
  pose proof (lookup_lt_Some _ _ _ Hr) as Hri. pose proof (lookup_lt_Some _ _ _ Hp) as Hpi.
  destruct Hrep as [Hbits Hsl Hrg Hbk Hap Hhd [Hb0 Hfr] Hks Hmap].
  assert (forall j r1 a, rings !! j = Some r1 -> a ∈ r1 -> 0 < a < brk hp) as Hold.
  { intros j r1 a Hj Ha. destruct (lookup_lt_is_Some_2 (slots h) j) as [q Hq];
      [rewrite Hsl, <- Hrg; by eapply lookup_lt_Some|].
    destruct (Hbk j q r1 Hq Hj) as [_ (_ & Hl & _)]. destruct (linked_elem _ _ _ _ Hl Ha) as [nd Hn]. eauto. }
  assert (forall j r1 a, j <> i -> rings !! j = Some r1 -> a ∈ r1 -> view hp' !! a = view hp !! a) as Hsame.
  { intros j r1 a Hj Hr1 Ha. pose proof (Hold _ _ _ Hr1 Ha). apply Hv; [lia|]. intros Har.
    by apply Hj, (Hap j i r1 r a). }
  split; cbn [nbits kbits size_ slots]; [done|by rewrite length_insert..| | | |split; [lia|done]|done|].
  - intros j q r1 Hq Hr1. destruct (decide (j = i)) as [->|Hji].
    { rewrite list_lookup_insert_eq in Hq by done. rewrite list_lookup_insert_eq in Hr1 by done. by simplify_eq. }
    rewrite list_lookup_insert_ne in Hq by done. rewrite list_lookup_insert_ne in Hr1 by done. destruct (Hbk j q r1 Hq Hr1) as [Hs Hrr]. split.
    + destruct r1 as [|a l]; [done|]. destruct Hs as [Hq0 Hqa]. split; [done|].
      rewrite Hh; [done| |intros ->; by apply Hji, (Hhd j i p)].
      apply Hfr. right. eauto.
    + apply (ring_ok_ext (view hp)); [|done]. intros a Ha. by apply (Hsame j r1).
  - assert (forall j r1 a, j <> i -> rings !! j = Some r1 -> a ∈ r1 -> a ∈ r' -> False) as Hx.
    { intros j r1 a Hj Hr1 Ha Ha'. destruct (Hnew a Ha') as [Har|Hge].
      - by apply Hj, (Hap j i r1 r a).
      - pose proof (Hold _ _ _ Hr1 Ha). lia. }
    intros j1 j2 r1 r2 a Hr1 Hr2 Ha1 Ha2.
    destruct (decide (j1 = i)) as [->|H1]; destruct (decide (j2 = i)) as [->|H2]; try done.
    + rewrite list_lookup_insert_eq in Hr1 by done. rewrite list_lookup_insert_ne in Hr2 by done.
      simplify_eq. by destruct (Hx j2 r2 a).
    + rewrite list_lookup_insert_eq in Hr2 by done. rewrite list_lookup_insert_ne in Hr1 by done.
      simplify_eq. by destruct (Hx j1 r1 a).
    + rewrite list_lookup_insert_ne in Hr1 by done. rewrite list_lookup_insert_ne in Hr2 by done. eauto.
  - assert (forall j q, j <> i -> slots h !! j = Some q -> q <> 0 -> q = p' -> False) as Hx.
    { intros j q Hj Hq Hq0 ->. destruct Hp' as [->|[->|Hge]]; [done|by apply Hj, (Hhd j i p)|].
      destruct (lookup_lt_is_Some_2 rings j) as [r1 Hr1]; [rewrite Hrg, <- Hsl; by eapply lookup_lt_Some|].
      destruct (Hbk j p' r1 Hq Hr1) as [Hs _]. destruct r1 as [|a l]; [done|]. destruct Hs as [_ Hs].
      assert (0 < p' < brk hp) by eauto. lia. }
    intros j1 j2 q Hq1 Hq2 Hq0.
    destruct (decide (j1 = i)) as [->|H1]; destruct (decide (j2 = i)) as [->|H2]; try done.
    + rewrite list_lookup_insert_eq in Hq1 by done. rewrite list_lookup_insert_ne in Hq2 by done.
      simplify_eq. by destruct (Hx j2 q).
    + rewrite list_lookup_insert_eq in Hq2 by done. rewrite list_lookup_insert_ne in Hq1 by done.
      simplify_eq. by destruct (Hx j1 q).
    + rewrite list_lookup_insert_ne in Hq1 by done. rewrite list_lookup_insert_ne in Hq2 by done. eauto.
  - intros k v. change (index_of (MkHash _ _ _ _) k) with (index_of h k).
    destruct (decide (index_of h k = i)) as [Hi|Hi].
    + rewrite (Hhere k v Hi), Hi, list_lookup_insert_eq by done. naive_solver.
    + rewrite Hother, Hmap, list_lookup_insert_ne by done. split; intros (r1 & Hr1 & Hh1); exists r1; (split; [done|]).
      * apply (ring_holds_ext (view hp)); [|done]. intros a Ha. by apply (Hsame (index_of h k) r1).
      * apply (ring_holds_ext (view hp')); [|done]. intros a Ha. symmetry. by apply (Hsame (index_of h k) r1).
Qed.

(** ** Look-up *)

Lemma hashCode_ok h k :
  nbits h = NBITS -> 0 <= kbits h <= NBITS -> 0 <= k < 2 ^ NBITS ->
  hashCode h k = Some (Z.of_nat (index_of h k), k mod 2 ^ tag_bits h)
  /\ (index_of h k < Z.to_nat (2 ^ kbits h))%nat /\ k / 2 ^ tag_bits h = Z.of_nat (index_of h k).
Proof.
  intros Hn Hk Hr. unfold hashCode, index_of, tag_bits. rewrite Hn. unfold NBITS in *.
  assert (0 < 2 ^ (10 - kbits h)) as Hpos by (apply pow_pos; lia).
  assert (0 <= k / 2 ^ (10 - kbits h)) by (apply Z.div_pos; lia).
  assert (k / 2 ^ (10 - kbits h) < 2 ^ kbits h).
  { apply Z.div_lt_upper_bound; [lia|]. rewrite <- Z.pow_add_r by lia.
    replace (10 - kbits h + kbits h) with 10 by lia. lia. }
  rewrite (wrap_small 64) by lia. rewrite (Z.mod_small k (2 ^ 10)) by lia.
  rewrite (proj2 (Z.ltb_lt (10 - kbits h) 31)) by lia. cbn [andb Z.ltb Z.compare].
  rewrite Z2Nat.id by lia. split_and!; [done| |done]. apply Z2Nat.inj_lt; lia.
Qed.

Lemma hview_lookup hp p a : hview hp !! p = Some a -> exists hd, heads hp !! p = Some hd /\ haddr hd = a.
Proof. unfold hview. rewrite lookup_fmap. intros (hd & Hp & He)%fmap_Some. eauto. Qed.

Lemma on_head_view hp p hd f :
  heads hp !! p = Some hd -> exists hp', on_head hp p f = Some hp'
    /\ view hp' = view hp /\ hview hp' = <[p := haddr (f hd)]> (hview hp) /\ brk hp' = brk hp
    /\ nr_request hp' = nr_request hp /\ heads hp' = <[p := f hd]> (heads hp) /\ nodes hp' = nodes hp.
Proof.
  intros Hp. unfold on_head. rewrite Hp. cbn [mbind option_bind]. eexists. split_and!; try done.
  unfold hview. cbn [heads set_heads]. apply fmap_insert.
Qed.

Lemma on_node_ok hp p nd f :
  nodes hp !! p = Some nd -> exists hp', on_node hp p f = Some hp'
    /\ view hp' = <[p := erase (f nd)]> (view hp) /\ heads hp' = heads hp /\ brk hp' = brk hp
    /\ nr_request hp' = nr_request hp /\ nodes hp' = <[p := f nd]> (nodes hp).
Proof.
  intros Hp. unfold on_node. rewrite Hp. cbn [mbind option_bind]. eexists. split_and!; try done.
  unfold view. cbn [nodes set_nodes]. apply fmap_insert.
Qed.

(** What a look-up may find in a bucket. *)
Definition found (ns : gmap Z hash_node) (r : list Z) (k : Z) (ret : hotring_get_t) (nodep : option Z) (prevp : Z) : Prop :=
  match ret with
  | GET_NOT_FOUND => nodep = None /\ prevp = 0 /\ forall v, ~ ring_holds ns r k v
  | GET_SUCCESS => False
  | GET_ACCESS_HOT => prevp = 0 /\ exists a l nd, r = a :: l /\ nodep = Some a /\ ns !! a = Some nd /\ key nd = k
  | GET_ACCESS_COLD => exists l1 l2 a nd, r = l1 ++ prevp :: a :: l2 /\ nodep = Some a /\ ns !! a = Some nd /\ key nd = k
  end.

Lemma ring_absent ns b i r k nds v :
  nodes_at ns r nds -> Forall (node_ok b i) nds -> k ∉ (key <$> nds) -> ~ ring_holds ns r k v.
Proof.
  intros Hn _ Hk (a & nd & Ha & Hnd & Hkey & _). apply Hk. apply list_elem_of_lookup in Ha as [j Ha].
  destruct (Forall2_lookup_l _ _ _ _ _ Hn Ha) as (nd' & Hj & Hnd'). assert (nd' = nd) as -> by congruence.
  apply list_elem_of_fmap. exists nd. split; [done|]. by eapply list_elem_of_lookup_2.
Qed.

Lemma hotring_get_bucket hp h rings m k :
  rep hp h rings m -> 0 <= k < 2 ^ NBITS ->
  exists hp' ret nodep prevp r, __hotring_get hp h k = Some (hp', (ret, nodep, prevp))
    /\ view hp' = view hp /\ hview hp' = hview hp /\ brk hp' = brk hp /\ nr_request hp' = nr_request hp
    /\ rings !! index_of h k = Some r /\ found (view hp) r k ret nodep prevp.
Proof.
  intros Hrep Hk. destruct (rp_bits _ _ _ _ Hrep) as (Hn & Hkb & _).
  destruct (hashCode_ok h k Hn Hkb Hk) as (Hhc & Hi & _). unfold __hotring_get. rewrite Hhc. cbn [mbind option_bind].
  destruct (lookup_lt_is_Some_2 (slots h) (index_of h k)) as [p Hp]; [by rewrite (rp_slots _ _ _ _ Hrep)|].
  destruct (lookup_lt_is_Some_2 rings (index_of h k)) as [r Hr]; [by rewrite (rp_rings _ _ _ _ Hrep)|].
  unfold slot. rewrite Nat2Z.id, Hp. cbn [mbind option_bind].
  destruct (rp_bucket _ _ _ _ Hrep _ _ _ Hp Hr) as [Hslot (Hnd & Hl & nds & Hnds & Hok & Hs & _)].
  destruct r as [|a l].
  { cbn [slot_ok] in Hslot. subst p. cbn [Z.eqb]. eexists _, _, _, _, _. split_and!; try done.
    cbn. split_and!; [done..|]. intros v (a & nd & Ha & _). by apply elem_of_nil in Ha. }
  destruct Hslot as [Hp0 Hpa]. rewrite (proj2 (Z.eqb_neq p 0) Hp0).
  destruct (hview_lookup _ _ _ Hpa) as (hdr & Hhd & Hha).
  destruct (on_head_view hp p hdr (fun hd => MkHead (haddr hd) (wrap 15 (hcounter hd + 1)) (active hd)) Hhd)
    as (hp1 & -> & Hv1 & Hh1 & Hb1 & Hn1 & Hheads1 & Hnodes1). cbn [mbind option_bind].
  assert (hview hp1 = hview hp) as Hhv1 by (rewrite Hh1; apply insert_id; cbn; by rewrite Hha).
  unfold get_head_node_by_head_pointer. rewrite (proj2 (Z.eqb_neq p 0) Hp0).
  rewrite Hheads1, lookup_insert_eq. cbn [mbind option_bind haddr]. rewrite Hha.
  apply Forall2_cons_inv_l in Hnds as (nd & nds' & Ha & Hnds & ->).
  pose proof (view_lookup _ _ _ Ha) as (nd' & Ha' & He). rewrite Hnodes1, Ha'. cbn [mbind option_bind].
  assert (key nd' = key nd) as -> by (by subst). destruct (Z.eqb_spec (key nd) k) as [Hkey|Hkey].
  - destruct (on_node hp1 a bump) as [hp2|] eqn:Ho; [|by unfold on_node in Ho; rewrite Hnodes1, Ha' in Ho].
    apply on_node_view in Ho as (Hv2 & Hh2 & Hb2 & Hn2); [|done]. cbn [mbind option_bind].
    assert (hview hp2 = hview hp) as Hhv2 by (unfold hview in *; by rewrite Hh2).
    eexists _, _, _, _, _. split_and!; [done|congruence|exact Hhv2|congruence|congruence|exact Hr|].
    cbn. split; [done|]. exists a, l, nd. done.
  - rewrite (list_for_each_run (get_body k) a l); [| |by rewrite Hv1|done].
    2: { intros ????? Hb. by apply get_body_view in Hb as [Hb _]. }
    destruct (get_run k l hp1 a nd nds') as (hp2 & res & -> & Hv2 & Hh2 & Hb2 & Hn2 & Hres);
      [by rewrite Hv1..|done|]. cbn [mbind option_bind].
    assert (hview hp2 = hview hp) as Hhv2 by (unfold hview in *; by rewrite Hh2).
    assert (k ∉ (key <$> nds') -> forall v, ~ ring_holds (view hp) (a :: l) k v) as Habs.
    { intros Hk' v. apply (ring_absent _ (tag_bits h) (index_of h k) _ _ (nd :: nds')); [by constructor|done|].
      cbn. by intros [->|?]%elem_of_cons. }
    destruct res as [x|[[b q]|]]; (eexists _, _, _, _, _; split_and!; [done|congruence|exact Hhv2|congruence|congruence|exact Hr|]).
    + cbn. eauto.
    + destruct Hres as (l1 & l2 & nb & Heq & Hb & Hkb'). exists l1, l2, b, nb. by rewrite <- Hv1.
    + cbn. eauto.
Qed.

(** ** Insertion *)

Lemma cyc_shift c x y z : cyc (c + x) (c + y) (c + z) <-> cyc x y z.
Proof. unfold cyc. lia. Qed.

Lemma ring_sorted_shift c ts : ring_sorted ((fun x => c + x) <$> ts) <-> ring_sorted ts.
Proof.
  destruct ts as [|t ts]; [done|]. cbn. induction ts as [|u ts IH]; cbn; [split; constructor|].
  split; intros [Hs Hall]%StronglySorted_inv; constructor; try (by apply IH).
  - rewrite Forall_fmap in Hall. eapply Forall_impl; [exact Hall|]. intros x. apply cyc_shift.
  - rewrite Forall_fmap. eapply Forall_impl; [exact Hall|]. intros x. apply cyc_shift.
Qed.

Lemma node_ok_key b i nd : 0 <= b -> node_ok b i nd -> key nd = 2 ^ b * Z.of_nat i + tag nd.
Proof. intros Hb (_ & <- & ->). apply Z.div_mod. apply Z.pow_nonzero; lia. Qed.

(** The nodes of a bucket are in the order of their tags as in that of their keys. *)
Lemma ring_sorted_tags b i nds :
  0 <= b -> Forall (node_ok b i) nds ->
  ring_sorted (key <$> nds) /\ NoDup (key <$> nds) <-> ring_sorted (tag <$> nds) /\ NoDup (tag <$> nds).
Proof.
  intros Hb Hok. assert (key <$> nds = (fun x => 2 ^ b * Z.of_nat i + x) <$> (tag <$> nds)) as ->.
  { rewrite <- list_fmap_compose. apply list_fmap_ext. intros j nd Hj. apply (node_ok_key b i nd Hb).
    by eapply Forall_lookup_1. }
  rewrite ring_sorted_shift. apply and_iff_compat_l. apply NoDup_fmap. intros x y. lia.
Qed.

Lemma linked_insert ns ns' x pred l2 z pn node nn :
  linked ns (x ++ pred :: l2) z -> ns !! pred = Some pn ->
  ns' !! pred = Some (set_addr pn node) -> ns' !! node = Some nn -> addr (list_ nn) = addr (list_ pn) ->
  (forall y, y ∈ x ++ l2 -> ns' !! y = ns !! y) ->
  linked ns' (x ++ pred :: node :: l2) z.
Proof.
  intros Hl Hp Hp' Hn Ha Hsame. apply linked_app in Hl as [Hx [(pn' & Hpn & Hadr) Hl2]].
  assert (pn' = pn) as -> by congruence. apply linked_app. split; [|cbn [linked hd]; split_and!].
  - apply (linked_ext ns); [set_solver|done].
  - by exists (set_addr pn node).
  - exists nn. by rewrite Ha.
  - apply (linked_ext ns); [set_solver|done].
Qed.

(** The new node between the nodes before it and those after it. *)
Lemma ring_sorted_insert ta ts1 t ts2 :
  StronglySorted (cyc ta) (ts1 ++ ts2) -> Forall (fun x => cyc ta x t) ts1 -> Forall (fun x => cyc ta t x) ts2 ->
  StronglySorted (cyc ta) (ts1 ++ t :: ts2).
Proof.
  intros (Hc & H1 & H2)%StronglySorted_app Hb Ha. rewrite Forall_forall in Hb, Ha. apply StronglySorted_app. split_and!.
  - intros x y Hx [->|Hy]%elem_of_cons; auto.
  - done.
  - constructor; [done|]. by apply Forall_forall.
Qed.

(** The tags of the nodes of a bucket. *)
Definition tags_at (ns : gmap Z hash_node) (b : Z) (i : nat) (r ts : list Z) : Prop :=
  Forall2 (fun a t => exists nd, ns !! a = Some nd /\ node_ok b i nd /\ tag nd = t) r ts.

Lemma tags_at_nodes ns b i r ts :
  tags_at ns b i r ts <-> exists nds, nodes_at ns r nds /\ Forall (node_ok b i) nds /\ ts = tag <$> nds.
Proof.
  split.
  - induction 1 as [|a t r ts (nd & Ha & Hok & Ht) _ (nds & Hn & Hf & ->)]; [by exists []; repeat constructor|].
    exists (nd :: nds). split_and!; [by constructor|by constructor|by rewrite <- Ht].
  - intros (nds & Hn & Hf & ->). induction Hn as [|a nd r nds Ha _ IH]; cbn; constructor.
    + exists nd. by apply Forall_cons in Hf as [? _].
    + apply IH. by apply Forall_cons in Hf as [_ ?].
Qed.

Lemma ring_ok_tags ns b i r :
  0 <= b -> ring_ok ns b i r <->
  NoDup r /\ linked ns r (hd 0 r) /\ exists ts, tags_at ns b i r ts /\ ring_sorted ts /\ NoDup ts.
Proof.
  intros Hb. unfold ring_ok. split.
  - intros (Hnd & Hl & nds & Hn & Hf & Hs). split_and!; [done..|]. exists (tag <$> nds).
    split; [apply tags_at_nodes; eauto|]. by apply (ring_sorted_tags b i).
  - intros (Hnd & Hl & ts & (nds & Hn & Hf & ->)%tags_at_nodes & Hs). split_and!; [done..|]. exists nds.
    do 2 (split; [done|]). by apply (ring_sorted_tags b i).
Qed.

(** A write that leaves key and tag alone. *)
Lemma tags_at_mono ns ns' b i r ts :
  (forall a nd, a ∈ r -> ns !! a = Some nd -> exists nd', ns' !! a = Some nd' /\ key nd' = key nd /\ tag nd' = tag nd) ->
  tags_at ns b i r ts -> tags_at ns' b i r ts.
Proof.
  intros Hsame. induction 1 as [|a t r ts (nd & Ha & Hok & Ht) Hr IH]; constructor.
  - destruct (Hsame a nd) as (nd' & Ha' & Hk' & Ht'); [set_solver|done|]. exists nd'. unfold node_ok in *.
    by rewrite Hk', Ht'.
  - apply IH. intros a' nd' Ha'. apply Hsame. set_solver.
Qed.

Lemma ring_ok_insert ns ns' b i a l1 l2 ta ts1 ts2 pred x pn node nn :
  0 <= b -> NoDup (a :: l1 ++ l2) -> linked ns (a :: l1 ++ l2) a ->
  tags_at ns b i (a :: l1) (ta :: ts1) -> tags_at ns b i l2 ts2 -> ring_sorted (ta :: ts1 ++ ts2) ->
  NoDup (ta :: ts1 ++ ts2) -> tag nn ∉ ta :: ts1 ++ ts2 -> a :: l1 = x ++ [pred] -> ns !! pred = Some pn ->
  ns' !! pred = Some (set_addr pn node) -> ns' !! node = Some nn -> addr (list_ nn) = addr (list_ pn) ->
  node ∉ a :: l1 ++ l2 -> (forall y, y ∈ a :: l1 ++ l2 -> y <> pred -> ns' !! y = ns !! y) ->
  node_ok b i nn -> Forall (fun u => cyc ta u (tag nn)) ts1 -> Forall (fun u => cyc ta (tag nn) u) ts2 ->
  ring_ok ns' b i (a :: l1 ++ node :: l2).
Proof.
  intros Hb Hnd Hl Ht1 Ht2 Hs Hndt Hnt Hx Hpn Hpn' Hnn Hadr Hout Hsame Hnok H1 H2.
  assert (forall y nd, y ∈ a :: l1 ++ l2 -> ns !! y = Some nd ->
    exists nd', ns' !! y = Some nd' /\ key nd' = key nd /\ tag nd' = tag nd) as Hkt.
  { intros y nd Hy Hn. destruct (decide (y = pred)) as [->|Hne].
    - exists (set_addr pn node). assert (nd = pn) as -> by congruence. done.
    - exists nd. by rewrite Hsame. }
  apply ring_ok_tags; [done|]. split_and!.
  - rewrite app_comm_cons. apply NoDup_app. rewrite app_comm_cons in Hnd.
    apply NoDup_app in Hnd as (Hn1 & Hn12 & Hn2). split_and!; [done|set_solver|constructor; [set_solver|done]].
  - cbn [hd]. rewrite app_comm_cons in Hnd, Hl, Hout, Hsame |- *. rewrite Hx, <- app_assoc in Hnd, Hl, Hout, Hsame |- *.
    cbn [app] in *. apply NoDup_app in Hnd as (_ & Hn12 & [Hn2 _]%NoDup_cons).
    apply (linked_insert ns ns' x pred l2 a pn node nn); try done. intros y Hy. apply Hsame; set_solver.
  - exists (ta :: ts1 ++ tag nn :: ts2). split_and!; [|by apply ring_sorted_insert|].
    2: { rewrite <- Permutation_middle, Permutation_swap. by constructor. }
    rewrite !app_comm_cons. apply Forall2_app; [|constructor; [by exists nn|]].
    + apply (tags_at_mono ns); [|done]. intros y nd Hy. apply Hkt. set_solver.
    + apply (tags_at_mono ns); [|done]. intros y nd Hy. apply Hkt. set_solver.
Qed.

Lemma list_add_view hp node pred pn nn :
  view hp !! pred = Some pn -> view hp !! node = Some nn -> node <> pred ->
  exists hp', list_add hp node pred = Some hp'
    /\ view hp' = <[pred := set_addr pn node]> (<[node := set_list nn (MkList (addr (list_ pn)) 0)]> (view hp))
    /\ heads hp' = heads hp /\ brk hp' = brk hp /\ nr_request hp' = nr_request hp.
Proof.
  intros (pn' & Hp & <-)%view_lookup (nn' & Hn & <-)%view_lookup Hne. unfold list_add, __list_add.
  rewrite Hp. cbn [mbind option_bind].
  destruct (on_node_ok hp node nn' (fun nd => set_list nd (list_ pn')) Hn) as (hp1 & -> & Hv1 & Hh1 & Hb1 & Hr1 & Hn1).
  cbn [mbind option_bind].
  destruct (on_node_ok hp1 pred pn' (fun nd => set_addr nd node)) as (hp2 & -> & Hv2 & Hh2 & Hb2 & Hr2 & _).
  { by rewrite Hn1, lookup_insert_ne. }
  exists hp2. split_and!; [done|rewrite Hv2, Hv1; done|congruence..].
Qed.

Lemma last_snoc (a : Z) l : exists x, a :: l = x ++ [List.last l a].
Proof.
  induction l as [|y l _] using rev_ind; [by exists []|]. exists (a :: l). by rewrite List.last_last.
Qed.

(** A node of a new tag enters a ring. *)
Lemma attach_ok hp b i t a l ta ts node nn :
  NoDup (a :: l) -> linked (view hp) (a :: l) a -> tags_at (view hp) b i (a :: l) (ta :: ts) ->
  ring_sorted (ta :: ts) -> NoDup (ta :: ts) -> t ∉ ta :: ts -> node ∉ a :: l -> view hp !! node = Some nn ->
  exists hp' l1 l2 ts1 ts2 x pred pn, attach hp a node t = Some hp'
    /\ l = l1 ++ l2 /\ ts = ts1 ++ ts2 /\ length l1 = length ts1
    /\ Forall (fun u => cyc ta u t) ts1 /\ Forall (fun u => cyc ta t u) ts2
    /\ a :: l1 = x ++ [pred] /\ view hp !! pred = Some pn
    /\ view hp' = <[pred := set_addr pn node]> (<[node := set_list nn (MkList (addr (list_ pn)) 0)]> (view hp))
    /\ heads hp' = heads hp /\ brk hp' = brk hp /\ nr_request hp' = nr_request hp.
Proof.
  intros Hnd Hl (nds & Hnds & Hok & Heq)%tags_at_nodes Hs Hndt Hnew Hout Hnn. unfold attach.
  destruct nds as [|nda nds]; [done|]. cbn in Heq. injection Heq as -> ->.
  apply NoDup_cons in Hndt as [Hta Hndt]. apply not_elem_of_cons in Hnew as [Htt Hnew].
  apply Forall2_cons in Hnds as [Hnda Hnds].
  destruct (create_run node t (tag nda) l hp a nda nds) as (l1 & l2 & n1 & n2 & -> & -> & Hlen & H1 & H2 & Hrun); try done.
  { by left. }
  { apply Forall_forall. intros u Hu ->. by apply Hta. }
  rewrite (list_for_each_run (create_body node t) a (l1 ++ l2)); [|intros ????? Hb; unfold create_body in Hb|done..].
  2: { inv_bind Hb u Hu. inv_bind Hb w Hw. destruct (fits _ _ _); [by inv_bind Hb z Hz|]. by injection Hb as <- _. }
  rewrite Hrun. destruct (last_snoc a l1) as [x Hx]. set (pred := List.last l1 a) in *.
  assert (pred ∈ a :: l1 ++ l2) as Hpin by (rewrite app_comm_cons, Hx; set_solver).
  destruct (linked_elem _ _ _ _ Hl Hpin) as [pn Hpn].
  destruct (list_add_view hp node pred pn nn Hpn Hnn) as (hp2 & Hadd & Hv2 & Hh2 & Hb2 & Hr2); [by intros <-|].
  exists hp2, l1, l2, (tag <$> n1), (tag <$> n2), x, pred, pn. split_and!; try done.
  - destruct l2; rewrite ?Hadd; cbn [mbind option_bind]; done.
  - by rewrite fmap_app.
  - by rewrite length_fmap.
  - by rewrite Forall_fmap.
  - by rewrite Forall_fmap.
Qed.

Lemma is_Some_insert {A} (m : gmap Z A) i x a : is_Some (<[i := x]> m !! a) -> a = i \/ is_Some (m !! a).
Proof. rewrite lookup_insert_is_Some. naive_solver. Qed.

(** A bucket gets its first node. *)
Lemma create_first hp h i t :
  slots h !! i = Some 0 -> let hd := brk hp in let node := brk hp + 1 in
  exists hp', __hash_create hp h (Z.of_nat i) t = Some (hp', MkHash (nbits h) (kbits h) (size_ h) (<[i := hd]> (slots h)), node)
    /\ view hp' = <[node := MkNode (MkList node 0) 0 0 0]> (view hp)
    /\ hview hp' = <[hd := node]> (hview hp) /\ brk hp' = brk hp + 2 /\ nr_request hp' = nr_request hp.
Proof.
  intros Hp hd node. unfold __hash_create, slot. rewrite Nat2Z.id, Hp. cbn [mbind option_bind Z.eqb negb head_alloc].
  unfold set_slot. rewrite Nat2Z.id, store_Some by (by eapply lookup_lt_Some). cbn [mbind option_bind hash_node_alloc brk].
  fold node. fold hd. set (hp1 := MkHeap _ _ _ _). unfold INIT_LIST_HEAD.
  destruct (on_node_ok hp1 node (MkNode (MkList 0 0) 0 0 0) (fun nd => set_list nd (MkList node 0)))
    as (hp2 & -> & Hv2 & Hh2 & Hb2 & Hr2 & Hn2); [apply lookup_insert_eq|]. cbn [mbind option_bind].
  destruct (on_head_view hp2 hd (MkHead 0 0 0) (fun _ => MkHead node 0 0))
    as (hp3 & -> & Hv3 & Hh3 & Hb3 & Hr3 & _ & Hn3); [rewrite Hh2; apply lookup_insert_eq|]. cbn [mbind option_bind].
  destruct (on_node hp3 node (fun nd => set_counter nd 1)) as [hp4|] eqn:Ho.
  2: { unfold on_node in Ho. by rewrite Hn3, Hn2, lookup_insert_eq in Ho. }
  apply on_node_view in Ho as (Hv4 & Hh4 & Hb4 & Hr4); [|done]. cbn [mbind option_bind].
  eexists. split_and!; [done| | |rewrite Hb4, Hb3, Hb2; unfold hp1; cbn [brk]; unfold node; lia|by rewrite Hr4, Hr3, Hr2].
  - rewrite Hv4, Hv3, Hv2. unfold view, hp1. cbn [nodes]. rewrite fmap_insert, insert_insert_eq. done.
  - assert (hview hp4 = hview hp3) as -> by (unfold hview; by rewrite Hh4). rewrite Hh3.
    assert (hview hp2 = hview hp1) as -> by (unfold hview; by rewrite Hh2).
    unfold hview, hp1. cbn [heads]. rewrite fmap_insert, insert_insert_eq. done.
Qed.

Lemma insert_entries_ok hp node nd k t v :
  view hp !! node = Some nd -> value nd = 0 ->
  exists hp', insert_entries hp node k t v = Some (hp', 1) /\ view hp' = <[node := MkNode (list_ nd) t k v]> (view hp)
    /\ heads hp' = heads hp /\ brk hp' = brk hp /\ nr_request hp' = nr_request hp.
Proof.
  intros (nd' & Hn & <-)%view_lookup Hv. unfold insert_entries. rewrite Hn. cbn [mbind option_bind].
  cbn in Hv. rewrite Hv. cbn [Z.eqb negb].
  destruct (on_node_ok hp node nd' (fun nd => MkNode (list_ nd) t k v) Hn) as (hp' & -> & Hv' & Hh & Hb & Hr & _).
  exists hp'. split_and!; try done.
Qed.

(** A key of the bucket with the tag of [k] is [k]. *)
Lemma tag_fresh ns b i r ts k :
  0 <= b -> tags_at ns b i r ts -> k / 2 ^ b = Z.of_nat i -> (forall v, ~ ring_holds ns r k v) -> k mod 2 ^ b ∉ ts.
Proof.
  intros Hb Htags Hk Hno [j Hj]%list_elem_of_lookup. destruct (Forall2_lookup_r _ _ _ _ _ Htags Hj) as (a & Ha & nd & Hn & Hok & Ht).
  apply (Hno (value nd)). exists a, nd. split_and!; [by eapply list_elem_of_lookup_2|done| |done].
  rewrite (node_ok_key b i nd Hb Hok), Ht, <- Hk. symmetry. apply Z.div_mod. apply Z.pow_nonzero; lia.
Qed.

(** What a bucket holds after a node came in. *)
Lemma ring_holds_insert ns ns' a l1 l2 node nn k v :
  (forall y nd, y ∈ a :: l1 ++ l2 -> ns !! y = Some nd -> exists nd', ns' !! y = Some nd' /\ key nd' = key nd /\ value nd' = value nd) ->
  (forall y, y ∈ a :: l1 ++ l2 -> is_Some (ns !! y)) ->
  ns' !! node = Some nn -> key nn = k -> value nn = v ->
  (forall v', ~ ring_holds ns (a :: l1 ++ l2) k v') ->
  forall k' v', ring_holds ns' (a :: l1 ++ node :: l2) k' v' <->
    (if decide (k' = k) then v' = v else ring_holds ns (a :: l1 ++ l2) k' v').
Proof.
  intros Hsame Hdef Hnn Hk Hv Hno k' v'.
  assert (forall k1 v1, ring_holds ns' (a :: l1 ++ node :: l2) k1 v1 <->
    (k1 = k /\ v1 = v) \/ ring_holds ns (a :: l1 ++ l2) k1 v1) as Hall.
  { intros k1 v1. split.
    - intros (y & nd & Hy & Hn & Hk1 & Hv1). destruct (decide (y = node)) as [->|Hne].
      + left. assert (nd = nn) as -> by congruence. by subst.
      + right. assert (y ∈ a :: l1 ++ l2) as Hy' by set_solver. destruct (Hdef y Hy') as [nd0 Hn0].
        destruct (Hsame y nd0 Hy' Hn0) as (nd' & Hn' & Hk' & Hv'). assert (nd' = nd) as -> by congruence.
        exists y, nd0. by rewrite <- Hk', <- Hv'.
    - intros [[-> ->]|(y & nd & Hy & Hn & Hk1 & Hv1)].
      + exists node, nn. split_and!; [set_solver|done..].
      + destruct (Hsame y nd Hy Hn) as (nd' & Hn' & Hk' & Hv'). exists y, nd'.
        split_and!; [set_solver|done|congruence..]. }
  rewrite Hall. case_decide; [|naive_solver]. subst k'. split; [|by left]. intros [[_ ?]|Hh]; [done|by destruct (Hno v')].
Qed.

(** A bucket gets another node. *)
Lemma create_next hp h i t p a l ta ts :
  slots h !! i = Some p -> slot_ok (hview hp) p (a :: l) ->
  NoDup (a :: l) -> linked (view hp) (a :: l) a -> tags_at (view hp) (tag_bits h) i (a :: l) (ta :: ts) ->
  ring_sorted (ta :: ts) -> NoDup (ta :: ts) -> t ∉ ta :: ts -> view hp !! brk hp = None ->
  let node := brk hp in
  exists hp' l1 l2 ts1 ts2 x pred pn, __hash_create hp h (Z.of_nat i) t = Some (hp', h, node)
    /\ l = l1 ++ l2 /\ ts = ts1 ++ ts2 /\ length l1 = length ts1
    /\ Forall (fun u => cyc ta u t) ts1 /\ Forall (fun u => cyc ta t u) ts2
    /\ a :: l1 = x ++ [pred] /\ view hp !! pred = Some pn
    /\ view hp' = <[pred := set_addr pn node]> (<[node := MkNode (MkList (addr (list_ pn)) 0) 0 0 0]> (view hp))
    /\ heads hp' = heads hp /\ brk hp' = brk hp + 1 /\ nr_request hp' = nr_request hp.
Proof.
  intros Hp [Hp0 Hpa] Hnd Hl Htags Hs Hndt Hnew Hfresh node. unfold __hash_create, slot.
  rewrite Nat2Z.id, Hp. cbn [mbind option_bind]. rewrite (proj2 (Z.eqb_neq p 0) Hp0). cbn [negb].
  unfold get_head_node_by_head_pointer. rewrite (proj2 (Z.eqb_neq p 0) Hp0).
  destruct (hview_lookup _ _ _ Hpa) as (hdr & -> & Hha). cbn [mbind option_bind hash_node_alloc]. rewrite Hha.
  fold node. set (hp1 := MkHeap _ _ _ _).
  assert (view hp1 = <[node := MkNode (MkList 0 0) 0 0 0]> (view hp)) as Hv1 by (unfold view, hp1; cbn [nodes]; by rewrite fmap_insert).
  assert (node ∉ a :: l) as Hout.
  { intros Hin. destruct (linked_elem _ _ _ _ Hl Hin) as [nd Hn]. unfold node in Hn. congruence. }
  assert (forall y, y ∈ a :: l -> view hp1 !! y = view hp !! y) as Hsame.
  { intros y Hy. rewrite Hv1. apply lookup_insert_ne. by intros <-. }
  destruct (attach_ok hp1 (tag_bits h) i t a l ta ts node (MkNode (MkList 0 0) 0 0 0))
    as (hp2 & l1 & l2 & ts1 & ts2 & x & pred & pn & -> & -> & -> & Hlen & H1 & H2 & Hx & Hpn & Hv2 & Hh2 & Hb2 & Hr2); try done.
  { by apply (linked_ext (view hp)). }
  { apply (tags_at_mono (view hp)); [|done]. intros y nd Hy Hn. exists nd. by rewrite Hsame. }
  { rewrite Hv1. apply lookup_insert_eq. }
  assert (pred ∈ a :: l1 ++ l2) as Hpin by (rewrite app_comm_cons, Hx; set_solver).
  rewrite Hsame in Hpn by done. cbn [mbind option_bind].
  destruct (on_node hp2 node (fun nd => set_counter nd 1)) as [hp3|] eqn:Ho; cycle 1.
  { exfalso. assert (is_Some (view hp2 !! node)) as [nd (nd' & Hn & _)%view_lookup].
    { rewrite Hv2, lookup_insert_ne by set_solver. rewrite lookup_insert_eq. eauto. }
    unfold on_node in Ho. by rewrite Hn in Ho. }
  apply on_node_view in Ho as (Hv3 & Hh3 & Hb3 & Hr3); [|done]. cbn [mbind option_bind].
  exists hp3, l1, l2, ts1, ts2, x, pred, pn. split_and!; try done.
  - rewrite Hv3, Hv2, Hv1, insert_insert_eq. done.
  - rewrite Hh3, Hh2. done.
  - rewrite Hb3, Hb2. done.
  - rewrite Hr3, Hr2. done.
Qed.

(** The bucket of a new key. *)
Section NewKey.
Context (hp : heap) (h : hash) (rings : list (list Z)) (m : gmap Z Z) (k v : Z).
Hypothesis (Hrep : rep hp h rings m) (Hk : 0 <= k < 2 ^ NBITS) (Hnew : m !! k = None).

Lemma above_brk a : brk hp <= a -> view hp !! a = None /\ hview hp !! a = None.
Proof.
  destruct (rp_fresh _ _ _ _ Hrep) as [_ Hfresh].
  intros Ha. split; (destruct (_ !! a) eqn:E; [|done]); (assert (0 < a < brk hp); [eauto|lia]).
Qed.

Lemma new_key_absent r v' : rings !! index_of h k = Some r -> ~ ring_holds (view hp) r k v'.
Proof. intros Hr Hh. assert (m !! k = Some v') by (apply (rp_map _ _ _ _ Hrep); eauto). congruence. Qed.

Lemma new_key_map r r' ns' :
  rings !! index_of h k = Some r ->
  (forall k' v', ring_holds ns' r' k' v' <-> if decide (k' = k) then v' = v else ring_holds (view hp) r k' v') ->
  (forall k', index_of h k' <> index_of h k -> <[k := v]> m !! k' = m !! k')
  /\ (forall k' v', index_of h k' = index_of h k -> <[k := v]> m !! k' = Some v' <-> ring_holds ns' r' k' v').
Proof.
  intros Hr Hholds. split.
  - intros k' Hi. apply lookup_insert_ne. by intros <-.
  - intros k' v' Hi. rewrite Hholds. case_decide as Hd.
    + subst k'. rewrite lookup_insert_eq. split; congruence.
    + rewrite lookup_insert_ne by done. rewrite (rp_map _ _ _ _ Hrep), Hi, Hr. naive_solver.
Qed.

Let t := k mod 2 ^ tag_bits h.
Let i := index_of h k.

Lemma new_node_ok l : node_ok (tag_bits h) i (MkNode l t k v).
Proof.
  destruct (rp_bits _ _ _ _ Hrep) as (Hn & Hkb & _). destruct (hashCode_ok h k Hn Hkb Hk) as (_ & _ & Hki).
  unfold node_ok, i, t. cbn [key tag]. split_and!; (done || lia).
Qed.

Lemma insert_first :
  rings !! i = Some [] -> slots h !! i = Some 0 ->
  exists hp' h' rings', (' (hp, h, node) ← __hash_create hp h (Z.of_nat i) t;
      '(hp, error) ← insert_entries hp node k t v; Some (hp, h, if error <? 0 then error else 0)) = Some (hp', h', 0)
    /\ rep hp' h' rings' (<[k := v]> m) /\ nr_request hp' = nr_request hp.
Proof.
  intros Hr Hp. destruct (create_first hp h i t Hp) as (hp1 & -> & Hv1 & Hh1 & Hb1 & Hr1). cbn [mbind option_bind].
  set (node := brk hp + 1) in *. set (nd := MkNode (MkList node 0) t k v).
  destruct (insert_entries_ok hp1 node (MkNode (MkList node 0) 0 0 0) k t v) as (hp2 & -> & Hv2 & Hh2 & Hb2 & Hr2);
    [by rewrite Hv1, lookup_insert_eq|done|]. cbn [mbind option_bind].
  rewrite Hv1, insert_insert_eq in Hv2. cbn [list_] in Hv2. fold nd in Hv2.
  assert (hview hp2 = <[brk hp := node]> (hview hp)) as Hhv by (rewrite <- Hh1; unfold hview; by rewrite Hh2).
  destruct (rp_fresh _ _ _ _ Hrep) as [Hb0 Hfresh].
  destruct (new_key_map [] [node] (view hp2) Hr) as [Hm1 Hm2].
  { intros k' v'. split.
    - intros (a & nd' & ->%list_elem_of_singleton & Hn & Hk' & Hv'). rewrite Hv2, lookup_insert_eq in Hn.
      injection Hn as <-. cbn in Hk', Hv'. by rewrite decide_True.
    - case_decide; [|intros (a & nd' & Ha & _); by apply elem_of_nil in Ha]. intros ->.
      exists node, nd. rewrite Hv2, lookup_insert_eq. split_and!; [set_solver|done..]. }
  eexists hp2, _, (<[i := [node]]> rings). split_and!; [done| |congruence].
  apply (rep_update hp h rings m hp2 i [] 0 [node]); try done.
  - cbn. split; [lia|]. by rewrite Hhv, lookup_insert_eq.
  - split_and!; [repeat constructor; apply not_elem_of_nil|cbn; split; [|done]|].
    + exists nd. by rewrite Hv2, lookup_insert_eq.
    + exists [nd]. split_and!; [|repeat constructor; apply new_node_ok|repeat constructor|repeat constructor; apply not_elem_of_nil].
      constructor; [by rewrite Hv2, lookup_insert_eq|constructor].
  - intros a ->%list_elem_of_singleton. right. unfold node. lia.
  - right; right. lia.
  - intros a Ha _. rewrite Hv2. apply lookup_insert_ne. unfold node. lia.
  - intros q Hq _. rewrite Hhv. apply lookup_insert_ne. lia.
  - lia.
  - rewrite Hb2, Hb1, Hv2, Hhv. intros a [[->|Ha]%is_Some_insert|[->|Ha]%is_Some_insert]; unfold node; try lia.
    + assert (0 < a < brk hp) by eauto. lia.
    + assert (0 < a < brk hp) by eauto. lia.
  - intros a nd' Ha. rewrite Hv2 in Ha. apply lookup_insert_Some in Ha as [[_ <-]|[_ Ha]]; [done|].
    by apply (rp_keys _ _ _ _ Hrep a).
Qed.

Lemma insert_next p a l :
  rings !! i = Some (a :: l) -> slots h !! i = Some p ->
  exists hp' h' rings', (' (hp, h, node) ← __hash_create hp h (Z.of_nat i) t;
      '(hp, error) ← insert_entries hp node k t v; Some (hp, h, if error <? 0 then error else 0)) = Some (hp', h', 0)
    /\ rep hp' h' rings' (<[k := v]> m) /\ nr_request hp' = nr_request hp.
Proof.
  intros Hr Hp. destruct (rp_bits _ _ _ _ Hrep) as (Hn & Hkb & _).
  destruct (hashCode_ok h k Hn Hkb Hk) as (_ & _ & Hki). assert (0 <= tag_bits h) as Hb by (unfold tag_bits; lia).
  destruct (rp_bucket _ _ _ _ Hrep _ _ _ Hp Hr) as [Hslot Hring].
  apply ring_ok_tags in Hring as (Hnd & Hl & ts & Htags & Hs & Hndt); [|done].
  pose proof (tag_fresh _ _ _ _ _ k Hb Htags Hki (fun v' => new_key_absent _ v' Hr)) as Hfr. fold t in Hfr.
  destruct ts as [|ta ts]; [inversion Htags|].
  destruct (create_next hp h i t p a l ta ts) as
    (hp1 & l1 & l2 & ts1 & ts2 & x & pred & pn & -> & -> & -> & Hlen & H1 & H2 & Hx & Hpn & Hv1 & Hh1 & Hb1 & Hr1); try done.
  { by apply above_brk. }
  cbn [mbind option_bind]. set (node := brk hp) in *. set (nd := MkNode (MkList (addr (list_ pn)) 0) t k v).
  assert (pred ∈ a :: l1 ++ l2) as Hpin by (rewrite app_comm_cons, Hx; set_solver).
  assert (forall y, y ∈ a :: l1 ++ l2 -> y < node) as Hlt.
  { intros y Hy. destruct (linked_elem _ _ _ _ Hl Hy) as [ny Hny]. apply (rp_fresh _ _ _ _ Hrep). eauto. }
  assert (pred <> node) as Hne by (specialize (Hlt pred Hpin); lia).
  destruct (insert_entries_ok hp1 node (MkNode (MkList (addr (list_ pn)) 0) 0 0 0) k t v) as (hp2 & -> & Hv2 & Hh2 & Hb2 & Hr2);
    [by rewrite Hv1, lookup_insert_ne, lookup_insert_eq|done|]. cbn [mbind option_bind].
  rewrite Hv1, insert_insert_ne, insert_insert_eq in Hv2 by done. cbn [list_] in Hv2. fold nd in Hv2.
  assert (hview hp2 = hview hp) as Hhv by (unfold hview; by rewrite Hh2, Hh1).
  assert (view hp2 !! pred = Some (set_addr pn node)) as Hp2 by (by rewrite Hv2, lookup_insert_eq).
  assert (view hp2 !! node = Some nd) as Hn2 by (by rewrite Hv2, lookup_insert_ne, lookup_insert_eq).
  assert (forall y, y <> node -> y <> pred -> view hp2 !! y = view hp !! y) as Hsame.
  { intros y Hy1 Hy2. rewrite Hv2, !lookup_insert_ne by done. done. }
  assert (forall y ny, y ∈ a :: l1 ++ l2 -> view hp !! y = Some ny ->
    exists ny', view hp2 !! y = Some ny' /\ key ny' = key ny /\ value ny' = value ny) as Hkv.
  { intros y ny Hy Hny. destruct (decide (y = pred)) as [->|Hyp].
    - exists (set_addr pn node). assert (ny = pn) as -> by congruence. done.
    - exists ny. rewrite Hsame; [done| |done]. specialize (Hlt y Hy). lia. }
  destruct (new_key_map (a :: l1 ++ l2) (a :: l1 ++ node :: l2) (view hp2) Hr) as [Hm1 Hm2].
  { apply (ring_holds_insert (view hp) (view hp2) a l1 l2 node nd k v); try done.
    - intros y Hy. destruct (linked_elem _ _ _ _ Hl Hy) as [ny Hny]. eauto.
    - intros v'. by apply new_key_absent. }
  exists hp2, (MkHash (nbits h) (kbits h) (size_ h) (<[i := p]> (slots h))), (<[i := a :: l1 ++ node :: l2]> rings).
  split_and!; [by rewrite list_insert_id; destruct h| |congruence].
  apply (rep_update hp h rings m hp2 i (a :: l1 ++ l2) p (a :: l1 ++ node :: l2)); try done.
  - by rewrite Hhv.
  - unfold tags_at in Htags. rewrite !app_comm_cons in Htags. apply Forall2_app_inv in Htags as [Ht1 Ht2]; [|cbn; lia].
    apply (ring_ok_insert (view hp) (view hp2) _ i a l1 l2 ta ts1 ts2 pred x pn node nd); try done || apply new_node_ok.
    + intros Hin. specialize (Hlt node Hin). lia.
    + intros y Hy Hyp. apply Hsame; [specialize (Hlt y Hy); lia|done].
  - intros y. destruct (decide (y = node)) as [->|]; [right; unfold node; lia|]. left. set_solver.
  - by right; left.
  - intros y Hy Hyr. apply Hsame; [unfold node; lia|]. by intros ->.
  - intros q Hq _. by rewrite Hhv.
  - lia.
  - rewrite Hb2, Hb1, Hhv. intros y [Hy|Hy].
    + destruct (decide (y = node)) as [->|Hyn].
      { destruct (rp_fresh _ _ _ _ Hrep). unfold node. lia. }
      assert (is_Some (view hp !! y)) as Hy'.
      { destruct (decide (y = pred)) as [->|]; [by rewrite Hpn|]. by rewrite <- Hsame. }
      assert (0 < y < brk hp) by (apply (rp_fresh _ _ _ _ Hrep); eauto). lia.
    + assert (0 < y < brk hp) by (apply (rp_fresh _ _ _ _ Hrep); eauto). lia.
  - intros y ny Hny. rewrite Hv2 in Hny. apply lookup_insert_Some in Hny as [[<- <-]|[_ Hny]].
    + exact (rp_keys _ _ _ _ Hrep pred pn Hpn).
    + apply lookup_insert_Some in Hny as [[_ <-]|[_ Hny]]; [done|]. by apply (rp_keys _ _ _ _ Hrep y).
Qed.

End NewKey.

(** [hotring_insert] of a key that is not there adds it. *)
Lemma hotring_insert_rep hp h rings m k v :
  rep hp h rings m -> 0 <= k < 2 ^ NBITS -> m !! k = None ->
  exists hp' h' rings', hotring_insert hp h k v = Some (hp', h', 0) /\ rep hp' h' rings' (<[k := v]> m)
    /\ nr_request hp' = nr_request hp.
Proof.
  intros Hrep Hk Hnew. destruct (rp_bits _ _ _ _ Hrep) as (Hn & Hkb & _).
  destruct (hashCode_ok h k Hn Hkb Hk) as (Hhc & Hi & _). unfold hotring_insert. rewrite Hhc. cbn [mbind option_bind].
  destruct (lookup_lt_is_Some_2 (slots h) (index_of h k)) as [p Hp]; [by rewrite (rp_slots _ _ _ _ Hrep)|].
  destruct (lookup_lt_is_Some_2 rings (index_of h k)) as [[|a l] Hr]; [by rewrite (rp_rings _ _ _ _ Hrep)| |].
  - destruct (rp_bucket _ _ _ _ Hrep _ _ _ Hp Hr) as [Hslot _]. cbn in Hslot. subst p. by apply insert_first with rings.
  - by apply insert_next with rings p a l.
Qed.

(** ** Rehashing never succeeds

    [hotring_rehash] looks the milestones up to find the ends of the two rings.
    But a milestone is the head of its new bucket, and [__hotring_get] gives a
    head no predecessor: the tail of the first ring is [NULL]. *)

Definition entry (nd : hash_node) : Z * Z := (key nd, value nd).
Definition kview (hp : heap) : gmap Z (Z * Z) := entry <$> nodes hp.

(** Keys, values and heads are the same in two heaps. *)
Definition same_entries (hp hp' : heap) : Prop := kview hp' = kview hp /\ hview hp' = hview hp /\ brk hp' = brk hp.

Lemma same_refl hp : same_entries hp hp.
Proof. done. Qed.

Lemma same_trans hp1 hp2 hp3 : same_entries hp1 hp2 -> same_entries hp2 hp3 -> same_entries hp1 hp3.
Proof. unfold same_entries. intuition congruence. Qed.

Lemma on_node_same hp p f hp' :
  (forall nd, entry (f nd) = entry nd) -> on_node hp p f = Some hp' -> same_entries hp hp'.
Proof.
  intros Hf Ho. unfold on_node in Ho. inv_bind Ho nd Hp. injection Ho as <-. split_and!; [|done..].
  unfold kview. cbn [nodes set_nodes]. rewrite fmap_insert, Hf. apply insert_id. by rewrite lookup_fmap, Hp.
Qed.

Lemma on_head_same hp p f hp' :
  (forall hd, haddr (f hd) = haddr hd) -> on_head hp p f = Some hp' -> same_entries hp hp'.
Proof.
  intros Hf Ho. unfold on_head in Ho. inv_bind Ho hdr Hp. injection Ho as <-. split_and!; [done| |done].
  unfold hview. cbn [heads set_heads]. rewrite fmap_insert, Hf. apply insert_id. by rewrite lookup_fmap, Hp.
Qed.

Lemma list_add_same hp node prev hp' : list_add hp node prev = Some hp' -> same_entries hp hp'.
Proof.
  unfold list_add, __list_add. intros Ha. inv_bind Ha nd Hp. inv_bind Ha hp1 H1.
  apply on_node_same in H1; [|done]. apply on_node_same in Ha; [|done]. by apply (same_trans _ hp1).
Qed.

Lemma for_each_same {A R} (body : heap -> A -> Z -> option (heap * (A + R))) :
  (forall hp s p hp' r, body hp s p = Some (hp', r) -> same_entries hp hp') ->
  forall fuel head pos hp s hp' r, for_each body fuel head pos hp s = Some (hp', r) -> same_entries hp hp'.
Proof.
  intros Hbody. induction fuel as [|fuel IH]; intros head pos hp s hp' r Hf; cbn [for_each] in Hf; [done|].
  destruct (pos =? head); [by injection Hf as <- _|]. inv_bind Hf x Hb. destruct x as [hp1 [s1|y]].
  - inv_bind Hf nd Hn. apply IH in Hf. apply Hbody in Hb. by apply (same_trans _ hp1).
  - injection Hf as <- _. by apply Hbody in Hb.
Qed.

Lemma list_for_each_same {A R} (body : heap -> A -> Z -> option (heap * (A + R))) hp head s hp' r :
  (forall hp s p hp' r, body hp s p = Some (hp', r) -> same_entries hp hp') ->
  list_for_each body hp head s = Some (hp', r) -> same_entries hp hp'.
Proof. intros Hb Hl. unfold list_for_each in Hl. inv_bind Hl nd Hn. by apply for_each_same in Hl. Qed.

Lemma attach_same hp a node t hp' : attach hp a node t = Some hp' -> same_entries hp hp'.
Proof.
  unfold attach. intros Ha. inv_bind Ha x Hl. destruct x as [hp1 r].
  apply list_for_each_same in Hl.
  - destruct r as [prev|]; [|by injection Ha as <-]. apply list_add_same in Ha. by apply (same_trans _ hp1).
  - clear. intros hp s p hp' r Hb. unfold create_body in Hb. inv_bind Hb pnd Hp. inv_bind Hb nd Hn.
    destruct (fits _ _ _); [|by injection Hb as <- _]. inv_bind Hb hp1 Ha. injection Hb as <- _. by apply list_add_same in Ha.
Qed.

(** A loop that was left was left by its body. *)
Lemma for_each_left {A R} (body : heap -> A -> Z -> option (heap * (A + R))) x :
  (forall hp s p hp' r, body hp s p = Some (hp', r) -> same_entries hp hp') ->
  forall fuel head pos hp s hp', for_each body fuel head pos hp s = Some (hp', inr x) ->
  exists hp1 s1 p1, same_entries hp hp1 /\ body hp1 s1 p1 = Some (hp', inr x).
Proof.
  intros Hbody. induction fuel as [|fuel IH]; intros head pos hp s hp' Hf; cbn [for_each] in Hf; [done|].
  destruct (pos =? head); [done|]. inv_bind Hf y Hb. destruct y as [hp1 [s1|y]].
  - inv_bind Hf nd Hn. destruct (IH _ _ _ _ _ Hf) as (hp2 & s2 & p2 & H2 & Hb2). apply Hbody in Hb.
    exists hp2, s2, p2. split; [by apply (same_trans _ hp1)|done].
  - injection Hf as <- <-. by exists hp, s, pos.
Qed.

Lemma get_body_same k hp s p hp' r : get_body k hp s p = Some (hp', r) -> same_entries hp hp'.
Proof.
  unfold get_body. intros Hb. inv_bind Hb tmp Ht. destruct (key tmp =? k).
  - inv_bind Hb hp1 H1. injection Hb as <- _. by apply on_node_same in H1.
  - inv_bind Hb pnd Hp. destruct (stops _ _ _); by injection Hb as <- _.
Qed.

(** A look-up changes counters only, and finds a predecessor only for a node with the key
    that is not the head. *)
Lemma get_same hp h k hp' ret nodep prevp :
  __hotring_get hp h k = Some (hp', (ret, nodep, prevp)) ->
  same_entries hp hp' /\ (prevp <> 0 -> exists i t p hd e, hashCode h k = Some (i, t) /\ slot h i = Some p /\ p <> 0
    /\ hview hp !! p = Some hd /\ kview hp !! hd = Some e /\ e.1 <> k /\ exists a v, kview hp !! a = Some (k, v)).
Proof.
  unfold __hotring_get. intros Hg. inv_bind Hg x Hc. destruct x as [i t]. inv_bind Hg p Hp.
  destruct (Z.eqb_spec p 0) as [->|Hp0]; [by injection Hg as <- <- <- <-|].
  inv_bind Hg hp1 H1. apply on_head_same in H1; [|done].
  inv_bind Hg hn Hhn. inv_bind Hg nd Hnd. destruct (Z.eqb_spec (key nd) k) as [Hk|Hk].
  { inv_bind Hg hp2 H2. apply on_node_same in H2; [|done]. injection Hg as <- <- <- <-.
    split; [by apply (same_trans _ hp1)|done]. }
  inv_bind Hg x Hl. destruct x as [hp2 r].
  pose proof (list_for_each_same _ _ _ _ _ _ (get_body_same k) Hl) as H2.
  pose proof (same_trans _ _ _ H1 H2) as Hs.
  destruct r as [s|[[a q]|]]; injection Hg as <- <- <- <-; (split; [done|]); [done| |done]. intros _.
  destruct H1 as (Hk1 & Hh1 & _). unfold get_head_node_by_head_pointer in Hhn.
  rewrite (proj2 (Z.eqb_neq p 0) Hp0) in Hhn. inv_bind Hhn hdr Hhd. injection Hhn as Hhn.
  unfold list_for_each in Hl. inv_bind Hl nd2 Hn2. apply for_each_left in Hl; [|apply get_body_same].
  destruct Hl as (hp3 & s3 & p3 & (Hk3 & _ & _) & Hb). unfold get_body in Hb. inv_bind Hb tmp Ht.
  destruct (Z.eqb_spec (key tmp) k) as [Hkt|]; [|inv_bind Hb pnd Hpd; by destruct (stops _ _ _)].
  exists i, t, p, hn, (entry nd). split_and!; [done..| | |done|].
  - rewrite <- Hh1. unfold hview. by rewrite lookup_fmap, Hhd, <- Hhn.
  - rewrite <- Hk1. unfold kview. by rewrite lookup_fmap, Hnd.
  - exists p3, (value tmp). rewrite <- Hk1, <- Hk3. unfold kview. rewrite lookup_fmap, Ht. cbn. by rewrite <- Hkt.
Qed.

Lemma create_entries hp h i t p hp' h' node :
  slot h i = Some p -> p <> 0 -> __hash_create hp h i t = Some (hp', h', node) ->
  h' = h /\ node = brk hp /\ kview hp' = <[node := (0, 0)]> (kview hp) /\ hview hp' = hview hp /\ brk hp' = brk hp + 1.
Proof.
  intros Hp Hp0 Hc. unfold __hash_create in Hc. rewrite Hp in Hc. cbn [mbind option_bind] in Hc.
  rewrite (proj2 (Z.eqb_neq p 0) Hp0) in Hc. cbn [negb] in Hc. inv_bind Hc x Hx. destruct x as [[hp2 h2] node2].
  inv_bind Hx hn Hhn. cbn [hash_node_alloc] in Hx. set (hp1 := MkHeap _ _ _ _) in Hx.
  inv_bind Hx hp3 Ha. injection Hx as <- <- <-. inv_bind Hc hp4 Ho. injection Hc as <- <- <-.
  apply attach_same in Ha as (Hk2 & Hh2 & Hb2). apply on_node_same in Ho as (Hk3 & Hh3 & Hb3); [|done].
  split_and!; [done..| | |].
  - rewrite Hk3, Hk2. unfold kview, hp1. cbn [nodes]. by rewrite fmap_insert.
  - by rewrite Hh3, Hh2.
  - by rewrite Hb3, Hb2.
Qed.

Lemma milestone_entries hp h new i t k j p hp' h' new' :
  slot h i = Some p -> p <> 0 -> milestone hp h new i t k j = Some (hp', h', new') ->
  h' = h /\ kview hp' = <[brk hp := (k, 0)]> (kview hp) /\ hview hp' = <[brk hp + 1 := brk hp]> (hview hp)
  /\ brk hp' = brk hp + 2 /\ set_slot new j (brk hp + 1) = Some new'.
Proof.
  intros Hp Hp0 Hm. unfold milestone in Hm. inv_bind Hm x Hc. destruct x as [[hp1 h1] node].
  apply (create_entries hp h i t p) in Hc as (-> & -> & Hk1 & Hh1 & Hb1); [|done..].
  inv_bind Hm x Hi. destruct x as [hp2 e]. unfold insert_entries in Hi. inv_bind Hi nd Hn.
  assert (entry nd = (0, 0)) as He.
  { assert (kview hp1 !! brk hp = Some (entry nd)) as H1 by (unfold kview; by rewrite lookup_fmap, Hn).
    rewrite Hk1, lookup_insert_eq in H1. congruence. }
  unfold entry in He. injection He as He1 He2. rewrite He2 in Hi. cbn [Z.eqb negb] in Hi. inv_bind Hi hp3 Ho. injection Hi as <- <-.
  destruct (on_node_ok hp1 (brk hp) nd (fun nd => MkNode (list_ nd) t k 0) Hn) as (hp3' & Ho' & _ & Hh3 & Hb3 & _ & Hn3).
  assert (hp3' = hp3) as -> by congruence. cbn [head_alloc] in Hm. inv_bind Hm new1 Hnew. inv_bind Hm hp4 Hhd.
  injection Hm as <- <- <-. unfold on_head in Hhd. cbn [heads] in Hhd. rewrite Hb3, Hb1, lookup_insert_eq in Hhd.
  cbn [mbind option_bind] in Hhd. injection Hhd as <-. rewrite Hb3, Hb1 in Hnew. split_and!; [done| | | |done].
  - unfold kview. cbn [nodes set_heads]. rewrite Hn3, fmap_insert. fold (kview hp1). rewrite Hk1, insert_insert_eq. done.
  - unfold hview. cbn [heads set_heads]. rewrite insert_insert_eq, fmap_insert. cbn [haddr]. fold (hview hp3).
    assert (hview hp3 = hview hp1) as -> by (unfold hview; by rewrite Hh3). by rewrite Hh1.
  - cbn [brk set_heads]. lia.
Qed.

(** The heads of the buckets made so far, for the upper halves of the old ones. *)
Definition upper_heads (b : Z) (hp : heap) (new : hash) : Prop :=
  forall i q, slots new !! (2 * i + 1)%nat = Some q -> q <> 0 ->
  exists a v, hview hp !! q = Some a /\ kview hp !! a = Some (Z.of_nat i * 2 ^ b + 2 ^ (b - 1), v).

(** What is needed of a heap for the argument. *)
Definition sane (hp : heap) : Prop :=
  0 < brk hp /\ (forall a, is_Some (kview hp !! a) \/ is_Some (hview hp !! a) -> 0 < a < brk hp)
  /\ (forall a k v, kview hp !! a = Some (k, v) -> 0 <= k < 2 ^ NBITS).

Lemma sane_same hp hp' : same_entries hp hp' -> sane hp -> sane hp'.
Proof. unfold same_entries, sane. intros (-> & -> & ->). done. Qed.

Lemma sane_milestone hp hp' k :
  sane hp -> 0 <= k < 2 ^ NBITS -> kview hp' = <[brk hp := (k, 0)]> (kview hp) ->
  hview hp' = <[brk hp + 1 := brk hp]> (hview hp) -> brk hp' = brk hp + 2 -> sane hp'.
Proof.
  intros (Hb & Hf & Hk) Hr Hv Hh Hbr. unfold sane. rewrite Hv, Hh, Hbr. split_and!; [lia| |].
  - intros a [[->|Ha]%is_Some_insert|[->|Ha]%is_Some_insert]; try lia; (assert (0 < a < brk hp) by eauto); lia.
  - intros a k' v Ha. apply lookup_insert_Some in Ha as [[_ [= <- _]]|[_ Ha]]; [done|eauto].
Qed.

Lemma upper_heads_milestone b hp hp' new new' j k :
  sane hp -> (j < length (slots new))%nat -> upper_heads b hp new ->
  kview hp' = <[brk hp := (k, 0)]> (kview hp) -> hview hp' = <[brk hp + 1 := brk hp]> (hview hp) ->
  set_slot new (Z.of_nat j) (brk hp + 1) = Some new' ->
  (forall i, j = (2 * i + 1)%nat -> k = Z.of_nat i * 2 ^ b + 2 ^ (b - 1)) ->
  upper_heads b hp' new'.
Proof.
  intros (Hb & Hf & _) Hj Hup Hv Hh Hset Hkey i q Hq Hq0. unfold set_slot in Hset. rewrite Nat2Z.id, store_Some in Hset by done.
  cbn [mbind option_bind] in Hset. injection Hset as <-. cbn [slots] in Hq.
  apply list_lookup_insert_Some in Hq as [(Hji & <- & _)|[Hne Hq]].
  - exists (brk hp), 0. rewrite Hv, Hh, !lookup_insert_eq. split; [done|]. by rewrite <- (Hkey i).
  - destruct (Hup i q Hq Hq0) as (a & v & Hqa & Ha).
    assert (0 < q < brk hp) by eauto. assert (0 < a < brk hp) by eauto.
    exists a, v. rewrite Hv, Hh, !lookup_insert_ne by lia. done.
Qed.

Lemma rehash_init_step_ok b (h : hash) (hp : heap) (new : hash) i hp' h' new' :
  0 < b -> Z.of_nat i < 2 ^ (NBITS - b) -> (2 * i + 1 < length (slots new))%nat -> sane hp -> upper_heads b hp new ->
  rehash_init_step b (2 ^ (b - 1)) (hp, h, new) i = Some (hp', h', new') ->
  h' = h /\ sane hp' /\ upper_heads b hp' new' /\ length (slots new') = length (slots new)
  /\ nbits new' = nbits new /\ kbits new' = kbits new /\ size_ new' = size_ new
  /\ (forall s q, slots new !! s = Some q -> q <> 0 -> exists q', slots new' !! s = Some q' /\ q' <> 0)
  /\ (forall p, slots h !! i = Some p -> p <> 0 -> exists q, slots new' !! (2 * i)%nat = Some q /\ q <> 0).
Proof.
  intros Hb Hi Hlen Hsane Hup Hs. unfold rehash_init_step in Hs. inv_bind Hs p Hp.
  destruct (Z.eqb_spec p 0) as [->|Hp0].
  { injection Hs as <- <- <-. split_and!; try done; [eauto|]. intros q Hq. unfold slot in Hp. rewrite Nat2Z.id in Hp. congruence. }
  inv_bind Hs base Hbase. unfold int_shift in Hbase. destruct (_ && _); [|done]. injection Hbase as <-.
  inv_bind Hs x H1. destruct x as [[hp1 h1] new1].
  assert (2 ^ b = 2 * 2 ^ (b - 1)) as Hhalf by (apply pow_half; lia). pose proof (pow_pos (b - 1) ltac:(lia)).
  assert ((Z.of_nat i + 1) * 2 ^ b <= 2 ^ NBITS) as Hbound.
  { destruct (Z.le_gt_cases b NBITS); [|rewrite (Z.pow_neg_r 2 (NBITS - b)) in Hi; lia].
    rewrite (pow_split NBITS b) by lia. nia. }
  apply (milestone_entries hp h new _ _ _ _ p) in H1 as (-> & Hk1 & Hh1 & Hb1 & Hset1); [|done..].
  apply (milestone_entries hp1 h new1 _ _ _ _ p) in Hs as (-> & Hk2 & Hh2 & Hb2 & Hset2); [|done..].
  assert (sane hp1) as Hs1 by (apply (sane_milestone hp hp1 (Z.of_nat i * 2 ^ b + 2 ^ (b - 1))); try done; lia).
  assert (sane hp') as Hs2 by (apply (sane_milestone hp1 hp' (Z.of_nat i * 2 ^ b)); try done; lia).
  replace (Z.of_nat i * 2 + 1) with (Z.of_nat (2 * i + 1)) in Hset1 by lia.
  replace (Z.of_nat i * 2) with (Z.of_nat (2 * i)) in Hset2 by lia.
  assert (upper_heads b hp1 new1) as Hup1.
  { eapply (upper_heads_milestone b hp hp1 new); try done. intros i' Hi'. assert (i' = i) as -> by lia. done. }
  assert (forall nw nw' j q, set_slot nw (Z.of_nat j) q = Some nw' ->
    (j < length (slots nw))%nat /\ nw' = MkHash (nbits nw) (kbits nw) (size_ nw) (<[j := q]> (slots nw))) as Hset.
  { intros nw nw' j q Hq. unfold set_slot in Hq. rewrite Nat2Z.id in Hq. inv_bind Hq s Hst. apply store_inv in Hst as [? ->].
    by injection Hq as <-. }
  apply Hset in Hset1 as Hn1. apply Hset in Hset2 as Hn2. destruct Hn1 as [_ Hn1], Hn2 as [Hj Hn2].
  assert (upper_heads b hp' new') as Hup2.
  { eapply (upper_heads_milestone b hp1 hp' new1); try done. intros i' Hi'. lia. }
  destruct Hsane as (Hb0 & _ & _). split_and!; try done; try (by rewrite Hn2, Hn1); [by rewrite Hn2, Hn1; cbn; rewrite !length_insert| |].
  - intros s q Hq Hq0. rewrite Hn2, Hn1. cbn [slots]. destruct (decide (s = (2 * i)%nat)) as [->|].
    { exists (brk hp1 + 1). rewrite list_lookup_insert_eq; [split; [done|lia]|]. by rewrite Hn1 in Hj. }
    rewrite list_lookup_insert_ne by done. destruct (decide (s = (2 * i + 1)%nat)) as [->|].
    { exists (brk hp + 1). rewrite list_lookup_insert_eq by done. split; [done|lia]. }
    rewrite list_lookup_insert_ne by done. eauto.
  - intros q _ _. exists (brk hp1 + 1). rewrite Hn2. cbn [slots]. rewrite list_lookup_insert_eq by done. split; [done|lia].
Qed.

(** In the loop that splits the rings, the tail of the first ring is always [NULL]. *)
Lemma split_step_fails new b hp i q :
  nbits new = NBITS -> kbits new = NBITS - b + 1 -> 0 < b <= NBITS -> sane hp -> upper_heads b hp new ->
  slots new !! i = Some q -> q <> 0 -> split_step new b (2 ^ (b - 1)) hp i = None.
Proof.
  intros Hn Hkb Hb Hsane Hup Hq Hq0. unfold split_step, slot. rewrite Nat2Z.id, Hq. cbn [mbind option_bind].
  rewrite (proj2 (Z.eqb_neq q 0) Hq0). destruct (int_shift (Z.of_nat i) b) as [base|] eqn:Hbase; [|done].
  unfold int_shift in Hbase. destruct (_ && _); [|done]. injection Hbase as <-. cbn [mbind option_bind].
  destruct (__hotring_get hp new _) as [[hp1 [[r1 ring1_head] ring2_tail]]|] eqn:H1; [|done]. cbn [mbind option_bind].
  set (k := Z.of_nat i * 2 ^ b + 2 ^ (b - 1)).
  destruct (__hotring_get hp1 new k) as [[hp2 [[r2 ring2_head] ring1_tail]]|] eqn:H2; [|done]. cbn [mbind option_bind].
  apply get_same in H1 as [Hs1 _]. apply get_same in H2 as [Hs2 Hprev].
  pose proof (sane_same _ _ Hs1 Hsane) as Hsane1. pose proof (sane_same _ _ Hs2 Hsane1) as Hsane2.
  destruct (decide (ring1_tail = 0)) as [->|Hne].
  { unfold relink. destruct ring1_head as [hd|]; [|done]. cbn [mbind option_bind]. unfold on_node.
    destruct (nodes hp2 !! 0) as [nd|] eqn:H0; [|done]. exfalso. destruct Hsane2 as (_ & Hf & _).
    assert (0 < 0 < brk hp2); [|lia]. apply Hf. left. unfold kview. rewrite lookup_fmap, H0. by eexists. }
  exfalso. destruct (Hprev Hne) as (j & t & p & hd & e & Hc & Hp & Hp0 & Hhd & He & Hek & a & v & Ha).
  destruct Hsane1 as (_ & _ & Hkeys). pose proof (Hkeys a k v Ha) as Hk.
  destruct (hashCode_ok new k Hn ltac:(lia) Hk) as (Hc' & _ & Hkj). rewrite Hc' in Hc. injection Hc as <- <-.
  assert (k / 2 ^ tag_bits new = Z.of_nat (2 * i + 1)) as Hidx.
  { unfold k, tag_bits. rewrite Hn, Hkb. replace (NBITS - (NBITS - b + 1)) with (b - 1) by lia.
    rewrite (pow_half b) by lia. replace (_ + _) with (Z.of_nat (2 * i + 1) * 2 ^ (b - 1)) by lia.
    apply Z.div_mul. apply Z.pow_nonzero; lia. }
  assert (index_of new k = (2 * i + 1)%nat) as Hix by lia. unfold slot in Hp. rewrite Hix, Nat2Z.id in Hp.
  destruct Hs1 as (Hk1 & Hh1 & _). destruct (Hup i p Hp Hp0) as (a' & v' & Hpa & Hka).
  rewrite Hh1 in Hhd. rewrite Hk1 in He. assert (a' = hd) as -> by congruence. apply Hek.
  assert (e = (k, v')) as -> by (unfold k; congruence). done.
Qed.

(** Every heap with a bucket in use makes [hotring_rehash] write through [NULL]. *)
Lemma hotring_rehash_fails hp h :
  nbits h = NBITS -> 0 <= kbits h <= NBITS -> size_ h = 2 ^ kbits h -> length (slots h) = Z.to_nat (2 ^ kbits h) ->
  sane hp -> (exists i p, slots h !! i = Some p /\ p <> 0) -> hotring_rehash hp h = None.
Proof.
  intros Hn Hkb Hsz Hlen Hsane (i0 & p0 & Hp0 & Hne). unfold hotring_rehash.
  destruct (hotring_rehash_init hp h) as [[[hp1 h1] new]|] eqn:Hinit; [|done]. cbn [mbind option_bind].
  unfold hotring_rehash_init in Hinit. rewrite Hn in Hinit. set (b := NBITS - kbits h) in *.
  destruct (Z.ltb_spec 0 b); [|done]. destruct (b <? 64); [|done]. cbn [andb] in Hinit.
  inv_bind Hinit new0 Ha. unfold hotring_alloc in Ha. destruct (_ && _); [|done]. injection Ha as <-.
  pose proof (pow_half (kbits h + 1) ltac:(lia)) as Hdbl. replace (kbits h + 1 - 1) with (kbits h) in Hdbl by lia.
  pose proof (pow_pos (kbits h) ltac:(lia)). replace (kbits h) with (NBITS - b) in * by (unfold b; lia).
  apply (foldM_seq_inv (fun n '(hp, h', nw) => h' = h /\ sane hp /\ upper_heads b hp nw
      /\ length (slots nw) = Z.to_nat (2 ^ (NBITS - b + 1)) /\ nbits nw = NBITS /\ kbits nw = NBITS - b + 1
      /\ size_ nw = 2 ^ (NBITS - b + 1)
      /\ forall i p, (i < n)%nat -> slots h !! i = Some p -> p <> 0 -> exists s q, slots nw !! s = Some q /\ q <> 0)) in Hinit.
  - destruct Hinit as (-> & Hsane1 & Hup1 & Hl1 & Hn1 & Hk1 & Hsz1 & Hex).
    destruct (Hex i0 p0) as (s & q & Hs & Hq); [|done..|].
    { apply lookup_lt_Some in Hp0. rewrite Hsz. by rewrite Hlen in Hp0. }
    rewrite Hn. replace (NBITS - kbits h) with b by done.
    destruct (foldM (split_step new b (2 ^ (b - 1))) (seq 0 (Z.to_nat (size_ new))) hp1) as [hp2|] eqn:Hsplit; [|done]. exfalso.
    apply (foldM_seq_inv (fun n hp => hp = hp1 /\ forall i q, (i < n)%nat -> slots new !! i = Some q -> q = 0)) in Hsplit.
    + destruct Hsplit as [_ Hz]. apply Hq, (Hz s); [|done]. apply lookup_lt_Some in Hs. by rewrite Hsz1, <- Hl1.
    + split; [done|lia].
    + intros i hp3 hp4 Hi [-> Hz] Hstep.
      destruct (lookup_lt_is_Some_2 (slots new) i) as [q' Hq']; [by rewrite Hl1, <- Hsz1|].
      destruct (decide (q' = 0)) as [->|Hq0].
      * unfold split_step, slot in Hstep. rewrite Nat2Z.id, Hq' in Hstep. cbn in Hstep. injection Hstep as <-.
        split; [done|]. intros j q1 Hj Hq1. destruct (decide (j = i)) as [->|]; [congruence|]. apply (Hz j); [lia|done].
      * rewrite (split_step_fails new b hp1 i q') in Hstep; try done. unfold b. lia.
  - split_and!; try done; [|cbn; apply length_replicate|lia].
    intros i q Hq Hq0. cbn in Hq. apply lookup_replicate in Hq as [-> _]. done.
  - intros i [[hp2 h2] nw] [[hp3 h3] nw'] Hi (-> & Hs2 & Hu2 & Hl2 & Hn2 & Hk2 & Hsz2 & Hex) Hstep.
    assert (Z.of_nat i < 2 ^ (NBITS - b)) as Hib by lia.
    apply rehash_init_step_ok in Hstep; try done; [|lia].
    destruct Hstep as (-> & Hs3 & Hu3 & Hl3 & Hn3 & Hk3 & Hsz3 & Hkeep & Hadd).
    split_and!; try done; [congruence..|]. intros j p Hj Hp Hpn. destruct (decide (j = i)) as [->|].
    + destruct (Hadd p Hp Hpn) as (q & Hq & Hqn). eauto.
    + destruct (Hex j p ltac:(lia) Hp Hpn) as (s & q & Hq & Hqn). destruct (Hkeep s q Hq Hqn) as (q' & Hq' & Hqn'). eauto.
Qed.

(** ** Moving the head of a ring *)

Lemma kview_view hp : kview hp = entry <$> view hp.
Proof. unfold kview, view. rewrite <- map_fmap_compose. by apply map_fmap_ext. Qed.

Lemma rep_sane hp h rings m : rep hp h rings m -> sane hp.
Proof.
  intros Hrep. destruct (rp_fresh _ _ _ _ Hrep) as [Hb Hf]. split_and!; [done| |].
  - intros a Ha. apply Hf. rewrite kview_view, lookup_fmap, fmap_is_Some in Ha. done.
  - intros a k v Ha. rewrite kview_view, lookup_fmap in Ha. apply fmap_Some in Ha as (nd & Hn & [= -> ->]).
    by apply (rp_keys _ _ _ _ Hrep a).
Qed.

Lemma SFltb_refl x y : SFltb x y = true -> SFeqb x x = true.
Proof.
  unfold SFltb, SFeqb. destruct x as [s|s| |s m e]; cbn; try (by destruct s); [by destruct y|].
  intros _. rewrite Z.compare_refl. rewrite Pos.compare_cont_refl. by destruct s.
Qed.

(** The hottest position is one of the ring; it is the head's only if no other is cheaper. *)
Lemma find_hottest_ok counters total mi nr hi :
  counters <> [] -> find_hottest counters total = (mi, nr, hi) ->
  (nr < length counters)%nat /\ (nr = 0%nat -> mi = dbl 1000000000 \/ SFeqb mi hi = true).
Proof.
  intros Hne. unfold find_hottest.
  assert (forall n, let '(mi, nr, hi) := foldl (hottest_step counters total) (dbl 1000000000, 0%nat, S754_zero false) (seq 0 n) in
    (nr < Nat.max 1 n)%nat /\ (nr = 0%nat -> mi = dbl 1000000000 \/ (0 < n)%nat /\ SFeqb mi hi = true)) as Hinv.
  { induction n as [|n IH]; [cbn [seq foldl]; split; [lia|by left]|]. rewrite seq_S, foldl_app. cbn [foldl Nat.add].
    destruct (foldl _ _ (seq 0 n)) as [[mi1 nr1] hi1]. destruct IH as [Hlt Hz]. unfold hottest_step.
    destruct (SFltb (income counters total n) mi1) eqn:Hl.
    - split; [lia|]. intros ->. right. split; [lia|]. cbn [Nat.eqb]. by apply SFltb_refl in Hl.
    - split; [lia|]. intros Hn. destruct (Hz Hn) as [->|[Hn0 He]]; [by left|]. right. split; [lia|].
      destruct (Nat.eqb_spec n 0); [lia|done]. }
  specialize (Hinv (length counters)). intros Hf. rewrite Hf in Hinv. destruct Hinv as [Hlt Hz].
  destruct counters as [|c cs]; [done|]. cbn [length] in *. split; [lia|]. intros Hn. destruct (Hz Hn) as [?|[_ ?]]; auto.
Qed.

Lemma collect_run l : forall hp cs,
  (length cs + length l < Z.to_nat 100000)%nat -> (forall a, a ∈ l -> is_Some (nodes hp !! a)) ->
  exists hp' cs', run_list collect_body l hp cs = Some (hp', inl cs') /\ length cs' = (length cs + length l)%nat
    /\ view hp' = view hp /\ heads hp' = heads hp /\ brk hp' = brk hp /\ nr_request hp' = nr_request hp.
Proof.
  induction l as [|a l IH]; intros hp cs Hlen Hdef; cbn [run_list].
  { exists hp, cs. split_and!; try done. }
  cbn [length] in *. destruct (Hdef a) as [nd Hn]; [set_solver|].
  assert (collect_body hp cs a = (hp ← on_node hp a (fun nd => set_counter nd 0); Some (hp, inl (cs ++ [counter (list_ nd)])))) as ->.
  { unfold collect_body. rewrite Hn. cbn [mbind option_bind]. by rewrite (proj2 (Nat.ltb_lt (length cs) _)) by lia. }
  destruct (on_node hp a (fun nd => set_counter nd 0)) as [hp1|] eqn:Ho; [|by unfold on_node in Ho; rewrite Hn in Ho].
  pose proof Ho as Ho'. unfold on_node in Ho'. rewrite Hn in Ho'. cbn [mbind option_bind] in Ho'. injection Ho' as Ho'.
  apply on_node_view in Ho as (Hv1 & Hh1 & Hb1 & Hr1); [|done]. cbn [mbind option_bind].
  destruct (IH hp1 (cs ++ [counter (list_ nd)])) as (hp' & cs' & -> & Hl' & Hv' & Hh' & Hb' & Hr').
  { rewrite length_app. cbn. lia. }
  { intros y Hy. rewrite <- Ho'. cbn [nodes set_nodes]. rewrite lookup_insert_is_Some.
    destruct (decide (a = y)); [by left|right]. split; [done|]. apply Hdef. set_solver. }
  exists hp', cs'. split_and!; try congruence. rewrite Hl', length_app. cbn. lia.
Qed.

Lemma nth_run nr l hp : forall i, (i <= nr)%nat ->
  run_list (nth_body nr) l hp i = match l !! (nr - i)%nat with
    | Some p => Some (hp, inr p)
    | None => Some (hp, inl (i + length l)%nat)
    end.
Proof.
  induction l as [|a l IH]; intros i Hi; cbn [run_list]; [by rewrite lookup_nil, Nat.add_0_r|].
  assert (nth_body nr hp i a = if (i =? nr)%nat then Some (hp, inr a) else Some (hp, inl (S i))) as -> by done.
  destruct (Nat.eqb_spec i nr) as [->|]; [by rewrite Nat.sub_diag|].
  cbn [mbind option_bind]. rewrite IH by lia. replace (nr - i)%nat with (S (nr - S i)) by lia. cbn [lookup list_lookup].
  destruct (l !! _); [done|]. cbn [length]. do 2 f_equal. f_equal. lia.
Qed.

Lemma nth_run_zero l hp : forall i, (0 < i)%nat -> exists j, run_list (nth_body 0) l hp i = Some (hp, inl j).
Proof.
  induction l as [|a l IH]; intros i Hi; cbn [run_list]; [eauto|].
  assert (nth_body 0 hp i a = if (i =? 0)%nat then Some (hp, inr a) else Some (hp, inl (S i))) as -> by done.
  destruct (Nat.eqb_spec i 0); [lia|]. cbn [mbind option_bind]. apply IH. lia.
Qed.

Lemma ring_ok_rotate ns b i a l1 c l2 :
  ring_ok ns b i (a :: l1 ++ c :: l2) -> ring_ok ns b i (c :: l2 ++ a :: l1).
Proof.
  intros (Hnd & Hl & nds & Hn & Hok & Hs & Hk). rewrite app_comm_cons in Hnd, Hl, Hn |- *.
  assert ((a :: l1) ++ c :: l2 ≡ₚ (c :: l2) ++ a :: l1) as Hperm by apply Permutation_app_comm.
  apply Forall2_app_inv_l in Hn as (n1 & n2 & Hn1 & Hn2 & ->).
  apply linked_app in Hl as [Hl1 Hl2]. split_and!.
  - by rewrite Permutation_app_comm.
  - apply linked_app. split; [exact Hl2|exact Hl1].
  - exists (n2 ++ n1). split_and!; [by apply Forall2_app|by rewrite Permutation_app_comm| |].
    + destruct n1 as [|x n1]; [inversion Hn1|]. destruct n2 as [|y n2]; [inversion Hn2|].
      rewrite fmap_app in Hs |- *. cbn in Hs |- *. by apply ring_sorted_rotate.
    + rewrite fmap_app in Hk |- *. by rewrite Permutation_app_comm.
Qed.

Lemma ring_length ns b i r : ring_ok ns b i r -> (length r <= Z.to_nat (2 ^ NBITS))%nat.
Proof.
  intros (_ & _ & nds & Hn & Hok & _ & Hk). rewrite (Forall2_length _ _ _ Hn), <- (length_fmap key nds).
  replace (Z.to_nat (2 ^ NBITS)) with (length (seqZ 0 (2 ^ NBITS))) by (by rewrite length_seqZ).
  apply submseteq_length, NoDup_submseteq; [done|]. intros k (nd & -> & Hin)%list_elem_of_fmap.
  rewrite Forall_forall in Hok. apply elem_of_seqZ. destruct (Hok nd Hin) as [Hr _]. lia.
Qed.

Lemma take_counters_ok hp h rings m i p a l :
  rep hp h rings m -> rings !! i = Some (a :: l) -> slots h !! i = Some p ->
  exists hp' total cs, take_counters hp p a = Some (hp', total, cs) /\ length cs = S (length l)
    /\ view hp' = view hp /\ hview hp' = hview hp /\ brk hp' = brk hp /\ nr_request hp' = nr_request hp.
Proof.
  intros Hrep Hr Hp. destruct (rp_bucket _ _ _ _ Hrep _ _ _ Hp Hr) as [[Hp0 Hpa] Hring].
  destruct (hview_lookup _ _ _ Hpa) as (hdr & Hhd & Hha). unfold take_counters. rewrite Hhd. cbn [mbind option_bind].
  destruct (on_head_view hp p hdr (fun hd => MkHead (haddr hd) (hcounter hd) 1) Hhd)
    as (hp1 & -> & Hv1 & Hh1 & Hb1 & Hr1 & Hheads1 & Hnodes1). cbn [mbind option_bind].
  pose proof (ring_length _ _ _ _ Hring) as Hlen. destruct Hring as (Hnd & Hl & _). cbn [hd] in Hl.
  destruct (linked_elem _ _ _ a Hl) as [nda Hnda]; [set_solver|]. pose proof (view_lookup _ _ _ Hnda) as (nd & Hn & _).
  rewrite Hnodes1, Hn. cbn [mbind option_bind].
  destruct (on_node hp1 a (fun nd => set_counter nd 0)) as [hp2|] eqn:Ho;
    [|by unfold on_node in Ho; rewrite Hnodes1, Hn in Ho].
  apply on_node_view in Ho as (Hv2 & Hh2 & Hb2 & Hr2); [|done]. cbn [mbind option_bind].
  rewrite (list_for_each_run collect_body a l); [| |by rewrite Hv2, Hv1|done].
  2: { intros ????? Hb. unfold collect_body in Hb. inv_bind Hb x Hx. destruct (_ <? _)%nat; [|done].
       inv_bind Hb y Hy. injection Hb as <- _. apply on_node_view in Hy as [Hy _]; done. }
  destruct (collect_run l hp2 [counter (list_ nd)]) as (hp3 & cs & -> & Hcs & Hv3 & Hh3 & Hb3 & Hr3).
  { cbn [length] in Hlen |- *. unfold NBITS in Hlen. lia. }
  { intros y Hy. assert (is_Some (view hp2 !! y)) as [ny (ny' & Hy' & _)%view_lookup]; [|eauto].
    rewrite Hv2, Hv1. destruct (linked_elem _ _ _ y Hl) as [ny Hny]; [set_solver|eauto]. }
  exists hp3, (hcounter hdr), cs. split_and!; [done|done|congruence| |congruence|congruence].
  unfold hview at 1. rewrite Hh3, Hh2. fold (hview hp1). rewrite Hh1. apply insert_id. cbn. by rewrite Hha.
Qed.

(** The same table with another node of a ring as its head. *)
Lemma rep_rotate hp hp' h rings m i p a l1 c l2 :
  rep hp h rings m -> rings !! i = Some (a :: l1 ++ c :: l2) -> slots h !! i = Some p ->
  view hp' = view hp -> hview hp' = <[p := c]> (hview hp) -> brk hp' = brk hp ->
  rep hp' h (<[i := c :: l2 ++ a :: l1]> rings) m.
Proof.
  intros Hrep Hr Hp Hv Hh Hb. destruct (rp_bucket _ _ _ _ Hrep _ _ _ Hp Hr) as [[Hp0 Hpa] Hring].
  replace h with (MkHash (nbits h) (kbits h) (size_ h) (<[i := p]> (slots h))) by (rewrite list_insert_id by done; by destruct h).
  destruct (rp_fresh _ _ _ _ Hrep) as [Hb0 Hfresh].
  apply (rep_update hp h rings m hp' i (a :: l1 ++ c :: l2) p); try done.
  - cbn. split; [done|]. by rewrite Hh, lookup_insert_eq.
  - rewrite Hv. by apply ring_ok_rotate.
  - intros y Hy. left. set_solver.
  - by right; left.
  - intros y _ _. by rewrite Hv.
  - intros q _ Hq. rewrite Hh. by apply lookup_insert_ne.
  - lia.
  - rewrite Hv, Hh, Hb. intros y [Hy|[->|Hy]%is_Some_insert]; apply Hfresh; eauto.
  - rewrite Hv. apply (rp_keys _ _ _ _ Hrep).
  - intros k v Hi. rewrite (rp_map _ _ _ _ Hrep), Hi, Hr, Hv. unfold ring_holds.
    split; [intros (r & [= <-] & y & nd & Hy & Hrest)|intros (y & nd & Hy & Hrest)].
    + exists y, nd. split; [set_solver|done].
    + eexists. split; [done|]. exists y, nd. split; [set_solver|done].
Qed.

Lemma install_hottest_ok hp h rings m i p a l mi nr hi :
  rep hp h rings m -> rings !! i = Some (a :: l) -> slots h !! i = Some p -> (nr < S (length l))%nat ->
  (nr = 0%nat -> mi = dbl 1000000000 \/ SFeqb mi hi = true) ->
  exists hp' ret, install_hottest hp p a mi nr hi = Some (hp', ret) /\ nr_request hp' = nr_request hp /\ view hp' = view hp
    /\ match ret with SHIFT_SUCCESS => exists rings', rep hp' h rings' m | SHIFT_REHASH => sane hp' end.
Proof.
  intros Hrep Hr Hp Hnr Hz. destruct (rp_bucket _ _ _ _ Hrep _ _ _ Hp Hr) as [[Hp0 Hpa] (Hnd & Hl & _)].
  destruct (hview_lookup _ _ _ Hpa) as (hdr & Hhd & Hha). unfold install_hottest. destruct (SFeqb mi hi) eqn:Heq.
  { destruct (on_head_view hp p _ (fun hd => MkHead (haddr hd) 0 0) Hhd) as (hp1 & -> & Hv1 & Hh1 & Hb1 & Hr1 & _).
    exists hp1, SHIFT_SUCCESS. split_and!; [done..|]. exists rings. apply (rep_same hp); [done| |done..].
    rewrite Hh1. apply insert_id. cbn. by rewrite Hha. }
  rewrite (list_for_each_run (nth_body nr) a l); [|intros ????? Hb|done..].
  2: { unfold nth_body in Hb. destruct (_ =? _)%nat; [done|]. by injection Hb as <- _. }
  assert (forall x hp1, view hp1 = view hp -> brk hp1 = brk hp -> hview hp1 = <[p := x]> (hview hp) -> sane hp1) as Hsane.
  { intros x hp1 Hv1 Hb1 Hh1. destruct (rep_sane _ _ _ _ Hrep) as (Hs1 & Hs2 & Hs3). unfold sane.
    rewrite Hb1, Hh1, kview_view, Hv1, <- kview_view. split_and!; [done| |done].
    intros y [Hy|[->|Hy]%is_Some_insert]; apply Hs2; eauto. }
  destruct nr as [|nr].
  { destruct (Hz eq_refl) as [->|?]; [|done]. destruct (nth_run_zero l hp 1) as [j ->]; [lia|]. cbn [mbind option_bind].
    destruct (on_head_view hp p _ (fun _ => MkHead 0 0 0) Hhd) as (hp1 & -> & Hv1 & Hh1 & Hb1 & Hr1 & _). cbn [mbind option_bind].
    assert (SFltb (dbl INCOME_THRESHOLD) (dbl 1000000000) = true) as -> by (vm_compute; reflexivity).
    exists hp1, SHIFT_REHASH. split_and!; [done..|]. by apply (Hsane 0). }
  rewrite nth_run by lia. replace (S nr - 1)%nat with nr by lia.
  destruct (lookup_lt_is_Some_2 l nr) as [c Hc]; [lia|]. rewrite Hc. cbn [mbind option_bind].
  destruct (on_head_view hp p _ (fun _ => MkHead c 0 0) Hhd) as (hp1 & -> & Hv1 & Hh1 & Hb1 & Hr1 & Hhd1 & _). cbn [mbind option_bind].
  destruct (SFltb _ mi); [exists hp1, SHIFT_REHASH; split_and!; [done..|by apply (Hsane c)]|].
  destruct (on_head_view hp1 p (MkHead c 0 0) (fun hd => MkHead (haddr hd) 0 0)) as (hp2 & -> & Hv2 & Hh2 & Hb2 & Hr2 & _);
    [by rewrite Hhd1, lookup_insert_eq|]. cbn [mbind option_bind].
  exists hp2, SHIFT_SUCCESS. split_and!; [done|congruence..|].
  apply list_elem_of_split_length in Hc as (l1 & l2 & -> & _). exists (<[i := c :: l2 ++ a :: l1]> rings).
  apply (rep_rotate hp hp2 h rings m i p a l1 c l2); try done; [congruence| |congruence].
  rewrite Hh2, Hh1, insert_insert_eq. done.
Qed.

(** The head moves to a node of its ring, or the ring is too hot and the table is to be rehashed. *)
Lemma do_hotspot_shift_ok hp h rings m i p a l :
  rep hp h rings m -> rings !! i = Some (a :: l) -> slots h !! i = Some p ->
  exists hp' ret, do_hotspot_shift hp p a = Some (hp', ret) /\ nr_request hp' = nr_request hp /\ view hp' = view hp
    /\ match ret with SHIFT_SUCCESS => exists rings', rep hp' h rings' m | SHIFT_REHASH => sane hp' end.
Proof.
  intros Hrep Hr Hp. unfold do_hotspot_shift.
  destruct (take_counters_ok hp h rings m i p a l Hrep Hr Hp) as (hp1 & total & cs & -> & Hcs & Hv & Hh & Hb & Hrq).
  cbn [mbind option_bind]. destruct (find_hottest cs total) as [[mi nr] hi] eqn:Hf.
  apply find_hottest_ok in Hf as [Hnr Hz]; [|by destruct cs]. rewrite Hcs in Hnr.
  assert (rep hp1 h rings m) as Hrep1 by (by apply (rep_same hp)).
  destruct (install_hottest_ok hp1 h rings m i p a l mi nr hi Hrep1 Hr Hp Hnr Hz) as (hp2 & ret & -> & Hr2 & Hv2 & Hret).
  exists hp2, ret. split_and!; [done|congruence..|done].
Qed.

Lemma requests_same hp n : view (set_requests hp n) = view hp /\ hview (set_requests hp n) = hview hp.
Proof. done. Qed.

(** What [hotring_get] answers: the result, [*nodep] in the heap afterwards. *)
Definition answers (hp : heap) (r : Z) (nodep : option Z) (v : option Z) : Prop :=
  match v with
  | None => r = 0 /\ nodep = None
  | Some v => r = 1 /\ exists a nd, nodep = Some a /\ nodes hp !! a = Some nd /\ value nd = v
  end.

Lemma found_answers hp h rings m k r ret nodep prevp hp' :
  rep hp h rings m -> rings !! index_of h k = Some r -> found (view hp) r k ret nodep prevp -> view hp' = view hp ->
  answers hp' (match ret with GET_NOT_FOUND => 0 | _ => 1 end) nodep (m !! k)
  /\ (ret = GET_NOT_FOUND <-> m !! k = None).
Proof.
  intros Hrep Hr Hfound Hv.
  assert (forall a nd, a ∈ r -> view hp !! a = Some nd -> key nd = k -> nodep = Some a -> answers hp' 1 nodep (m !! k) /\ m !! k <> None) as Hin.
  { intros a nd Ha Hn Hk ->. assert (m !! k = Some (value nd)) as ->.
    { apply (rp_map _ _ _ _ Hrep). exists r. split; [done|]. by exists a, nd. }
    split; [|done]. split; [done|]. rewrite <- Hv in Hn. apply view_lookup in Hn as (nd' & Hn & <-). by exists a, nd'. }
  destruct ret; cbn in Hfound; [|done|..].
  - destruct Hfound as (-> & -> & Hno). destruct (m !! k) as [v|] eqn:Hm; [|done]. exfalso.
    apply (rp_map _ _ _ _ Hrep) in Hm as (r' & Hr' & Hh). assert (r' = r) as -> by congruence. by apply (Hno v).
  - destruct Hfound as (_ & a & l & nd & -> & -> & Hn & Hk). destruct (Hin a nd) as [? ?]; [set_solver|done..|]. done.
  - destruct Hfound as (l1 & l2 & a & nd & -> & -> & Hn & Hk). destruct (Hin a nd) as [? ?]; [set_solver|done..|]. done.
Qed.

(** [hotring_get] answers from the map and keeps it; only a call that moves the head may fail to return. *)
Lemma hotring_get_rep hp h rings m k :
  rep hp h rings m -> 0 <= k < 2 ^ NBITS -> 0 <= nr_request hp < 2 ^ 31 - 1 ->
  match hotring_get hp h k with
  | Some (hp', h', (r, nodep, prevp)) => h' = h /\ (exists rings', rep hp' h rings' m) /\ answers hp' r nodep (m !! k)
  | None => INTERVAL <= nr_request hp + 1
  end.
Proof.
  intros Hrep Hk Hreq. unfold hotring_get. destruct (Z.eqb_spec (nr_request hp) (2 ^ 31 - 1)); [lia|].
  set (hp0 := set_requests hp (nr_request hp + 1)). assert (rep hp0 h rings m) as Hrep0 by (by apply (rep_same hp)).
  destruct (hotring_get_bucket hp0 h rings m k Hrep0 Hk) as (hp1 & ret & nodep & prevp & r & -> & Hv & Hh & Hb & Hrq & Hr & Hfound).
  cbn [mbind option_bind]. destruct (rp_bits _ _ _ _ Hrep) as (Hn & Hkb & Hsz).
  destruct (hashCode_ok h k Hn Hkb Hk) as (-> & Hi & _). cbn [mbind option_bind].
  assert (rep hp1 h rings m) as Hrep1 by (by apply (rep_same hp0)).
  assert (forall hp', view hp' = view hp1 -> answers hp' (match ret with GET_NOT_FOUND => 0 | _ => 1 end) nodep (m !! k)) as Hans.
  { intros hp' Hv'. eapply (found_answers hp0); [done..|congruence]. }
  destruct ret; cbn in Hfound; [split_and!; eauto|done|split_and!; eauto|].
  destruct (Z.leb_spec INTERVAL (nr_request hp1)) as [Hint|]; [|split_and!; eauto].
  assert (nr_request hp1 = nr_request hp + 1) as Hrq' by (by rewrite Hrq). rewrite Hrq' in Hint.
  destruct (lookup_lt_is_Some_2 (slots h) (index_of h k)) as [p Hp]; [by rewrite (rp_slots _ _ _ _ Hrep)|].
  destruct r as [|a l]; [by destruct Hfound as ([|??] & ? & ? & ? & ? & _)|].
  destruct (rp_bucket _ _ _ _ Hrep1 _ _ _ Hp Hr) as [[Hp0 Hpa] _].
  unfold hotspot_shift, slot. rewrite Nat2Z.id, Hp. cbn [mbind option_bind]. unfold get_head_node_by_head_pointer.
  rewrite (proj2 (Z.eqb_neq p 0) Hp0). destruct (hview_lookup _ _ _ Hpa) as (hdr & -> & Hha). cbn [mbind option_bind]. rewrite Hha.
  destruct (do_hotspot_shift_ok hp1 h rings m _ p a l Hrep1 Hr Hp) as (hp2 & res & -> & Hr2 & Hv2 & Hres). cbn [mbind option_bind].
  destruct res.
  - assert (hotring_rehash hp2 h = None) as ->; [|exact Hint].
    apply hotring_rehash_fails; [done..|exact (rp_slots _ _ _ _ Hrep)|done|]. by exists (index_of h k), p.
  - cbn [mbind option_bind]. destruct Hres as [rings' Hrep2]. split_and!; [done| |by apply Hans].
    exists rings'. by apply (rep_same hp2).
Qed.

(** A new table. *)
Lemma hotring_alloc_rep kb :
  0 <= kb <= NBITS -> exists h, hotring_alloc NBITS kb = Some h
    /\ rep (MkHeap ∅ ∅ 1 0) h (replicate (Z.to_nat (2 ^ kb)) []) ∅.
Proof.
  intros Hkb. unfold hotring_alloc. unfold NBITS in *. rewrite (proj2 (Z.leb_le 0 kb)), (proj2 (Z.ltb_lt kb 31)) by lia.
  cbn [andb]. eexists. split; [done|]. split; cbn [nbits kbits size_ slots]; try done; try apply length_replicate.
  - intros i p r [-> _]%lookup_replicate [-> _]%lookup_replicate. split; [done|]. split_and!; [constructor|done|].
    exists []. split_and!; constructor.
  - intros i j r r' a [-> _]%lookup_replicate _ Ha. by apply elem_of_nil in Ha.
  - intros i j p [-> _]%lookup_replicate. done.
  - split; [cbn [brk]; lia|]. unfold view, hview. cbn. rewrite !fmap_empty. intros a. rewrite !lookup_empty. by intros [[??]|[??]].
  - intros k v. rewrite lookup_empty. split; [done|]. intros (r & [-> _]%lookup_replicate & a & nd & Ha & _). by apply elem_of_nil in Ha.
Qed.

(** ** Deletion *)

Lemma ring_sorted_delete ks1 k ks2 : ks1 <> [] -> ring_sorted (ks1 ++ k :: ks2) -> ring_sorted (ks1 ++ ks2).
Proof.
  destruct ks1 as [|k0 ks1]; [done|]. intros _. cbn. intros (Hc & H1 & H2)%StronglySorted_app.
  apply StronglySorted_inv in H2 as [H2 _]. apply StronglySorted_app. split_and!; [|done..]. set_solver.
Qed.

Lemma ring_ok_delete ns ns' b i x p a l2 pn na :
  0 <= b -> ring_ok ns b i (x ++ p :: a :: l2) -> ns !! p = Some pn -> ns !! a = Some na ->
  ns' !! p = Some (set_addr pn (addr (list_ na))) -> (forall y, y ∈ x ++ l2 -> ns' !! y = ns !! y) ->
  ring_ok ns' b i (x ++ p :: l2).
Proof.
  intros Hb (Hnd & Hl & ts & Htags & Hs & Hk)%ring_ok_tags Hp Ha Hp' Hsame; [|done]. apply ring_ok_tags; [done|].
  assert (forall y, y ∈ x ++ p :: l2 -> forall nd, ns !! y = Some nd -> exists nd', ns' !! y = Some nd' /\ key nd' = key nd /\ tag nd' = tag nd) as Hkt.
  { intros y Hy nd Hn. destruct (decide (y = p)) as [->|].
    - assert (nd = pn) as -> by congruence. by eexists.
    - exists nd. rewrite Hsame by set_solver. done. }
  assert (x ++ p :: a :: l2 = (x ++ [p]) ++ a :: l2) as Hsplit by (by rewrite <- app_assoc). split_and!.
  - apply (sublist_NoDup _ (x ++ p :: a :: l2)); [done|]. apply sublist_app; [done|]. apply sublist_skip, sublist_cons. done.
  - assert (hd 0 (x ++ p :: l2) = hd 0 (x ++ p :: a :: l2)) as -> by (by destruct x).
    set (z := hd 0 _) in *. apply linked_app in Hl as [Hx [(pn' & Hpn & Hpa) [(na' & Hna & Haa) Hl2]]].
    assert (na' = na) as -> by congruence. apply linked_app. cbn [linked hd]. split_and!.
    + apply (linked_ext ns); [set_solver|done].
    + eexists. split; [exact Hp'|]. exact Haa.
    + apply (linked_ext ns); [set_solver|done].
  - rewrite Hsplit in Htags. apply Forall2_app_inv_l in Htags as (ts1 & ts2' & Ht1 & Ht2 & ->).
    apply Forall2_cons_inv_l in Ht2 as (ta & ts2 & _ & Ht2 & ->). exists (ts1 ++ ts2). split_and!.
    + apply (tags_at_mono ns); [intros y nd Hy; by apply Hkt|].
      replace (x ++ p :: l2) with ((x ++ [p]) ++ l2) by (by rewrite <- app_assoc). by apply Forall2_app.
    + apply (ring_sorted_delete _ ta); [|done]. intros ->. apply Forall2_nil_inv_r in Ht1. by destruct x.
    + apply (sublist_NoDup _ (ts1 ++ ta :: ts2)); [done|]. apply sublist_app; [done|]. by apply sublist_cons.
Qed.

Lemma list_del_free hp prev entry pn ne :
  view hp !! prev = Some pn -> view hp !! entry = Some ne -> prev <> entry ->
  exists hp1 hp2, list_del hp prev entry = Some hp1 /\ hotring_node_free hp1 entry = Some hp2
    /\ view hp2 = delete entry (<[prev := set_addr pn (addr (list_ ne))]> (view hp))
    /\ heads hp2 = heads hp /\ brk hp2 = brk hp.
Proof.
  intros (pn' & Hp & <-)%view_lookup (ne' & He & <-)%view_lookup Hne. unfold list_del. rewrite He. cbn [mbind option_bind].
  destruct (on_node_ok hp prev pn' (fun p => set_addr p (addr (list_ ne'))) Hp) as (hp1 & -> & Hv1 & Hh1 & Hb1 & _ & Hn1).
  cbn [mbind option_bind].
  destruct (on_node_ok hp1 entry ne' (fun e => set_list e (MkList LIST_POISON1 0))) as (hp2 & -> & Hv2 & Hh2 & Hb2 & _ & Hn2).
  { by rewrite Hn1, lookup_insert_ne. }
  exists hp2, (set_nodes hp2 (delete entry (nodes hp2))). unfold hotring_node_free.
  assert (is_Some (nodes hp2 !! entry)) as [e He2] by (rewrite Hn2, lookup_insert_eq; eauto). rewrite He2.
  split_and!; [done..| |cbn; congruence|cbn; congruence].
  transitivity (delete entry (view hp2)); [apply fmap_delete|]. by rewrite Hv2, delete_insert_eq, Hv1.
Qed.

Lemma ring_node ns b i r a na : ring_ok ns b i r -> a ∈ r -> ns !! a = Some na -> node_ok b i na.
Proof.
  intros (_ & _ & nds & Hnds & Hok & _) [j Hj]%list_elem_of_lookup Ha.
  destruct (Forall2_lookup_l _ _ _ _ _ Hnds Hj) as (na' & Hj' & Hna). assert (na' = na) as -> by congruence.
  by apply (Forall_lookup_1 _ _ j na Hok).
Qed.

(** A key is in a ring once. *)
Lemma ring_key_inj ns b i r a a' na na' :
  ring_ok ns b i r -> a ∈ r -> a' ∈ r -> ns !! a = Some na -> ns !! a' = Some na' -> key na = key na' -> a = a'.
Proof.
  intros (_ & _ & nds & Hnds & _ & _ & Hk) [j Hj]%list_elem_of_lookup [j' Hj']%list_elem_of_lookup Ha Ha' He.
  destruct (Forall2_lookup_l _ _ _ _ _ Hnds Hj) as (n1 & Hn1 & Hm1).
  destruct (Forall2_lookup_l _ _ _ _ _ Hnds Hj') as (n2 & Hn2 & Hm2).
  assert (j = j') as ->; [|congruence]. apply (NoDup_lookup (key <$> nds) j j' (key na) Hk).
  - rewrite list_lookup_fmap, Hn1. cbn. congruence.
  - rewrite list_lookup_fmap, Hn2. cbn. congruence.
Qed.

(** A node other than the head goes. *)
Lemma delete_cold hp h rings m i p x prev a l2 na :
  rep hp h rings m -> slots h !! i = Some p -> rings !! i = Some (x ++ prev :: a :: l2) -> view hp !! a = Some na ->
  exists hp1 hp2, list_del hp prev a = Some hp1 /\ hotring_node_free hp1 a = Some hp2
    /\ rep hp2 h (<[i := x ++ prev :: l2]> rings) (delete (key na) m).
Proof.
  intros Hrep Hp Hr Ha. destruct (rp_bits _ _ _ _ Hrep) as (_ & Hkb & _).
  assert (0 <= tag_bits h) as Hb by (destruct (rp_bits _ _ _ _ Hrep) as (Hn & _); unfold tag_bits; lia).
  destruct (rp_bucket _ _ _ _ Hrep _ _ _ Hp Hr) as [Hslot Hring]. pose proof Hring as (Hnd & Hl & _).
  destruct (linked_elem _ _ _ prev Hl) as [pn Hpn]; [set_solver|].
  apply NoDup_app in Hnd as (_ & Hxp & [Hpa [Hal _]%NoDup_cons]%NoDup_cons).
  assert (prev <> a) as Hne by set_solver.
  destruct (list_del_free hp prev a pn na Hpn Ha Hne) as (hp1 & hp2 & H1 & H2 & Hv & Hh & Hbr).
  exists hp1, hp2. split_and!; [done..|].
  assert (hview hp2 = hview hp) as Hhv by (unfold hview; by rewrite Hh).
  assert (view hp2 !! prev = Some (set_addr pn (addr (list_ na)))) as Hp2 by (by rewrite Hv, lookup_delete_ne, lookup_insert_eq).
  assert (forall y, y <> prev -> y <> a -> view hp2 !! y = view hp !! y) as Hsame.
  { intros y Hy1 Hy2. by rewrite Hv, lookup_delete_ne, lookup_insert_ne. }
  assert (forall y nd, view hp2 !! y = Some nd -> exists nd', view hp !! y = Some nd' /\ key nd' = key nd) as Hold.
  { intros y nd Hy. rewrite Hv in Hy. apply lookup_delete_Some in Hy as [_ [[<- <-]|[_ Hy]]%lookup_insert_Some]; [by exists pn|by exists nd]. }
  pose proof (ring_node _ _ _ _ a na Hring ltac:(set_solver) Ha) as Hna.
  assert (index_of h (key na) = i) as Hidx by (destruct Hna as (_ & Hq & _); unfold index_of; rewrite Hq; lia).
  replace h with (MkHash (nbits h) (kbits h) (size_ h) (<[i := p]> (slots h))) by (rewrite list_insert_id by done; by destruct h).
  destruct (rp_fresh _ _ _ _ Hrep) as [Hb0 Hfresh].
  apply (rep_update hp h rings m hp2 i (x ++ prev :: a :: l2) p); try done.
  - rewrite Hhv. by destruct x.
  - apply (ring_ok_delete (view hp) _ _ _ x prev a l2 pn na); try done. intros y Hy. apply Hsame; set_solver.
  - intros y Hy. left. set_solver.
  - by right; left.
  - intros y _ Hy. apply Hsame; set_solver.
  - intros q _ _. by rewrite Hhv.
  - lia.
  - rewrite Hhv, Hbr. intros y [[nd Hy]|Hy]; apply Hfresh; [left|by right]. destruct (Hold y nd Hy) as (nd' & -> & _). eauto.
  - intros y nd Hy. destruct (Hold y nd Hy) as (nd' & Hy' & <-). by apply (rp_keys _ _ _ _ Hrep y).
  - intros k Hk. apply lookup_delete_ne. by intros <-.
  - intros k v Hk. rewrite lookup_delete_Some, (rp_map _ _ _ _ Hrep), Hk, Hr. unfold ring_holds. split.
    + intros [Hka (r & [= <-] & y & nd & Hy & Hn & Hkn & Hvn)].
      assert (y <> a) by (intros ->; congruence). destruct (decide (y = prev)) as [->|].
      * exists prev, (set_addr pn (addr (list_ na))). assert (nd = pn) as -> by congruence. split_and!; [set_solver|done..].
      * exists y, nd. rewrite Hsame by done. split_and!; [set_solver|done..].
    + intros (y & nd & Hy & Hn & Hkn & Hvn). assert (y <> a) as Hya by set_solver.
      assert (exists nd', view hp !! y = Some nd' /\ key nd' = k /\ value nd' = v) as (nd' & Hn' & Hk' & Hv').
      { destruct (decide (y = prev)) as [->|]; [|exists nd; by rewrite <- Hsame].
        exists pn. assert (nd = set_addr pn (addr (list_ na))) as -> by congruence. done. }
      split; [|eexists; split; [done|]; exists y, nd'; split_and!; [set_solver|done..]].
      intros He. apply Hya. by apply (ring_key_inj _ _ _ _ y a nd' na Hring); [set_solver..|done|done|congruence].
Qed.

(** The head goes, and with it the bucket. *)
Lemma delete_hot hp h rings m i p a l :
  rep hp h rings m -> slots h !! i = Some p -> rings !! i = Some (a :: l) ->
  exists hp1 hp2 h2, hotring_node_free hp a = Some hp1 /\ hotring_head_free_by_index hp1 h (Z.of_nat i) = Some (hp2, h2)
    /\ rep hp2 h2 (<[i := []]> rings) (filter (fun '(k, _) => index_of h k <> i) m).
Proof.
  intros Hrep Hp Hr. destruct (rp_bucket _ _ _ _ Hrep _ _ _ Hp Hr) as [[Hp0 Hpa] (_ & Hl & _)].
  destruct (linked_elem _ _ _ a Hl) as [na (na' & Ha & _)%view_lookup]; [set_solver|].
  destruct (hview_lookup _ _ _ Hpa) as (hdr & Hhd & _).
  unfold hotring_node_free. rewrite Ha. cbn [mbind option_bind]. eexists _, _, _. split; [done|].
  unfold hotring_head_free_by_index, slot, set_slot. rewrite Nat2Z.id, Hp. cbn [mbind option_bind].
  rewrite store_Some by (by eapply lookup_lt_Some). cbn [mbind option_bind heads set_nodes]. rewrite Hhd.
  cbn [mbind option_bind]. split; [done|]. set (hp2 := set_heads _ _).
  assert (view hp2 = delete a (view hp)) as Hv by apply fmap_delete.
  assert (hview hp2 = delete p (hview hp)) as Hh by apply fmap_delete.
  destruct (rp_fresh _ _ _ _ Hrep) as [Hb0 Hfresh].
  apply (rep_update hp h rings m hp2 i (a :: l) p); try done.
  - split_and!; [constructor|done|]. exists []. split_and!; constructor.
  - intros y Hy. by apply elem_of_nil in Hy.
  - by left.
  - intros y _ Hy. rewrite Hv. apply lookup_delete_ne. set_solver.
  - intros q _ Hq. rewrite Hh. by apply lookup_delete_ne.
  - rewrite Hv, Hh. intros y Hy. apply Hfresh. destruct Hy as [[x Hy]|[x Hy]]; apply lookup_delete_Some in Hy as [_ Hy]; eauto.
  - intros y nd Hy. rewrite Hv in Hy. apply lookup_delete_Some in Hy as [_ Hy]. by apply (rp_keys _ _ _ _ Hrep y).
  - intros k Hk. destruct (m !! k) as [v|] eqn:Hm.
    + apply map_lookup_filter_Some. done.
    + apply map_lookup_filter_None. by left.
  - intros k v Hk. rewrite map_lookup_filter_Some. split; [by intros [_ ?]|].
    intros (y & nd & Hy & _). by apply elem_of_nil in Hy.
Qed.

(** ** The table as a map *)

(** C10: A table of keys below [2^NBITS] is a finite map.  [hotring_insert] of a new key always returns and
    adds it.  [hotring_get] answers from the map, whatever node it makes the head of the ring, and
    returns as long as it does not try to move the head. *)
Theorem hotring_refines_map hp h rings m k :
  rep hp h rings m -> 0 <= k < 2 ^ NBITS -> 0 <= nr_request hp < 2 ^ 31 - 1 ->
  (forall v, m !! k = None -> exists hp' h' rings',
     hotring_insert hp h k v = Some (hp', h', 0) /\ rep hp' h' rings' (<[k := v]> m))
  /\ (forall hp' h' r nodep prevp, hotring_get hp h k = Some (hp', h', (r, nodep, prevp)) ->
     h' = h /\ (exists rings', rep hp' h rings' m) /\ answers hp' r nodep (m !! k))
  /\ (nr_request hp < INTERVAL - 1 -> is_Some (hotring_get hp h k)).
Proof.
  intros Hrep Hk Hreq. pose proof (hotring_get_rep hp h rings m k Hrep Hk Hreq) as Hget. split_and!.
  - intros v Hnew. destruct (hotring_insert_rep hp h rings m k v Hrep Hk Hnew) as (hp' & h' & rings' & Hi & Hr & _). eauto.
  - intros hp' h' r nodep prevp Hg. by rewrite Hg in Hget.
  - intros Hlt. destruct (hotring_get hp h k) as [x|]; [eauto|lia].
Qed.

(** [hotring_delete] of the key at the head of a ring frees the head pointer: every key of the bucket is
    lost.  A key further on is taken out alone, and a key that is not there changes nothing. *)
Theorem hotring_delete_outcomes hp h rings m k :
  rep hp h rings m -> 0 <= k < 2 ^ NBITS ->
  exists hp' h' rings' m' b, hotring_delete hp h k = Some (hp', h', b) /\ rep hp' h' rings' m'
    /\ match m !! k with
       | None => b = false /\ m' = m
       | Some _ => b = true /\ exists a l nd, rings !! index_of h k = Some (a :: l) /\ view hp !! a = Some nd /\
           m' = if decide (key nd = k) then filter (fun '(k', _) => index_of h k' <> index_of h k) m else delete k m
       end.
Proof.
  intros Hrep Hk. unfold hotring_delete. destruct (rp_bits _ _ _ _ Hrep) as (Hn & Hkb & _).
  destruct (hashCode_ok h k Hn Hkb Hk) as (Hhc & Hi & _).
  destruct (hotring_get_bucket hp h rings m k Hrep Hk) as (hp1 & ret & nodep & prevp & r & -> & Hv & Hh & Hb & _ & Hr & Hfound).
  cbn [mbind option_bind]. assert (rep hp1 h rings m) as Hrep1 by (by apply (rep_same hp)).
  destruct (found_answers hp h rings m k r ret nodep prevp hp Hrep Hr Hfound eq_refl) as [_ Hnone].
  destruct (lookup_lt_is_Some_2 (slots h) (index_of h k)) as [p Hp]; [by rewrite (rp_slots _ _ _ _ Hrep)|].
  destruct (rp_bucket _ _ _ _ Hrep _ _ _ Hp Hr) as [_ Hring].
  destruct ret; cbn in Hfound; [|done|..].
  - rewrite (proj1 Hnone eq_refl). by eexists _, _, rings, m, _.
  - destruct Hfound as (-> & a & l & nd & -> & -> & Hna & Hka).
    destruct (delete_hot hp1 h rings m _ p a l Hrep1 Hp Hr) as (hp2 & hp3 & h3 & H2 & H3 & Hrep3).
    cbn [Z.eqb negb mbind option_bind]. rewrite H2. cbn [mbind option_bind]. unfold hotring_head_free.
    rewrite Hhc. cbn [mbind option_bind]. rewrite H3. cbn [mbind option_bind].
    eexists _, _, _, _, _. split_and!; [done|exact Hrep3|]. destruct (m !! k) eqn:Hm; [|by pose proof (proj2 Hnone eq_refl)].
    split; [done|]. exists a, l, nd. split_and!; [done..|]. by rewrite decide_True.
  - destruct Hfound as (x & l2 & a & nd & -> & -> & Hna & Hka).
    assert (view hp1 !! a = Some nd) as Hna1 by congruence.
    destruct (delete_cold hp1 h rings m _ p x prevp a l2 nd Hrep1 Hp Hr Hna1) as (hp2 & hp3 & H2 & H3 & Hrep3).
    destruct (linked_elem _ _ _ prevp (proj1 (proj2 Hring))) as [pn Hpn]; [set_solver|].
    assert (prevp <> 0) as Hp0 by (assert (0 < prevp < brk hp) by (apply (rp_fresh _ _ _ _ Hrep); eauto); lia).
    rewrite (proj2 (Z.eqb_neq prevp 0) Hp0). cbn [negb mbind option_bind]. rewrite H2. cbn [mbind option_bind]. rewrite H3. cbn [mbind option_bind].
    rewrite Hka in Hrep3. eexists _, _, _, _, _. split_and!; [done|exact Hrep3|].
    destruct (m !! k) eqn:Hm; [|by pose proof (proj2 Hnone eq_refl)].
    split; [done|]. destruct (x ++ prevp :: a :: l2) as [|a0 l0] eqn:Heq; [by destruct x|].
    destruct (linked_elem _ _ _ a0 (proj1 (proj2 Hring))) as [n0 Hn0]; [set_solver|].
    exists a0, l0, n0. split_and!; [done..|]. rewrite decide_False; [done|]. intros Hk0.
    assert (a0 = a) as ->.
    { apply (ring_key_inj _ _ _ _ a0 a n0 nd Hring); [set_solver|rewrite <- Heq; set_solver|done|done|congruence]. }
    destruct Hring as (Hnd & _). destruct x as [|y x]; cbn in Heq; injection Heq as -> <-.
    + apply NoDup_cons in Hnd as [Hnd _]. set_solver.
    + apply NoDup_cons in Hnd as [Hnd _]. set_solver.
Qed.

(** A table that holds a key cannot be rehashed: [hotring_rehash] writes through a null pointer.  A
    [hotring_get] that finds the ring too hot therefore never returns. *)
Theorem hotring_rehash_null hp h rings m :
  rep hp h rings m -> m <> ∅ -> hotring_rehash hp h = None.
Proof.
  intros Hrep Hne. destruct (rp_bits _ _ _ _ Hrep) as (Hn & Hkb & Hsz).
  apply hotring_rehash_fails; [done..|exact (rp_slots _ _ _ _ Hrep)|by apply (rep_sane hp h rings m)|].
  apply map_choose in Hne as (k & v & Hm). apply (rp_map _ _ _ _ Hrep) in Hm as (r & Hr & a & nd & Ha & _).
  destruct (lookup_lt_is_Some_2 (slots h) (index_of h k)) as [p Hp].
  { rewrite (rp_slots _ _ _ _ Hrep), <- (rp_rings _ _ _ _ Hrep). by eapply lookup_lt_Some. }
  exists (index_of h k), p. split; [done|]. destruct (rp_bucket _ _ _ _ Hrep _ _ _ Hp Hr) as [Hs _].
  destruct r as [|b r]; [by apply elem_of_nil in Ha|]. by destruct Hs.
Qed.

(** ** Runs *)

Definition blank : heap := MkHeap ∅ ∅ 1 0.
Definition insert_all (kb : Z) (ks : list Z) : option (heap * hash) :=
  h ← hotring_alloc NBITS kb;
  foldM (fun '(hp, h) k => '(hp, h, _) ← hotring_insert hp h k (k + 1); Some (hp, h)) ks (blank, h).
Definition get_all (s : heap * hash) (ks : list Z) : option (heap * hash) :=
  foldM (fun '(hp, h) k => '(hp, h, _) ← hotring_get hp h k; Some (hp, h)) ks s.
Definition get_result (s : heap * hash) (k : Z) : option Z :=
  '(_, _, (r, _, _)) ← hotring_get s.1 s.2 k; Some r.

(** [__hotring_get] gives up by the order of the keys, but the nodes are in the order of the tags, which
    keys from [2^NBITS] on do not follow: key 2 is stored, and not found behind key 1025. *)
Theorem hotring_large_keys_hidden :
  (s ← insert_all 8 [0; 2]; get_result s 2) = Some 1
  /\ (s ← insert_all 8 [0; 2; 1025]; get_result s 2) = Some 0
  /\ (s ← insert_all 8 [0; 2; 1025]; hotring_delete s.1 s.2 2) ≫= (fun '(_, _, b) => Some b) = Some false.
Proof. split_and!; vm_compute; reflexivity. Qed.

(** Ten look-ups in a ring of twenty-five keys: the tenth asks for a larger table and crashes. *)
Example hotring_get_crashes :
  (s ← insert_all 3 (seqZ 0 25); s ← get_all s (seqZ 10 9); get_result s 5) = None
  /\ (s ← insert_all 3 (seqZ 0 25); s ← get_all s (seqZ 10 8); get_result s 5) = Some 1.
Proof. split; vm_compute; reflexivity. Qed.

(** In a small ring the head moves to the key that is asked for. *)
Example hotring_head_moves :
  (s ← insert_all 3 [0; 1; 2; 3]; s ← get_all s (replicate 10 2);
   hd ← heads s.1 !! 1; nd ← nodes s.1 !! haddr hd; Some (key nd)) = Some 2.
Proof. vm_compute. reflexivity. Qed.

(** The counter of a head has fifteen bits: after [2^15] look-ups in a ring it is zero again, the incomes
    are no numbers any more, and the null pointer becomes the head of the ring. *)
Example hotring_counter_wraps :
  find_hottest [1; 1] 0 = (dbl 1000000000, 0%nat, S754_nan)
  /\ (s ← insert_all 3 [0; 1];
      hp ← on_head s.1 1 (fun hd => MkHead (haddr hd) 0 0);
      '(hp, ret) ← do_hotspot_shift hp 1 2;
      hd ← heads hp !! 1; Some (haddr hd, ret)) = Some (0, SHIFT_REHASH).
Proof. split; vm_compute; reflexivity. Qed.

Lemma hotring_refines_map_witness :
  exists hp h hp' r nodep prevp, (h0 ← hotring_alloc NBITS 3; hotring_insert blank h0 5 6) = Some (hp, h, 0)
    /\ hotring_get hp h 5 = Some (hp', h, (r, nodep, prevp)) /\ answers hp' r nodep (Some 6).
Proof.
  destruct (hotring_alloc_rep 3) as (h0 & -> & Hrep0); [done|]. cbn [mbind option_bind].
  destruct (proj1 (hotring_refines_map blank h0 _ ∅ 5 Hrep0 ltac:(done) ltac:(done)) 6 (lookup_empty 5)) as (hp & h & rings & Hi & Hrep).
  assert (nr_request hp = 0) as Hreq.
  { destruct (hotring_insert_rep blank h0 _ ∅ 5 6 Hrep0 ltac:(done) (lookup_empty 5)) as (hp1 & h1 & r1 & Hi1 & _ & Hr1).
    assert (hp1 = hp) as -> by congruence. exact Hr1. }
  assert (0 <= nr_request hp < 2 ^ 31 - 1) as Hrange by (rewrite Hreq; done).
  destruct (hotring_refines_map hp h rings _ 5 Hrep ltac:(done) Hrange) as (_ & Hget & Htot).
  destruct Htot as [[[hp' h'] [[r nodep] prevp]] Hg]; [by rewrite Hreq|].
  destruct (Hget _ _ _ _ _ Hg) as (-> & _ & Hans). rewrite lookup_insert_eq in Hans.
  exists hp, h, hp', r, nodep, prevp. done.
Defined.

Lemma insert_two : exists hp h rings, insert_all 3 [0; 1] = Some (hp, h) /\ rep hp h rings {[0 := 1; 1 := 2]}.
Proof.
  unfold insert_all. destruct (hotring_alloc_rep 3) as (h0 & -> & Hrep0); [done|]. cbn [mbind option_bind foldM].
  destruct (hotring_insert_rep blank h0 _ ∅ 0 (0 + 1) Hrep0 ltac:(done) (lookup_empty 0)) as (hp1 & h1 & r1 & -> & Hrep1 & _).
  cbn [mbind option_bind].
  destruct (hotring_insert_rep hp1 h1 r1 _ 1 (1 + 1) Hrep1 ltac:(done) eq_refl) as (hp2 & h2 & r2 & -> & Hrep2 & _).
  exists hp2, h2, r2. split; [done|].
  replace ({[0 := 1; 1 := 2]} : gmap Z Z) with (<[1 := 1 + 1]> (<[0 := 0 + 1]> ∅) : gmap Z Z) by (vm_compute; reflexivity). done.
Qed.

Lemma hotring_delete_outcomes_witness :
  exists hp h hp' h' rings' m', insert_all 3 [0; 1] = Some (hp, h) /\ hotring_delete hp h 0 = Some (hp', h', true)
    /\ rep hp' h' rings' m' /\ m' !! 0 = None.
Proof.
  destruct insert_two as (hp & h & rings & Hi & Hrep).
  destruct (hotring_delete_outcomes hp h rings _ 0 Hrep ltac:(done)) as (hp' & h' & rings' & m' & b & Hd & Hrep' & Hm).
  destruct Hm as (-> & a & l & nd & Hr & Ha & Hm). exists hp, h, hp', h', rings', m'. split_and!; [done..|].
  rewrite Hm. case_decide; [|by rewrite lookup_delete_eq].
  apply map_lookup_filter_None. right. intros v _ Hne. by apply Hne.
Defined.

(** After the key at the head is deleted its neighbour is gone as well. *)
Example hotring_delete_loses_bucket :
  (s ← insert_all 3 [0; 1]; get_result s 1) = Some 1
  /\ (s ← insert_all 3 [0; 1]; '(hp, h, _) ← hotring_delete s.1 s.2 0; get_result (hp, h) 1) = Some 0.
Proof. split; vm_compute; reflexivity. Qed.

Lemma hotring_rehash_null_witness :
  exists hp h, insert_all 3 [0; 1] = Some (hp, h) /\ hotring_rehash hp h = None.
Proof.
  destruct insert_two as (hp & h & rings & Hi & Hrep). exists hp, h. split; [done|].
  apply (hotring_rehash_null hp h rings _ Hrep). done.
Defined.
