(* ===== verification/CircularQueue.v ===== *)
(** * The work queue (server/circular_queue.cpp, circular_queue.h, util/atomic.h)

    A bounded queue for any number of threads.  [enqueue] and [dequeue] take a
    ticket with a fetch-and-add and then wait at the slot of the ticket until
    it is empty, or full.  Every access of a thread to shared memory is one step
    of an interleaving.  The tickets, and which value went in and came out under
    which ticket, are recorded for the statements only. *)

From S2P Require Import Prelude.

Definition QUEUE_SIZE : Z := 10000000.

(** The buffer holds [NULL], which is 0, where the map has no entry. *)
Record queue_t : Type := MkQueue { buffer : gmap Z Z; front : Z; rear : Z }.

Definition create_queue : queue_t := MkQueue ∅ 0 0.

Definition value_at (q : queue_t) (s : Z) : Z := default 0 (buffer q !! s).
Definition set_value (q : queue_t) (s v : Z) : queue_t :=
  MkQueue (if v =? 0 then delete s (buffer q) else <[s := v]> (buffer q)) (front q) (rear q).

(** [return q->rear - q->front], as an [int]. *)
Definition count_queue (q : queue_t) : Z := s32 (u64 (rear q - front q)).
Definition getElement (q : queue_t) (i : Z) : option Z :=
  if (0 <=? i) && (i <? QUEUE_SIZE) then Some (value_at q i) else None.

(** The old value is returned as an [unsigned int]. *)
Definition FAA (mem add : Z) : Z * Z := (u32 mem, u64 (mem + add)).

(** The slot of a ticket. *)
Definition slot (ticket : Z) : Z := (FAA ticket 1).1 mod QUEUE_SIZE.

(** The two operations of a thread that is alone; [None] is a loop without end. *)
Definition enqueue (q : queue_t) (value : Z) : option queue_t :=
  let '(ticket, rear) := FAA (rear q) 1 in
  let s := ticket mod QUEUE_SIZE in
  let q := MkQueue (buffer q) (front q) rear in
  if value_at q s =? 0 then Some (set_value q s value) else None.
Definition dequeue (q : queue_t) : option (queue_t * Z) :=
  let '(ticket, front) := FAA (front q) 1 in
  let s := ticket mod QUEUE_SIZE in
  let q := MkQueue (buffer q) front (rear q) in
  let value := value_at q s in
  if value =? 0 then None else Some (set_value q s 0, value).

(** Where a thread is; [t] is its ticket. *)
Inductive pc :=
| Idle
| EnqTry (t v : Z)       (** [enqueue], before the swap *)
| DeqRead (t : Z)        (** [dequeue], before [value = cur->value] *)
| DeqTry (t v : Z).      (** [dequeue], before the swap *)

Inductive event :=
| Quiet
| TakesTicket (t v : Z)  (** [enqueue(q, v)] got ticket [t] *)
| Returns (t v : Z).     (** [dequeue] with ticket [t] returned [v] *)

Inductive access : queue_t -> pc -> queue_t -> pc -> event -> Prop :=
| enq_begin q v :
    access q Idle (MkQueue (buffer q) (front q) (FAA (rear q) 1).2) (EnqTry (rear q) v) (TakesTicket (rear q) v)
| enq_swap q t v : value_at q (slot t) = 0 -> access q (EnqTry t v) (set_value q (slot t) v) Idle Quiet
| enq_fail q t v : value_at q (slot t) <> 0 -> access q (EnqTry t v) q (EnqTry t v) Quiet
| deq_begin q : access q Idle (MkQueue (buffer q) (FAA (front q) 1).2 (rear q)) (DeqRead (front q)) Quiet
| deq_empty q t : value_at q (slot t) = 0 -> access q (DeqRead t) q (DeqRead t) Quiet
| deq_read q t : value_at q (slot t) <> 0 -> access q (DeqRead t) q (DeqTry t (value_at q (slot t))) Quiet
| deq_swap q t v : value_at q (slot t) = v -> access q (DeqTry t v) (set_value q (slot t) 0) Idle (Returns t v)
| deq_fail q t v : value_at q (slot t) <> v -> access q (DeqTry t v) q (DeqRead t) Quiet.

Record system : Type := MkSystem {
  queue : queue_t;
  threads : list pc;
  sent : gmap Z Z;                (** the value of every ticket of [enqueue] *)
  received : gmap Z Z;            (** the result of every ticket of [dequeue] *)
}.

Definition record (e : event) (st : system) (q : queue_t) (ts : list pc) : system :=
  match e with
  | Quiet => MkSystem q ts (sent st) (received st)
  | TakesTicket t v => MkSystem q ts (<[t := v]> (sent st)) (received st)
  | Returns t v => MkSystem q ts (sent st) (<[t := v]> (received st))
  end.

Inductive step : system -> system -> Prop :=
| step_thread st i p q' p' e :
    threads st !! i = Some p -> access (queue st) p q' p' e ->
    step st (record e st q' (<[i := p']> (threads st))).

(** A step of the thread [i]. *)
Inductive step_of (i : nat) : system -> system -> Prop :=
| step_of_thread st p q' p' e :
    threads st !! i = Some p -> access (queue st) p q' p' e ->
    step_of i st (record e st q' (<[i := p']> (threads st))).

Definition initial (n : nat) : system := MkSystem create_queue (replicate n Idle) ∅ ∅.

(** The ticket a thread waits with. *)
Definition enq_ticket (p : pc) : option Z := match p with EnqTry t _ => Some t | _ => None end.
Definition deq_ticket (p : pc) : option Z := match p with DeqRead t | DeqTry t _ => Some t | _ => None end.

(** No thread is so late that a later ticket has come around to its slot, no null pointer is
    queued, and the counters are below their last value. *)
Record timely (st : system) : Prop := {
  tm_enq : forall i p t t', threads st !! i = Some p -> enq_ticket p = Some t ->
    t < t' < rear (queue st) -> slot t' <> slot t;
  tm_deq : forall i p t t', threads st !! i = Some p -> deq_ticket p = Some t ->
    t < t' < front (queue st) -> slot t' <> slot t;
  tm_value : forall i t v, threads st !! i = Some (EnqTry t v) -> v <> 0;
  tm_count : rear (queue st) < 2 ^ 64 - 1 /\ front (queue st) < 2 ^ 64 - 1;
}.

(** Runs of [n] threads, with the states they went through, the last one first. *)
Inductive runs (n : nat) : list system -> system -> Prop :=
| runs_start : runs n [] (initial n)
| runs_step past st st' : runs n past st -> step st st' -> runs n (st :: past) st'.

(** ** The invariant *)

Definition waits_enq (st : system) (t : Z) : Prop := exists i p, threads st !! i = Some p /\ enq_ticket p = Some t.
Definition waits_deq (st : system) (t : Z) : Prop := exists i p, threads st !! i = Some p /\ deq_ticket p = Some t.

(** [owner] tells whose value is in a slot. *)
Record queue_inv (st : system) (owner : gmap Z Z) : Prop := {
  qi_sent : forall t, is_Some (sent st !! t) <-> 0 <= t < rear (queue st);
  qi_enq : forall i t v, threads st !! i = Some (EnqTry t v) -> sent st !! t = Some v /\ received st !! t = None;
  qi_enq_one : forall i j p p' t, threads st !! i = Some p -> threads st !! j = Some p' ->
    enq_ticket p = Some t -> enq_ticket p' = Some t -> i = j;
  qi_deq : forall i p t, threads st !! i = Some p -> deq_ticket p = Some t ->
    0 <= t < front (queue st) /\ received st !! t = None;
  qi_deq_one : forall i j p p' t, threads st !! i = Some p -> threads st !! j = Some p' ->
    deq_ticket p = Some t -> deq_ticket p' = Some t -> i = j;
  qi_try : forall i t v, threads st !! i = Some (DeqTry t v) -> v <> 0;
  qi_received : forall t v, received st !! t = Some v -> 0 <= t < front (queue st) /\ sent st !! t = Some v;
  qi_front : forall t, 0 <= t < front (queue st) -> is_Some (received st !! t) \/ waits_deq st t;
  qi_slot : forall s, value_at (queue st) s <> 0 <-> is_Some (owner !! s);
  qi_owner : forall s t, owner !! s = Some t -> slot t = s /\ sent st !! t = Some (value_at (queue st) s)
    /\ received st !! t = None /\ ~ waits_enq st t;
  qi_rear : forall t, 0 <= t < rear (queue st) ->
    is_Some (received st !! t) \/ owner !! slot t = Some t \/ waits_enq st t;
  qi_counts : 0 <= front (queue st) /\ 0 <= rear (queue st);
}.

Lemma value_set q s v s' : value_at (set_value q s v) s' = if decide (s' = s) then v else value_at q s'.
Proof.
  unfold value_at, set_value. cbn [buffer]. destruct (Z.eqb_spec v 0) as [->|]; case_decide as Hs.
  - subst. by rewrite lookup_delete_eq.
  - by rewrite lookup_delete_ne.
  - subst. by rewrite lookup_insert_eq.
  - by rewrite lookup_insert_ne.
Qed.

(** A thread that waits for a value gets that of its own ticket. *)
Lemma own_value st owner i p t t' :
  queue_inv st owner -> timely st -> threads st !! i = Some p -> deq_ticket p = Some t ->
  owner !! slot t = Some t' -> t' = t.
Proof.
  intros Hinv Htm Hp Ht Hown. destruct (qi_owner _ _ Hinv _ _ Hown) as (Hs & Hsent & Hrec & Hnw).
  destruct (qi_deq _ _ Hinv _ _ _ Hp Ht) as [Htr Htn].
  assert (0 <= t' < rear (queue st)) as Ht' by (apply (qi_sent _ _ Hinv); eauto).
  destruct (Z.lt_trichotomy t' t) as [Hlt|[->|Hgt]]; [|done|].
  - destruct (qi_front _ _ Hinv t') as [[v Hv]|(j & p' & Hj & Hd)]; [lia|congruence|].
    exfalso. apply (tm_deq _ Htm j p' t' t Hj Hd); [lia|done].
  - destruct (qi_rear _ _ Hinv t) as [[v Hv]|[Ho|(j & p' & Hj & He)]]; [lia|congruence|congruence|].
    exfalso. apply (tm_enq _ Htm j p' t t' Hj He); [lia|done].
Qed.

(** A thread of the next state is the one that moved or an old one. *)
Lemma thread_moved (ts : list pc) i p p' j x :
  ts !! i = Some p -> <[i := p']> ts !! j = Some x -> (j = i /\ x = p') \/ (j <> i /\ ts !! j = Some x).
Proof. intros Hi Hj. apply list_lookup_insert_Some in Hj as [(-> & -> & _)|[? ?]]; auto. Qed.

Lemma thread_stays (ts : list pc) i p' j x : j <> i -> ts !! j = Some x -> <[i := p']> ts !! j = Some x.
Proof. intros. by rewrite list_lookup_insert_ne. Qed.

Lemma thread_set (ts : list pc) i p p' : ts !! i = Some p -> <[i := p']> ts !! i = Some p'.
Proof. intros Hi. apply list_lookup_insert_eq. by eapply lookup_lt_Some. Qed.

(** Who waits after a thread went from [p] to [p']. *)
Lemma waits_enq_moved st st' i p p' t :
  threads st !! i = Some p -> threads st' = <[i := p']> (threads st) ->
  waits_enq st' t <-> enq_ticket p' = Some t \/ exists j x, j <> i /\ threads st !! j = Some x /\ enq_ticket x = Some t.
Proof.
  intros Hi Hts. unfold waits_enq. rewrite Hts. split.
  - intros (j & x & Hj & Hx). apply (thread_moved _ _ p) in Hj as [[-> ->]|[Hne Hj]]; [by left|right; eauto|done].
  - intros [Hp|(j & x & Hne & Hj & Hx)].
    + exists i, p'. split; [by eapply thread_set|done].
    + exists j, x. split; [by apply thread_stays|done].
Qed.

Lemma waits_deq_moved st st' i p p' t :
  threads st !! i = Some p -> threads st' = <[i := p']> (threads st) ->
  waits_deq st' t <-> deq_ticket p' = Some t \/ exists j x, j <> i /\ threads st !! j = Some x /\ deq_ticket x = Some t.
Proof.
  intros Hi Hts. unfold waits_deq. rewrite Hts. split.
  - intros (j & x & Hj & Hx). apply (thread_moved _ _ p) in Hj as [[-> ->]|[Hne Hj]]; [by left|right; eauto|done].
  - intros [Hp|(j & x & Hne & Hj & Hx)].
    + exists i, p'. split; [by eapply thread_set|done].
    + exists j, x. split; [by apply thread_stays|done].
Qed.

(** Tickets are unique after a move that takes no ticket, or one that nobody has. *)
Lemma one_ticket (tk : pc -> option Z) (ts : list pc) i p p' :
  ts !! i = Some p ->
  (forall j k x y t, ts !! j = Some x -> ts !! k = Some y -> tk x = Some t -> tk y = Some t -> j = k) ->
  (forall t, tk p' = Some t -> tk p = Some t \/ forall j x, ts !! j = Some x -> tk x <> Some t) ->
  forall j k x y t, <[i := p']> ts !! j = Some x -> <[i := p']> ts !! k = Some y -> tk x = Some t -> tk y = Some t -> j = k.
Proof.
  intros Hi Hone Hnew j k x y t Hj Hk Hx Hy.
  apply (thread_moved _ _ p) in Hj as [[-> ->]|[Hji Hj]]; [| |done]; apply (thread_moved _ _ p) in Hk as [[-> ->]|[Hki Hk]]; try done.
  - destruct (Hnew t Hx) as [Hp|Hno]; [by eapply Hone|]. by destruct (Hno k y Hk).
  - destruct (Hnew t Hy) as [Hp|Hno]; [by eapply Hone|]. by destruct (Hno j x Hj).
  - by eapply Hone.
Qed.

(** A step that leaves the queue and the tickets alone. *)
Lemma inv_idle st owner i p p' :
  queue_inv st owner -> threads st !! i = Some p -> enq_ticket p' = enq_ticket p -> deq_ticket p' = deq_ticket p ->
  (forall t v, p' = EnqTry t v -> p = p') -> (forall t v, p' = DeqTry t v -> v <> 0) ->
  queue_inv (record Quiet st (queue st) (<[i := p']> (threads st))) owner.
Proof.
  intros [] Hi He Hd Hp1 Hp2. set (st' := record _ _ _ _).
  assert (forall t, waits_enq st' t <-> waits_enq st t) as Hwe.
  { intros t. rewrite (waits_enq_moved st st' i p p') by done. rewrite He. split.
    - intros [?|(j & x & ? & ? & ?)]; [by exists i, p|by exists j, x].
    - intros (j & x & Hj & Hx). destruct (decide (j = i)) as [->|]; [left; congruence|right; eauto]. }
  assert (forall t, waits_deq st' t <-> waits_deq st t) as Hwd.
  { intros t. rewrite (waits_deq_moved st st' i p p') by done. rewrite Hd. split.
    - intros [?|(j & x & ? & ? & ?)]; [by exists i, p|by exists j, x].
    - intros (j & x & Hj & Hx). destruct (decide (j = i)) as [->|]; [left; congruence|right; eauto]. }
  split; try done.
  - intros j t v Hj. apply (thread_moved (threads st) i p p') in Hj as [[-> Hp]|[_ Hj]]; [| |done]; [|by eapply qi_enq0].
    symmetry in Hp. pose proof (Hp1 _ _ Hp). subst. by eapply qi_enq0.
  - apply (one_ticket enq_ticket (threads st) i p p'); [done|done|]. intros t Ht. left. congruence.
  - intros j x t Hj Hx. apply (thread_moved (threads st) i p p') in Hj as [[-> ->]|[_ Hj]]; [| |done]; [|by eapply qi_deq0].
    apply (qi_deq0 i p); [done|congruence].
  - apply (one_ticket deq_ticket (threads st) i p p'); [done|done|]. intros t Ht. left. congruence.
  - intros j t v Hj. apply (thread_moved (threads st) i p p') in Hj as [[-> Hp]|[_ Hj]]; [| |done]; [|by eapply qi_try0]. eauto.
  - intros t Ht. rewrite Hwd. by apply qi_front0.
  - intros s t Ho. rewrite Hwe. by apply qi_owner0.
  - intros t Ht. rewrite Hwe. by apply qi_rear0.
Qed.

(** [enqueue] takes a ticket. *)
Lemma inv_enq_begin st owner i v :
  queue_inv st owner -> timely st -> threads st !! i = Some Idle ->
  queue_inv (record (TakesTicket (rear (queue st)) v) st (MkQueue (buffer (queue st)) (front (queue st)) (FAA (rear (queue st)) 1).2)
    (<[i := EnqTry (rear (queue st)) v]> (threads st))) owner.
Proof.
  intros [] Htm Hi. set (st' := record _ _ _ _). destruct (tm_count _ Htm) as [Hr _].
  assert (rear (queue st') = rear (queue st) + 1) as Hrear by (apply wrap_small; lia).
  assert (sent st !! rear (queue st) = None) as Hfresh.
  { destruct (sent st !! rear (queue st)) eqn:Hs; [|done]. assert (0 <= rear (queue st) < rear (queue st)); [|lia]. apply qi_sent0. eauto. }
  assert (received st !! rear (queue st) = None) as Hnr.
  { destruct (received st !! rear (queue st)) eqn:Hs; [|done]. apply qi_received0 in Hs as [_ Hs]. congruence. }
  assert (forall j x t, threads st !! j = Some x -> enq_ticket x = Some t -> t <> rear (queue st)) as Hother.
  { intros j x t Hj Hx ->. destruct x; try done. injection Hx as ->. apply qi_enq0 in Hj as [Hj _]. congruence. }
  assert (forall t, waits_enq st' t <-> t = rear (queue st) \/ waits_enq st t) as Hwe.
  { intros t. rewrite (waits_enq_moved st st' i Idle (EnqTry (rear (queue st)) v)) by done. cbn [enq_ticket]. split.
    - intros [[= ->]|(j & x & ? & ? & ?)]; [by left|right; by exists j, x].
    - intros [->|(j & x & Hj & Hx)]; [by left|right]. exists j, x. split_and!; try done. intros ->. rewrite Hi in Hj. by injection Hj as <-. }
  assert (forall t, waits_deq st' t <-> waits_deq st t) as Hwd.
  { intros t. rewrite (waits_deq_moved st st' i Idle (EnqTry (rear (queue st)) v)) by done. cbn [deq_ticket]. split.
    - intros [?|(j & x & ? & ? & ?)]; [done|by exists j, x].
    - intros (j & x & Hj & Hx). right. exists j, x. split_and!; try done. intros ->. rewrite Hi in Hj. by injection Hj as <-. }
  assert (forall t w, sent st !! t = Some w -> sent st' !! t = Some w) as Hsent.
  { intros t w Hw. cbn. rewrite lookup_insert_ne; [done|]. intros <-. congruence. }
  split; try done.
  - intros t. rewrite Hrear. cbn. rewrite lookup_insert_is_Some, qi_sent0. lia.
  - intros j t w Hj. apply (thread_moved (threads st) i Idle) in Hj as [[-> [= -> ->]]|[_ Hj]]; [| |done].
    + split; [apply lookup_insert_eq|done].
    + apply qi_enq0 in Hj as [Hs Hn]. split; [by apply Hsent|done].
  - apply (one_ticket enq_ticket (threads st) i Idle); [done|done|]. intros t [= <-]. right. intros j x Hj Hx.
    by apply (Hother j x (rear (queue st))).
  - intros j x t Hj Hx. apply (thread_moved (threads st) i Idle) in Hj as [[-> ->]|[_ Hj]]; [done| |done]. by eapply qi_deq0.
  - by apply (one_ticket deq_ticket (threads st) i Idle).
  - intros j t w Hj. apply (thread_moved (threads st) i Idle) in Hj as [[-> ?]|[_ Hj]]; [done| |done]. by eapply qi_try0.
  - intros t w Ht. apply qi_received0 in Ht as [? Hs]. split; [done|by apply Hsent].
  - intros t Ht. rewrite Hwd. by apply qi_front0.
  - intros s t Ho. rewrite Hwe. destruct (qi_owner0 s t Ho) as (Hs & Hv & Hn & Hw). split_and!; [done|by apply Hsent|done|].
    intros [->|?]; [congruence|done].
  - intros t Ht. rewrite Hwe. rewrite Hrear in Ht. destruct (decide (t = rear (queue st))) as [->|]; [by right; right; left|].
    destruct (qi_rear0 t) as [?|[?|?]]; [lia|auto..].
  - rewrite Hrear. cbn. lia.
Qed.

(** [dequeue] takes a ticket. *)
Lemma inv_deq_begin st owner i :
  queue_inv st owner -> timely st -> threads st !! i = Some Idle ->
  queue_inv (record Quiet st (MkQueue (buffer (queue st)) (FAA (front (queue st)) 1).2 (rear (queue st))) (<[i := DeqRead (front (queue st))]> (threads st))) owner.
Proof.
  intros [] Htm Hi. set (st' := record _ _ _ _). destruct (tm_count _ Htm) as [_ Hr].
  assert (front (queue st') = front (queue st) + 1) as Hfront by (apply wrap_small; lia).
  assert (received st !! front (queue st) = None) as Hnr.
  { destruct (received st !! front (queue st)) eqn:Hs; [|done]. apply qi_received0 in Hs as [? _]. lia. }
  assert (forall j x t, threads st !! j = Some x -> deq_ticket x = Some t -> t <> front (queue st)) as Hother.
  { intros j x t Hj Hx ->. destruct (qi_deq0 j x _ Hj Hx) as [? _]. lia. }
  assert (forall t, waits_enq st' t <-> waits_enq st t) as Hwe.
  { intros t. rewrite (waits_enq_moved st st' i Idle (DeqRead (front (queue st)))) by done. cbn [enq_ticket]. split.
    - intros [?|(j & x & ? & ? & ?)]; [done|by exists j, x].
    - intros (j & x & Hj & Hx). right. exists j, x. split_and!; try done. intros ->. rewrite Hi in Hj. by injection Hj as <-. }
  assert (forall t, waits_deq st' t <-> t = front (queue st) \/ waits_deq st t) as Hwd.
  { intros t. rewrite (waits_deq_moved st st' i Idle (DeqRead (front (queue st)))) by done. cbn [deq_ticket]. split.
    - intros [[= ->]|(j & x & ? & ? & ?)]; [by left|right; by exists j, x].
    - intros [->|(j & x & Hj & Hx)]; [by left|right]. exists j, x. split_and!; try done. intros ->. rewrite Hi in Hj. by injection Hj as <-. }
  split; try done.
  - intros j t w Hj. apply (thread_moved (threads st) i Idle) in Hj as [[-> ?]|[_ Hj]]; [done| |done]. by eapply qi_enq0.
  - by apply (one_ticket enq_ticket (threads st) i Idle).
  - intros j x t Hj Hx. rewrite Hfront. apply (thread_moved (threads st) i Idle) in Hj as [[-> ->]|[_ Hj]]; [| |done].
    + injection Hx as <-. split; [lia|done].
    + destruct (qi_deq0 j x t Hj Hx). split; [lia|done].
  - apply (one_ticket deq_ticket (threads st) i Idle); [done|done|]. intros t [= <-]. right. intros j x Hj Hx.
    by apply (Hother j x (front (queue st))).
  - intros j t w Hj. apply (thread_moved (threads st) i Idle) in Hj as [[-> ?]|[_ Hj]]; [done| |done]. by eapply qi_try0.
  - intros t w Ht. rewrite Hfront. apply qi_received0 in Ht as [? Hs]. split; [lia|done].
  - intros t Ht. rewrite Hwd. rewrite Hfront in Ht. destruct (decide (t = front (queue st))) as [->|]; [by right; left|].
    destruct (qi_front0 t) as [?|?]; [lia|auto..].
  - intros s t Ho. rewrite Hwe. by apply qi_owner0.
  - intros t Ht. rewrite Hwe. by apply qi_rear0.
  - rewrite Hfront. cbn. lia.
Qed.

(** [enqueue] stores its value. *)
Lemma inv_enq_swap st owner i t v :
  queue_inv st owner -> v <> 0 -> threads st !! i = Some (EnqTry t v) -> value_at (queue st) (slot t) = 0 ->
  queue_inv (record Quiet st (set_value (queue st) (slot t) v) (<[i := Idle]> (threads st))) (<[slot t := t]> owner).
Proof.
  intros [] Hv Hi Hz. set (st' := record _ _ _ _). destruct (qi_enq0 _ _ _ Hi) as [Hst Hrt].
  assert (owner !! slot t = None) as Hfree.
  { apply eq_None_not_Some. intros Ho. by apply qi_slot0 in Ho. }
  assert (forall u, waits_enq st' u <-> u <> t /\ waits_enq st u) as Hwe.
  { intros u. rewrite (waits_enq_moved st st' i (EnqTry t v) Idle) by done. cbn [enq_ticket]. split.
    - intros [?|(j & x & ? & Hj & Hx)]; [done|split; [|by exists j, x]]. intros ->.
      assert (j = i) by (by apply (qi_enq_one0 j i x (EnqTry t v) t)). done.
    - intros (Hne & j & x & Hj & Hx). right. exists j, x. split_and!; try done. intros ->. rewrite Hi in Hj.
      injection Hj as <-. cbn in Hx. congruence. }
  assert (forall u, waits_deq st' u <-> waits_deq st u) as Hwd.
  { intros u. rewrite (waits_deq_moved st st' i (EnqTry t v) Idle) by done. cbn [deq_ticket]. split.
    - intros [?|(j & x & ? & ? & ?)]; [done|by exists j, x].
    - intros (j & x & Hj & Hx). right. exists j, x. split_and!; try done. intros ->. rewrite Hi in Hj. by injection Hj as <-. }
  split; try done.
  - intros j u w Hj. apply (thread_moved (threads st) i _ Idle _ _ Hi) in Hj as [[-> ?]|[_ Hj]]; [done|]. by eapply qi_enq0.
  - by apply (one_ticket enq_ticket (threads st) i (EnqTry t v)).
  - intros j x u Hj Hx. apply (thread_moved (threads st) i _ Idle _ _ Hi) in Hj as [[-> ->]|[_ Hj]]; [done|]. by eapply qi_deq0.
  - by apply (one_ticket deq_ticket (threads st) i (EnqTry t v)).
  - intros j u w Hj. apply (thread_moved (threads st) i _ Idle _ _ Hi) in Hj as [[-> ?]|[_ Hj]]; [done|]. by eapply qi_try0.
  - intros u Hu. rewrite Hwd. by apply qi_front0.
  - intros s. cbn [st' record queue]. rewrite value_set, lookup_insert_is_Some. rewrite <- (qi_slot0 s).
    case_decide as Hs; [subst; tauto|]. split; [by right|intros [?|[_ ?]]; done].
  - intros s u Ho. rewrite Hwe. cbn [st' record queue]. rewrite value_set. apply lookup_insert_Some in Ho as [[<- <-]|[Hne Ho]].
    + rewrite decide_True by done. split_and!; [done|done|done|]. by intros [? _].
    + rewrite decide_False by done. destruct (qi_owner0 s u Ho) as (? & ? & ? & ?). split_and!; [done|done|done|]. tauto.
  - intros u Hu. rewrite Hwe. destruct (decide (u = t)) as [->|Hne]; [right; left; apply lookup_insert_eq|].
    destruct (qi_rear0 u Hu) as [?|[Ho|?]]; [by left| |by right; right]. right. left.
    rewrite lookup_insert_ne; [done|congruence].
Qed.

(** [dequeue] empties its slot and returns. *)
Lemma inv_deq_swap st owner i t v :
  queue_inv st owner -> timely st -> threads st !! i = Some (DeqTry t v) -> value_at (queue st) (slot t) = v ->
  queue_inv (record (Returns t v) st (set_value (queue st) (slot t) 0) (<[i := Idle]> (threads st))) (delete (slot t) owner).
Proof.
  intros Hinv Htm Hi Hval. set (st' := record _ _ _ _).
  assert (owner !! slot t = Some t) as Hown.
  { destruct (proj1 (qi_slot _ _ Hinv (slot t))) as [t' Ht']; [rewrite Hval; by eapply qi_try|].
    rewrite Ht'. f_equal. by eapply (own_value st owner i). }
  destruct Hinv, (qi_owner0 _ _ Hown) as (_ & Hst & Hrt & Hnw). rewrite Hval in Hst.
  destruct (qi_deq0 i _ t Hi eq_refl) as [Htr _].
  assert (forall u, waits_deq st' u <-> u <> t /\ waits_deq st u) as Hwd.
  { intros u. rewrite (waits_deq_moved st st' i (DeqTry t v) Idle) by done. cbn [deq_ticket]. split.
    - intros [?|(j & x & ? & Hj & Hx)]; [done|split; [|by exists j, x]]. intros ->.
      assert (j = i) by (by apply (qi_deq_one0 j i x (DeqTry t v) t)). done.
    - intros (Hne & j & x & Hj & Hx). right. exists j, x. split_and!; try done. intros ->. rewrite Hi in Hj.
      injection Hj as <-. cbn in Hx. congruence. }
  assert (forall u, waits_enq st' u <-> waits_enq st u) as Hwe.
  { intros u. rewrite (waits_enq_moved st st' i (DeqTry t v) Idle) by done. cbn [enq_ticket]. split.
    - intros [?|(j & x & ? & ? & ?)]; [done|by exists j, x].
    - intros (j & x & Hj & Hx). right. exists j, x. split_and!; try done. intros ->. rewrite Hi in Hj. by injection Hj as <-. }
  assert (forall u, u <> t -> received st' !! u = received st !! u) as Hrec by (intros; by apply lookup_insert_ne).
  split; try done.
  - intros j u w Hj. apply (thread_moved (threads st) i _ Idle _ _ Hi) in Hj as [[-> ?]|[_ Hj]]; [done|].
    rewrite Hrec; [by eapply qi_enq0|]. intros ->. apply Hnw. by exists j, (EnqTry t w).
  - by apply (one_ticket enq_ticket (threads st) i (DeqTry t v)).
  - intros j x u Hj Hx. apply (thread_moved (threads st) i _ Idle _ _ Hi) in Hj as [[-> ->]|[Hne Hj]]; [done|].
    rewrite Hrec; [by eapply qi_deq0|]. intros ->. by apply Hne, (qi_deq_one0 j i x (DeqTry t v) t).
  - by apply (one_ticket deq_ticket (threads st) i (DeqTry t v)).
  - intros j u w Hj. apply (thread_moved (threads st) i _ Idle _ _ Hi) in Hj as [[-> ?]|[_ Hj]]; [done|]. by eapply qi_try0.
  - intros u w Hu. cbn [st' record received] in Hu. apply lookup_insert_Some in Hu as [[<- <-]|[_ Hu]]; [done|by apply qi_received0].
  - intros u Hu. rewrite Hwd. destruct (decide (u = t)) as [->|Hne]; [left; cbn; by rewrite lookup_insert_eq|].
    rewrite Hrec by done. destruct (qi_front0 u Hu); auto.
  - intros s. cbn [st' record queue]. rewrite value_set, lookup_delete_is_Some. rewrite <- (qi_slot0 s).
    case_decide as Hs; [subst; tauto|]. split; [|by intros [_ ?]]. intros. split; [congruence|done].
  - intros s u Ho. rewrite Hwe. cbn [st' record queue]. rewrite value_set. apply lookup_delete_Some in Ho as [Hne Ho].
    rewrite decide_False by done. destruct (qi_owner0 s u Ho) as (<- & ? & ? & ?). fold st'. rewrite Hrec by congruence. done.
  - intros u Hu. rewrite Hwe. destruct (decide (u = t)) as [->|Hne]; [left; cbn; by rewrite lookup_insert_eq|].
    rewrite Hrec by done. destruct (qi_rear0 u Hu) as [?|[Ho|?]]; [by left| |by right; right]. right. left.
    rewrite lookup_delete_ne; [done|congruence].
Qed.

Lemma step_inv st st' owner : queue_inv st owner -> timely st -> step st st' -> exists owner', queue_inv st' owner'.
Proof.
  intros Hinv Htm Hstep. destruct Hstep as [st i p q' p' e Hi Ha]. remember (queue st) as q eqn:Hq.
  destruct Ha; subst q.
  - eexists. by apply inv_enq_begin.
  - eexists. apply inv_enq_swap; try done. by eapply tm_value.
  - exists owner. by eapply inv_idle.
  - eexists. by apply inv_deq_begin.
  - exists owner. by eapply inv_idle.
  - exists owner. eapply inv_idle; try done. intros ? ? [= <- <-]. done.
  - eexists. by apply inv_deq_swap.
  - exists owner. by eapply inv_idle.
Qed.

Lemma initial_inv n : queue_inv (initial n) ∅.
Proof.
  assert (forall i p, threads (initial n) !! i = Some p -> p = Idle) as Hidle
    by (intros i p Hp; by apply lookup_replicate in Hp as [-> _]).
  split; cbn [initial queue create_queue front rear sent received]; try lia.
  - intros t. rewrite lookup_empty. split; [by intros [? ?]|lia].
  - by intros i t v Hp%Hidle.
  - intros i j p p' t Hp%Hidle _ Ht. by subst.
  - intros i p t Hp%Hidle Ht. by subst.
  - intros i j p p' t Hp%Hidle _ Ht. by subst.
  - by intros i t v Hp%Hidle.
  - intros t v. by rewrite lookup_empty.
  - intros s. unfold value_at. cbn. rewrite !lookup_empty. cbn. split; [done|by intros [? ?]].
  - intros s t. by rewrite lookup_empty.
Qed.

Lemma queue_runs_inv n past st : runs n past st -> Forall timely past -> exists owner, queue_inv st owner.
Proof.
  induction 1 as [|past st st' _ IH Hs]; [eexists; apply initial_inv|]. intros [Htm Hp]%Forall_cons. destruct (IH Hp) as [owner Hi]. by eapply step_inv.
Qed.

(** ** When no thread is late *)

(** Fewer than [QUEUE_SIZE] tickets are outstanding on each side, below the width of a ticket. *)
Definition recent (p : pc) (st : system) : bool :=
  match p with
  | Idle => true
  | EnqTry t v => (0 <=? t) && (rear (queue st) <=? t + QUEUE_SIZE) && negb (v =? 0)
  | DeqRead t | DeqTry t _ => (0 <=? t) && (front (queue st) <=? t + QUEUE_SIZE)
  end.
Definition timely_now (st : system) : bool :=
  forallb (fun p => recent p st) (threads st) && (rear (queue st) <=? 2 ^ 32) && (front (queue st) <=? 2 ^ 32).

Lemma slot_recent t t' : 0 <= t < t' -> t' < 2 ^ 32 -> t' < t + QUEUE_SIZE -> slot t' <> slot t.
Proof.
  intros Ht Ht' Hd. unfold slot, FAA. cbn [fst]. rewrite !wrap_small by lia. unfold QUEUE_SIZE in *. intros Hm.
  pose proof (Z.div_mod t 10000000 ltac:(lia)). pose proof (Z.div_mod t' 10000000 ltac:(lia)).
  assert (t' - t = 10000000 * (t' / 10000000 - t / 10000000)) by lia. nia.
Qed.

Lemma timely_now_ok st : timely_now st = true -> timely st.
Proof.
  intros Hnow. unfold timely_now in Hnow. apply andb_prop in Hnow as [Hnow Hf]. apply andb_prop in Hnow as [Hall Hr].
  apply Z.leb_le in Hf, Hr. rewrite forallb_forall in Hall.
  assert (forall i p, threads st !! i = Some p -> recent p st = true) as Hrec.
  { intros i p Hp. apply Hall, list_elem_of_In, list_elem_of_lookup. eauto. }
  split.
  - intros i p t t' Hp Ht Hlt. apply Hrec in Hp. destruct p; try done. injection Ht as ->. cbn in Hp.
    apply slot_recent; lia.
  - intros i p t t' Hp Ht Hlt. apply Hrec in Hp. destruct p; try done; injection Ht as ->; cbn in Hp; apply slot_recent; lia.
  - intros i t v Hp. apply Hrec in Hp. cbn in Hp. lia.
  - lia.
Qed.

(** The width of a ticket is no multiple of [QUEUE_SIZE]: two tickets closer than that have one slot. *)
Example slot_wraps : slot 4290000000 = slot (2 ^ 32) /\ 2 ^ 32 - 4290000000 = 4967296 /\ slot (2 ^ 32) = 0.
Proof. vm_compute. done. Qed.

(** ** What the queue delivers *)

(** C34: Whatever the interleaving of any number of threads, as long as no thread was so late that a
    later ticket came around to its slot, no null pointer was enqueued and the counters did not reach
    2^64 - 1 ([timely], in all the states before), a [dequeue] returns the value that was
    enqueued with the ticket of the same number: the values come out in the order of the tickets, each
    to one caller.  A value whose [enqueue] took a ticket was returned, or is in its slot, or its thread
    is still in [enqueue].  When no thread is in a call, the values taken are exactly the first ones. *)
Theorem queue_fifo n past st :
  runs n past st -> Forall timely past ->
  (forall t v, received st !! t = Some v -> sent st !! t = Some v) /\
  (forall t v, sent st !! t = Some v ->
    received st !! t = Some v \/ value_at (queue st) (slot t) = v \/ exists i, threads st !! i = Some (EnqTry t v)) /\
  (Forall (fun p => p = Idle) (threads st) ->
    front (queue st) <= rear (queue st) /\ forall t, 0 <= t < front (queue st) -> received st !! t = sent st !! t).
Proof.
  intros Hrun Htm. destruct (queue_runs_inv n past st Hrun Htm) as [owner Hinv]. destruct Hinv.
  assert (forall t v, received st !! t = Some v -> sent st !! t = Some v) as Hrs by (intros t v Ht; by apply qi_received0).
  split_and!; [done| |].
  - intros t v Ht. assert (0 <= t < rear (queue st)) as Hlt by (apply qi_sent0; eauto).
    destruct (qi_rear0 t Hlt) as [[w Hw]|[Ho|(i & p & Hi & Hp)]].
    + left. rewrite Hw. apply Hrs in Hw. congruence.
    + right. left. apply qi_owner0 in Ho as (_ & Hs & _). congruence.
    + right. right. exists i. destruct p; try done. injection Hp as ->. destruct (qi_enq0 _ _ _ Hi) as [Hs _]. congruence.
  - intros Hidle. rewrite Forall_lookup in Hidle.
    assert (forall t, 0 <= t < front (queue st) -> is_Some (received st !! t)) as Hall.
    { intros t Ht. destruct (qi_front0 t Ht) as [?|(i & p & Hi%Hidle & Hp)]; [done|by subst]. }
    split; [|intros t Ht; destruct (Hall t Ht) as [v Hv]; rewrite Hv; symmetry; by apply Hrs].
    destruct (decide (front (queue st) <= rear (queue st))) as [|Hlt]; [done|exfalso].
    destruct (Hall (rear (queue st))) as [v Hv%Hrs]; [lia|]. assert (0 <= rear (queue st) < rear (queue st)); [|lia].
    apply qi_sent0. eauto.
Qed.

(** A thread in [dequeue] whose slot holds a value returns it when it is scheduled. *)
Lemma takes_value st i p t :
  threads st !! i = Some p -> deq_ticket p = Some t -> value_at (queue st) (slot t) <> 0 ->
  exists st', rtc (step_of i) st st' /\ received st' !! t = Some (value_at (queue st) (slot t)).
Proof.
  assert (forall st, threads st !! i = Some (DeqRead t) -> value_at (queue st) (slot t) <> 0 ->
    exists st', rtc (step_of i) st st' /\ received st' !! t = Some (value_at (queue st) (slot t))) as Hread.
  { clear. intros st Hi Hv. eexists. split.
    - eapply rtc_l; [by eapply step_of_thread, deq_read|]. eapply rtc_once, step_of_thread.
      + cbn [record threads]. by eapply thread_set.
      + by apply deq_swap.
    - cbn. apply lookup_insert_eq. }
  intros Hi Ht Hv. destruct p as [| |u|u w]; try done; injection Ht as ->; [by apply Hread|].
  destruct (decide (value_at (queue st) (slot t) = w)) as [<-|Hne].
  - eexists. split; [by eapply rtc_once, step_of_thread, deq_swap|]. cbn. apply lookup_insert_eq.
  - destruct (Hread (record Quiet st (queue st) (<[i := DeqRead t]> (threads st)))) as (st' & Hs & Hr); [by eapply thread_set|done|].
    exists st'. split; [|done]. eapply rtc_l; [|done]. by eapply step_of_thread, deq_fail.
Qed.

(** C35: No hand-over is lost.  As long as the run was timely (as in C34) and its last state is, when a
    [dequeue] holds a ticket that an [enqueue] has drawn too, its slot holds the value, or is free for it
    and the [enqueue] still waits: there is a way for these two threads to finish with no step of any
    other thread, in which the [dequeue] returns that value. *)
Theorem queue_hands_over n past st i p t :
  runs n past st -> Forall timely (st :: past) -> threads st !! i = Some p -> deq_ticket p = Some t -> t < rear (queue st) ->
  exists v st', sent st !! t = Some v /\ received st' !! t = Some v
    /\ (rtc (step_of i) st st' \/ exists j, threads st !! j = Some (EnqTry t v) /\ rtc (fun a b => step_of i a b \/ step_of j a b) st st').
Proof.
  intros Hrun [Htm Hpast]%Forall_cons Hi Hp Hlt. destruct (queue_runs_inv n past st Hrun Hpast) as [owner Hinv].
  destruct (qi_deq _ _ Hinv _ _ _ Hi Hp) as [Ht Hnr].
  destruct (qi_rear _ _ Hinv t) as [[w Hw]|[Ho|(j & x & Hj & Hx)]]; [lia|congruence| |].
  - destruct (qi_owner _ _ Hinv _ _ Ho) as (_ & Hs & _). destruct (takes_value st i p t) as (st' & Hst & Hr); [done|done| |].
    + apply (qi_slot _ _ Hinv). eauto.
    + eexists _, st'. split_and!; [done|done|by left].
  - destruct x as [|u v| |]; try done. injection Hx as ->. destruct (qi_enq _ _ Hinv _ _ _ Hj) as [Hs _].
    assert (v <> 0) as Hv by (by eapply tm_value).
    assert (value_at (queue st) (slot t) = 0) as Hz.
    { apply dec_stable. intros Hz. apply (qi_slot _ _ Hinv) in Hz as [t' Ho].
      assert (t' = t) as -> by (by apply (own_value st owner i p)). apply (qi_owner _ _ Hinv) in Ho as (_ & _ & _ & Hnw).
      apply Hnw. by exists j, (EnqTry t v). }
    set (st1 := record Quiet st (set_value (queue st) (slot t) v) (<[j := Idle]> (threads st))).
    assert (value_at (queue st1) (slot t) = v) as Hv1 by (cbn [st1 record queue]; by rewrite value_set, decide_True).
    destruct (takes_value st1 i p t) as (st' & Hst & Hr); [|done|congruence|].
    { apply thread_stays; [|done]. intros ->. rewrite Hi in Hj. injection Hj as ->. discriminate Hp. }
    exists v, st'. split_and!; [done|congruence|]. right. exists j. split; [done|]. eapply rtc_l; [right; by eapply step_of_thread, enq_swap|].
    eapply (rtc_subrel (step_of i)); [by left|done].
Qed.

(** Two threads; the first enqueues 5 and the second takes it. *)
Definition while_waiting : system :=
  MkSystem (MkQueue ∅ 1 1) [EnqTry 0 5; DeqRead 0] {[0 := 5]} ∅.
Definition after_dequeue : system :=
  MkSystem (MkQueue ∅ 1 1) [Idle; Idle] {[0 := 5]} {[0 := 5]}.

(** A run all of whose states are timely. *)
Definition timely_run (n : nat) (past : list system) (st : system) : Prop := runs n past st /\ Forall timely past.

Lemma runs_on n past st st' : timely_run n past st -> timely_now st = true -> step st st' -> timely_run n (st :: past) st'.
Proof. intros [Hr Hp] Ht Hs. split; [by apply runs_step|]. apply Forall_cons. split; [by apply timely_now_ok|done]. Qed.

Definition with_ticket : system := MkSystem (MkQueue ∅ 0 1) [EnqTry 0 5; Idle] {[0 := 5]} ∅.
Definition stored : system := MkSystem (MkQueue {[0 := 5]} 1 1) [Idle; DeqRead 0] {[0 := 5]} ∅.
Definition found : system := MkSystem (MkQueue {[0 := 5]} 1 1) [Idle; DeqTry 0 5] {[0 := 5]} ∅.

Lemma runs_waiting : timely_run 2 [with_ticket; initial 2] while_waiting.
Proof.
  assert (step (initial 2) with_ticket) as H1 by (by apply (step_thread (initial 2) 0 _ _ _ _ eq_refl (enq_begin create_queue 5))).
  apply runs_on; [apply runs_on; [split; [apply runs_start|constructor]|done|apply H1]|done|].
  exact (step_thread with_ticket 1 _ _ _ _ eq_refl (deq_begin (MkQueue ∅ 0 1))).
Qed.

Lemma runs_dequeued : timely_run 2 [found; stored; while_waiting; with_ticket; initial 2] after_dequeue.
Proof.
  assert (step while_waiting stored) as H1
    by (by apply (step_thread while_waiting 0 _ _ _ _ eq_refl (enq_swap (queue while_waiting) 0 5 eq_refl))).
  assert (value_at (queue stored) (slot 0) <> 0) as Hne by done.
  assert (step stored found) as H2 by (by apply (step_thread stored 1 _ _ _ _ eq_refl (deq_read (queue stored) 0 Hne))).
  assert (step found after_dequeue) as H3
    by (by apply (step_thread found 1 _ _ _ _ eq_refl (deq_swap (queue found) 0 5 eq_refl))).
  apply runs_on; [apply runs_on; [apply runs_on; [apply runs_waiting|done|done]|done|done]|done|done].
Qed.

Lemma queue_fifo_witness : received after_dequeue !! 0 = sent after_dequeue !! 0.
Proof.
  destruct runs_dequeued as [Hr Hp]. apply (queue_fifo 2 _ after_dequeue Hr Hp); [|cbn; lia]. repeat constructor.
Defined.

Lemma queue_hands_over_witness :
  exists v st', sent while_waiting !! 0 = Some v /\ received st' !! 0 = Some v
    /\ (rtc (step_of 1) while_waiting st'
        \/ exists j, threads while_waiting !! j = Some (EnqTry 0 v) /\ rtc (fun a b => step_of 1 a b \/ step_of j a b) while_waiting st').
Proof.
  destruct runs_waiting as [Hr Hp]. apply (queue_hands_over 2 _ while_waiting 1 (DeqRead 0) 0 Hr); [|done|done|cbn; lia].
  apply Forall_cons. split; [by apply timely_now_ok|exact Hp].
Defined.

(** A [dequeue] that comes first makes the count negative. *)
Example count_negative : count_queue (MkQueue ∅ 1 0) = -1.
Proof. done. Qed.

(** The operations of a thread that is alone are steps of it. *)
Lemma enqueue_steps st i q' v :
  threads st !! i = Some Idle -> enqueue (queue st) v = Some q' ->
  exists st', rtc step st st' /\ queue st' = q' /\ threads st' = threads st
    /\ sent st' = <[rear (queue st) := v]> (sent st) /\ received st' = received st.
Proof.
  intros Hi He. set (q1 := MkQueue (buffer (queue st)) (front (queue st)) (FAA (rear (queue st)) 1).2).
  assert (enqueue (queue st) v = if value_at q1 (slot (rear (queue st))) =? 0
    then Some (set_value q1 (slot (rear (queue st))) v) else None) as Heq by done.
  rewrite Heq in He. destruct (Z.eqb_spec (value_at q1 (slot (rear (queue st)))) 0) as [Hz|]; [|done].
  injection He as <-. eexists. split_and!.
  - eapply rtc_l; [by eapply step_thread, (enq_begin _ v)|]. eapply rtc_once, step_thread.
    + by eapply thread_set.
    + by apply enq_swap.
  - done.
  - cbn. rewrite list_insert_insert_eq. by apply list_insert_id.
  - done.
  - done.
Qed.

Lemma dequeue_steps st i q' v :
  threads st !! i = Some Idle -> dequeue (queue st) = Some (q', v) ->
  exists st', rtc step st st' /\ queue st' = q' /\ threads st' = threads st
    /\ sent st' = sent st /\ received st' = <[front (queue st) := v]> (received st).
Proof.
  intros Hi He. set (q1 := MkQueue (buffer (queue st)) (FAA (front (queue st)) 1).2 (rear (queue st))).
  set (w := value_at q1 (slot (front (queue st)))).
  assert (dequeue (queue st) = if w =? 0 then None else Some (set_value q1 (slot (front (queue st))) 0, w)) as Heq by done.
  rewrite Heq in He. destruct (Z.eqb_spec w 0) as [|Hz]; [done|]. injection He as <- <-.
  eexists. split_and!.
  - eapply rtc_l; [by eapply step_thread, deq_begin|]. eapply rtc_l.
    + eapply step_thread; [by eapply thread_set|]. by apply deq_read.
    + eapply rtc_once, step_thread; [eapply thread_set, thread_set; exact Hi|]. by apply deq_swap.
  - done.
  - cbn. rewrite !list_insert_insert_eq. by apply list_insert_id.
  - done.
  - done.
Qed.
