(* ===== verification/CCEH.v ===== *)
(** * The CCEH table (server/src/cceh.cpp, server/src/cceh.h)

    Cache-line conscious extendible hashing: a directory of [2^depth]
    pointers to segments of 1024 slots.  The top bits of the hash choose the
    directory entry, the low eight bits the cache line at which a window of
    32 slots is probed.  A full window splits the segment in two, and doubles
    the directory when the segment was as deep as the directory.

    The model is the variant without INPLACE, under one thread: the
    semaphores of the segments and of the directory are free between two
    operations and are the subject of Semaphore.v.  Segments are never freed,
    so that a pointer is an index into the list [segments]. *)

From S2P Require Import Prelude PairDefs HashFun.

Definition kSegmentBits : Z := 8.
Definition kMask : Z := (1 ≪ kSegmentBits) - 1.
Definition kSegmentSize : Z := (1 ≪ kSegmentBits) * 16 * 4.
Definition kNumPairPerCacheLine : Z := 4.
Definition kNumCacheLine : Z := 8.
Definition kNumSlot : Z := kSegmentSize / 16.

Record Segment : Type := MkSeg { slots : list Pair; local_depth : Z }.

Record Directory : Type := MkDir { entries : list nat; depth : Z }.

Record CCEH : Type := MkCCEH { dir : Directory; segments : list Segment }.

(** A shift of a 64-bit word by 64 or more is undefined. *)
Definition shr64 (x n : Z) : option Z := if (0 <=? n) && (n <? 64) then Some (x ≫ n) else None.
Definition shl64 (x n : Z) : option Z := if (0 <=? n) && (n <? 64) then Some (u64 (x ≪ n)) else None.

(** The window of a location. *)
Definition window (loc : Z) : list nat :=
  (fun i => Z.to_nat ((loc + Z.of_nat i) mod kNumSlot))
    <$> seq 0 (Z.to_nat (kNumPairPerCacheLine * kNumCacheLine)).

Definition new_Segment (junk : nat -> Value_t) (d : Z) : Segment :=
  MkSeg (new_Pairs junk (Z.to_nat kNumSlot)) d.

Section Operations.
Context `{StdHash}.

(** [(key_hash & kMask) * kNumPairPerCacheLine] *)
Definition line_of (key_hash : Z) : Z := Z.land key_hash kMask * kNumPairPerCacheLine.

(** A pair that finds no place is dropped, after a message. *)
Definition Insert4split (s : list Pair) (key : Key_t) (value : Value_t) (loc : Z) : option (list Pair) :=
  r ← probe (window loc) is_free s;
  match r with
  | Some slot => store s slot (MkPair key value)
  | None => Some s
  end.

(** One slot goes to one of the halves. *)
Definition split_step (pattern : Z) (halves : list Pair * list Pair) (p : Pair)
  : option (list Pair * list Pair) :=
  let key_hash := h (pkey p) h_seed in
  if Z.land key_hash pattern =? 0 then
    s ← Insert4split halves.1 (pkey p) (pvalue p) (line_of key_hash); Some (s, halves.2)
  else
    s ← Insert4split halves.2 (pkey p) (pvalue p) (line_of key_hash); Some (halves.1, s).

(** The two new segments; [junk] is the memory they are made of. *)
Definition Split (junk : nat -> Value_t) (s : Segment) : option (Segment * Segment) :=
  pattern ← shl64 1 (64 - local_depth s - 1);
  '(a, b) ← foldM (split_step pattern) (slots s)
              (slots (new_Segment junk 0), slots (new_Segment junk 0));
  Some (MkSeg a (local_depth s + 1), MkSeg b (local_depth s + 1)).

(** The constructor; [log2] of zero is no integer. *)
Definition new_table (junk : nat -> Value_t) (initCap : Z) : option CCEH :=
  let n := initCap / kNumSlot in
  if n =? 0 then None
  else
    let d := Z.log2 n in
    let capacity := Z.to_nat (2 ^ d) in
    Some (MkCCEH (MkDir (seq 0 capacity) d) (replicate capacity (new_Segment junk d))).

(** [dir->_[2*i] = ...; dir->_[2*i+1] = ...] *)
Definition double_entries (d : list nat) (x : nat) (s0 s1 : nat) : list nat :=
  concat (imap (fun i id => if decide (i = x) then [s0; s1] else [id; id]) d).

(** [for (i < n) dir->_[loc + i] = id] *)
Definition set_range (d : list nat) (loc n id : nat) : option (list nat) :=
  foldM (fun d i => store d (loc + i) id) (seq 0 n) d.

(** The update of the directory after a split; [s0] and [s1] are the new
    segments, [ld] the depth of the one that was split. *)
Definition update_dir (d : Directory) (key_hash : Z) (x : Z) (ld : Z) (s0 s1 : nat) : option Directory :=
  if ld =? depth d then
    Some (MkDir (double_entries (entries d) (Z.to_nat x) s0 s1) (depth d + 1))
  else
    x ← shr64 key_hash (64 - depth d);
    if depth d =? ld + 1 then
      if x mod 2 =? 0 then
        e ← store (entries d) (Z.to_nat (x + 1)) s1;
        e ← store e (Z.to_nat x) s0;
        Some (MkDir e (depth d))
      else
        e ← store (entries d) (Z.to_nat x) s1;
        e ← store e (Z.to_nat (x - 1)) s0;
        Some (MkDir e (depth d))
    else
      let stride := 2 ^ (depth d - ld) in
      _ ← (if stride <? 2 ^ 31 then Some tt else None);
      let loc := x - x mod stride in
      let half := Z.to_nat (stride / 2) in
      e ← set_range (entries d) (Z.to_nat loc + half) half s1;
      e ← set_range e (Z.to_nat loc) half s0;
      Some (MkDir e (depth d)).

(** A slot that [Insert] may take. *)
Definition usable (ld pattern : Z) (p : Pair) : bool :=
  (negb (h (pkey p) h_seed ≫ (64 - ld) =? pattern) || is_free p) && negb (pkey p =? SENTINEL).

(** [Insert], at most [fuel] rounds of [RETRY].  It always returns -1. *)
Fixpoint Insert (fuel : nat) (junk : nat -> Value_t) (t : CCEH) (key : Key_t) (value : Value_t)
  : option (CCEH * Key_t) :=
  match fuel with
  | O => None
  | S fuel =>
      let key_hash := h key h_seed in
      let y := line_of key_hash in
      let d := dir t in
      x ← shr64 key_hash (64 - depth d);
      id ← entries d !! Z.to_nat x;
      target ← segments t !! id;
      let ld := local_depth target in
      pattern ← shr64 x (depth d - ld);
      _ ← shr64 key_hash (64 - ld);
      r ← probe (window y) (usable ld pattern) (slots target);
      match r with
      | Some loc =>
          s ← store (slots target) loc (MkPair key value);
          segs ← store (segments t) id (MkSeg s ld);
          Some (MkCCEH d segs, INVALID)
      | None =>
          '(s0, s1) ← Split junk target;
          let n := length (segments t) in
          d ← update_dir d key_hash x ld n (S n);
          Insert fuel junk (MkCCEH d (segments t ++ [s0; s1])) key value
      end
  end.

Definition InsertOnly (t : CCEH) (key : Key_t) (value : Value_t) : option (CCEH * bool) :=
  let key_hash := h key h_seed in
  let d := dir t in
  x ← shr64 key_hash (64 - depth d);
  let y := line_of key_hash in
  id ← entries d !! Z.to_nat x;
  target ← segments t !! id;
  let ld := local_depth target in
  pattern ← shr64 x (depth d - ld);
  _ ← shr64 key_hash (64 - ld);
  r ← probe (window y)
        (fun p => negb (h (pkey p) h_seed ≫ (64 - ld) =? pattern) || is_free p) (slots target);
  match r with
  | Some loc =>
      s ← store (slots target) loc (MkPair key value);
      segs ← store (segments t) id (MkSeg s ld);
      Some (MkCCEH d segs, true)
  | None => Some (t, false)
  end.

Definition Get (t : CCEH) (key : Key_t) : option Value_t :=
  let key_hash := h key h_seed in
  let y := line_of key_hash in
  x ← shr64 key_hash (64 - depth (dir t));
  id ← entries (dir t) !! Z.to_nat x;
  target ← segments t !! id;
  r ← probe (window y) (has_key key) (slots target);
  match r with
  | Some loc => p ← slots target !! loc; Some (pvalue p)
  | None => Some NONE
  end.

(** [ffs] and [__builtin_ctz] of the low 32 bits; [ctz] of zero is undefined. *)
Definition ctz32 (x : Z) : option Z :=
  let x := u32 x in
  if x =? 0 then None else Some (Z.log2 (Z.land x (- x))).
Definition ffs32 (x : Z) : Z := match ctz32 x with Some n => n + 1 | None => 0 end.

(** The size of the next piece of an extent. *)
Definition subextent (current_key len : Z) : option Z :=
  if current_key mod 2 =? 1 then Some 1
  else if negb (current_key =? 0) then
    let order := u64 (ffs32 current_key - 1) in
    bound ← shl64 1 order;
    n ← ctz32 (Z.min len bound);
    if n <? 31 then Some (1 ≪ n) else None
  else Some (len / 2).

(** [fuel] bounds the recursion of [Insert_extent], and [rounds] the retries
    of each [Insert]. *)
Fixpoint Insert_extent (fuel rounds : nat) (junk : nat -> Value_t) (t : CCEH)
    (key : Key_t) (cluster_num len : Z) (value : Value_t) : option CCEH :=
  match fuel with
  | O => None
  | S fuel =>
      if len <=? 0 then Some t
      else
        let current_key := u64 (key + cluster_num) in
        '(t, _) ← Insert rounds junk t current_key value;
        if len =? 1 then Some t
        else
          subextent_size ← subextent current_key len;
          Insert_extent fuel rounds junk t key (u64 (cluster_num + subextent_size))
            (u64 (len - subextent_size)) value
  end.

(** The loop of [Get_extent] returns in its first round. *)
Definition Get_extent (t : CCEH) (key : Key_t) (cluster_num : Z) : option Value_t :=
  let current_key := u64 (key + cluster_num) in
  _ ← ctz32 current_key;
  Get t current_key.

Definition Delete (t : CCEH) (key : Key_t) : option (CCEH * bool) := Some (t, false).

(** The inner loop of [Recovery], from [j] down to above [i]. *)
Definition recover_step (segs : list Segment) (i : nat) (depth_cur : Z) (e : list nat) (j : nat)
  : option (list nat) :=
  id ← e !! j; s ← segs !! id;
  if local_depth s =? depth_cur then Some e
  else idi ← e !! i; store e j idi.

Fixpoint recover_loop (fuel : nat) (segs : list Segment) (dep : Z) (e : list nat) (i : nat)
  : option (list nat) :=
  match fuel with
  | O => None
  | S fuel =>
      if (length e <=? i)%nat then Some e
      else
        id ← e !! i; s ← segs !! id;
        let depth_cur := local_depth s in
        let stride := Z.to_nat (2 ^ (dep - depth_cur)) in
        let buddy := (i + stride)%nat in
        if (buddy =? length e)%nat then Some e
        else
          e ← foldM (recover_step segs i depth_cur) (rev (seq (S i) (buddy - 1 - i))) e;
          recover_loop fuel segs dep e buddy
  end.

Definition Recovery (t : CCEH) : option (CCEH * bool) :=
  e ← recover_loop (S (length (entries (dir t)))) (segments t) (depth (dir t)) (entries (dir t)) 0;
  Some (MkCCEH (MkDir e (depth (dir t))) (segments t), false).

(** The number of distinct segments times the slots of each. *)
Definition Capacity (t : CCEH) : Z :=
  Z.of_nat (length (remove_dups (entries (dir t)))) * kNumSlot.

Definition numElem (s : Segment) : Z := Z.of_nat (length (used (slots s))).

(** The loops of [FindAnyway] over entries and slots. *)
Fixpoint find_anyway (segs : list Segment) (es : list nat) (key : Key_t) : option Value_t :=
  match es with
  | [] => Some NONE
  | id :: es =>
      s ← segs !! id;
      match list_find (fun p => has_key key p) (slots s) with
      | Some (_, p) => Some (pvalue p)
      | None => find_anyway segs es key
      end
  end.
Definition FindAnyway (t : CCEH) (key : Key_t) : option Value_t :=
  find_anyway (segments t) (entries (dir t)) key.

(** The counts [sum] and [cnt] of [Utilization]. *)
Definition seg_load (ld pattern : Z) (s : Segment) : Z :=
  Z.of_nat (length (filter
    (fun p => (h (pkey p) h_seed ≫ (64 - ld) = pattern) /\ pkey p <> INVALID) (slots s))).
Fixpoint util_loop (fuel : nat) (t : CCEH) (i : nat) (sum cnt : Z) : option (Z * Z) :=
  match fuel with
  | O => None
  | S fuel =>
      if (length (entries (dir t)) <=? i)%nat then Some (sum, cnt)
      else
        id ← entries (dir t) !! i; s ← segments t !! id;
        let ld := local_depth s in
        let pattern := Z.of_nat i ≫ (depth (dir t) - ld) in
        util_loop fuel t (i + Z.to_nat (2 ^ (depth (dir t) - ld))) (sum + seg_load ld pattern s) (cnt + 1)
  end.
Definition Utilization_counts (t : CCEH) : option (Z * Z) :=
  util_loop (S (length (entries (dir t)))) t 0 0 0.

End Operations.

#[local] Opaque h.

(** ** Windows *)

Lemma window_lt loc s : s ∈ window loc -> (s < 1024)%nat.
Proof.
  intros (i & -> & _)%list_elem_of_fmap. change kNumSlot with 1024.
  pose proof (Z.mod_pos_bound (loc + Z.of_nat i) 1024 ltac:(lia)). lia.
Qed.

Lemma elem_of_window loc s :
  s ∈ window loc <-> exists o, 0 <= o < 32 /\ s = Z.to_nat ((loc + o) mod 1024).
Proof.
  unfold window. rewrite list_elem_of_fmap. change kNumSlot with 1024.
  change (Z.to_nat (kNumPairPerCacheLine * kNumCacheLine)) with 32%nat. split.
  - intros (i & -> & Hi). apply elem_of_seq in Hi. exists (Z.of_nat i). split; [lia|done].
  - intros (o & Ho & ->). exists (Z.to_nat o). rewrite Z2Nat.id by lia. split; [done|].
    apply elem_of_seq. lia.
Qed.

Lemma probe_window loc P (s : list Pair) :
  length s = 1024%nat -> exists r, probe (window loc) P s = Some r.
Proof.
  intros Hl. apply probe_total, Forall_forall. intros i Hi. apply window_lt in Hi. lia.
Qed.

Lemma window_lookup loc o :
  (o < 32)%nat -> window loc !! o = Some (Z.to_nat ((loc + Z.of_nat o) mod 1024)).
Proof.
  intros Ho. unfold window. rewrite list_lookup_fmap, lookup_seq_lt by (vm_compute in Ho |- *; lia). done.
Qed.

(** The probe stops no later than at a slot that satisfies the test. *)
Lemma probe_window_before loc P (s : list Pair) i j q :
  0 <= loc <= Z.of_nat i -> Z.of_nat i < loc + 32 -> (i < 1024)%nat ->
  s !! i = Some q -> P q = true -> probe (window loc) P s = Some (Some j) -> (j <= i)%nat.
Proof.
  intros Hl Hi Hi' Hq HP (pre & post & Hw & Hpre & _)%probe_found.
  destruct (decide (Z.to_nat (Z.of_nat i - loc) < length pre)%nat) as [Hlt|Hge].
  - destruct (Forall_lookup_1 _ pre (Z.to_nat (Z.of_nat i - loc)) i Hpre) as (x & Hx & HPx); [|congruence].
    assert (window loc !! Z.to_nat (Z.of_nat i - loc) = Some i) as Hwi.
    { rewrite window_lookup by lia. f_equal. rewrite Z.mod_small; lia. }
    by rewrite Hw, lookup_app_l in Hwi by done.
  - assert (window loc !! length pre = Some j) as Hwj.
    { by rewrite Hw, lookup_app_r, Nat.sub_diag by lia. }
    rewrite window_lookup in Hwj by lia. injection Hwj as <-. rewrite Z.mod_small; lia.
Qed.

Lemma line_of_range z : 0 <= line_of z <= 1020.
Proof.
  unfold line_of. change kMask with (Z.ones 8). rewrite Z.land_ones by lia.
  change kNumPairPerCacheLine with 4. pose proof (Z.mod_pos_bound z (2 ^ 8) ltac:(lia)). lia.
Qed.

(** ** Segments *)

Section Segments.
Context `{StdHash}.

Definition hash (k : Key_t) : Z := h k h_seed.

Lemma hash_bound k : 0 <= hash k < 2 ^ 64.
Proof. apply h_bound. Qed.

(** The top [d] bits of the hash of a key. *)
Definition prefix (d : Z) (k : Key_t) : Z := hash k ≫ (64 - d).

(** The slot [s] is in the window of the key. *)
Definition near (k : Key_t) (s : nat) : Prop := s ∈ window (line_of (hash k)).

(** Every pair of the segment has the prefix of the segment and is near its
    line. *)
Record seg_ok (ld pat : Z) (s : list Pair) : Prop := {
  so_length : length s = 1024%nat;
  so_pair : forall i p, s !! i = Some p -> pkey p <> INVALID ->
    prefix ld (pkey p) = pat /\ near (pkey p) i /\ pkey p <> SENTINEL;
}.

Lemma seg_ok_empty junk ld pat d : seg_ok ld pat (slots (new_Segment junk d)).
Proof.
  split; [apply new_Pairs_length|]. intros i p Hp Hu. by apply new_Pairs_lookup in Hp.
Qed.

Lemma seg_ok_insert ld pat s i p :
  seg_ok ld pat s -> (pkey p <> INVALID -> prefix ld (pkey p) = pat /\ near (pkey p) i /\ pkey p <> SENTINEL) ->
  seg_ok ld pat (<[i := p]> s).
Proof.
  intros [Hl Hp] Hpi. split; [by rewrite length_insert|]. intros j q Hq Hu.
  apply list_lookup_insert_Some in Hq as [(<- & <- & _)|[_ Hq]]; [by apply Hpi|by apply Hp].
Qed.

Lemma used_insert_free (d : list Pair) i p q :
  d !! i = Some p -> pkey p = INVALID -> pkey q = INVALID -> used (<[i := q]> d) = used d.
Proof.
  intros Hi Hp Hq. rewrite <- (take_drop_middle d i p Hi) at 2.
  rewrite insert_take_drop by (by eapply lookup_lt_Some). unfold used.
  rewrite !filter_app, !filter_cons_False by naive_solver. done.
Qed.

(** What [Insert4split] does with one pair: it keeps it at a slot of its
    window, or drops it when the window is full. *)
Lemma Insert4split_ok ld pat s p :
  seg_ok ld pat s -> (pkey p <> INVALID -> prefix ld (pkey p) = pat /\ pkey p <> SENTINEL) ->
  exists s' lost, Insert4split s (pkey p) (pvalue p) (line_of (hash (pkey p))) = Some s'
    /\ seg_ok ld pat s' /\ used [p] ++ used s ≡ₚ lost ++ used s'
    /\ (pkey p = INVALID
        \/ (exists i q, i ∈ window (line_of (hash (pkey p))) /\ s !! i = Some q /\ pkey q = INVALID) ->
        lost = [])
    /\ (forall i, s' !! i = s !! i
          \/ s' !! i = Some p /\ probe (window (line_of (hash (pkey p)))) is_free s = Some (Some i)).
Proof.
  intros Hok Hp. unfold Insert4split.
  destruct (probe_window (line_of (hash (pkey p))) is_free s (so_length _ _ _ Hok)) as [[i|] Hr];
    rewrite Hr; cbn [mbind option_bind].
  - pose proof Hr as Hr'. apply probe_found_lookup in Hr' as (Hin & q & Hq & Hf). apply is_free_true in Hf.
    pose proof (lookup_lt_Some _ _ _ Hq). rewrite store_Some by done.
    destruct p as [pk pv]. simpl in *. exists (<[i := MkPair pk pv]> s), []. split; [done|].
    split; [apply seg_ok_insert; [done|]; simpl; intros Hu; destruct (Hp Hu); split_and!; done|].
    split; [|split; [done|]].
    + simpl. destruct (decide (pk = INVALID)) as [->|Hne].
      * rewrite used_insert_free with (p := q) by done. done.
      * rewrite (used_insert s i q) by done. unfold used at 1. rewrite filter_cons_True by done. done.
    + intros j. destruct (decide (j = i)) as [->|Hj]; [right|left].
      * by rewrite list_lookup_insert_eq.
      * by rewrite list_lookup_insert_ne.
  - exists s, (used [p]). split_and!; try done; [|by left].
    intros [Hi|(i & q & Hin & Hq & Hinv)].
    { unfold used. by rewrite filter_cons_False by naive_solver. }
    exfalso.
    apply probe_exhausted in Hr. rewrite Forall_forall in Hr. destruct (Hr i Hin) as (q' & Hq' & Hf).
    simplify_eq. by apply is_free_false in Hf.
Qed.

(** ** Splitting a segment *)

Lemma prefix_succ ld k :
  0 <= ld <= 63 -> prefix (ld + 1) k = 2 * prefix ld k + Z.b2z (Z.testbit (hash k) (63 - ld)).
Proof.
  intros Hld. unfold prefix. replace (64 - (ld + 1)) with (63 - ld) by lia.
  replace (64 - ld) with ((63 - ld) + 1) by lia.
  rewrite <- Z.shiftr_shiftr by lia. rewrite (Z.shiftr_div_pow2 (_ ≫ _) 1) by lia.
  change (2 ^ 1) with 2. replace (63 - ld) with (0 + (63 - ld)) at 3 by lia.
  rewrite <- Z.shiftr_spec by lia. rewrite Z.bit0_mod.
  apply Z.div_mod. lia.
Qed.

Lemma land_pow2 z b : 0 <= b -> (Z.land z (2 ^ b) =? 0) = negb (Z.testbit z b).
Proof.
  intros Hb. rewrite Z.land_comm. apply eq_true_iff_eq. rewrite Z.eqb_eq, negb_true_iff. split.
  - intros Hz. apply (f_equal (fun x => Z.testbit x b)) in Hz.
    rewrite Z.land_spec, Z.pow2_bits_true, Z.bits_0 in Hz by lia. done.
  - intros Hz. apply Z.bits_inj'. intros i Hi. rewrite Z.land_spec, Z.bits_0.
    destruct (decide (i = b)) as [->|Hne]; [by rewrite Hz, andb_false_r|].
    by rewrite Z.pow2_bits_false by lia.
Qed.

Lemma split_pattern ld : 0 <= ld <= 63 -> shl64 1 (64 - ld - 1) = Some (2 ^ (63 - ld)).
Proof.
  intros Hld. unfold shl64. replace (64 - ld - 1) with (63 - ld) by lia.
  destruct (Z.leb_spec 0 (63 - ld)), (Z.ltb_spec (63 - ld) 64); try lia. simpl. f_equal.
  rewrite Z.shiftl_1_l. apply wrap_small. split; [apply Z.pow_nonneg; lia|].
  apply Z.pow_lt_mono_r; lia.
Qed.

(** The half a key goes to. *)
Definition goes_right (ld : Z) (k : Key_t) : bool := Z.testbit (hash k) (63 - ld).

Lemma split_step_eq ld halves p :
  0 <= ld <= 63 ->
  split_step (2 ^ (63 - ld)) halves p =
  if goes_right ld (pkey p) then
    s ← Insert4split halves.2 (pkey p) (pvalue p) (line_of (hash (pkey p))); Some (halves.1, s)
  else
    s ← Insert4split halves.1 (pkey p) (pvalue p) (line_of (hash (pkey p))); Some (s, halves.2).
Proof.
  intros Hld. unfold split_step, goes_right. fold (hash (pkey p)).
  rewrite land_pow2 by lia. by destruct (Z.testbit (hash (pkey p)) (63 - ld)).
Qed.

Record halves_ok (ld pat : Z) (halves : list Pair * list Pair) : Prop := {
  ho_left : seg_ok (ld + 1) (2 * pat) halves.1;
  ho_right : seg_ok (ld + 1) (2 * pat + 1) halves.2;
}.

Lemma split_step_ok ld pat halves p :
  0 <= ld <= 63 -> halves_ok ld pat halves ->
  (pkey p <> INVALID -> prefix ld (pkey p) = pat /\ pkey p <> SENTINEL) ->
  exists halves' lost, split_step (2 ^ (63 - ld)) halves p = Some halves' /\ halves_ok ld pat halves'
    /\ used [p] ++ used halves.1 ++ used halves.2 ≡ₚ lost ++ used halves'.1 ++ used halves'.2
    /\ (pkey p = INVALID
        \/ (exists i q q', i ∈ window (line_of (hash (pkey p)))
            /\ halves.1 !! i = Some q /\ pkey q = INVALID
            /\ halves.2 !! i = Some q' /\ pkey q' = INVALID) -> lost = [])
    /\ (forall i, (halves'.1 !! i = halves.1 !! i
            \/ halves'.1 !! i = Some p
               /\ probe (window (line_of (hash (pkey p)))) is_free halves.1 = Some (Some i))
          /\ (halves'.2 !! i = halves.2 !! i
            \/ halves'.2 !! i = Some p
               /\ probe (window (line_of (hash (pkey p)))) is_free halves.2 = Some (Some i))).
Proof.
  intros Hld [Hl Hr] Hp. rewrite split_step_eq by done.
  assert (pkey p <> INVALID ->
          prefix (ld + 1) (pkey p) = 2 * pat + Z.b2z (goes_right ld (pkey p)) /\ pkey p <> SENTINEL) as Hp'.
  { intros Hu. destruct (Hp Hu) as [<- ?]. split; [by apply prefix_succ|done]. }
  destruct halves as [a b]. simpl in *. destruct (goes_right ld (pkey p)).
  - destruct (Insert4split_ok _ _ b p Hr Hp') as (b' & lost & -> & Hok & Hperm & Hroom & Hfr).
    exists (a, b'), lost. cbn [mbind option_bind fst snd]. split; [done|]. split; [by split|]. split_and!.
    + rewrite (Permutation_app_comm (used a)), app_assoc, Hperm, <- app_assoc.
      by rewrite (Permutation_app_comm (used b')).
    + intros [?|(i & q & q' & ? & _ & _ & ? & ?)]; apply Hroom; eauto 10.
    + intros i. split; [by left|apply Hfr].
  - rewrite Z.add_0_r in Hp'.
    destruct (Insert4split_ok _ _ a p Hl Hp') as (a' & lost & -> & Hok & Hperm & Hroom & Hfr).
    exists (a', b), lost. cbn [mbind option_bind fst snd]. split; [done|]. split; [by split|]. split_and!.
    + by rewrite app_assoc, Hperm, <- app_assoc.
    + intros [?|(i & q & q' & ? & ? & ? & _)]; apply Hroom; eauto 10.
    + intros i. split; [apply Hfr|by left].
Qed.

Lemma split_loop_ok ld pat l halves :
  0 <= ld <= 63 -> halves_ok ld pat halves ->
  Forall (fun p => pkey p <> INVALID -> prefix ld (pkey p) = pat /\ pkey p <> SENTINEL) l ->
  exists halves' lost, foldM (split_step (2 ^ (63 - ld))) l halves = Some halves'
    /\ halves_ok ld pat halves'
    /\ used l ++ used halves.1 ++ used halves.2 ≡ₚ lost ++ used halves'.1 ++ used halves'.2.
Proof.
  intros Hld Hh Hl. revert halves Hh. induction Hl as [|p l Hp _ IH]; intros halves Hh; cbn [foldM].
  { by exists halves, []. }
  destruct (split_step_ok ld pat halves p Hld Hh Hp) as (h1 & lost1 & -> & Hh1 & Hperm1 & _).
  cbn [mbind option_bind]. destruct (IH h1 Hh1) as (h2 & lost2 & -> & Hh2 & Hperm2).
  exists h2, (lost1 ++ lost2). split_and!; [done|done|].
  assert (used (p :: l) = used [p] ++ used l) as -> by (unfold used; by rewrite <- filter_app).
  rewrite <- (app_assoc lost1), <- Hperm2, <- (app_assoc (used [p])).
  rewrite (Permutation_app_swap_app (used [p]) (used l)), Hperm1.
  apply Permutation_app_swap_app.
Qed.

(** The pairs of a segment that do not wrap around its end. *)
Definition flat (s : list Pair) : Prop :=
  forall i p, s !! i = Some p -> pkey p <> INVALID -> line_of (hash (pkey p)) <= Z.of_nat i.

Lemma near_flat k i :
  near k i -> line_of (hash k) <= Z.of_nat i -> Z.of_nat i < line_of (hash k) + 32 /\ (i < 1024)%nat.
Proof.
  unfold near. rewrite elem_of_window. intros (o & Ho & ->).
  pose proof (line_of_range (hash k)). pose proof (Z.mod_pos_bound (line_of (hash k) + o) 1024 ltac:(lia)).
  rewrite Z2Nat.id by lia. intros Hle. split; [|lia].
  destruct (decide (line_of (hash k) + o < 1024)) as [Hlt|Hge]; [rewrite Z.mod_small; lia|].
  exfalso. revert Hle. rewrite <- (Z.mod_unique (line_of (hash k) + o) 1024 1 (line_of (hash k) + o - 1024)); lia.
Qed.

(** While a segment without wrapped pairs is split, slot [i] is still free in
    both halves when the pair of slot [i] is moved: every pair moves to a slot
    at or before its own. *)
Definition free_from (i : nat) (s : list Pair) : Prop :=
  forall j p, (i <= j)%nat -> s !! j = Some p -> pkey p = INVALID.

Lemma free_from_step i p s s' q :
  (pkey p <> INVALID -> near (pkey p) i /\ line_of (hash (pkey p)) <= Z.of_nat i) ->
  s !! i = Some q -> free_from i s ->
  (forall j, s' !! j = s !! j \/ s' !! j = Some p
     /\ probe (window (line_of (hash (pkey p)))) is_free s = Some (Some j)) ->
  free_from (S i) s'.
Proof.
  intros Hn Hq Hf Hs j r Hj Hr. destruct (Hs j) as [Hsj|[Hsj Hpr]].
  { rewrite Hsj in Hr. apply (Hf j); [lia|done]. }
  assert (r = p) as -> by congruence. destruct (decide (pkey p = INVALID)) as [|Hu]; [done|exfalso].
  destruct (Hn Hu) as [Hnear Hle]. apply near_flat in Hnear; [|done].
  pose proof (line_of_range (hash (pkey p))).
  apply (probe_window_before _ _ _ i j q) in Hpr; [lia|lia|lia|lia|done|].
  apply is_free_true. by apply (Hf i).
Qed.

Lemma split_loop_flat ld pat l halves i :
  0 <= ld <= 63 -> halves_ok ld pat halves -> (i + length l = 1024)%nat ->
  free_from i halves.1 -> free_from i halves.2 ->
  (forall j p, l !! j = Some p -> pkey p <> INVALID ->
     prefix ld (pkey p) = pat /\ pkey p <> SENTINEL /\ near (pkey p) (i + j)
     /\ line_of (hash (pkey p)) <= Z.of_nat (i + j)) ->
  exists halves', foldM (split_step (2 ^ (63 - ld))) l halves = Some halves' /\ halves_ok ld pat halves'
    /\ used l ++ used halves.1 ++ used halves.2 ≡ₚ used halves'.1 ++ used halves'.2.
Proof.
  intros Hld. revert halves i. induction l as [|p l IH]; intros halves i Hh Hlen Hf1 Hf2 Hl; cbn [foldM].
  { by exists halves. }
  assert (pkey p <> INVALID -> prefix ld (pkey p) = pat /\ pkey p <> SENTINEL) as Hp.
  { intros Hu. destruct (Hl 0%nat p) as (? & ? & _); done. }
  destruct (split_step_ok ld pat halves p Hld Hh Hp) as (h1 & lost & -> & Hh1 & Hperm & Hroom & Hfr).
  cbn [mbind option_bind].
  simpl in Hlen.
  destruct (lookup_lt_is_Some_2 halves.1 i) as [q1 Hq1]; [rewrite (so_length _ _ _ (ho_left _ _ _ Hh)); lia|].
  destruct (lookup_lt_is_Some_2 halves.2 i) as [q2 Hq2]; [rewrite (so_length _ _ _ (ho_right _ _ _ Hh)); lia|].
  assert (pkey p <> INVALID -> near (pkey p) i /\ line_of (hash (pkey p)) <= Z.of_nat i) as Hn.
  { intros Hu. rewrite <- (Nat.add_0_r i). by apply (Hl 0%nat p). }
  assert (lost = []) as ->.
  { apply Hroom. destruct (decide (pkey p = INVALID)) as [|Hu]; [by left|right].
    exists i, q1, q2. split_and!; [by apply Hn|done|by eapply Hf1|done|by eapply Hf2]. }
  destruct (IH h1 (S i) Hh1) as (h2 & -> & Hh2 & Hperm2).
  - lia.
  - apply (free_from_step i p halves.1 _ q1); try done. intros j. apply Hfr.
  - apply (free_from_step i p halves.2 _ q2); try done. intros j. apply Hfr.
  - intros j r Hr Hu. replace (S i + j)%nat with (i + S j)%nat by lia. by apply (Hl (S j)).
  - exists h2. split_and!; [done|done|].
    assert (used (p :: l) = used [p] ++ used l) as -> by (unfold used; by rewrite <- filter_app).
    rewrite <- Hperm2, <- (app_assoc (used [p])).
    rewrite (Permutation_app_swap_app (used [p]) (used l)), Hperm. done.
Qed.

Lemma seg_ok_flat ld pat s :
  seg_ok ld pat s -> Forall (fun p => line_of (hash (pkey p)) <= 992) (used s) -> flat s.
Proof.
  intros Hs Hl i p Hi Hu. destruct (so_pair _ _ _ Hs i p Hi Hu) as (_ & Hn & _).
  rewrite Forall_forall in Hl. assert (p ∈ used s) as Hin.
  { apply elem_of_used. split; [done|]. by apply (list_elem_of_lookup_2 _ i). }
  apply Hl in Hin. unfold near in Hn. apply elem_of_window in Hn as (o & Ho & ->).
  pose proof (line_of_range (hash (pkey p))). rewrite Z.mod_small; lia.
Qed.

Lemma new_Segment_used junk d : used (slots (new_Segment junk d)) = [].
Proof. apply new_Pairs_used. Qed.

Lemma used_nil_free i s : used s = [] -> free_from i s.
Proof.
  intros Hn j p _ Hp. destruct (decide (pkey p = INVALID)) as [|Hu]; [done|].
  assert (p ∈ used s) as Hin; [|rewrite Hn in Hin; by apply not_elem_of_nil in Hin].
  apply elem_of_used. split; [done|]. by apply (list_elem_of_lookup_2 _ j).
Qed.

(** [Split] makes two segments of the next depth; the pairs it does not keep
    are those whose windows wrap around. *)
Lemma Split_ok junk ld pat s :
  0 <= ld <= 63 -> seg_ok ld pat s ->
  exists a b lost, Split junk (MkSeg s ld) = Some (MkSeg a (ld + 1), MkSeg b (ld + 1))
    /\ seg_ok (ld + 1) (2 * pat) a /\ seg_ok (ld + 1) (2 * pat + 1) b
    /\ used s ≡ₚ lost ++ used a ++ used b
    /\ (flat s -> lost = []).
Proof.
  intros Hld Hs. unfold Split. cbn [local_depth slots]. rewrite split_pattern by done.
  cbn [mbind option_bind].
  pose proof (new_Segment_used junk 0) as Hnil. pose proof (fun pat => seg_ok_empty junk (ld + 1) pat 0) as Hempty.
  set (z := slots (new_Segment junk 0)) in *. clearbody z.
  assert (halves_ok ld pat (z, z)) as Hz by (split; apply Hempty).
  destruct (split_loop_ok ld pat s (z, z) Hld Hz) as ([a b] & lost & Hrun & [Ha Hb] & Hperm).
  { apply Forall_lookup. intros i p Hp Hu. apply (so_pair _ _ _ Hs) in Hp; tauto. }
  simpl in *. rewrite Hnil, !app_nil_r in Hperm. rewrite Hrun. cbn [mbind option_bind].
  exists a, b, lost. split_and!; try done. intros Hflat.
  destruct (split_loop_flat ld pat s (z, z) 0 Hld Hz) as (h' & Hrun' & _ & Hperm').
  - by rewrite (so_length _ _ _ Hs).
  - by apply used_nil_free.
  - by apply used_nil_free.
  - intros i p Hp Hu. destruct (so_pair _ _ _ Hs i p Hp Hu) as (? & ? & ?).
    split_and!; [done|done|done|by apply Hflat].
  - rewrite Hrun in Hrun'. injection Hrun' as <-. simpl in Hperm'. rewrite Hnil, !app_nil_r in Hperm'.
    rewrite Hperm' in Hperm. apply Permutation_length in Hperm. rewrite !length_app in Hperm.
    apply length_zero_iff_nil. lia.
Qed.

(** ** The directory *)

(** The entry of a directory of depth [D] after the segment of depth [ld] and
    prefix [pat] of a directory of depth [dep] has been split. *)
Definition split_entry (e : list nat) (dep D ld pat : Z) (s0 s1 : nat) (j : Z) : option nat :=
  if decide (j ≫ (D - ld) = pat) then
    Some (if Z.even (j ≫ (D - ld - 1)) then s0 else s1)
  else e !! Z.to_nat (j ≫ (D - dep)).

Lemma double_entries_length e x s0 s1 : length (double_entries e x s0 s1) = (2 * length e)%nat.
Proof.
  unfold double_entries.
  enough (forall f : nat -> nat -> list nat, (forall i id, length (f i id) = 2%nat) ->
            length (concat (imap f e)) = (2 * length e)%nat) as Hw.
  { apply Hw. intros i id. by destruct (decide _). }
  induction e as [|id e IH]; intros f Hf; [done|]. cbn [imap concat length].
  rewrite length_app, Hf, IH by (intros; apply Hf). lia.
Qed.

Lemma double_entries_lookup e x s0 s1 (j b : nat) :
  (b < 2)%nat ->
  double_entries e x s0 s1 !! (2 * j + b)%nat =
  id ← e !! j; Some (if decide (j = x) then (if decide (b = 0)%nat then s0 else s1) else id).
Proof.
  intros Hb. unfold double_entries.
  enough (forall f : nat -> nat -> list nat, (forall i id, length (f i id) = 2%nat) ->
            concat (imap f e) !! (2 * j + b)%nat = id ← e !! j; f j id !! b) as Hw.
  { rewrite Hw by (intros i id; by destruct (decide _)).
    destruct (e !! j) as [id|]; [|done]. cbn [mbind option_bind].
    destruct (decide (j = x)), b as [|[|b]]; (done || lia). }
  revert j. induction e as [|id e IH]; intros j f Hf; [done|]. cbn [imap concat].
  destruct j as [|j].
  - rewrite lookup_app_l by (rewrite Hf; lia). done.
  - rewrite lookup_app_r by (rewrite Hf; lia). rewrite Hf.
    replace (2 * S j + b - 2)%nat with (2 * j + b)%nat by lia.
    rewrite IH by (intros; apply Hf). done.
Qed.

Lemma set_range_lookup (e : list nat) loc n id :
  (loc + n <= length e)%nat ->
  exists e', set_range e loc n id = Some e' /\ length e' = length e
    /\ forall j, e' !! j = if decide (loc <= j < loc + n)%nat then Some id else e !! j.
Proof.
  unfold set_range. induction n as [|n IH]; intros Hn.
  { exists e. split_and!; try done. intros j. by rewrite decide_False by lia. }
  destruct IH as (e1 & Hrun & Hl & He1); [lia|].
  rewrite seq_S, foldM_snoc, Hrun. cbn [mbind option_bind]. rewrite store_Some by lia.
  exists (<[(loc + n)%nat := id]> e1). split_and!; [done|by rewrite length_insert|].
  intros j. destruct (decide (j = loc + n)%nat) as [->|Hj].
  - rewrite list_lookup_insert_eq by lia. by rewrite decide_True by lia.
  - rewrite list_lookup_insert_ne, He1 by done.
    destruct (decide (loc <= j < loc + n)%nat), (decide (loc <= j < loc + S n)%nat); (done || lia).
Qed.

Lemma shr64_Some z n : 0 <= n < 64 -> shr64 z n = Some (z ≫ n).
Proof.
  intros Hn. unfold shr64. by destruct (Z.leb_spec 0 n), (Z.ltb_spec n 64); try lia.
Qed.

Lemma prefix_bound d k : 0 <= d <= 64 -> 0 <= prefix d k < 2 ^ d.
Proof.
  intros Hd. unfold prefix. rewrite Z.shiftr_div_pow2 by lia. pose proof (hash_bound k). split.
  - apply Z.div_pos; [lia|]. apply Z.pow_pos_nonneg; lia.
  - apply Z.div_lt_upper_bound; [apply Z.pow_pos_nonneg; lia|].
    rewrite <- Z.pow_add_r by lia. replace (64 - d + d) with 64 by lia. lia.
Qed.

Lemma prefix_prefix d ld k : 0 <= ld <= d -> d <= 64 -> prefix d k ≫ (d - ld) = prefix ld k.
Proof.
  intros Hld Hd. unfold prefix. rewrite Z.shiftr_shiftr by lia. f_equal. lia.
Qed.

Lemma set_range_1 (e : list nat) loc id : set_range e loc 1 id = store e loc id.
Proof.
  unfold set_range. cbn [seq foldM]. rewrite Nat.add_0_r. by destruct (store e loc id).
Qed.

(** The half of the range of a prefix, and where the range begins. *)
Definition range_half (dep ld : Z) : nat := Z.to_nat (2 ^ (dep - ld - 1)).
Definition range_loc (dep ld pat : Z) : nat := Z.to_nat (2 * 2 ^ (dep - ld - 1) * pat).

Lemma range_bound dep ld pat :
  0 <= ld < dep -> 0 <= pat < 2 ^ ld ->
  (0 < range_half dep ld)%nat /\ (range_loc dep ld pat + 2 * range_half dep ld <= Z.to_nat (2 ^ dep))%nat.
Proof.
  intros Hld Hpat. unfold range_half, range_loc. set (half := 2 ^ (dep - ld - 1)).
  assert (0 < half) as Hh by (apply Z.pow_pos_nonneg; lia).
  assert (2 ^ dep = 2 * half * 2 ^ ld) as Hdep.
  { unfold half. rewrite <- Z.pow_succ_r, <- Z.pow_add_r by lia. f_equal. lia. }
  assert (2 * half * pat + 2 * half <= 2 ^ dep) as Hb by nia.
  assert (0 <= 2 * half * pat) by nia. lia.
Qed.

Lemma split_entry_ranges e dep ld pat s0 s1 j :
  0 <= ld < dep -> 0 <= pat < 2 ^ ld -> 0 <= j ->
  split_entry e dep dep ld pat s0 s1 j =
  let loc := range_loc dep ld pat in let half := range_half dep ld in
  if decide (loc <= Z.to_nat j < loc + half)%nat then Some s0
  else if decide (loc + half <= Z.to_nat j < loc + half + half)%nat then Some s1
  else e !! Z.to_nat j.
Proof.
  intros Hld Hpat Hj. cbv zeta. unfold split_entry, range_loc, range_half. set (half := 2 ^ (dep - ld - 1)).
  assert (0 < half) as Hh by (apply Z.pow_pos_nonneg; lia).
  rewrite Z.sub_diag, Z.shiftr_0_r, !Z.shiftr_div_pow2 by lia. fold half.
  replace (2 ^ (dep - ld)) with (2 * half) by (unfold half; rewrite <- Z.pow_succ_r by lia; f_equal; lia).
  pose proof (Z.div_mod j (2 * half) ltac:(lia)). pose proof (Z.mod_pos_bound j (2 * half) ltac:(lia)).
  assert (0 <= 2 * half * pat) by nia.
  destruct (decide (j / (2 * half) = pat)) as [Hq|Hq].
  - rewrite Hq in *. destruct (decide (j mod (2 * half) < half)) as [Hlt|Hge].
    + rewrite (decide_True (P := (_ <= _ < _)%nat)) by lia.
      rewrite <- (Z.div_unique j half (2 * pat) (j mod (2 * half))) by (lia || nia).
      by rewrite Z.even_mul.
    + rewrite decide_False, decide_True by lia.
      rewrite <- (Z.div_unique j half (2 * pat + 1) (j mod (2 * half) - half)) by (lia || nia).
      by rewrite Z.even_add, Z.even_mul.
  - assert (~ (2 * half * pat <= j < 2 * half * pat + 2 * half)).
    { intros Hin. apply Hq. symmetry. apply (Z.div_unique j (2 * half) pat (j - 2 * half * pat)); lia. }
    by rewrite !decide_False by lia.
Qed.

(** Writing the two halves of the range of a prefix. *)
Lemma set_halves e dep ld pat s0 s1 :
  0 <= ld < dep -> length e = Z.to_nat (2 ^ dep) -> 0 <= pat < 2 ^ ld ->
  exists e1 e2, set_range e (range_loc dep ld pat + range_half dep ld) (range_half dep ld) s1 = Some e1
    /\ set_range e1 (range_loc dep ld pat) (range_half dep ld) s0 = Some e2
    /\ length e2 = length e
    /\ forall j, 0 <= j -> e2 !! Z.to_nat j = split_entry e dep dep ld pat s0 s1 j.
Proof.
  intros Hld Hlen Hpat. destruct (range_bound dep ld pat Hld Hpat) as [Hh Hb].
  destruct (set_range_lookup e (range_loc dep ld pat + range_half dep ld) (range_half dep ld) s1)
    as (e1 & Hr1 & Hl1 & He1); [lia|].
  destruct (set_range_lookup e1 (range_loc dep ld pat) (range_half dep ld) s0) as (e2 & Hr2 & Hl2 & He2); [lia|].
  exists e1, e2. split_and!; [done|done|lia|]. intros j Hj.
  by rewrite He2, He1, split_entry_ranges.
Qed.

(** Doubling the directory. *)
Lemma double_ok e dep x s0 s1 j :
  length e = Z.to_nat (2 ^ dep) -> 0 <= x < 2 ^ dep -> 0 <= j ->
  double_entries e (Z.to_nat x) s0 s1 !! Z.to_nat j = split_entry e dep (dep + 1) dep x s0 s1 j.
Proof.
  intros Hlen Hx Hj. unfold split_entry. replace (dep + 1 - dep) with 1 by lia.
  change (1 - 1) with 0. rewrite Z.shiftr_0_r, Z.shiftr_div_pow2 by lia. change (2 ^ 1) with 2.
  pose proof (Z.div_mod j 2 ltac:(lia)). pose proof (Z.mod_pos_bound j 2 ltac:(lia)).
  assert (0 <= j / 2) by (apply Z.div_pos; lia).
  replace (Z.to_nat j) with (2 * Z.to_nat (j / 2) + Z.to_nat (j mod 2))%nat by lia.
  rewrite double_entries_lookup by lia. destruct (decide (j / 2 = x)) as [Hq|Hq].
  - destruct (lookup_lt_is_Some_2 e (Z.to_nat (j / 2))) as [id ->]; [lia|].
    cbn [mbind option_bind]. rewrite decide_True by lia. f_equal.
    destruct (Z.even j) eqn:He.
    + apply Z.even_spec in He as [m Hm]. by rewrite decide_True by lia.
    + rewrite <- Z.negb_odd, negb_false_iff in He. apply Z.odd_spec in He as [m Hm].
      by rewrite decide_False by lia.
  - destruct (e !! Z.to_nat (j / 2)) as [id|]; [|done]. cbn [mbind option_bind].
    by rewrite decide_False by lia.
Qed.

(** Writing the halves of the range of a prefix, in the directory as it is. *)
Lemma update_dir_split d k ld s0 s1 :
  1 <= ld < depth d -> depth d <= 64 -> depth d - ld < 31 ->
  length (entries d) = Z.to_nat (2 ^ depth d) ->
  exists e, update_dir d (hash k) (prefix (depth d) k) ld s0 s1 = Some (MkDir e (depth d))
    /\ length e = length (entries d)
    /\ forall j, 0 <= j ->
         e !! Z.to_nat j = split_entry (entries d) (depth d) (depth d) ld (prefix ld k) s0 s1 j.
Proof.
  intros Hld Hd Hst Hlen. unfold update_dir.
  pose proof (prefix_bound (depth d) k ltac:(lia)) as Hx.
  pose proof (prefix_bound ld k ltac:(lia)) as Hp.
  pose proof (prefix_prefix (depth d) ld k ltac:(lia) ltac:(lia)) as Hpp.
  destruct (set_halves (entries d) (depth d) ld (prefix ld k) s0 s1) as (e1 & e2 & H1 & H2 & Hl2 & He2);
    [lia|done|done|].
  exists e2. split; [|done]. clear He2 Hl2. unfold range_loc, range_half in H1, H2.
  destruct (Z.eqb_spec ld (depth d)) as [|_]; [lia|].
  rewrite shr64_Some by lia. fold (prefix (depth d) k). cbn [mbind option_bind].
  rewrite Z.shiftr_div_pow2 in Hpp by lia. set (x := prefix (depth d) k) in *.
  destruct (Z.eqb_spec (depth d) (ld + 1)) as [Heq|Hne'].
  + replace (depth d - ld - 1) with 0 in H1, H2 by lia. replace (depth d - ld) with 1 in Hpp by lia.
    change (2 ^ 0) with 1 in H1, H2. change (2 ^ 1) with 2 in Hpp. change (Z.to_nat 1) with 1%nat in H1, H2.
    rewrite set_range_1 in H1, H2. pose proof (Z.div_mod x 2 ltac:(lia)).
    destruct (Z.eqb_spec (x mod 2) 0) as [Hz|Hz].
    * replace (Z.to_nat (x + 1)) with (Z.to_nat (2 * 1 * prefix ld k) + 1)%nat by lia. rewrite H1.
      cbn [mbind option_bind]. replace (Z.to_nat x) with (Z.to_nat (2 * 1 * prefix ld k)) by lia.
      by rewrite H2.
    * pose proof (Z.mod_pos_bound x 2 ltac:(lia)).
      replace (Z.to_nat x) with (Z.to_nat (2 * 1 * prefix ld k) + 1)%nat by lia. rewrite H1.
      cbn [mbind option_bind]. replace (Z.to_nat (x - 1)) with (Z.to_nat (2 * 1 * prefix ld k)) by lia.
      by rewrite H2.
  + assert (2 ^ (depth d - ld) = 2 * 2 ^ (depth d - ld - 1)) as Hs
      by (rewrite <- Z.pow_succ_r by lia; f_equal; lia).
    assert (2 ^ (depth d - ld) < 2 ^ 31) as Hlt by (apply Z.pow_lt_mono_r; lia).
    apply Z.ltb_lt in Hlt. rewrite Hlt. cbn [mbind option_bind].
    assert (0 < 2 ^ (depth d - ld - 1)) by (apply Z.pow_pos_nonneg; lia).
    pose proof (Z.div_mod x (2 ^ (depth d - ld)) ltac:(lia)).
    replace (x - x mod 2 ^ (depth d - ld)) with (2 * 2 ^ (depth d - ld - 1) * prefix ld k) by nia.
    replace (2 ^ (depth d - ld) / 2) with (2 ^ (depth d - ld - 1))
      by (rewrite Hs, Z.mul_comm, Z.div_mul by lia; done).
    rewrite H1. cbn [mbind option_bind]. by rewrite H2.
Qed.

Lemma update_dir_ok d k ld s0 s1 :
  1 <= ld <= depth d -> depth d <= 64 -> depth d - ld < 31 ->
  length (entries d) = Z.to_nat (2 ^ depth d) ->
  exists d', update_dir d (hash k) (prefix (depth d) k) ld s0 s1 = Some d'
    /\ depth d' = Z.max (depth d) (ld + 1) /\ length (entries d') = Z.to_nat (2 ^ depth d')
    /\ forall j, 0 <= j ->
         entries d' !! Z.to_nat j = split_entry (entries d) (depth d) (depth d') ld (prefix ld k) s0 s1 j.
Proof.
  intros Hld Hd Hst Hlen. destruct (decide (ld = depth d)) as [->|Hne].
  - unfold update_dir. rewrite Z.eqb_refl. eexists. split; [done|]. cbn [depth entries].
    split_and!; [lia| |].
    + rewrite double_entries_length, Hlen, Z.pow_add_r by lia. lia.
    + intros j Hj. apply double_ok; [done| |done]. apply prefix_bound. lia.
  - destruct (update_dir_split d k ld s0 s1) as (e & -> & Hl & He); [lia|done|done|done|].
    eexists. split; [done|]. cbn [depth entries]. split_and!; [lia|lia|done].
Qed.

(** ** The table *)

(** Every entry leads to a segment that holds its prefix, and the entries of a
    segment are those of one prefix. *)
Record table_ok (t : CCEH) : Prop := {
  to_depth : 1 <= depth (dir t) <= 64;
  to_length : length (entries (dir t)) = Z.to_nat (2 ^ depth (dir t));
  to_seg : forall j id, 0 <= j -> entries (dir t) !! Z.to_nat j = Some id ->
    exists s, segments t !! id = Some s /\ 1 <= local_depth s <= depth (dir t)
      /\ seg_ok (local_depth s) (j ≫ (depth (dir t) - local_depth s)) (slots s);
  to_share : forall i j id s, 0 <= i -> 0 <= j ->
    entries (dir t) !! Z.to_nat i = Some id -> segments t !! id = Some s ->
    (entries (dir t) !! Z.to_nat j = Some id
     <-> j ≫ (depth (dir t) - local_depth s) = i ≫ (depth (dir t) - local_depth s));
}.

(** The segment a key belongs to. *)
Definition seg_of (t : CCEH) (k : Key_t) : option (nat * Segment) :=
  id ← entries (dir t) !! Z.to_nat (prefix (depth (dir t)) k);
  s ← segments t !! id; Some (id, s).

Lemma seg_of_ok t k :
  table_ok t -> exists id s, seg_of t k = Some (id, s)
    /\ entries (dir t) !! Z.to_nat (prefix (depth (dir t)) k) = Some id /\ segments t !! id = Some s
    /\ 1 <= local_depth s <= depth (dir t) /\ seg_ok (local_depth s) (prefix (local_depth s) k) (slots s).
Proof.
  intros Ht. pose proof (to_depth _ Ht) as Hd. pose proof (prefix_bound (depth (dir t)) k ltac:(lia)) as Hp.
  destruct (lookup_lt_is_Some_2 (entries (dir t)) (Z.to_nat (prefix (depth (dir t)) k))) as [id Hid].
  { rewrite (to_length _ Ht). lia. }
  destruct (to_seg _ Ht _ _ (proj1 Hp) Hid) as (s & Hs & Hld & Hok).
  rewrite prefix_prefix in Hok by lia. exists id, s. unfold seg_of. rewrite Hid. cbn [mbind option_bind].
  by rewrite Hs.
Qed.

(** Two keys with the prefix of a segment belong to it. *)
Lemma seg_of_share t k k' id s :
  table_ok t -> seg_of t k = Some (id, s) ->
  (seg_of t k' = Some (id, s) <-> prefix (local_depth s) k' = prefix (local_depth s) k).
Proof.
  intros Ht Hk. pose proof (to_depth _ Ht).
  destruct (seg_of_ok t k Ht) as (? & ? & Hk' & Hid & Hs & Hld & _). simplify_eq.
  pose proof (prefix_bound (depth (dir t)) k ltac:(lia)).
  pose proof (prefix_bound (depth (dir t)) k' ltac:(lia)).
  pose proof (to_share _ Ht (prefix (depth (dir t)) k) (prefix (depth (dir t)) k') _ _ ltac:(lia) ltac:(lia) Hid Hs) as Hsh.
  rewrite !prefix_prefix in Hsh by lia. rewrite <- Hsh. unfold seg_of. split.
  - destruct (entries (dir t) !! Z.to_nat (prefix _ k')) as [id'|]; [|done]. cbn [mbind option_bind].
    destruct (segments t !! id'); cbn [mbind option_bind]; [|done]. by intros [= -> _].
  - intros ->. cbn [mbind option_bind]. by rewrite Hs.
Qed.

Lemma shiftr_nonneg z n : 0 <= z -> 0 <= z ≫ n.
Proof. apply Z.shiftr_nonneg. Qed.

(** The pairs of the table: those of its segments, each counted once. *)
Definition ids (t : CCEH) : list nat := remove_dups (entries (dir t)).
Definition pairs_at (t : CCEH) (id : nat) : list Pair :=
  match segments t !! id with Some s => used (slots s) | None => [] end.
Definition table_pairs (t : CCEH) : list Pair := concat (pairs_at t <$> ids t).

Lemma shiftl_shiftr z m : 0 <= m -> (z ≪ m) ≫ m = z.
Proof. intros Hm. by rewrite Z.shiftr_shiftl_l, Z.sub_diag, Z.shiftl_0_r. Qed.

Lemma elem_of_ids t id : id ∈ ids t <-> exists j, 0 <= j /\ entries (dir t) !! Z.to_nat j = Some id.
Proof.
  unfold ids. rewrite elem_of_remove_dups, list_elem_of_lookup. split.
  - intros [i Hi]. exists (Z.of_nat i). rewrite Nat2Z.id. split; [lia|done].
  - intros (j & _ & Hj). eauto.
Qed.

Lemma ids_remove t id : id ∈ ids t -> exists rest, ids t ≡ₚ (id :: rest) /\ ~ (id ∈ rest) /\ NoDup rest.
Proof.
  intros [rest Hr]%elem_of_Permutation. exists rest. split; [done|].
  pose proof (NoDup_remove_dups (entries (dir t))) as Hnd. fold (ids t) in Hnd. rewrite Hr in Hnd.
  by apply NoDup_cons in Hnd.
Qed.

Lemma table_pairs_perm t l : ids t ≡ₚ l -> table_pairs t ≡ₚ concat (pairs_at t <$> l).
Proof. intros Hl. unfold table_pairs. by rewrite Hl. Qed.

Lemma pairs_at_ext t t' l :
  (forall id, id ∈ l -> segments t !! id = segments t' !! id) ->
  concat (pairs_at t <$> l) = concat (pairs_at t' <$> l).
Proof.
  intros Hl. f_equal. apply list_fmap_ext. intros i id Hi. unfold pairs_at. rewrite Hl; [done|].
  by apply (list_elem_of_lookup_2 _ i).
Qed.

(** The table after a split. *)
Section AfterSplit.
Variables (t : CCEH) (k : Key_t) (id : nat) (s : Segment) (a b : list Pair) (d' : Directory).
Let dep := depth (dir t).
Let ld := local_depth s.
Let n := length (segments t).
Let t' := MkCCEH d' (segments t ++ [MkSeg a (ld + 1); MkSeg b (ld + 1)]).
Hypothesis Ht : table_ok t.
Hypothesis Hk : seg_of t k = Some (id, s).
Hypothesis Hld : ld <= 63.
Hypothesis Ha : seg_ok (ld + 1) (2 * prefix ld k) a.
Hypothesis Hb : seg_ok (ld + 1) (2 * prefix ld k + 1) b.
Hypothesis Hdep : depth d' = Z.max dep (ld + 1).
Hypothesis Hlen : length (entries d') = Z.to_nat (2 ^ depth d').
Hypothesis He : forall j, 0 <= j ->
  entries d' !! Z.to_nat j = split_entry (entries (dir t)) dep (depth d') ld (prefix ld k) n (S n) j.

Lemma split_facts : 1 <= ld <= dep /\ dep <= 64 /\ ld < depth d' <= 64 /\ dep <= depth d'.
Proof.
  pose proof (to_depth _ Ht). destruct (seg_of_ok t k Ht) as (? & ? & Hk' & _ & _ & Hl & _).
  rewrite Hk in Hk'. injection Hk' as <- <-. subst dep ld. cbn [dir depth] in *. lia.
Qed.

Lemma split_old_id j id' : 0 <= j -> entries (dir t) !! Z.to_nat j = Some id' -> (id' < n)%nat.
Proof.
  intros Hj Hi. destruct (to_seg _ Ht _ _ Hj Hi) as (s' & Hs' & _). by apply lookup_lt_Some in Hs'.
Qed.

(** The two halves of a prefix. *)
Lemma split_bit j :
  0 <= j -> j ≫ (depth d' - ld) = prefix ld k ->
  j ≫ (depth d' - (ld + 1)) = 2 * prefix ld k + (if Z.even (j ≫ (depth d' - ld - 1)) then 0 else 1).
Proof.
  intros Hj Hp. pose proof split_facts. replace (depth d' - (ld + 1)) with (depth d' - ld - 1) by lia.
  replace (depth d' - ld) with (depth d' - ld - 1 + 1) in Hp by lia.
  rewrite <- Z.shiftr_shiftr in Hp by lia. rewrite <- Hp.
  set (z := j ≫ (depth d' - ld - 1)). rewrite Z.shiftr_div_pow2 by lia. change (2 ^ 1) with 2.
  rewrite (Z.div_mod z 2) at 1 by lia. rewrite Zmod_even. done.
Qed.

Lemma split_lookup_new :
  segments t' !! n = Some (MkSeg a (ld + 1)) /\ segments t' !! S n = Some (MkSeg b (ld + 1)).
Proof.
  unfold t', n. cbn [segments]. split.
  - by rewrite lookup_app_r, Nat.sub_diag by lia.
  - rewrite lookup_app_r by lia. by replace (S (length (segments t)) - length (segments t))%nat with 1%nat by lia.
Qed.

Lemma split_lookup_old id' : (id' < n)%nat -> segments t' !! id' = segments t !! id'.
Proof. intros Hi. unfold t'. cbn [segments]. by rewrite lookup_app_l. Qed.

(** The entries of the new table, old and new. *)
Lemma split_entry_cases j id' :
  0 <= j -> entries d' !! Z.to_nat j = Some id' ->
  (j ≫ (depth d' - ld) = prefix ld k
   /\ id' = if Z.even (j ≫ (depth d' - ld - 1)) then n else S n)
  \/ (j ≫ (depth d' - ld) <> prefix ld k
      /\ entries (dir t) !! Z.to_nat (j ≫ (depth d' - dep)) = Some id' /\ (id' < n)%nat).
Proof.
  intros Hj. rewrite He by done. unfold split_entry. destruct (decide _) as [Hp|Hp].
  - intros [= <-]. by left.
  - intros Hi. right. split_and!; [done|done|]. apply split_old_id in Hi; [done|]. by apply shiftr_nonneg.
Qed.

Lemma split_old_shift j m : m <= dep -> 0 <= j -> (j ≫ (depth d' - dep)) ≫ (dep - m) = j ≫ (depth d' - m).
Proof.
  intros Hm Hj. pose proof split_facts. rewrite Z.shiftr_shiftr by lia. f_equal. lia.
Qed.

Lemma split_seg j id' :
  0 <= j -> entries d' !! Z.to_nat j = Some id' ->
  exists s', segments t' !! id' = Some s' /\ 1 <= local_depth s' <= depth d'
    /\ seg_ok (local_depth s') (j ≫ (depth d' - local_depth s')) (slots s').
Proof.
  intros Hj Hi. pose proof split_facts as Hf. destruct split_lookup_new as [Hn1 Hn2].
  apply split_entry_cases in Hi as [(Hp & ->)|(Hp & Hi & Hlt)]; [| |done].
  - pose proof (split_bit j Hj Hp) as Hbit. destruct (Z.even _).
    + exists (MkSeg a (ld + 1)). split; [done|]. cbn [local_depth slots]. rewrite Hbit, Z.add_0_r.
      split; [lia|done].
    + exists (MkSeg b (ld + 1)). split; [done|]. cbn [local_depth slots]. rewrite Hbit. split; [lia|done].
  - rewrite split_lookup_old by done.
    destruct (to_seg _ Ht _ _ (shiftr_nonneg j _ Hj) Hi) as (s' & Hs' & Hl & Hok).
    change (depth (dir t)) with dep in Hl, Hok.
    rewrite split_old_shift in Hok by lia. exists s'. split_and!; (done || lia).
Qed.

Lemma split_share_new j id' :
  0 <= j -> (id' = n \/ id' = S n) ->
  entries d' !! Z.to_nat j = Some id' <->
  j ≫ (depth d' - (ld + 1)) = 2 * prefix ld k + (if decide (id' = n) then 0 else 1).
Proof.
  intros Hj Hid. pose proof split_facts as Hf. split.
  - intros [(Hp & ->)|(_ & _ & ?)]%split_entry_cases; [|lia|done].
    rewrite (split_bit j Hj Hp). destruct (Z.even _).
    + by rewrite decide_True.
    + by rewrite decide_False by lia.
  - intros Hp. assert (j ≫ (depth d' - ld) = prefix ld k) as Hpre.
    { replace (depth d' - ld) with (depth d' - (ld + 1) + 1) by lia.
      rewrite <- Z.shiftr_shiftr, Hp, Z.shiftr_div_pow2 by lia. change (2 ^ 1) with 2.
      destruct (decide _); symmetry; [apply Z.div_unique with 0|apply Z.div_unique with 1]; lia. }
    rewrite He by done. unfold split_entry. rewrite decide_True by done. f_equal.
    replace (depth d' - ld - 1) with (depth d' - (ld + 1)) by lia. rewrite Hp.
    destruct (decide _); rewrite Z.even_add, Z.even_mul; [done|]. simpl. lia.
Qed.

(** The keys of the split segment are those of its prefix. *)
Lemma split_in_prefix j :
  0 <= j -> entries (dir t) !! Z.to_nat j = Some id <-> j ≫ (dep - ld) = prefix ld k.
Proof.
  intros Hj. pose proof split_facts as Hf.
  destruct (seg_of_ok t k Ht) as (id1 & s1 & Hk' & Hid & Hs & _).
  rewrite Hk in Hk'. injection Hk' as <- <-.
  pose proof (prefix_bound dep k ltac:(lia)) as Hb'.
  rewrite (to_share _ Ht (prefix dep k) j id s (proj1 Hb') Hj Hid Hs).
  by rewrite (prefix_prefix (depth (dir t)) (local_depth s)) by (apply Hf || lia).
Qed.

Lemma split_share_old i j id' s' :
  0 <= i -> 0 <= j -> (id' < n)%nat -> entries d' !! Z.to_nat i = Some id' -> segments t' !! id' = Some s' ->
  entries d' !! Z.to_nat j = Some id' <->
  j ≫ (depth d' - local_depth s') = i ≫ (depth d' - local_depth s').
Proof.
  intros Hi Hj Hlt Hid Hs. pose proof split_facts as Hf. rewrite split_lookup_old in Hs by done.
  apply split_entry_cases in Hid as [(_ & Hid)|(Hp & Hid & _)]; [destruct (Z.even _); lia| |done].
  pose proof (shiftr_nonneg i (depth d' - dep) Hi) as Hi'.
  pose proof (shiftr_nonneg j (depth d' - dep) Hj) as Hj'.
  destruct (to_seg _ Ht _ _ Hi' Hid) as (s2 & Hs2 & Hl & _).
  rewrite Hs in Hs2. injection Hs2 as <-.
  pose proof (to_share _ Ht _ _ id' s' Hi' Hj' Hid Hs) as Hsh.
  change (depth (dir t)) with dep in Hsh, Hl. rewrite !split_old_shift in Hsh by lia.
  rewrite <- Hsh. rewrite He by done. unfold split_entry. destruct (decide _) as [Hpj|Hpj]; [|done].
  assert (id' <> id) as Hne.
  { intros ->. apply Hp. apply split_in_prefix in Hid; [|done]. by rewrite split_old_shift in Hid by lia. }
  assert (entries (dir t) !! Z.to_nat (j ≫ (depth d' - dep)) = Some id) as Hold.
  { apply split_in_prefix; [done|]. by rewrite split_old_shift by lia. }
  rewrite Hold. split; [|congruence]. destruct (Z.even _); intros [= Hx]; lia.
Qed.

Lemma table_ok_split : table_ok t'.
Proof.
  pose proof split_facts as Hf. split; change (dir t') with d'; [lia|done|apply split_seg|].
  intros i j id' s' Hi Hj Hid Hs. destruct (decide (id' < n)%nat) as [Hlt|Hge].
  - by apply split_share_old.
  - pose proof split_lookup_new as [Hn1 Hn2].
    assert (id' = n \/ id' = S n) as Hnew.
    { apply split_entry_cases in Hid as [(_ & ->)|(_ & _ & ?)]; [|done|done]. destruct (Z.even _); auto. }
    rewrite split_share_new by done. apply split_share_new in Hid as Hid'; [|done|done].
    assert (local_depth s' = ld + 1) as -> by (destruct Hnew as [-> | ->]; naive_solver).
    by rewrite Hid'.
Qed.

Lemma split_ids rest :
  ids t ≡ₚ (id :: rest) -> id ∉ rest -> NoDup rest -> ids t' ≡ₚ (n :: S n :: rest).
Proof.
  intros Hids Hnin Hnd. pose proof split_facts as Hf.
  assert (forall x, x ∈ rest <-> x ∈ ids t /\ x <> id) as Hrest.
  { intros x. rewrite Hids, elem_of_cons. split; [|tauto]. intros Hx. split; [by right|]. by intros ->. }
  assert (forall x, x ∈ ids t -> (x < n)%nat) as Hold.
  { intros x (j & Hj & Hx)%elem_of_ids. by apply split_old_id in Hx. }
  pose proof (prefix_bound ld k ltac:(lia)) as Hpb.
  apply NoDup_Permutation; [apply NoDup_remove_dups| |].
  { assert (forall x, x ∈ rest -> (x < n)%nat) as Hr by (intros x [Hx _]%Hrest; by apply Hold).
    apply NoDup_cons. split; [intros [?|?%Hr]%elem_of_cons; lia|].
    apply NoDup_cons. split; [intros ?%Hr; lia|done]. }
  intros x. rewrite !elem_of_cons, Hrest, !elem_of_ids. change (dir t') with d'. split.
  - intros (j & Hj & Hx). apply split_entry_cases in Hx as [(_ & ->)|(Hp & Hx & Hlt)]; [| |done].
    + destruct (Z.even _); auto.
    + right. right. split; [exists (j ≫ (depth d' - dep)); split; [by apply shiftr_nonneg|done]|].
      intros ->. apply Hp. apply split_in_prefix in Hx; [|by apply shiftr_nonneg].
      by rewrite split_old_shift in Hx by lia.
  - intros [->|[->|[(j & Hj & Hx) Hne]]].
    + exists ((2 * prefix ld k) ≪ (depth d' - (ld + 1))).
      split; [apply Z.shiftl_nonneg; lia|]. apply split_share_new; [apply Z.shiftl_nonneg; lia|by left|].
      rewrite shiftl_shiftr, decide_True by (done || lia). lia.
    + exists ((2 * prefix ld k + 1) ≪ (depth d' - (ld + 1))).
      split; [apply Z.shiftl_nonneg; lia|]. apply split_share_new; [apply Z.shiftl_nonneg; lia|by right|].
      rewrite shiftl_shiftr, decide_False by lia. lia.
    + assert (0 <= j ≪ (depth d' - dep)) as Hj' by (apply Z.shiftl_nonneg; lia).
      exists (j ≪ (depth d' - dep)). split; [done|]. rewrite He by done. unfold split_entry.
      rewrite <- (split_old_shift _ ld) by (done || lia). rewrite shiftl_shiftr by lia.
      rewrite decide_False; [done|]. intros Hp. apply Hne. apply split_in_prefix in Hp; [|done]. congruence.
Qed.


Lemma split_pairs lost :
  used (slots s) ≡ₚ lost ++ used a ++ used b -> table_pairs t ≡ₚ lost ++ table_pairs t'.
Proof.
  intros Hperm. destruct (seg_of_ok t k Ht) as (? & ? & Hk' & Hid & Hs & _).
  rewrite Hk in Hk'. injection Hk' as <- <-. pose proof split_facts as Hf.
  pose proof (prefix_bound dep k ltac:(lia)) as Hpb.
  destruct (ids_remove t id) as (rest & Hids & Hnin & Hnd); [apply elem_of_ids; exists (prefix dep k); split; [lia|done]|].
  rewrite (table_pairs_perm _ _ Hids), (table_pairs_perm _ _ (split_ids rest Hids Hnin Hnd)).
  rewrite !fmap_cons, !concat_cons. destruct split_lookup_new as [Hn1 Hn2].
  rewrite (pairs_at_ext t t' rest); cycle 1.
  { intros x Hx. symmetry. apply split_lookup_old.
    assert (x ∈ ids t) as (j & Hj & Hxj)%elem_of_ids by (rewrite Hids; by apply list_elem_of_further).
    by apply split_old_id in Hxj. }
  assert (pairs_at t' n = used a) as -> by (unfold pairs_at; by rewrite Hn1).
  assert (pairs_at t' (S n) = used b) as -> by (unfold pairs_at; by rewrite Hn2).
  assert (pairs_at t id = used (slots s)) as -> by (unfold pairs_at; by rewrite Hs).
  by rewrite Hperm, <- !app_assoc.
Qed.

(** Where the keys are after the split. *)
Lemma seg_of_split k' :
  seg_of t' k' =
  if decide (prefix ld k' = prefix ld k) then
    Some (if goes_right ld k' then (S n, MkSeg b (ld + 1)) else (n, MkSeg a (ld + 1)))
  else seg_of t k'.
Proof.
  pose proof split_facts as Hf. destruct split_lookup_new as [Hn1 Hn2].
  pose proof (prefix_bound (depth d') k' ltac:(lia)) as Hpb.
  unfold seg_of at 1. change (dir t') with d'. rewrite He by lia. unfold split_entry.
  rewrite !prefix_prefix by lia. replace (depth d' - ld - 1) with (depth d' - (ld + 1)) by lia.
  rewrite prefix_prefix by lia. destruct (decide (prefix ld k' = prefix ld k)) as [Hp|Hp].
  - rewrite prefix_succ by lia. unfold goes_right. cbn [mbind option_bind].
    assert (forall z bit, Z.even (2 * z + Z.b2z bit) = negb bit) as ->
      by (intros z bit; rewrite Z.even_add, Z.even_mul; by destruct bit).
    destruct (Z.testbit _ _); cbn [negb]; [by rewrite Hn2|by rewrite Hn1].
  - unfold seg_of. change (depth (dir t)) with dep.
    destruct (entries (dir t) !! _) as [id'|] eqn:Hid; [|done]. cbn [mbind option_bind].
    apply split_old_id in Hid; [|apply prefix_bound; lia]. by rewrite split_lookup_old.
Qed.

End AfterSplit.

(** ** One round of [Insert] *)

(** The pair [k], [v] is where [Get] looks for it. *)
Definition holds (t : CCEH) (k : Key_t) (v : Value_t) : Prop :=
  exists id s, seg_of t k = Some (id, s) /\ MkPair k v ∈ used (slots s).

Definition put (t : CCEH) (id : nat) (s : Segment) (loc : nat) (p : Pair) : CCEH :=
  MkCCEH (dir t) (<[id := MkSeg (<[loc := p]> (slots s)) (local_depth s)]> (segments t)).

Lemma usable_is_free ld pat s i p :
  seg_ok ld pat s -> s !! i = Some p -> usable ld pat p = is_free p.
Proof.
  intros Hs Hi. unfold usable. fold (hash (pkey p)). fold (prefix ld (pkey p)).
  destruct (is_free p) eqn:Hf.
  - rewrite orb_true_r. apply is_free_true in Hf. rewrite Hf. done.
  - apply is_free_false in Hf. destruct (so_pair _ _ _ Hs i p Hi Hf) as (-> & _). by rewrite Z.eqb_refl.
Qed.

Lemma Insert_round fuel junk t k v id s :
  table_ok t -> seg_of t k = Some (id, s) ->
  Insert (S fuel) junk t k v =
  r ← probe (window (line_of (hash k))) is_free (slots s);
  match r with
  | Some loc => Some (put t id s loc (MkPair k v), INVALID)
  | None =>
      '(s0, s1) ← Split junk s;
      d ← update_dir (dir t) (hash k) (prefix (depth (dir t)) k) (local_depth s)
            (length (segments t)) (S (length (segments t)));
      Insert fuel junk (MkCCEH d (segments t ++ [s0; s1])) k v
  end.
Proof.
  intros Ht Hk. pose proof (to_depth _ Ht) as Hd.
  destruct (seg_of_ok t k Ht) as (id' & s' & Hk' & Hid & Hs & Hld & Hok).
  rewrite Hk in Hk'. injection Hk' as <- <-. cbn [Insert]. fold (hash k).
  rewrite shr64_Some by lia. fold (prefix (depth (dir t)) k). cbn [mbind option_bind].
  rewrite Hid. cbn [mbind option_bind]. rewrite Hs. cbn [mbind option_bind].
  rewrite (shr64_Some (prefix _ _)), prefix_prefix by lia. cbn [mbind option_bind].
  rewrite shr64_Some by lia. cbn [mbind option_bind].
  rewrite (probe_pred_ext _ _ is_free) by (intros i p Hi; by eapply usable_is_free).
  destruct (probe _ is_free (slots s)) as [[loc|]|] eqn:Hr; [|done|done]. cbn [mbind option_bind].
  apply probe_found_lookup in Hr as (_ & p & Hp & _).
  rewrite store_Some by (by eapply lookup_lt_Some). cbn [mbind option_bind].
  by rewrite store_Some by (by eapply lookup_lt_Some).
Qed.

Lemma seg_of_put t id s loc p k k' :
  table_ok t -> seg_of t k = Some (id, s) ->
  seg_of (put t id s loc p) k' =
  if decide (prefix (local_depth s) k' = prefix (local_depth s) k)
  then Some (id, MkSeg (<[loc := p]> (slots s)) (local_depth s)) else seg_of t k'.
Proof.
  intros Ht Hk. destruct (seg_of_ok t k' Ht) as (id' & s' & Hk' & Hid & Hs & _).
  pose proof (seg_of_share t k k' id s Ht Hk) as Hsh.
  assert (seg_of (put t id s loc p) k' =
          s' ← segments (put t id s loc p) !! id'; Some (id', s')) as ->.
  { unfold seg_of. cbn [dir put]. by rewrite Hid. }
  unfold put. cbn [segments]. destruct (decide _) as [Hp|Hp].
  - apply Hsh in Hp. rewrite Hk' in Hp. injection Hp as -> ->.
    by rewrite list_lookup_insert_eq by (by eapply lookup_lt_Some).
  - assert (id' <> id) as Hne.
    { intros ->. apply Hp, Hsh. rewrite Hk'. destruct (seg_of_ok t k Ht) as (? & ? & Hk2 & _ & Hs2 & _). congruence. }
    by rewrite list_lookup_insert_ne, Hs, Hk' by done.
Qed.

Lemma table_ok_put t id s loc k v :
  table_ok t -> seg_of t k = Some (id, s) -> near k loc -> k <> SENTINEL ->
  table_ok (put t id s loc (MkPair k v)).
Proof.
  intros Ht Hk Hn Hk'. pose proof (to_depth _ Ht) as Hd.
  destruct (seg_of_ok t k Ht) as (id' & s' & Hk2 & Hid & Hs & Hld & Hok).
  rewrite Hk in Hk2. injection Hk2 as <- <-.
  pose proof (prefix_bound (depth (dir t)) k ltac:(lia)) as Hp.
  assert (forall id' s', segments (put t id s loc (MkPair k v)) !! id' = Some s' ->
            exists s'', segments t !! id' = Some s'' /\ local_depth s'' = local_depth s') as Hsame.
  { intros id' s' Hs'. cbn [put segments] in Hs'.
    apply list_lookup_insert_Some in Hs' as [(-> & <- & _)|[_ ?]]; eauto. }
  split; [done|apply (to_length _ Ht)| |].
  - intros j id' Hj Hj'. cbn [put dir segments] in *. destruct (decide (id' = id)) as [->|Hne].
    + rewrite list_lookup_insert_eq by (by eapply lookup_lt_Some). eexists. split; [done|].
      cbn [local_depth slots]. split; [done|].
      rewrite (proj1 (to_share _ Ht (prefix (depth (dir t)) k) j id s (proj1 Hp) Hj Hid Hs) Hj').
      rewrite prefix_prefix by lia. by apply seg_ok_insert.
    + rewrite list_lookup_insert_ne by done. by apply (to_seg _ Ht).
  - intros i j id' s' Hi Hj Hi' Hs'. destruct (Hsame _ _ Hs') as (s'' & Hs'' & <-).
    by apply (to_share _ Ht).
Qed.

Lemma holds_in t k id s p :
  table_ok t -> seg_of t k = Some (id, s) -> p ∈ used (slots s) -> holds t (pkey p) (pvalue p).
Proof.
  intros Ht Hk Hp. exists id, s. destruct p as [pk pv]. split; [|done]. cbn [pkey].
  apply (seg_of_share t k pk id s Ht Hk).
  destruct (seg_of_ok t k Ht) as (id' & s' & Hk2 & _ & _ & _ & Hok).
  rewrite Hk in Hk2. injection Hk2 as <- <-. apply elem_of_used in Hp as [Hu Hp].
  apply list_elem_of_lookup in Hp as [i Hi]. by apply (so_pair _ _ _ Hok i _ Hi).
Qed.

Lemma holds_put t id s loc q k v k' v' :
  table_ok t -> seg_of t k = Some (id, s) -> k <> INVALID ->
  slots s !! loc = Some q -> pkey q = INVALID ->
  holds (put t id s loc (MkPair k v)) k' v' <-> holds t k' v' \/ (k' = k /\ v' = v).
Proof.
  intros Ht Hk Hu Hq Hi.
  assert (used (<[loc := MkPair k v]> (slots s)) ≡ₚ MkPair k v :: used (slots s)) as Hperm
    by (by apply (used_insert _ _ q)).
  unfold holds. rewrite (seg_of_put t id s loc _ k k' Ht Hk). destruct (decide _) as [Hp|Hp].
  - pose proof (proj2 (seg_of_share t k k' id s Ht Hk) Hp) as Hk'. split.
    + intros (? & ? & [= <- <-] & Hin). cbn [slots] in Hin. rewrite Hperm in Hin.
      apply elem_of_cons in Hin as [[= -> ->]|Hin]; eauto.
    + intros Hor. eexists _, _. split; [done|]. cbn [slots]. rewrite Hperm. apply elem_of_cons.
      destruct Hor as [(? & ? & Hk2 & Hin)|[-> ->]]; [right|by left].
      rewrite Hk' in Hk2. by injection Hk2 as <- <-.
  - split; [by left|]. intros [Hh|[-> _]]; [done|]. by destruct Hp.
Qed.

(** The keys whose windows do not wrap around. *)
Definition low (t : CCEH) : Prop := forall k v, holds t k v -> line_of (hash k) <= 992.

(** What a split leaves: a table in which the key has a deeper segment, with
    no new pairs, and all of them when no window wraps around. *)
Record splits (t : CCEH) (k : Key_t) (s : Segment) (t' : CCEH) : Prop := {
  sp_ok : table_ok t';
  sp_sound : forall k' v', holds t' k' v' -> holds t k' v';
  sp_complete : low t -> forall k' v', holds t k' v' -> holds t' k' v';
  sp_depth : depth (dir t') = Z.max (depth (dir t)) (local_depth s + 1);
  sp_pairs : exists lost, table_pairs t ≡ₚ lost ++ table_pairs t';
  sp_seg : exists id s', seg_of t' k = Some (id, s') /\ local_depth s' = local_depth s + 1
    /\ used (slots s') ⊆+ used (slots s);
}.

Lemma seg_ok_used ld pat s p : seg_ok ld pat s -> p ∈ used s -> prefix ld (pkey p) = pat.
Proof.
  intros Hs [Hu Hp]%elem_of_used. apply list_elem_of_lookup in Hp as [i Hi].
  by apply (so_pair _ _ _ Hs i p Hi).
Qed.

Lemma halves_side ld pat a b p :
  0 <= ld <= 63 -> seg_ok (ld + 1) (2 * pat) a -> seg_ok (ld + 1) (2 * pat + 1) b ->
  prefix ld (pkey p) = pat -> p ∈ used a ++ used b ->
  p ∈ used (if goes_right ld (pkey p) then b else a).
Proof.
  intros Hld Ha Hb Hp Hin. pose proof (prefix_succ ld (pkey p) Hld) as Hs. rewrite Hp in Hs.
  fold (goes_right ld (pkey p)) in Hs. apply elem_of_app in Hin as [Hin|Hin].
  - rewrite (seg_ok_used _ _ _ _ Ha Hin) in Hs. destruct (goes_right ld (pkey p)); [simpl in Hs; lia|done].
  - rewrite (seg_ok_used _ _ _ _ Hb Hin) in Hs. destruct (goes_right ld (pkey p)); [done|simpl in Hs; lia].
Qed.

Lemma splits_intro t k id sl ld a b lost t' n :
  table_ok t -> table_ok t' -> seg_of t k = Some (id, MkSeg sl ld) -> 0 <= ld <= 63 ->
  seg_ok ld (prefix ld k) sl ->
  seg_ok (ld + 1) (2 * prefix ld k) a -> seg_ok (ld + 1) (2 * prefix ld k + 1) b ->
  used sl ≡ₚ lost ++ used a ++ used b -> (flat sl -> lost = []) ->
  depth (dir t') = Z.max (depth (dir t)) (ld + 1) ->
  (forall k', seg_of t' k' =
     if decide (prefix ld k' = prefix ld k) then
       Some (if goes_right ld k' then (S n, MkSeg b (ld + 1)) else (n, MkSeg a (ld + 1)))
     else seg_of t k') ->
  table_pairs t ≡ₚ lost ++ table_pairs t' ->
  splits t k (MkSeg sl ld) t'.
Proof.
  intros Ht Ht' Hk Hld Hok Ha Hb Hperm Hflat Hdep Hseg Hpairs.
  assert (forall k' v', prefix ld k' = prefix ld k ->
            holds t' k' v' <-> MkPair k' v' ∈ used (if goes_right ld k' then b else a)) as Hnew.
  { intros k' v' Hp. unfold holds. rewrite Hseg, decide_True by done. destruct (goes_right ld k').
    all: split; [by intros (? & ? & [= <- <-] & ?)|eauto]. }
  assert (forall k' v', prefix ld k' = prefix ld k -> holds t k' v' <-> MkPair k' v' ∈ used sl) as Hold.
  { intros k' v' Hp. apply (seg_of_share t k k' id _ Ht Hk) in Hp. unfold holds. rewrite Hp.
    split; [by intros (? & ? & [= <- <-] & ?)|eauto]. }
  assert (forall k' v', prefix ld k' <> prefix ld k -> holds t' k' v' <-> holds t k' v') as Hother.
  { intros k' v' Hp. unfold holds. by rewrite Hseg, decide_False by done. }
  split; [done| | |done|by exists lost|].
  - intros k' v'. destruct (decide (prefix ld k' = prefix ld k)) as [Hp|Hp]; [|by rewrite Hother].
    rewrite Hnew, Hold, Hperm, !elem_of_app by done. destruct (goes_right ld k'); auto.
  - intros Hlow k' v'. destruct (decide (prefix ld k' = prefix ld k)) as [Hp|Hp]; [|by rewrite Hother].
    rewrite Hnew, Hold, Hperm by done. rewrite Hflat; cbn [app].
    + by apply (halves_side ld (prefix ld k) a b (MkPair k' v')).
    + apply (seg_ok_flat ld (prefix ld k)); [done|]. apply Forall_forall. intros p Hin.
      apply (Hlow (pkey p) (pvalue p)). by apply (holds_in t k id _ p Ht Hk).
  - rewrite Hseg, decide_True by done.
    destruct (goes_right ld k); eexists _, _; (split; [done|]; split; [done|]);
      cbn [slots]; rewrite Hperm; apply submseteq_inserts_l.
    + by apply submseteq_inserts_l.
    + by apply submseteq_inserts_r.
Qed.

Lemma Insert_splits fuel junk t k v id s :
  table_ok t -> seg_of t k = Some (id, s) ->
  probe (window (line_of (hash k))) is_free (slots s) = Some None ->
  local_depth s <= 63 -> depth (dir t) - local_depth s < 31 ->
  exists t', Insert (S fuel) junk t k v = Insert fuel junk t' k v /\ splits t k s t'.
Proof.
  intros Ht Hk Hfull Hld Hst. rewrite (Insert_round _ _ _ _ _ _ _ Ht Hk), Hfull. cbn [mbind option_bind].
  pose proof (to_depth _ Ht) as Hd.
  destruct (seg_of_ok t k Ht) as (id' & s' & Hk2 & Hid & Hs & Hld' & Hok).
  rewrite Hk in Hk2. injection Hk2 as <- <-. destruct s as [sl ld]. cbn [slots local_depth] in *.
  destruct (Split_ok junk ld _ sl ltac:(lia) Hok) as (a & b & lost & -> & Ha & Hb & Hperm & Hflat).
  cbn [mbind option_bind].
  destruct (update_dir_ok (dir t) k ld (length (segments t)) (S (length (segments t))))
    as (d' & -> & Hdep & Hlen & He); [lia|lia|lia|apply Ht|].
  cbn [mbind option_bind]. eexists. split; [done|].
  pose proof (table_ok_split t k id (MkSeg sl ld) a b d' Ht Hk Hld Ha Hb Hdep Hlen He) as Hok'.
  pose proof (seg_of_split t k id (MkSeg sl ld) a b d' Ht Hk Hld Hdep Hlen He) as Hseg.
  cbn [local_depth] in *.
  apply (splits_intro t k id sl ld a b lost _ (length (segments t))); try done; [lia|].
  by apply (split_pairs t k id (MkSeg sl ld) a b d').
Qed.

Lemma update_dir_stride d kh x ld s0 s1 d' :
  1 <= ld <= depth d -> depth d <= 64 -> update_dir d kh x ld s0 s1 = Some d' -> depth d - ld < 31.
Proof.
  intros Hld Hd Hi. destruct (decide (depth d - ld < 31)) as [|Hgt]; [done|]. unfold update_dir in Hi.
  destruct (Z.eqb_spec ld (depth d)); [lia|]. rewrite shr64_Some in Hi by lia.
  cbn [mbind option_bind] in Hi. destruct (Z.eqb_spec (depth d) (ld + 1)); [lia|].
  destruct (Z.ltb_spec (2 ^ (depth d - ld)) (2 ^ 31)) as [Hlt|Hge]; [|done].
  apply Z.pow_lt_mono_r_iff in Hlt; lia.
Qed.

(** A round that splits has shifts within range. *)
Lemma Insert_needs fuel junk t k v id s r :
  table_ok t -> seg_of t k = Some (id, s) ->
  probe (window (line_of (hash k))) is_free (slots s) = Some None ->
  Insert (S fuel) junk t k v = Some r -> local_depth s <= 63 /\ depth (dir t) - local_depth s < 31.
Proof.
  intros Ht Hk Hfull. rewrite (Insert_round _ _ _ _ _ _ _ Ht Hk), Hfull. cbn [mbind option_bind].
  pose proof (to_depth _ Ht) as Hd.
  destruct (seg_of_ok t k Ht) as (id' & s' & Hk2 & _ & _ & Hld & _).
  rewrite Hk in Hk2. injection Hk2 as <- <-. intros Hi. split.
  - destruct (decide (local_depth s <= 63)) as [|Hgt]; [done|]. unfold Split, shl64 in Hi.
    destruct (Z.leb_spec 0 (64 - local_depth s - 1)); [lia|]. by cbn in Hi.
  - destruct (Split junk s) as [[s0 s1]|]; [|done]. cbn [mbind option_bind] in Hi.
    destruct (update_dir _ _ _ _ _ _) as [d'|] eqn:Hu; [|done]. by apply update_dir_stride in Hu; [|lia|lia].
Qed.

Lemma CCEH_Insert_inv fuel junk t k v t' r :
  table_ok t -> valid_key k -> Insert fuel junk t k v = Some (t', r) ->
  table_ok t' /\ r = INVALID
  /\ (forall k' v', holds t' k' v' -> holds t k' v' \/ (k' = k /\ v' = v))
  /\ holds t' k v
  /\ (low t -> forall k' v', holds t k' v' -> holds t' k' v').
Proof.
  intros Ht (_ & Hu & Hv). revert t Ht. induction fuel as [|fuel IH]; intros t Ht; [done|].
  destruct (seg_of_ok t k Ht) as (id & s & Hk & _ & _ & _ & Hok).
  destruct (probe_window (line_of (hash k)) is_free (slots s) (so_length _ _ _ Hok)) as [[loc|] Hr].
  - rewrite (Insert_round _ _ _ _ _ _ _ Ht Hk), Hr. cbn [mbind option_bind].
    intros Hi. injection Hi as <- <-.
    apply probe_found_lookup in Hr as (Hin & q & Hq & Hf). apply is_free_true in Hf.
    pose proof (fun k' v' => holds_put t id s loc q k v k' v' Ht Hk Hu Hq Hf) as Hh.
    split_and!; [by apply table_ok_put|done| | |].
    + intros k' v' Hhk. by apply Hh.
    + apply Hh. by right.
    + intros _ k' v' Hhk. apply Hh. by left.
  - intros Hi. destruct (Insert_needs _ _ _ _ _ _ _ _ Ht Hk Hr Hi) as [Hl Hst].
    destruct (Insert_splits fuel junk t k v id s Ht Hk Hr Hl Hst) as (t1 & Heq & [Ht1 Hs Hc _ _ _]).
    rewrite Heq in Hi. destruct (IH t1 Ht1 Hi) as (Ht' & -> & Hs' & Hkv & Hc').
    split_and!; [done|done| |done|].
    + intros k' v' Hhk. apply Hs' in Hhk as [Hhk|?]; [left|by right]. by apply Hs.
    + intros Hlow k' v' Hhk. apply Hc'; [|by apply Hc]. intros k2 v2 Hh2. by apply (Hlow k2 v2), Hs.
Qed.

Lemma Get_spec t k :
  table_ok t -> k <> INVALID ->
  exists r, Get t k = Some r /\ (holds t k r \/ r = NONE /\ forall v, ~ holds t k v).
Proof.
  intros Ht Hu. pose proof (to_depth _ Ht) as Hd.
  destruct (seg_of_ok t k Ht) as (id & s & Hk & Hid & Hs & _ & Hok).
  unfold Get. fold (hash k). rewrite shr64_Some by lia. fold (prefix (depth (dir t)) k).
  cbn [mbind option_bind]. rewrite Hid. cbn [mbind option_bind]. rewrite Hs. cbn [mbind option_bind].
  destruct (probe_window (line_of (hash k)) (has_key k) (slots s) (so_length _ _ _ Hok)) as [[loc|] Hr].
  - rewrite Hr. cbn [mbind option_bind]. apply probe_found_lookup in Hr as (_ & [pk pv] & Hp & Hkey).
    rewrite Hp. cbn [mbind option_bind pvalue]. exists pv. split; [done|left].
    apply has_key_true in Hkey. simpl in Hkey. subst pk. exists id, s. split; [done|].
    apply elem_of_used. split; [done|]. by apply (list_elem_of_lookup_2 _ loc).
  - rewrite Hr. cbn [mbind option_bind]. exists NONE. split; [done|right]. split; [done|].
    intros v (id' & s' & Hk' & Hin). rewrite Hk in Hk'. injection Hk' as <- <-.
    apply elem_of_used in Hin as [_ Hin]. apply list_elem_of_lookup in Hin as [i Hi].
    destruct (so_pair _ _ _ Hok i _ Hi Hu) as (_ & Hn & _).
    apply probe_exhausted in Hr. rewrite Forall_forall in Hr. destruct (Hr i Hn) as (p & Hp & Hf).
    rewrite Hi in Hp. injection Hp as <-. apply not_true_iff_false in Hf. apply Hf. by apply has_key_true.
Qed.

(** At most one value for each key. *)
Definition single (t : CCEH) : Prop := forall k v v', holds t k v -> holds t k v' -> v = v'.

(** C26: a key that is not in the table can be read back as soon as [Insert] has
    returned, and no other key changes, if no stored pair has a window that
    wraps around the end of its segment; however often the segments split and
    the directory doubles. *)
Theorem cceh_insert_get fuel junk t k v t' r k' :
  table_ok t -> low t -> single t -> valid_key k -> (forall v0, ~ holds t k v0) ->
  Insert fuel junk t k v = Some (t', r) -> k' <> INVALID ->
  table_ok t' /\ single t' /\ Get t' k' = if decide (k' = k) then Some v else Get t k'.
Proof.
  intros Ht Hlow Hsg Hk Hnew Hi Hk'.
  destruct (CCEH_Insert_inv _ _ _ _ _ _ _ Ht Hk Hi) as (Ht' & _ & Hs & Hkv & Hc). specialize (Hc Hlow).
  assert (single t') as Hsg'.
  { intros k1 v1 v2 [H1|[-> ->]]%Hs [H2|[He ->]]%Hs; subst; (by eauto || naive_solver). }
  split; [done|]. split; [done|].
  destruct (Get_spec t' k' Ht' Hk') as (r1 & -> & H1). destruct (Get_spec t k' Ht Hk') as (r2 & -> & H2).
  destruct (decide (k' = k)) as [->|Hne].
  - destruct H1 as [H1|[_ H1]]; [|by destruct (H1 v)]. f_equal. by apply (Hsg' k).
  - f_equal. destruct H1 as [H1|[-> H1]], H2 as [H2|[-> H2]]; [| | |done].
    + apply Hs in H1 as [H1|[? _]]; [|done]. by apply (Hsg k').
    + apply Hs in H1 as [H1|[? _]]; [|done]. by destruct (H2 r1).
    + by destruct (H1 r2); apply Hc.
Qed.

(** A new table: every segment is empty. *)
Lemma new_table_ok junk initCap :
  2048 <= initCap < 2 ^ 64 ->
  exists t, new_table junk initCap = Some t /\ table_ok t /\ forall k v, ~ holds t k v.
Proof.
  intros Hc. unfold new_table. change kNumSlot with 1024.
  assert (2 <= initCap / 1024) as Hn by (apply Z.div_le_lower_bound; lia).
  assert (initCap / 1024 < 2 ^ 64) as Hn' by (apply Z.div_lt_upper_bound; lia).
  destruct (Z.eqb_spec (initCap / 1024) 0); [lia|].
  set (d := Z.log2 (initCap / 1024)). assert (1 <= d < 64) as Hd.
  { split; [apply Z.log2_le_pow2; lia|apply Z.log2_lt_pow2; lia]. }
  set (cap := Z.to_nat (2 ^ d)). eexists. split; [done|].
  assert (table_ok (MkCCEH (MkDir (seq 0 cap) d) (replicate cap (new_Segment junk d)))) as Hok.
  { split; cbn [dir depth entries segments]; [lia|apply length_seq| |].
    - intros j id Hj [-> Hlt]%lookup_seq. exists (new_Segment junk d). rewrite lookup_replicate.
      split_and!; [done|lia|cbn; lia|cbn; lia|apply seg_ok_empty].
    - intros i j id s Hi Hj [-> Hlt]%lookup_seq [-> _]%lookup_replicate. cbn [new_Segment local_depth].
      rewrite Z.sub_diag, !Z.shiftr_0_r, lookup_seq. lia. }
  split; [done|]. intros k v (id & s & Hk & Hin).
  destruct (seg_of_ok _ k Hok) as (? & ? & Hk' & _ & Hs & _). rewrite Hk in Hk'. injection Hk' as <- <-.
  cbn [segments] in Hs. apply lookup_replicate in Hs as [-> _]. rewrite new_Segment_used in Hin.
  by apply not_elem_of_nil in Hin.
Qed.

(** ** What the key-value store sees *)

Lemma put_pairs t id s loc q k v :
  table_ok t -> seg_of t k = Some (id, s) -> k <> INVALID -> slots s !! loc = Some q -> pkey q = INVALID ->
  table_pairs (put t id s loc (MkPair k v)) ≡ₚ MkPair k v :: table_pairs t.
Proof.
  intros Ht Hk Hu Hq Hi. pose proof (to_depth _ Ht).
  destruct (seg_of_ok t k Ht) as (? & ? & Hk' & Hid & Hs & _). rewrite Hk in Hk'. injection Hk' as <- <-.
  pose proof (prefix_bound (depth (dir t)) k ltac:(lia)) as Hpb.
  destruct (ids_remove t id) as (rest & Hids & Hnin & _).
  { apply elem_of_ids. exists (prefix (depth (dir t)) k). split; [lia|done]. }
  pose proof Hids as Hids'. change (ids t) with (ids (put t id s loc (MkPair k v))) in Hids'.
  rewrite (table_pairs_perm _ _ Hids), (table_pairs_perm _ _ Hids'), !fmap_cons, !concat_cons.
  rewrite (pairs_at_ext (put t id s loc (MkPair k v)) t rest).
  - unfold pairs_at at 1 3. cbn [put segments]. rewrite Hs, list_lookup_insert_eq by (by eapply lookup_lt_Some).
    cbn [slots]. by rewrite (used_insert _ _ q).
  - intros x Hx. cbn [put segments]. by rewrite list_lookup_insert_ne by (by intros ->).
Qed.

(** An insertion adds its pair; a split on the way may lose others. *)
Lemma Insert_pairs fuel junk t k v t' r :
  table_ok t -> valid_key k -> Insert fuel junk t k v = Some (t', r) ->
  exists lost, MkPair k v :: table_pairs t ≡ₚ lost ++ table_pairs t'.
Proof.
  intros Ht (_ & Hu & Hv). revert t Ht. induction fuel as [|fuel IH]; intros t Ht; [done|].
  destruct (seg_of_ok t k Ht) as (id & s & Hk & _ & _ & _ & Hok).
  destruct (probe_window (line_of (hash k)) is_free (slots s) (so_length _ _ _ Hok)) as [[loc|] Hr].
  - rewrite (Insert_round _ _ _ _ _ _ _ Ht Hk), Hr. cbn [mbind option_bind].
    intros Hi. injection Hi as <- _. apply probe_found_lookup in Hr as (_ & q & Hq & Hf).
    apply is_free_true in Hf. exists []. by rewrite (put_pairs t id s loc q).
  - intros Hi. destruct (Insert_needs _ _ _ _ _ _ _ _ Ht Hk Hr Hi) as [Hl Hst].
    destruct (Insert_splits fuel junk t k v id s Ht Hk Hr Hl Hst) as (t1 & Heq & [Ht1 _ _ _ [lost1 Hp1] _]).
    rewrite Heq in Hi. destruct (IH t1 Ht1 Hi) as (lost2 & Hp2). exists (lost1 ++ lost2).
    by rewrite Hp1, Permutation_middle, Hp2, app_assoc.
Qed.

Lemma holds_pairs t k v : table_ok t -> holds t k v -> MkPair k v ∈ table_pairs t.
Proof.
  intros Ht (id & s & Hk & Hin). pose proof (to_depth _ Ht).
  destruct (seg_of_ok t k Ht) as (? & ? & Hk' & Hid & Hs & _). rewrite Hk in Hk'. injection Hk' as <- <-.
  pose proof (prefix_bound (depth (dir t)) k ltac:(lia)) as Hpb.
  unfold table_pairs. apply list_elem_of_In, in_concat. exists (pairs_at t id).
  rewrite <- !list_elem_of_In. split.
  - apply list_elem_of_fmap_2, elem_of_ids. exists (prefix (depth (dir t)) k). split; [lia|done].
  - unfold pairs_at. by rewrite Hs.
Qed.

Definition CCEH_IHash (rounds : nat) (junk : nat -> Value_t) : IHash CCEH := {|
  ih_Insert := Insert rounds junk;
  ih_Insert_extent t key cluster_num len v :=
    Insert_extent (S (Z.to_nat len)) rounds junk t key cluster_num len v;
  ih_Delete := Delete;
  ih_Get := Get;
  ih_Get_extent := Get_extent;
  ih_FindAnyway := FindAnyway;
  ih_Capacity := Capacity;
  ih_Recovery := Recovery;
|}.

Definition stored_keys (t : CCEH) : gmultiset Z := list_to_set_disj (pkey <$> table_pairs t).

Lemma CCEH_Insert_keys rounds junk t k v t' d :
  table_ok t -> valid_key k -> Insert rounds junk t k v = Some (t', d) ->
  table_ok t' /\ stored_keys t' ⊎ displaced d ⊆ stored_keys t ⊎ {[+ k +]}.
Proof.
  intros Ht Hk Hi. destruct (CCEH_Insert_inv _ _ _ _ _ _ _ Ht Hk Hi) as (Ht' & -> & _).
  destruct (Insert_pairs _ _ _ _ _ _ _ Ht Hk Hi) as (lost & Hp). split; [done|].
  apply (fmap_Permutation pkey) in Hp. rewrite fmap_app in Hp. cbn [fmap list_fmap pkey] in Hp.
  assert (stored_keys t ⊎ {[+ k +]} = list_to_set_disj (pkey <$> lost) ⊎ stored_keys t') as ->.
  { unfold stored_keys. rewrite <- list_to_set_disj_app, <- Hp, list_to_set_disj_cons. multiset_solver. }
  rewrite displaced_INVALID. multiset_solver.
Qed.

Lemma CCEH_Get_stored t k v :
  table_ok t -> valid_key k -> Get t k = Some v -> v <> NONE -> k ∈ stored_keys t.
Proof.
  intros Ht (_ & Hk & _) Hg Hv. destruct (Get_spec t k Ht Hk) as (r & Hr & [Hh|[-> _]]); [|congruence].
  apply elem_of_list_to_set_disj. apply holds_pairs in Hh; [|done].
  by apply (list_elem_of_fmap_2 pkey) in Hh.
Qed.

#[refine] Definition CCEH_spec (rounds : nat) (junk : nat -> Value_t)
  : @IHashSpec CCEH (CCEH_IHash rounds junk) := {|
  ih_wf := table_ok;
  ih_stored := stored_keys;
|}.
Proof.
  - exact (CCEH_Insert_keys rounds junk).
  - exact CCEH_Get_stored.
Defined.

#[refine] Definition CCEH_pairs (rounds : nat) (junk : nat -> Value_t)
  : @IHashPairs CCEH (CCEH_IHash rounds junk) := {|
  ihp_wf := table_ok;
  ihp_holds := holds;
|}.
Proof.
  - intros t k v t' d Ht Hk Hi. destruct (CCEH_Insert_inv _ _ _ _ _ _ _ Ht Hk Hi) as (Ht' & _ & Hs & _). done.
  - intros t k v Ht (_ & Hk & _) Hg Hv. destruct (Get_spec t k Ht Hk) as (r & Hr & [Hh|[-> _]]).
    + change (Get t k = Some v) in Hg. by assert (r = v) as <- by congruence.
    + change (Get t k = Some v) in Hg. congruence.
Defined.

(** ** Termination *)

Lemma window_NoDup loc : NoDup (window loc).
Proof.
  apply NoDup_alt. intros i j x Hi Hj.
  assert (length (window loc) = 32%nat) as Hl by (unfold window; by rewrite length_fmap, length_seq).
  pose proof (lookup_lt_Some _ _ _ Hi). pose proof (lookup_lt_Some _ _ _ Hj).
  rewrite window_lookup in Hi, Hj by lia. rewrite <- Hj in Hi. injection Hi as Hi.
  pose proof (Z.mod_pos_bound (loc + Z.of_nat i) 1024 ltac:(lia)).
  pose proof (Z.mod_pos_bound (loc + Z.of_nat j) 1024 ltac:(lia)).
  pose proof (Z.div_mod (loc + Z.of_nat i) 1024 ltac:(lia)).
  pose proof (Z.div_mod (loc + Z.of_nat j) 1024 ltac:(lia)). lia.
Qed.

Lemma full_window loc s :
  probe (window loc) is_free s = Some None -> (32 <= length (used s))%nat.
Proof.
  intros Hr%probe_exhausted.
  assert (length (window loc) = 32%nat) as <- by (unfold window; by rewrite length_fmap, length_seq).
  apply filter_positions; [apply window_NoDup|]. eapply Forall_impl; [exact Hr|].
  intros i (p & Hp & Hf). exists p. split; [done|]. by apply is_free_false in Hf.
Qed.

(** The pairs of the segment of [k] that share its first [P] bits. *)
Definition crowd (t : CCEH) (P : Z) (k : Key_t) : nat :=
  match seg_of t k with
  | Some (_, s) => length (filter (fun p => prefix P (pkey p) = prefix P k) (used (slots s)))
  | None => 0
  end.

Lemma Insert_returns fuel junk t k v id s P :
  table_ok t -> seg_of t k = Some (id, s) -> 1 <= P <= 31 -> depth (dir t) <= 31 ->
  (crowd t P k < 32)%nat -> (0 < fuel)%nat -> P - local_depth s < Z.of_nat fuel ->
  exists t', Insert fuel junk t k v = Some (t', INVALID).
Proof.
  intros Ht Hk HP. revert t id s Ht Hk. induction fuel as [|fuel IH]; intros t id s Ht Hk Hdep Hc Hf Hfuel; [lia|].
  destruct (seg_of_ok t k Ht) as (id' & s' & Hk2 & _ & _ & Hld & Hok).
  rewrite Hk in Hk2. injection Hk2 as <- <-.
  destruct (probe_window (line_of (hash k)) is_free (slots s) (so_length _ _ _ Hok)) as [[loc|] Hr].
  { rewrite (Insert_round _ _ _ _ _ _ _ Ht Hk), Hr. cbn [mbind option_bind]. eauto. }
  assert (local_depth s < P) as Hlt.
  { apply Znot_ge_lt. intros Hge. apply full_window in Hr. unfold crowd in Hc. rewrite Hk in Hc.
    rewrite filter_all in Hc; [lia|]. apply Forall_forall. intros p Hp.
    pose proof (to_depth _ Ht). rewrite <- !(prefix_prefix (local_depth s) P) by lia. f_equal.
    by apply (seg_ok_used _ _ _ _ Hok). }
  destruct (Insert_splits fuel junk t k v id s Ht Hk Hr) as (t1 & -> & [Ht1 _ _ Hd1 _ (id1 & s1 & Hk1 & Hl1 & Hu1)]);
    [lia|lia|].
  apply (IH t1 id1 s1 Ht1 Hk1); [lia| |lia|lia].
  unfold crowd in Hc |- *. rewrite Hk1. rewrite Hk in Hc.
  pose proof (filter_submseteq_length (fun p => prefix P (pkey p) = prefix P k) _ _ Hu1). lia.
Qed.

(** C28: [Insert] returns within [P] rounds of splitting when fewer than 32 pairs of
    the key's segment share the first [P] bits of its hash. *)
Theorem cceh_insert_total junk t k v P :
  table_ok t -> depth (dir t) <= 31 -> 1 <= P <= 31 -> (crowd t P k < 32)%nat ->
  exists t', Insert (Z.to_nat P) junk t k v = Some (t', INVALID).
Proof.
  intros Ht Hd HP Hc. destruct (seg_of_ok t k Ht) as (id & s & Hk & _ & _ & Hld & _).
  apply (Insert_returns _ _ _ _ _ id s P); try done; lia.
Qed.

(** ** Recovery *)

(** The number of entries of a segment. *)
Definition stride_of (t : CCEH) (s : Segment) : nat := Z.to_nat (2 ^ (depth (dir t) - local_depth s)).

Lemma stride_pos t s : local_depth s <= depth (dir t) -> (0 < stride_of t s)%nat.
Proof. intros Hl. unfold stride_of. pose proof (Z.pow_pos_nonneg 2 (depth (dir t) - local_depth s)). lia. Qed.

Lemma entries_share t (i j : nat) id s :
  table_ok t -> entries (dir t) !! i = Some id -> segments t !! id = Some s ->
  (entries (dir t) !! j = Some id <-> (j / stride_of t s)%nat = (i / stride_of t s)%nat).
Proof.
  intros Ht Hi Hs.
  destruct (to_seg _ Ht (Z.of_nat i) id ltac:(lia)) as (s' & Hs' & Hld & _); [by rewrite Nat2Z.id|].
  rewrite Hs in Hs'. injection Hs' as <-.
  pose proof (to_share _ Ht (Z.of_nat i) (Z.of_nat j) id s ltac:(lia) ltac:(lia)) as Hsh.
  rewrite !Nat2Z.id in Hsh. rewrite Hsh by done. rewrite !Z.shiftr_div_pow2 by lia.
  pose proof (stride_pos t s ltac:(lia)).
  assert (2 ^ (depth (dir t) - local_depth s) = Z.of_nat (stride_of t s)) as -> by (unfold stride_of in *; lia).
  rewrite <- !Nat2Z.inj_div. lia.
Qed.

(** A directory that was left half written: the entries that differ from those
    of [t] lead to segments of another depth, and neither begin a range nor lie
    in the last one. *)
Definition torn (t : CCEH) (e : list nat) : Prop :=
  length e = length (entries (dir t)) /\
  forall j id s, entries (dir t) !! j = Some id -> segments t !! id = Some s ->
    e !! j = Some id \/
    ((j mod stride_of t s)%nat <> 0%nat
     /\ (j - j mod stride_of t s + stride_of t s <> length e)%nat
     /\ exists id' s', e !! j = Some id' /\ segments t !! id' = Some s' /\ local_depth s' <> local_depth s).

Lemma recover_block segs (es : list nat) i cur idi js e :
  NoDup js -> i ∉ js -> e !! i = Some idi ->
  (forall j, j ∈ js -> exists id s, e !! j = Some id /\ segs !! id = Some s
     /\ es !! j = Some (if decide (local_depth s = cur) then id else idi)) ->
  exists e', foldM (recover_step segs i cur) js e = Some e' /\ length e' = length e
    /\ forall j, e' !! j = if decide (j ∈ js) then es !! j else e !! j.
Proof.
  revert e. induction js as [|j js IH]; intros e Hnd Hi Hei Hjs; cbn [foldM].
  { exists e. split_and!; try done. }
  apply NoDup_cons in Hnd as [Hj Hnd]. apply not_elem_of_cons in Hi as [Hne Hi].
  destruct (Hjs j) as (id & s & Hej & Hs & Hes); [by apply list_elem_of_here|].
  pose proof (lookup_lt_Some _ _ _ Hej).
  assert (recover_step segs i cur e j = Some (<[j := if decide (local_depth s = cur) then id else idi]> e)) as ->.
  { unfold recover_step. rewrite Hej. cbn [mbind option_bind]. rewrite Hs. cbn [mbind option_bind].
    destruct (Z.eqb_spec (local_depth s) cur) as [Heq|Hneq].
    - rewrite decide_True by done. by rewrite list_insert_id.
    - rewrite decide_False, Hei by done. cbn [mbind option_bind]. by rewrite store_Some. }
  cbn [mbind option_bind].
  destruct (IH (<[j := if decide (local_depth s = cur) then id else idi]> e)) as (e' & -> & Hl & He'); try done.
  - by rewrite list_lookup_insert_ne.
  - intros j' Hj'. rewrite list_lookup_insert_ne by (by intros ->). apply Hjs. by apply list_elem_of_further.
  - exists e'. split_and!; [done|by rewrite Hl, length_insert|]. intros j'. rewrite He'.
    destruct (decide (j' = j)) as [->|Hj'].
    + rewrite (decide_False (P := j ∈ js)) by done. rewrite list_lookup_insert_eq by done.
      by rewrite (decide_True (P := j ∈ j :: js)) by apply list_elem_of_here.
    + rewrite list_lookup_insert_ne by done.
      destruct (decide (j' ∈ js)) as [Hin|Hout], (decide (j' ∈ j :: js)) as [Hin'|Hout']; try done; set_solver.
Qed.

(** The ranges of consecutive segments follow one another. *)
Lemma next_range t i id s :
  table_ok t -> entries (dir t) !! i = Some id -> segments t !! id = Some s ->
  (i mod stride_of t s = 0)%nat -> (0 < stride_of t s)%nat ->
  (forall j, (i <= j < i + stride_of t s)%nat -> entries (dir t) !! j = Some id)
  /\ (forall id' s', entries (dir t) !! (i + stride_of t s)%nat = Some id' -> segments t !! id' = Some s' ->
       (i + stride_of t s) mod stride_of t s' = 0)%nat.
Proof.
  intros Ht Hi Hs Hmod Hst. set (st := stride_of t s) in *.
  pose proof (Nat.div_mod i st ltac:(lia)) as Hdm.
  assert (forall j, (i <= j < i + st)%nat -> entries (dir t) !! j = Some id) as Hin.
  { intros j Hj. apply (entries_share t i j id s Ht Hi Hs). fold st. symmetry.
    apply (Nat.div_unique j st (i / st) (j - i)); lia. }
  split; [done|]. intros id' s' Hi' Hs'.
  destruct (decide (((i + st) mod stride_of t s' = 0)%nat)) as [|Hne]; [done|exfalso].
  assert (0 < stride_of t s')%nat as Hst'.
  { destruct (decide (stride_of t s' = 0)%nat) as [Hz|]; [|lia]. unfold stride_of in Hz.
    destruct (to_seg _ Ht (Z.of_nat (i + st)) id' ltac:(lia)) as (s2 & Hs2 & Hl & _); [by rewrite Nat2Z.id|].
    rewrite Hs' in Hs2. injection Hs2 as <-. pose proof (stride_pos t s' ltac:(lia)).
    unfold stride_of in *. lia. }
  assert (entries (dir t) !! (i + st - 1)%nat = Some id') as Hprev.
  { apply (entries_share t (i + st) (i + st - 1) id' s' Ht Hi' Hs').
    pose proof (Nat.div_mod (i + st) (stride_of t s') ltac:(lia)).
    pose proof (Nat.mod_upper_bound (i + st) (stride_of t s') ltac:(lia)).
    symmetry. apply (Nat.div_unique _ _ _ ((i + st) mod stride_of t s' - 1)); lia. }
  rewrite Hin in Hprev by lia. injection Hprev as <-. rewrite Hs in Hs'. injection Hs' as <-.
  apply Hne. fold st. replace (i + st)%nat with (i + 1 * st)%nat by lia. by rewrite Nat.Div0.mod_add.
Qed.

Lemma range_start i j st :
  (0 < st)%nat -> (i mod st = 0)%nat -> (i <= j < i + st)%nat -> (j - j mod st = i)%nat.
Proof.
  intros Hst Hi Hj. pose proof (Nat.div_mod i st ltac:(lia)).
  rewrite <- (Nat.mod_unique j st (i / st) (j - i)); lia.
Qed.

(** One range is repaired. *)
Lemma recover_range t e i id s :
  torn t e -> segments t !! id = Some s -> e !! i = Some id ->
  (forall j, (i <= j < i + stride_of t s)%nat -> entries (dir t) !! j = Some id) ->
  exists e', foldM (recover_step (segments t) i (local_depth s))
               (rev (seq (S i) (i + stride_of t s - 1 - i))) e = Some e'
    /\ torn t e' /\ length e' = length e
    /\ (forall j, (j < i)%nat -> e' !! j = e !! j)
    /\ (forall j, (i <= j < i + stride_of t s)%nat -> e' !! j = entries (dir t) !! j).
Proof.
  intros [Hlen Htorn] Hs Hei Hin. set (st := stride_of t s) in *.
  assert (forall j, j ∈ rev (seq (S i) (i + st - 1 - i)) <-> (i < j < i + st)%nat) as Hjs.
  { intros j. rewrite <- Permutation_rev, elem_of_seq. lia. }
  destruct (recover_block (segments t) (entries (dir t)) i (local_depth s) id
              (rev (seq (S i) (i + st - 1 - i))) e) as (e' & Hrun & Hl & He').
  - rewrite <- Permutation_rev. apply NoDup_seq.
  - rewrite Hjs. lia.
  - done.
  - intros j Hj%Hjs. destruct (Htorn j id s) as [Hej|(_ & _ & id' & s' & Hej & Hs' & Hne)]; [apply Hin; lia|done| |].
    + exists id, s. rewrite decide_True by done. split_and!; [done|done|apply Hin; lia].
    + exists id', s'. rewrite decide_False by done. split_and!; [done|done|apply Hin; lia].
  - exists e'. split_and!; [done| |done| |].
    + split; [congruence|]. intros j id' s' Hj Hs'. rewrite He'. destruct (decide _) as [_|_]; [by left|].
      rewrite Hl. by apply Htorn.
    + intros j Hj. rewrite He', decide_False; [done|]. rewrite Hjs. lia.
    + intros j Hj. rewrite He'. destruct (decide _) as [_|Hn]; [done|]. rewrite Hjs in Hn.
      assert (j = i) as -> by lia. rewrite Hei. symmetry. apply Hin. lia.
Qed.

Lemma recover_loop_ok fuel t e i :
  table_ok t -> torn t e -> (length (entries (dir t)) - i < fuel)%nat ->
  (forall id s, entries (dir t) !! i = Some id -> segments t !! id = Some s ->
     (i mod stride_of t s = 0)%nat) ->
  (forall j, (j < i)%nat -> e !! j = entries (dir t) !! j) ->
  recover_loop fuel (segments t) (depth (dir t)) e i = Some (entries (dir t)).
Proof.
  intros Ht. revert e i. induction fuel as [|fuel IH]; intros e i [Hlen Htorn] Hfuel Hstart Hpre; [lia|].
  cbn [recover_loop]. destruct (Nat.leb_spec (length e) i) as [Hge|Hlt].
  { f_equal. apply list_eq_same_length with (length e); [done|done|]. intros j x y Hj Hx Hy.
    rewrite Hpre in Hx by lia. congruence. }
  destruct (lookup_lt_is_Some_2 (entries (dir t)) i) as [id Hid]; [lia|].
  destruct (to_seg _ Ht (Z.of_nat i) id ltac:(lia)) as (s & Hs & Hld & _); [by rewrite Nat2Z.id|].
  pose proof (Hstart id s Hid Hs) as Hmod. pose proof (stride_pos t s ltac:(lia)) as Hst.
  destruct (next_range t i id s Ht Hid Hs Hmod Hst) as [Hin Hnext].
  destruct (Htorn i id s Hid Hs) as [Hei|(? & _)]; [|done].
  rewrite Hei. cbn [mbind option_bind]. rewrite Hs. cbn [mbind option_bind]. fold (stride_of t s).
  set (st := stride_of t s) in *.
  destruct (Nat.eqb_spec (i + st) (length e)) as [Hlast|Hmore].
  - f_equal. apply list_eq_same_length with (length e); [done|done|]. intros j x y Hj Hx Hy.
    destruct (decide (j < i)%nat) as [Hji|Hji]; [rewrite Hpre in Hx by lia; congruence|].
    destruct (Htorn j id s) as [Hej|(_ & Hnl & _)]; [apply Hin; lia|done| |].
    + rewrite Hin in Hy by lia. congruence.
    + exfalso. apply Hnl. fold st.
      rewrite (range_start i) by (done || lia). done.
  - destruct (recover_range t e i id s) as (e' & Hrun & Htorn' & Hl & Hlow & Hblock);
      [done|done|done|done|].
    fold st in Hrun. rewrite Hrun. cbn [mbind option_bind]. apply IH; [done|lia|done|].
    intros j Hj. destruct (decide (j < i)%nat); [by rewrite Hlow, Hpre by lia|]. apply Hblock. fold st. lia.
Qed.

(** [Recovery] brings a half-written directory back. *)
Lemma Recovery_torn t e :
  table_ok t -> torn t e ->
  Recovery (MkCCEH (MkDir e (depth (dir t))) (segments t)) = Some (t, false).
Proof.
  intros Ht Htorn. unfold Recovery. cbn [dir entries depth segments].
  rewrite (recover_loop_ok _ t e 0 Ht Htorn).
  - destruct t as [[es dep] segs]. done.
  - destruct Htorn as [-> _]. lia.
  - intros id s _ _. apply Nat.Div0.mod_0_l.
  - intros j Hj. lia.
Qed.


Lemma table_ok_more t l : table_ok t -> table_ok (MkCCEH (dir t) (segments t ++ l)).
Proof.
  intros Ht. split; cbn [dir segments]; [apply Ht|apply Ht| |].
  - intros j id Hj Hid. destruct (to_seg _ Ht j id Hj Hid) as (s & Hs & ?).
    exists s. split; [by apply lookup_app_l_Some|done].
  - intros i j id s Hi Hj Hid Hs. destruct (to_seg _ Ht i id Hi Hid) as (s' & Hs' & _).
    rewrite (lookup_app_l_Some _ _ _ _ Hs') in Hs. injection Hs as <-. by apply (to_share _ Ht).
Qed.

(** The range of a segment, in slots of the directory. *)
Lemma seg_range t k id s :
  table_ok t -> seg_of t k = Some (id, s) -> local_depth s < depth (dir t) ->
  let loc := range_loc (depth (dir t)) (local_depth s) (prefix (local_depth s) k) in
  stride_of t s = (2 * range_half (depth (dir t)) (local_depth s))%nat
  /\ (0 < range_half (depth (dir t)) (local_depth s))%nat
  /\ (loc mod stride_of t s = 0)%nat
  /\ (loc + stride_of t s <= length (entries (dir t)))%nat
  /\ forall j, entries (dir t) !! j = Some id <-> (loc <= j < loc + stride_of t s)%nat.
Proof.
  intros Ht Hk Hlt loc. pose proof (to_depth _ Ht) as Hd.
  destruct (seg_of_ok t k Ht) as (id' & s' & Hk2 & Hid & Hs & Hld & _).
  rewrite Hk in Hk2. injection Hk2 as <- <-.
  set (dep := depth (dir t)) in *. set (ld := local_depth s) in *.
  destruct (range_bound dep ld (prefix ld k)) as [Hh Hb]; [lia|apply prefix_bound; lia|].
  assert (stride_of t s = 2 * range_half dep ld)%nat as Hst.
  { unfold stride_of, range_half in *. fold dep ld.
    replace (dep - ld) with (Z.succ (dep - ld - 1)) at 1 by lia. rewrite Z.pow_succ_r by lia. lia. }
  assert (loc = stride_of t s * Z.to_nat (prefix ld k))%nat as Hloc.
  { rewrite Hst. unfold loc, range_loc, range_half.
    pose proof (prefix_bound ld k ltac:(lia)). pose proof (Z.pow_pos_nonneg 2 (dep - ld - 1)). lia. }
  split_and!; [done|done| | |].
  - rewrite Hloc, Nat.mul_comm. apply Nat.Div0.mod_mul.
  - rewrite (to_length _ Ht), Hst. fold dep. unfold loc. lia.
  - intros j. rewrite (entries_share t _ j id s Ht Hid Hs).
    assert (Z.to_nat (prefix dep k) / stride_of t s = Z.to_nat (prefix ld k))%nat as ->.
    { rewrite <- (prefix_prefix dep ld k), Z.shiftr_div_pow2 by lia.
      unfold stride_of. fold dep ld. rewrite Z2Nat.inj_div; [done|apply prefix_bound; lia|]. apply Z.pow_nonneg. lia. }
    pose proof (Nat.div_mod j (stride_of t s) ltac:(lia)).
    pose proof (Nat.mod_upper_bound j (stride_of t s) ltac:(lia)). split; [intros Hq; rewrite Hq in *; lia|].
    intros Hj. symmetry. apply (Nat.div_unique j _ _ (j - loc)); lia.
Qed.

(** A crash while the second half of a range is being written. *)
Lemma torn_old t k id s sa sb m e :
  table_ok t -> seg_of t k = Some (id, s) -> local_depth s < depth (dir t) ->
  local_depth sb = local_depth s + 1 ->
  let half := range_half (depth (dir t)) (local_depth s) in
  let loc := range_loc (depth (dir t)) (local_depth s) (prefix (local_depth s) k) in
  (m <= half)%nat -> (loc + 2 * half <> length (entries (dir t)))%nat ->
  set_range (entries (dir t)) (loc + half) m (S (length (segments t))) = Some e ->
  torn (MkCCEH (dir t) (segments t ++ [sa; sb])) e.
Proof.
  intros Ht Hk Hlt Hsb half loc Hm Hnl Hset.
  destruct (seg_range t k id s Ht Hk Hlt) as (Hst & Hh & Hmod & Hle & Hin).
  fold half loc in Hst, Hh, Hmod, Hle, Hin.
  destruct (set_range_lookup (entries (dir t)) (loc + half) m (S (length (segments t)))) as (e' & He' & Hl & He).
  { lia. }
  rewrite Hset in He'. injection He' as <-. split; [done|]. cbn [dir segments].
  intros j id1 s1 Hj Hs1. rewrite He. destruct (decide _) as [Hr|Hr]; [right|by left].
  assert (id1 = id) as -> by (rewrite (proj2 (Hin j)) in Hj; [congruence|lia]).
  destruct (seg_of_ok t k Ht) as (? & ? & Hk2 & _ & Hs & _). rewrite Hk in Hk2. injection Hk2 as <- <-.
  rewrite (lookup_app_l_Some _ _ _ _ Hs) in Hs1. injection Hs1 as <-.
  change (stride_of (MkCCEH (dir t) _) s) with (stride_of t s).
  pose proof (range_start loc j (stride_of t s) ltac:(lia) Hmod ltac:(lia)) as Hstart.
  split_and!; [lia|lia|]. exists (S (length (segments t))), sb. split_and!; [done| |lia].
  rewrite lookup_app_r by lia. by replace (S _ - _)%nat with 1%nat by lia.
Qed.

(** A crash while the first half is being written. *)
Lemma torn_new t k id s sa sb d' m e1 e :
  table_ok t -> seg_of t k = Some (id, s) -> local_depth s < depth (dir t) ->
  local_depth sa = local_depth s + 1 ->
  let half := range_half (depth (dir t)) (local_depth s) in
  let loc := range_loc (depth (dir t)) (local_depth s) (prefix (local_depth s) k) in
  let n := length (segments t) in
  depth d' = depth (dir t) -> length (entries d') = length (entries (dir t)) ->
  (forall j, 0 <= j -> entries d' !! Z.to_nat j =
     split_entry (entries (dir t)) (depth (dir t)) (depth (dir t)) (local_depth s)
       (prefix (local_depth s) k) n (S n) j) ->
  (1 <= m <= half)%nat ->
  set_range (entries (dir t)) (loc + half) half (S n) = Some e1 -> set_range e1 loc m n = Some e ->
  torn (MkCCEH d' (segments t ++ [sa; sb])) e.
Proof.
  intros Ht Hk Hlt Hsa half loc n Hd Hlen Hnew Hm Hset1 Hset2. pose proof (to_depth _ Ht).
  destruct (seg_range t k id s Ht Hk Hlt) as (Hst & Hh & Hmod & Hle & Hin).
  fold half loc in Hst, Hh, Hmod, Hle, Hin.
  destruct (seg_of_ok t k Ht) as (? & ? & Hk2 & _ & Hs & Hld & _). rewrite Hk in Hk2. injection Hk2 as <- <-.
  destruct (set_range_lookup (entries (dir t)) (loc + half) half (S n)) as (e1' & He1' & Hl1 & He1); [lia|].
  rewrite Hset1 in He1'. injection He1' as <-.
  destruct (set_range_lookup e1 loc m n) as (e' & He' & Hl & He); [lia|].
  rewrite Hset2 in He'. injection He' as <-. split; [cbn [dir]; lia|]. cbn [dir segments].
  intros j id1 s1 Hj Hs1. specialize (Hnew (Z.of_nat j) ltac:(lia)).
  rewrite split_entry_ranges, Nat2Z.id in Hnew by (lia || apply prefix_bound; lia).
  cbv zeta in Hnew. fold half loc in Hnew. rewrite Hj in Hnew. rewrite He, He1.
  destruct (decide (loc <= j < loc + m)%nat) as [|Hout]; [left; by rewrite decide_True in Hnew by lia|].
  destruct (decide (loc <= j < loc + half)%nat) as [Hr|Hr]; [right|by left].
  injection Hnew as ->. rewrite decide_False by lia. rewrite lookup_app_r, Nat.sub_diag in Hs1 by lia.
  injection Hs1 as <-.
  assert (stride_of (MkCCEH d' (segments t ++ [sa; sb])) sa = half) as Hst'.
  { unfold stride_of, half, range_half. cbn [dir]. rewrite Hd, Hsa. do 2 f_equal. lia. }
  rewrite Hst'.
  assert (loc mod half = 0)%nat as Hmod'.
  { apply Nat.Div0.mod_divides in Hmod as [c Hc]. rewrite Hc, Hst. apply Nat.Div0.mod_divides. exists (2 * c)%nat. lia. }
  pose proof (range_start loc j half ltac:(lia) Hmod' ltac:(lia)).
  split_and!; [lia|lia|]. exists id, s. split_and!; [apply Hin; lia|by apply lookup_app_l_Some|lia].
Qed.

(** The directories a crash can leave between two writes of an update of the
    range at [loc]; the flag says whether the first half was begun. *)
Inductive interrupted (es : list nat) (loc half s0 s1 : nat) : list nat -> bool -> Prop :=
| interrupted_second m e :
    (m <= half)%nat -> set_range es (loc + half) m s1 = Some e ->
    interrupted es loc half s0 s1 e false
| interrupted_first m e1 e :
    (1 <= m <= half)%nat -> set_range es (loc + half) half s1 = Some e1 -> set_range e1 loc m s0 = Some e ->
    interrupted es loc half s0 s1 e true.

(** C27: [Recovery] completes or undoes an update of the directory that was
    interrupted between two of its writes: the new directory is completed if the
    first half of the range was begun, and the old one is restored otherwise.
    The last range of the directory is excluded in the second case: [Recovery]
    stops where it begins. *)
Theorem cceh_recovery_interrupted t k id s junk sa sb d' e begun :
  table_ok t -> seg_of t k = Some (id, s) -> local_depth s < depth (dir t) ->
  let half := range_half (depth (dir t)) (local_depth s) in
  let loc := range_loc (depth (dir t)) (local_depth s) (prefix (local_depth s) k) in
  let n := length (segments t) in
  let segs := segments t ++ [sa; sb] in
  Split junk s = Some (sa, sb) ->
  update_dir (dir t) (hash k) (prefix (depth (dir t)) k) (local_depth s) n (S n) = Some d' ->
  interrupted (entries (dir t)) loc half n (S n) e begun ->
  (begun = false -> (loc + 2 * half <> length (entries (dir t)))%nat) ->
  Recovery (MkCCEH (MkDir e (depth (dir t))) segs)
  = Some (MkCCEH (if begun then d' else dir t) segs, false).
Proof.
  intros Ht Hk Hlt half loc n segs Hsplit Hupd Hint Hlast. pose proof (to_depth _ Ht) as Hd.
  destruct (seg_of_ok t k Ht) as (? & ? & Hk2 & _ & Hs & Hld & Hok). rewrite Hk in Hk2. injection Hk2 as <- <-.
  destruct s as [sl ld]. cbn [slots local_depth] in *.
  destruct (Split_ok junk ld _ sl ltac:(lia) Hok) as (a & b & lost & Hsplit' & Ha & Hb & _).
  rewrite Hsplit in Hsplit'. injection Hsplit' as -> ->.
  destruct Hint as [m e Hm Hset|m e1 e Hm Hset1 Hset2].
  - apply (Recovery_torn (MkCCEH (dir t) segs) e); [by apply table_ok_more|].
    by apply (torn_old t k id (MkSeg sl ld) _ _ m); [..|apply Hlast|].
  - assert (depth (dir t) - ld < 31) as Hst.
    { apply (update_dir_stride (dir t) (hash k) (prefix (depth (dir t)) k) ld n (S n) d'); (done || lia). }
    destruct (update_dir_split (dir t) k ld n (S n)) as (es & Hupd' & Hl & Hes); [lia|lia|done|apply Ht|].
    rewrite Hupd in Hupd'. injection Hupd' as ->.
    apply (Recovery_torn (MkCCEH (MkDir es (depth (dir t))) segs) e).
    + apply (table_ok_split t k id (MkSeg sl ld) a b (MkDir es (depth (dir t))) Ht Hk); cbn [local_depth depth entries];
        try done; [lia|lia|]. rewrite Hl. apply Ht.
    + by apply (torn_new t k id (MkSeg sl ld) _ _ _ m e1).
Qed.

End Segments.

(** ** Concrete runs *)

Section Examples.
#[local] Existing Instance plain_hash.

Definition no_junk : nat -> Value_t := fun _ => 0.

(** A new table of two segments. *)
Definition two_segments : CCEH :=
  MkCCEH (MkDir [0%nat; 1%nat] 1) (replicate 2 (new_Segment no_junk 1)).

Lemma two_segments_ok : table_ok two_segments /\ forall k v, ~ holds two_segments k v.
Proof.
  destruct (new_table_ok no_junk 2048) as (t & Ht & Hok); [lia|].
  change (Some two_segments = Some t) in Ht. injection Ht as <-. exact Hok.
Qed.

Lemma cceh_insert_get_witness :
  exists t' r, Insert 1 no_junk two_segments 5 7 = Some (t', r) /\ Get t' 5 = Some 7.
Proof.
  destruct two_segments_ok as [Hok Hempty].
  destruct (Insert 1 no_junk two_segments 5 7) as [[t' r]|] eqn:Hi.
  - exists t', r. split; [done|].
    refine (proj2 (proj2 (cceh_insert_get 1 no_junk two_segments 5 7 t' r 5 Hok _ _ _ (Hempty 5) Hi _))).
    + intros k v Hh. by apply Hempty in Hh.
    + intros k v v' Hh. by apply Hempty in Hh.
    + vm_compute. repeat split; discriminate.
    + discriminate.
  - exfalso. assert (bool_decide (is_Some (Insert 1 no_junk two_segments 5 7)) = true) as Hs
      by (vm_compute; reflexivity).
    rewrite Hi in Hs. discriminate Hs.
Defined.

Lemma cceh_insert_total_witness : exists t', Insert (Z.to_nat 2) no_junk two_segments 5 7 = Some (t', INVALID).
Proof.
  destruct two_segments_ok as [Hok Hempty].
  apply (cceh_insert_total no_junk two_segments 5 7 2 Hok); [cbn; lia|lia|vm_compute; lia].
Defined.

(** A directory of depth 3 whose two segments have depth 1. *)
Definition wide : CCEH :=
  MkCCEH (MkDir ([0; 0; 0; 0; 1; 1; 1; 1]%nat) 3) (replicate 2 (new_Segment no_junk 1)).

Lemma wide_ok : table_ok wide.
Proof.
  split; cbn [dir depth entries segments wide]; [lia|reflexivity| |].
  - intros j id Hj Hid. exists (new_Segment no_junk 1).
    assert (id < 2)%nat as Hlt.
    { apply list_elem_of_lookup_2 in Hid. set_unfold. lia. }
    split; [by apply lookup_replicate|]. split; [cbn; lia|]. apply seg_ok_empty.
  - intros i j id s Hi Hj Hid Hs. apply lookup_replicate in Hs as [-> _]. cbn [new_Segment local_depth].
    change (3 - 1) with 2. rewrite !Z.shiftr_div_pow2 by lia. change (2 ^ 2) with 4.
    assert (forall x, 0 <= x -> [0; 0; 0; 0; 1; 1; 1; 1]%nat !! Z.to_nat x =
              if decide (x < 8) then Some (Z.to_nat (x / 4)) else None) as Hlk.
    { intros x Hx. destruct (decide (x < 8)) as [Hlt|Hge].
      - assert (x = 0 \/ x = 1 \/ x = 2 \/ x = 3 \/ x = 4 \/ x = 5 \/ x = 6 \/ x = 7) as Hcases by lia.
        destruct Hcases as [->|[->|[->|[->|[->|[->|[->| ->]]]]]]]; reflexivity.
      - apply lookup_ge_None. simpl. lia. }
    rewrite Hlk in Hid |- * by lia. destruct (decide (i < 8)); [|done]. injection Hid as <-.
    assert (0 <= i / 4) by (apply Z.div_pos; lia). assert (0 <= j / 4) by (apply Z.div_pos; lia).
    destruct (decide (j < 8)) as [Hlt|Hge].
    + split; [intros [= Hx]; lia|]. intros ->. done.
    + split; [done|]. intros Heq. exfalso. apply Hge. 
      pose proof (Z.div_lt_upper_bound i 4 2 ltac:(lia) ltac:(lia)).
      pose proof (Z.div_mod j 4 ltac:(lia)). pose proof (Z.mod_pos_bound j 4 ltac:(lia)). lia.
Qed.

Lemma cceh_recovery_interrupted_witness :
  exists sa sb, Split no_junk (new_Segment no_junk 1) = Some (sa, sb)
    /\ Recovery (MkCCEH (MkDir ([0; 0; 3; 0; 1; 1; 1; 1]%nat) 3) (segments wide ++ [sa; sb]))
       = Some (MkCCEH (dir wide) (segments wide ++ [sa; sb]), false).
Proof.
  destruct (Split no_junk (new_Segment no_junk 1)) as [[sa sb]|] eqn:Hs.
  - exists sa, sb. split; [reflexivity|].
    refine (cceh_recovery_interrupted wide 5 0 (new_Segment no_junk 1) no_junk sa sb
              (MkDir ([2; 2; 3; 3; 1; 1; 1; 1]%nat) 3) ([0; 0; 3; 0; 1; 1; 1; 1]%nat) false
              wide_ok _ _ Hs _ _ _).
    + vm_compute. reflexivity.
    + reflexivity.
    + vm_compute. reflexivity.
    + apply (interrupted_second _ _ _ _ _ 1); [vm_compute; lia|reflexivity].
    + intros _. vm_compute. discriminate.
  - exfalso. assert (bool_decide (is_Some (Split no_junk (new_Segment no_junk 1))) = true) as Hb
      by (vm_compute; reflexivity).
    rewrite Hs in Hb. discriminate Hb.
Defined.

(** The range that ends the directory is left as the crash left it: the loop
    stops before it looks at the entries of that range. *)
Example cceh_recovery_last_range :
  (fun r => entries (dir (fst r))) <$>
  ('(sa, sb) ← Split no_junk (new_Segment no_junk 1);
   Recovery (MkCCEH (MkDir ([0; 0; 0; 0; 1; 1; 3; 1]%nat) 3) (segments wide ++ [sa; sb])))
  = Some ([0; 0; 0; 0; 1; 1; 3; 1]%nat).
Proof. vm_compute. reflexivity. Qed.

Definition insert_keys (t : CCEH) (ks : list Key_t) : option CCEH :=
  foldM (fun t k => fst <$> Insert 4 no_junk t k (k + 1)) ks t.

(** Keys with the lines 1016 and 1020. *)
Definition wrapping_keys : list Key_t :=
  ((fun i => 254 + 256 * Z.of_nat i) <$> seq 0 8) ++ ((fun i => 255 + 256 * Z.of_nat i) <$> seq 0 28).

(** a split loses pairs whose windows wrap around the end of the segment:
    after 36 insertions every key is found, and the next one makes four
    of them disappear. *)
Theorem cceh_split_loses :
  (t ← insert_keys two_segments wrapping_keys; mapM (Get t) wrapping_keys)
    = Some ((fun k => k + 1) <$> wrapping_keys)
  /\ (t ← insert_keys two_segments (wrapping_keys ++ [255 + 256 * 28]);
      rs ← mapM (Get t) wrapping_keys; Some (length (filter (fun r => r = NONE) rs))) = Some 4%nat.
Proof. split; vm_compute; reflexivity. Qed.

(** Inserting a key again does not replace its value. *)
Example cceh_insert_again :
  (t ← insert_keys two_segments [5]; '(t, _) ← Insert 4 no_junk t 5 100; Get t 5) = Some 6.
Proof. vm_compute. reflexivity. Qed.

(** An extent of eight pages at key 8: the page at key 9, which belongs to it, is
    not found. *)
Example cceh_extent_not_found :
  (t ← Insert_extent 9 4 no_junk two_segments 8 0 8 77;
   a ← Get_extent t 8 0; b ← Get_extent t 8 1; Some (a, b)) = Some (77, NONE).
Proof. vm_compute. reflexivity. Qed.

End Examples.
