(* ===== verification/NumaKV.v ===== *)
(** * The extent store (server/NuMA_KV.cpp, server/CCEH_hybrid.cpp)

    [NUMA_KV] maps ranges of pages to consecutive memory.  [InsertExtent] cuts
    a range into pieces whose size is a power of two that divides their first
    key, and enters the address of the extent under the first key of each;
    [GetExtent] rounds a key down to smaller and smaller precision until the
    table answers, and adds the distance from the start of the extent.

    The table of CCEH_hybrid.cpp is that of src/cceh.cpp line by line, up to
    its constructors, the result of [Insert] and the extents; its operations
    are those of CCEH.v.  The store is verified against an interface, which the
    table meets. *)

From S2P Require Import Prelude PairDefs HashFun CircularQueue CCEH.

(** ** The interface (server/ICCEH.h) *)

Class ICCEH (T : Type) := {
  ic_Insert : T -> Key_t -> Value_t -> option T;
  ic_Get : T -> Key_t -> option Value_t;
  ic_FindAnyway : T -> Key_t -> option Value_t;
  ic_Delete : T -> Key_t -> option (T * bool);
  ic_Capacity : T -> Z;
  ic_Recovery : T -> option (T * bool);
}.

(** What the store relies on: the table is a finite map as long as the keys are
    ones it accepts, and new. *)
Class ICCEHSpec (T : Type) `{ICCEH T} := {
  ic_maps : T -> gmap Z Z -> Prop;
  ic_accepts : Key_t -> Prop;
  ic_Insert_maps : forall t m k v t',
    ic_maps t m -> ic_accepts k -> m !! k = None -> ic_Insert t k v = Some t' -> ic_maps t' (<[k := v]> m);
  ic_Get_maps : forall t m k, ic_maps t m -> k <> INVALID -> ic_Get t k = Some (default NONE (m !! k));
}.

(** ** Extents in the table (CCEH_hybrid.cpp) *)

Definition EXTENT_MAX_HEIGHT : Z := 30.

(** [cover_range = 1UL << (ffs(head)-1)], an [unsigned int]; a negative shift is undefined. *)
Definition cover_start (head : Z) : option Z :=
  c ← shl64 1 (ffs32 head - 1);
  let cover_range := u32 c in
  Some (if cover_range =? 0 then u32 (1 ≪ EXTENT_MAX_HEIGHT) else cover_range).

(** [while (cover_range > len) cover_range >>= 1] *)
Fixpoint shrink (fuel : nat) (cover_range len : Z) : option Z :=
  match fuel with
  | O => None
  | S fuel => if len <? cover_range then shrink fuel (cover_range ≫ 1) len else Some cover_range
  end.

Definition cover (head len : Z) : option Z := c ← cover_start head; shrink 32 c len.

Section Extents.
Context {T : Type} `{ICCEH T}.

Fixpoint Insert_extent (fuel : nat) (t : T) (key : Key_t) (value : Value_t) (len : Z) : option T :=
  match fuel with
  | O => None
  | S fuel =>
      if len =? 0 then Some t
      else
        let head := key in
        if len =? 1 then ic_Insert t key value
        else
          cover_range ← cover head len;
          t ← ic_Insert t key value;
          Insert_extent fuel t (u64 (head + cover_range)) value (u64 (len - cover_range))
  end.

(** The rounds from [h] on; [prev] is an [unsigned int]. *)
Fixpoint get_loop (n : nat) (h : Z) (t : T) (key : Key_t) (prev : Z) : option Value_t :=
  match n with
  | O => Some NONE
  | S n =>
      let target := u64 (key - key mod (1 ≪ h)) in
      if target =? prev then get_loop n (h + 1) t key prev
      else
        result ← ic_Get t target;
        if negb (result =? NONE) then Some result
        else get_loop n (h + 1) t key (u32 target)
  end.
Definition Get_extent (t : T) (key : Key_t) : option Value_t :=
  get_loop (Z.to_nat EXTENT_MAX_HEIGHT) 0 t key (u32 (-1)).

End Extents.

(** ** The store (NuMA_KV.cpp) *)

Record Extent : Type := MkExtent { _key : Z; _len : Z; _value : Value_t }.

(** The store and the heap its extents live in.  [perNodeQueue] is a null pointer or an array. *)
Record NUMA_KV (T : Type) : Type := MkNUMA {
  cceh : T;
  extents : gmap Z Extent;
  perNodeQueue : option (list queue_t);
}.
Arguments MkNUMA {T}.
Arguments cceh {T}.
Arguments extents {T}.
Arguments perNodeQueue {T}.

Section Store.
Context {T : Type} `{ICCEH T}.

Definition new_NUMA_KV (table : T) : NUMA_KV T := MkNUMA table ∅ None.

(** [new Extent] returns the address [addr]. *)
Definition InsertExtent (fuel : nat) (kv : NUMA_KV T) (addr : Z) (key : Key_t) (value : Value_t) (len : Z)
  : option (NUMA_KV T) :=
  let extent := MkExtent key len value in
  t ← Insert_extent fuel (cceh kv) (_key extent) addr (_len extent);
  Some (MkNUMA t (<[addr := extent]> (extents kv)) (perNodeQueue kv)).

Definition Insert (kv : NUMA_KV T) (key : Key_t) (value : Value_t) (unique_id thisNode : Z) : option (NUMA_KV T) :=
  t ← ic_Insert (cceh kv) key value;
  Some (MkNUMA t (extents kv) (perNodeQueue kv)).

(** A result that is no address of an extent is undefined behaviour. *)
Definition GetExtent (kv : NUMA_KV T) (key : Key_t) : option Value_t :=
  ret ← Get_extent (cceh kv) key;
  if ret =? 0 then Some ret
  else
    extent ← extents kv !! ret;
    let key_diff := u64 (key - _key extent) in
    Some (u64 (_value extent + u64 (4096 * key_diff))).

Definition Get (kv : NUMA_KV T) (key : Key_t) (thisNode : Z) : option Value_t := ic_Get (cceh kv) key.

(** The asynchronous [Get], with [NUMAQ]: the request [wr] goes to the queue of the key's node. *)
Definition GetNodeID (kv : NUMA_KV T) (key : Key_t) : Z := 0.
Definition Get_request (kv : NUMA_KV T) (key : Key_t) (wr : Z) : option (NUMA_KV T) :=
  let node := Z.to_nat (GetNodeID kv key) in
  qs ← perNodeQueue kv;
  q ← qs !! node;
  q ← enqueue q wr;
  qs ← store qs node q;
  Some (MkNUMA (cceh kv) (extents kv) (Some qs)).

Definition FindAnyway (kv : NUMA_KV T) (key : Key_t) : option Value_t := ic_FindAnyway (cceh kv) key.
Definition Recovery (kv : NUMA_KV T) : option (NUMA_KV T * bool) :=
  '(t, b) ← ic_Recovery (cceh kv);
  Some (MkNUMA t (extents kv) (perNodeQueue kv), b).
Definition Delete (kv : NUMA_KV T) (key : Key_t) : option (NUMA_KV T * bool) := Some (kv, false).
Definition Capacity (kv : NUMA_KV T) : Z := ic_Capacity (cceh kv).

End Store.

(** ** The table of CCEH_hybrid.cpp *)

Section Hybrid.
Context `{StdHash} (rounds : nat) (junk : nat -> Value_t).

(** [CCEH(void)]: a directory of depth 0. *)
Definition hybrid_void : CCEH := MkCCEH (MkDir [0%nat] 0) [new_Segment junk 0].

(** [CCEH(initCap)]: the number of segments, not of slots; [log2] of zero is no integer. *)
Definition hybrid_table (initCap : Z) : option CCEH :=
  if initCap =? 0 then None
  else
    let d := Z.log2 initCap in
    let capacity := Z.to_nat (2 ^ d) in
    Some (MkCCEH (MkDir (seq 0 capacity) d) (replicate capacity (new_Segment junk d))).

Definition hybrid_Insert4split : list Pair -> Key_t -> Value_t -> Z -> option (list Pair) := CCEH.Insert4split.
Definition hybrid_Split : Segment -> option (Segment * Segment) := CCEH.Split junk.
Definition hybrid_Insert (t : CCEH) (key : Key_t) (value : Value_t) : option CCEH :=
  fst <$> CCEH.Insert rounds junk t key value.
Definition hybrid_InsertOnly : CCEH -> Key_t -> Value_t -> option (CCEH * bool) := CCEH.InsertOnly.
Definition hybrid_Delete : CCEH -> Key_t -> option (CCEH * bool) := CCEH.Delete.
Definition hybrid_Get : CCEH -> Key_t -> option Value_t := CCEH.Get.
Definition hybrid_Recovery : CCEH -> option (CCEH * bool) := CCEH.Recovery.
Definition hybrid_Utilization : CCEH -> option (Z * Z) := CCEH.Utilization_counts.
Definition hybrid_Capacity : CCEH -> Z := CCEH.Capacity.
Definition hybrid_numElem : Segment -> Z := CCEH.numElem.
Definition hybrid_FindAnyway : CCEH -> Key_t -> option Value_t := CCEH.FindAnyway.

Definition hybrid_ICCEH : ICCEH CCEH := {|
  ic_Insert := hybrid_Insert;
  ic_Get := hybrid_Get;
  ic_FindAnyway := hybrid_FindAnyway;
  ic_Delete := hybrid_Delete;
  ic_Capacity := hybrid_Capacity;
  ic_Recovery := hybrid_Recovery;
|}.

(** The table holds the map, and no window of a stored key wraps around. *)
Definition hybrid_maps (t : CCEH) (m : gmap Z Z) : Prop :=
  table_ok t /\ (forall k v, holds t k v <-> m !! k = Some v) /\ low t.
Definition hybrid_accepts (k : Key_t) : Prop := valid_key k /\ line_of (CCEH.hash k) <= 992.

#[refine] Definition hybrid_spec : @ICCEHSpec CCEH hybrid_ICCEH := {|
  ic_maps := hybrid_maps;
  ic_accepts := hybrid_accepts;
|}.
Proof.
  - intros t m k v t' (Hok & Hm & Hlow) [Hk Hline] Hnew Hi. cbn in Hi. unfold hybrid_Insert in Hi.
    destruct (CCEH.Insert rounds junk t k v) as [[t1 r]|] eqn:He; [|done]. injection Hi as ->.
    destruct (CCEH_Insert_inv _ _ _ _ _ _ _ Hok Hk He) as (Hok' & _ & Hs & Hkv & Hc). specialize (Hc Hlow).
    split_and!; [done| |].
    + intros k' v'. rewrite lookup_insert_Some. split.
      * intros [Hh|[-> ->]]%Hs; [|by left]. apply Hm in Hh. right. split; [congruence|done].
      * intros [[<- <-]|[_ Hh]]; [done|]. by apply Hc, Hm.
    + intros k' v' [Hh|[-> ->]]%Hs; [by eapply Hlow|done].
  - intros t m k (Hok & Hm & _) Hk. destruct (Get_spec t k Hok Hk) as (r & Hg & [Hh|[-> Hn]]).
    + apply Hm in Hh. rewrite Hh. exact Hg.
    + destruct (m !! k) as [v|] eqn:Hv; [|exact Hg]. apply Hm in Hv. by destruct (Hn v).
Defined.

End Hybrid.

(** ** The pieces of an extent *)

(** The lowest bit of a number is a power of two that divides it. *)
Lemma low_bit x : 0 < x -> exists n, 0 <= n /\ Z.land x (- x) = 2 ^ n /\ (2 ^ n | x).
Proof.
  intros Hx. replace (- x) with (Z.lnot (x - 1)) by (unfold Z.lnot; lia). rewrite <- Z.ldiff_land.
  destruct x as [|p|p]; [lia| |lia]. clear Hx. induction p as [p IH|p IH|].
  - exists 0. split_and!; [lia| |apply Z.divide_1_l].
    replace (Z.pos p~1 - 1) with (Z.pos p~0) by lia. apply Z.bits_inj'. intros i Hi. rewrite Z.ldiff_spec.
    change (Z.pos p~1) with (2 * Z.pos p + 1). change (Z.pos p~0) with (2 * Z.pos p). change (2 ^ 0) with (2 * 0 + 1).
    destruct (decide (i = 0)) as [->|]; [by rewrite !Z.testbit_odd_0, Z.testbit_even_0|].
    replace i with (Z.succ (i - 1)) by lia. rewrite !Z.testbit_odd_succ, Z.testbit_even_succ by lia.
    rewrite Z.testbit_0_l. by destruct (Z.testbit (Z.pos p) (i - 1)).
  - destruct IH as (n & Hn & He & Hd). exists (n + 1).
    assert (2 ^ (n + 1) = 2 * 2 ^ n) as Hp by (rewrite Z.pow_add_r by lia; lia).
    split_and!; [lia| |rewrite Hp; change (Z.pos p~0) with (2 * Z.pos p); by apply Z.mul_divide_mono_l].
    rewrite Hp, <- He. apply Z.bits_inj'. intros i Hi. rewrite Z.ldiff_spec.
    replace (Z.pos p~0 - 1) with (2 * (Z.pos p - 1) + 1) by lia. change (Z.pos p~0) with (2 * Z.pos p).
    destruct (decide (i = 0)) as [->|]; [by rewrite !Z.testbit_even_0|].
    replace i with (Z.succ (i - 1)) by lia. by rewrite Z.testbit_odd_succ, !Z.testbit_even_succ, Z.ldiff_spec by lia.
  - exists 0. done.
Qed.

Lemma cover_start_pow k : 0 <= k -> u32 k <> 0 -> exists n, cover_start k = Some (2 ^ n) /\ 0 <= n <= 31 /\ (2 ^ n | k).
Proof.
  intros Hk0 Hk. pose proof (wrap_bound 32 k ltac:(lia)) as Hb. destruct (low_bit (u32 k)) as (n & Hn & He & Hd); [lia|].
  assert (2 ^ n <= u32 k) as Hle by (apply Z.divide_pos_le; [lia|done]).
  assert (n < 32) as Hlt by (apply (Z.pow_lt_mono_r_iff 2); lia).
  exists n. assert (2 ^ n <= 2 ^ 31) as H31 by (apply Z.pow_le_mono_r; lia).
  assert (0 < 2 ^ n) as Hpos by (apply pow_pos; lia). split_and!; [|lia|lia|].
  - unfold cover_start, ffs32, ctz32. destruct (Z.eqb_spec (u32 k) 0); [done|]. rewrite He, Z.log2_pow2 by lia.
    unfold shl64. rewrite (proj2 (andb_true_iff _ _)) by lia. cbn [mbind option_bind].
    replace (n + 1 - 1) with n by lia. rewrite Z.shiftl_1_l.
    rewrite (wrap_small 64), (wrap_small 32) by lia. by destruct (Z.eqb_spec (2 ^ n) 0); [lia|].
  - rewrite (Z.div_mod k (2 ^ 32)) by lia. apply Z.divide_add_r; [|exact Hd]. apply Z.divide_mul_l.
    exists (2 ^ (32 - n)). rewrite <- Z.pow_add_r by lia. f_equal. lia.
Qed.

Lemma shrink_pow fuel n len :
  0 <= n < Z.of_nat fuel -> 1 <= len -> exists j, shrink fuel (2 ^ n) len = Some (2 ^ j) /\ 0 <= j <= n /\ 2 ^ j <= len.
Proof.
  revert n. induction fuel as [|fuel IH]; intros n Hn Hl; [lia|]. cbn [shrink].
  destruct (Z.ltb_spec len (2 ^ n)) as [Hlt|Hge]; [|exists n; split_and!; [done|lia..]].
  assert (n <> 0) as Hn0 by (intros ->; cbn in Hlt; lia).
  rewrite Z.shiftr_div_pow2 by lia. rewrite (pow_half n) by lia. change (2 ^ 1) with 2.
  rewrite (Z.mul_comm 2), Z.div_mul by lia. destruct (IH (n - 1)) as (j & Hj & ? & ?); [lia|lia|].
  exists j. split_and!; [done|lia..].
Qed.

Lemma cover_pow k len :
  0 <= k -> u32 k <> 0 -> 1 <= len ->
  exists j, cover k len = Some (2 ^ j) /\ 0 <= j <= 31 /\ (2 ^ j | k) /\ 2 ^ j <= len.
Proof.
  intros Hk0 Hk Hl. unfold cover. destruct (cover_start_pow k Hk0 Hk) as (n & -> & Hn & Hd). cbn [mbind option_bind].
  destruct (shrink_pow 32 n len) as (j & Hj & Hjn & Hle); [lia|done|]. exists j. split_and!; [done|lia..| |done].
  etrans; [|exact Hd]. exists (2 ^ (n - j)). rewrite <- Z.pow_add_r by lia. f_equal. lia.
Qed.

(** The pieces [Insert_extent] makes: first keys and sizes. *)
Fixpoint pieces (fuel : nat) (key len : Z) : option (list (Z * Z)) :=
  match fuel with
  | O => None
  | S fuel =>
      if len =? 0 then Some []
      else if len =? 1 then Some [(key, 1)]
      else
        c ← cover key len;
        rest ← pieces fuel (u64 (key + c)) (u64 (len - c));
        Some ((key, c) :: rest)
  end.

(** Consecutive pieces from [k] to [e], of sizes that divide their first keys. *)
Inductive tiles : Z -> Z -> list (Z * Z) -> Prop :=
| tiles_nil k : tiles k k []
| tiles_cons k j e ps : 0 <= j <= 31 -> (2 ^ j | k) -> tiles (k + 2 ^ j) e ps -> tiles k e ((k, 2 ^ j) :: ps).

(** No multiple of 2^32 is among the pages. *)
Definition clear (key len : Z) : Prop := forall x, key <= x < key + len -> u32 x <> 0.

Lemma pieces_tiles fuel key len :
  0 <= key -> 0 <= len < Z.of_nat fuel -> key + len < 2 ^ 64 -> clear key len ->
  exists ps, pieces fuel key len = Some ps /\ tiles key (key + len) ps.
Proof.
  revert key len. induction fuel as [|fuel IH]; intros key len Hk Hl Hend Hc; [lia|]. cbn [pieces].
  destruct (Z.eqb_spec len 0) as [->|]; [exists []; split; [done|]; rewrite Z.add_0_r; constructor|].
  destruct (Z.eqb_spec len 1) as [->|].
  { exists [(key, 1)]. split; [done|]. apply (tiles_cons key 0); [lia|apply Z.divide_1_l|]. constructor. }
  destruct (cover_pow key len) as (j & -> & Hj & Hd & Hle); [done|apply Hc; lia|lia|]. cbn [mbind option_bind].
  assert (0 < 2 ^ j) as Hpos by (apply pow_pos; lia).
  rewrite !wrap_small by lia. destruct (IH (key + 2 ^ j) (len - 2 ^ j)) as (ps & -> & Ht); [lia..|intros x Hx; apply Hc; lia|].
  cbn [mbind option_bind]. eexists. split; [done|]. constructor; [done|done|]. by replace (key + len) with (key + 2 ^ j + (len - 2 ^ j)) by lia.
Qed.

Lemma tiles_le k e ps : tiles k e ps -> k <= e.
Proof. induction 1 as [|k j e ps Hj _ _ IH]; [lia|]. pose proof (pow_pos j ltac:(lia)). lia. Qed.

Lemma tiles_heads k e ps p c : tiles k e ps -> (p, c) ∈ ps -> k <= p < e.
Proof.
  induction 1 as [|k j e ps Hj _ Ht IH]; [by intros ?%not_elem_of_nil|]. pose proof (pow_pos j ltac:(lia)).
  pose proof (tiles_le _ _ _ Ht). intros [Heq|Hin]%elem_of_cons; [injection Heq as -> ->; lia|]. specialize (IH Hin). lia.
Qed.

Lemma tiles_NoDup k e ps : tiles k e ps -> NoDup ps.*1.
Proof.
  induction 1 as [|k j e ps Hj _ Ht IH]; [constructor|]. cbn. constructor; [|done].
  intros ([p c] & -> & Hin)%list_elem_of_fmap. pose proof (tiles_heads _ _ _ _ _ Ht Hin). pose proof (pow_pos j ltac:(lia)). cbn in *. lia.
Qed.

(** The piece of a page, whose first key is the last one at or before the page. *)
Lemma tiles_find k e ps x :
  tiles k e ps -> k <= x < e ->
  exists p j, (p, 2 ^ j) ∈ ps /\ 0 <= j <= 31 /\ (2 ^ j | p) /\ p <= x < p + 2 ^ j
    /\ forall q, q ∈ ps.*1 -> q <= x -> q <= p.
Proof.
  induction 1 as [|k j e ps Hj Hd Ht IH]; intros Hx; [lia|]. pose proof (pow_pos j ltac:(lia)).
  destruct (decide (x < k + 2 ^ j)) as [Hlt|Hge].
  - exists k, j. split_and!; [left|lia..|done|lia|lia|]. intros q Hq Hqx. cbn in Hq. apply elem_of_cons in Hq as [->|Hq]; [lia|].
    apply list_elem_of_fmap in Hq as ([p c] & -> & Hin). pose proof (tiles_heads _ _ _ _ _ Ht Hin). cbn in *. lia.
  - destruct IH as (p & i & Hin & Hi & Hdp & Hp & Hmax); [lia|]. exists p, i. split_and!; [by right|lia..|done|lia|lia|].
    intros q Hq Hqx. cbn in Hq. apply elem_of_cons in Hq as [->|Hq]; [|by apply Hmax].
    pose proof (tiles_heads _ _ _ _ _ Ht Hin). lia.
Qed.

(** ** What the table holds after an insertion *)

Section Correct.
Context {T : Type} `{ICCEHSpec T}.

(** The recursion is a loop over the pieces. *)
Lemma Insert_extent_pieces fuel (t : T) key v len :
  Insert_extent fuel t key v len = (ps ← pieces fuel key len; foldM (fun t p => ic_Insert t p.1 v) ps t).
Proof.
  revert t key len. induction fuel as [|fuel IH]; intros t key len; [done|]. cbn [Insert_extent pieces].
  destruct (len =? 0); [done|]. destruct (len =? 1); [cbn; by destruct (ic_Insert t key v)|].
  destruct (cover key len) as [c|]; [|done]. cbn [mbind option_bind].
  destruct (ic_Insert t key v) as [t1|] eqn:Hi; cbn [mbind option_bind].
  - rewrite IH. destruct (pieces fuel _ _) as [ps|]; [|done]. cbn [mbind option_bind foldM fst]. rewrite Hi. done.
  - destruct (pieces fuel _ _) as [ps|]; [|done]. cbn [mbind option_bind foldM fst]. by rewrite Hi.
Qed.

Lemma insert_heads (ks : list Z) (t : T) m a t' :
  ic_maps t m -> NoDup ks -> Forall (fun k => ic_accepts k /\ m !! k = None) ks ->
  foldM (fun t k => ic_Insert t k a) ks t = Some t' ->
  exists m', ic_maps t' m' /\ forall k, m' !! k = if decide (k ∈ ks) then Some a else m !! k.
Proof.
  revert t m. induction ks as [|k ks IH]; intros t m Hm Hnd Hks Hi.
  { injection Hi as ->. exists m. split; [done|]. intros k. rewrite decide_False; [done|]. apply not_elem_of_nil. }
  cbn [foldM] in Hi. inv_bind Hi t1 Hi1. apply NoDup_cons in Hnd as [Hnin Hnd]. apply Forall_cons in Hks as [[Hk Hnew] Hks].
  pose proof (ic_Insert_maps _ _ _ _ _ Hm Hk Hnew Hi1) as Hm1. destruct (IH t1 _ Hm1 Hnd) as (m' & Hm' & Hl); [|done|].
  - apply Forall_forall. intros x Hx. rewrite Forall_forall in Hks. destruct (Hks x Hx) as [? ?]. split; [done|].
    rewrite lookup_insert_ne; [done|]. by intros <-.
  - exists m'. split; [done|]. intros x. rewrite Hl. destruct (decide (x ∈ ks)).
    + rewrite decide_True; [done|by right].
    + destruct (decide (x = k)) as [->|]; [rewrite lookup_insert_eq, decide_True; [done|left]|].
      rewrite lookup_insert_ne by done. rewrite decide_False; [done|]. by intros [?|?]%elem_of_cons.
Qed.

Lemma mod_in_piece x j y p : p = y * 2 ^ j -> 0 <= j -> p <= x < p + 2 ^ j -> x - x mod 2 ^ j = p.
Proof.
  intros -> Hj Hx. assert (x mod 2 ^ j = x - y * 2 ^ j); [|lia].
  symmetry. apply (Z.mod_unique x (2 ^ j) y); lia.
Qed.

(** The rounds of [Get_extent] reach the first key of a piece before any other stored key. *)
Lemma get_loop_hits n h (t : T) m x prev p j a :
  ic_maps t m -> Z.of_nat n = 30 - h -> 0 <= h <= j -> j <= 29 -> 0 <= p -> (2 ^ j | p) -> p <= x < p + 2 ^ j -> x < 2 ^ 64 - 1 ->
  m !! p = Some a -> a <> NONE -> (forall q, p < q <= x -> m !! q = None) -> prev <> p ->
  get_loop n h t x prev = Some a.
Proof.
  assert (INVALID = 2 ^ 64 - 1) as HI by done.
  intros Hm Hn Hh Hj Hp0 [y Hy] Hp Hx Ha Ha0 Hnone Hprev. revert h prev Hn Hh Hprev.
  induction n as [|n IH]; intros h prev Hn Hh Hprev; [lia|]. cbn [get_loop].
  rewrite Z.shiftl_1_l. assert (0 < 2 ^ h) as Hpos by (apply pow_pos; lia).
  pose proof (Z.div_mod x (2 ^ h) ltac:(lia)) as Hdm. pose proof (Z.mod_pos_bound x (2 ^ h) Hpos) as Hmb.
  assert (p <= x - x mod 2 ^ h) as Hge.
  { assert (p = 2 ^ h * (y * 2 ^ (j - h))) as Hph by (rewrite Hy, (pow_split j h) by lia; lia).
    assert (y * 2 ^ (j - h) <= x / 2 ^ h) by (apply Z.div_le_lower_bound; [lia|rewrite <- Hph; lia]). nia. }
  rewrite wrap_small by lia. destruct (Z.eqb_spec (x - x mod 2 ^ h) prev) as [Hpr|Hpr].
  - apply IH; [lia| |done]. split; [lia|]. destruct (decide (h = j)) as [->|]; [|lia]. exfalso. apply Hprev. rewrite <- Hpr.
    apply (mod_in_piece x j y p); [done|lia|done].
  - destruct (decide (x - x mod 2 ^ h = p)) as [Heq|Hne].
    + rewrite Heq, (ic_Get_maps t m p Hm), Ha by (rewrite HI; lia). cbn [mbind option_bind from_option id].
      by destruct (Z.eqb_spec a NONE).
    + rewrite (ic_Get_maps t m _ Hm), Hnone by (rewrite ?HI; lia). cbn [mbind option_bind from_option id].
      change (NONE =? NONE) with true. cbn [negb]. apply IH; [lia| |].
      * split; [lia|]. destruct (decide (h = j)) as [->|]; [|lia]. exfalso. apply Hne.
        apply (mod_in_piece x j y p); [done|lia|done].
      * intros Hu. assert (2 ^ j <= 2 ^ 29) by (apply Z.pow_le_mono_r; lia).
        pose proof (Z.div_mod (x - x mod 2 ^ h) (2 ^ 32) ltac:(lia)) as Hd2. unfold wrap in Hu. rewrite Hu in Hd2.
        assert ((x - x mod 2 ^ h) / 2 ^ 32 = 0) by nia. lia.
Qed.

(** [Insert_extent] ends, and enters the value under the first keys of pieces that tile the
    range: each begins where the last one ended, has a power of two as its size, and
    begins at a multiple of it. *)
Theorem extent_pieces fuel (t : T) key v len :
  0 <= key -> 0 <= len < Z.of_nat fuel -> key + len < 2 ^ 64 -> clear key len ->
  exists ps, tiles key (key + len) ps
    /\ Insert_extent fuel t key v len = foldM (fun t k => ic_Insert t k v) ps.*1 t.
Proof.
  intros Hk Hl Hend Hc. destruct (pieces_tiles fuel key len Hk Hl Hend Hc) as (ps & Hp & Ht). exists ps. split; [done|].
  rewrite Insert_extent_pieces, Hp. cbn [mbind option_bind]. symmetry.
  exact (foldM_map (fun t k => ic_Insert t k v) fst ps t).
Qed.

(** ** The store *)

Definition piece_of (e : Extent) (p c : Z) : Prop :=
  exists ps, pieces (S (Z.to_nat (_len e))) (_key e) (_len e) = Some ps /\ (p, c) ∈ ps.
Definition in_extent (e : Extent) (x : Z) : Prop := _key e <= x < _key e + _len e.

(** Extents that the search reaches: it rounds down to 2^29 at most, takes the key 2^32-1 for one
    it has already tried, and the table must accept the first keys. *)
Record extent_ok (e : Extent) : Prop := {
  eo_bounds : 0 <= _key e /\ 0 <= _len e /\ _key e + _len e < 2 ^ 64 - 1;
  eo_clear : clear (_key e) (_len e);
  eo_pieces : forall p c, piece_of e p c -> c <= 2 ^ 29 /\ p <> 2 ^ 32 - 1 /\ ic_accepts p;
}.

(** The store holds its extents, which are disjoint. *)
Record numa_rep (kv : NUMA_KV T) : Prop := {
  nr_ok : forall a e, extents kv !! a = Some e -> a <> 0 /\ extent_ok e;
  nr_disjoint : forall a b e f x,
    extents kv !! a = Some e -> extents kv !! b = Some f -> in_extent e x -> in_extent f x -> a = b;
  nr_maps : exists m, ic_maps (cceh kv) m /\
    forall k a, m !! k = Some a <-> exists e c, extents kv !! a = Some e /\ piece_of e k c;
}.

Lemma pieces_more f g key len ps : pieces f key len = Some ps -> (f <= g)%nat -> pieces g key len = Some ps.
Proof.
  revert g key len ps. induction f as [|f IH]; intros [|g] key len ps Hp Hfg; try done; [lia|]. cbn [pieces] in *.
  destruct (len =? 0); [done|]. destruct (len =? 1); [done|]. destruct (cover key len); [|done]. cbn [mbind option_bind] in *.
  inv_bind Hp rest Hr. rewrite (IH g _ _ _ Hr) by lia. done.
Qed.

Lemma extent_tiles e : extent_ok e ->
  exists ps, pieces (S (Z.to_nat (_len e))) (_key e) (_len e) = Some ps /\ tiles (_key e) (_key e + _len e) ps
    /\ forall k, (exists c, piece_of e k c) <-> k ∈ ps.*1.
Proof.
  intros [Hb Hc _]. destruct (pieces_tiles (S (Z.to_nat (_len e))) (_key e) (_len e)) as (ps & Hp & Ht); [lia..|done|].
  exists ps. split_and!; [done|done|]. intros k. split.
  - intros (c & ps' & Hp' & Hin). rewrite Hp in Hp'. injection Hp' as <-. apply list_elem_of_fmap. by exists (k, c).
  - intros ([k' c] & -> & Hin)%list_elem_of_fmap. exists c, ps. done.
Qed.

Lemma piece_in e p c : extent_ok e -> piece_of e p c -> in_extent e p.
Proof.
  intros He Hp. destruct (extent_tiles e He) as (ps & Hps & Ht & _). destruct Hp as (ps' & Hp' & Hin).
  rewrite Hps in Hp'. injection Hp' as <-. by apply (tiles_heads _ _ _ _ _ Ht Hin).
Qed.

(** Every page of every extent is found. *)
Lemma numa_rep_get kv a e x :
  numa_rep kv -> extents kv !! a = Some e -> in_extent e x ->
  GetExtent kv x = Some (u64 (_value e + 4096 * (x - _key e))).
Proof.
  intros [Hok Hdis (m & Hm & Hmk)] Ha Hx. destruct (Hok a e Ha) as [Ha0 He].
  destruct (extent_tiles e He) as (ps & Hps & Ht & Hheads).
  destruct (tiles_find _ _ _ x Ht Hx) as (p & j & Hin & Hj & Hd & Hpx & Hmax).
  assert (piece_of e p (2 ^ j)) as Hpiece by (by exists ps). destruct (eo_pieces _ He _ _ Hpiece) as (Hsize & Hp32 & _).
  destruct (eo_bounds _ He) as (Hk0 & Hl0 & Hend). pose proof (piece_in _ _ _ He Hpiece) as Hpe. unfold in_extent in *.
  assert (j <= 29) as Hj29 by (apply (Z.pow_le_mono_r_iff 2); lia).
  assert (m !! p = Some a) as Hma by (apply Hmk; by exists e, (2 ^ j)).
  assert (forall q, p < q <= x -> m !! q = None) as Hnone.
  { intros q Hq. apply eq_None_not_Some. intros [b Hb]. apply Hmk in Hb as (f & c & Hf & Hpf). destruct (Hok b f Hf) as [_ Hfo].
    pose proof (piece_in f q c Hfo Hpf). assert (b = a) as -> by (apply (Hdis b a f e q); [done|done|done|unfold in_extent; lia]).
    rewrite Ha in Hf. injection Hf as <-. assert (q <= p); [|lia]. apply Hmax; [apply Hheads; by exists c|lia]. }
  unfold GetExtent, Get_extent.
  rewrite (get_loop_hits _ 0 (cceh kv) m x _ p j a Hm); try done; try lia.
  cbn [mbind option_bind]. destruct (Z.eqb_spec a 0); [done|]. rewrite Ha. cbn [mbind option_bind]. f_equal.
  rewrite (wrap_small 64 (x - _key e)) by lia. unfold wrap. by rewrite Z.add_mod_idemp_r by lia.
Qed.

Lemma numa_rep_new t : ic_maps t ∅ -> numa_rep (new_NUMA_KV t).
Proof.
  intros Ht. split; cbn [new_NUMA_KV extents cceh]; [by intros a e Ha%lookup_empty_Some|by intros a b e f x Ha%lookup_empty_Some|].
  exists ∅. split; [done|]. intros k a. rewrite lookup_empty. split; [done|]. by intros (e & c & He%lookup_empty_Some & _).
Qed.

Lemma numa_rep_insert fuel kv a e kv' :
  numa_rep kv -> a <> 0 -> extents kv !! a = None -> extent_ok e -> _len e < Z.of_nat fuel ->
  (forall b f x, extents kv !! b = Some f -> in_extent f x -> ~ in_extent e x) ->
  InsertExtent fuel kv a (_key e) (_value e) (_len e) = Some kv' ->
  numa_rep kv' /\ extents kv' = <[a := e]> (extents kv).
Proof.
  intros [Hok Hdis (m & Hm & Hmk)] Ha Hfresh He Hfuel Hsep Hi. unfold InsertExtent in Hi. cbn [_key _len] in Hi.
  inv_bind Hi t Ht. injection Hi as <-. cbn [extents cceh].
  replace (MkExtent (_key e) (_len e) (_value e)) with e by (by destruct e). split; [|done].
  destruct (extent_tiles e He) as (ps & Hps & Htl & Hheads).
  rewrite Insert_extent_pieces, (pieces_more _ fuel _ _ _ Hps) in Ht by (pose proof (eo_bounds _ He); lia). cbn [mbind option_bind] in Ht.
  rewrite <- (foldM_map (fun t k => ic_Insert t k a) fst ps) in Ht.
  assert (forall k, k ∈ ps.*1 -> ic_accepts k /\ m !! k = None) as Hnew.
  { intros k [c Hk]%Hheads. split; [by apply (eo_pieces _ He k c)|]. apply eq_None_not_Some. intros [b Hb].
    apply Hmk in Hb as (f & c' & Hf & Hpf). destruct (Hok b f Hf) as [_ Hfo].
    apply (Hsep b f k Hf); [by eapply piece_in|by eapply (piece_in e k c)]. }
  destruct (insert_heads (ps.*1) (cceh kv) m a t) as (m' & Hm' & Hl); [done|by eapply tiles_NoDup|by apply Forall_forall|exact Ht|].
  split; cbn [extents cceh].
  - intros b f [[<- <-]|[_ Hf]]%lookup_insert_Some; [done|by apply Hok].
  - intros b c f g x [[<- <-]|[Hb Hf]]%lookup_insert_Some [[<- <-]|[Hc Hg]]%lookup_insert_Some Hxf Hxg; [done| | |by eapply Hdis].
    + by destruct (Hsep c g x Hg).
    + by destruct (Hsep b f x Hf).
  - exists m'. split; [done|]. intros k b. rewrite Hl. split.
    + case_decide as Hk; intros Hkb.
      * injection Hkb as <-. apply Hheads in Hk as [c Hk]. exists e, c. by rewrite lookup_insert_eq.
      * apply Hmk in Hkb as (f & c & Hf & Hpf). exists f, c. rewrite lookup_insert_ne; [done|congruence].
    + intros (f & c & [[<- <-]|[_ Hf]]%lookup_insert_Some & Hpf).
      * rewrite decide_True; [done|]. apply Hheads. eauto.
      * assert (m !! k = Some b) as Hkb by (apply Hmk; eauto). rewrite decide_False; [done|].
        intros [_ Hnone]%Hnew. congruence.
Qed.

(** C18: The extent store refines a set of disjoint extents, for extents that the search reaches
    ([extent_ok]): they end below 2^64 - 1, have no multiple of 2^32 among their pages and no piece
    of more than 2^29 pages, no piece starts at 2^32 - 1, and the table accepts the first key of
    each piece.  When [InsertExtent] of such an extent, disjoint from the others, returns, it has
    added its extent and left the others; after it [GetExtent] answers every page of every extent
    with the address of that page, although the table only has an entry for each piece. *)
Theorem numa_extent_refines fuel kv a key v len kv' :
  numa_rep kv -> a <> 0 -> extents kv !! a = None -> extent_ok (MkExtent key len v) -> len < Z.of_nat fuel ->
  (forall b f x, extents kv !! b = Some f -> in_extent f x -> ~ key <= x < key + len) ->
  InsertExtent fuel kv a key v len = Some kv' ->
  numa_rep kv' /\ extents kv' = <[a := MkExtent key len v]> (extents kv)
  /\ forall b e x, extents kv' !! b = Some e -> in_extent e x ->
       GetExtent kv' x = Some (u64 (_value e + 4096 * (x - _key e))).
Proof.
  intros Hrep Ha Hfresh He Hfuel Hsep Hi.
  destruct (numa_rep_insert fuel kv a (MkExtent key len v) kv') as [Hrep' Hext]; try done.
  split_and!; [done|done|]. intros b e x Hb Hx. by eapply numa_rep_get.
Qed.

End Correct.

(** ** Concrete runs *)

Section Examples.
#[local] Existing Instance plain_hash.
#[local] Instance plain_table : ICCEH CCEH := hybrid_ICCEH 4 no_junk.
#[local] Instance plain_spec : ICCEHSpec CCEH := hybrid_spec 4 no_junk.

Lemma two_segments_maps : hybrid_maps two_segments ∅.
Proof.
  destruct two_segments_ok as [Hok Hempty]. split_and!; [done| |].
  - intros k v. rewrite lookup_empty. split; [intros Hh; by apply Hempty in Hh|done].
  - intros k v Hh. by apply Hempty in Hh.
Qed.

(** Six pages from key 10: the pieces 10 to 11 and 12 to 15. *)
Definition six_pages : Extent := MkExtent 10 6 65536.

Lemma six_pages_ok : extent_ok six_pages.
Proof.
  split.
  - vm_compute. repeat split; discriminate.
  - intros x Hx. cbn in Hx. rewrite wrap_small by lia. lia.
  - intros p c (ps & Hps & Hin). vm_compute in Hps. injection Hps as <-.
    apply elem_of_cons in Hin as [[= -> ->]|[[= -> ->]|?%not_elem_of_nil]%elem_of_cons]; [| |done];
      (split_and!; [lia|lia|]); vm_compute; repeat split; discriminate.
Qed.

Lemma numa_extent_refines_witness :
  exists kv, InsertExtent 7 (new_NUMA_KV two_segments) 4096 10 65536 6 = Some kv
    /\ GetExtent kv 13 = Some (65536 + 3 * 4096).
Proof.
  destruct (InsertExtent 7 (new_NUMA_KV two_segments) 4096 10 65536 6) as [kv|] eqn:Hi.
  - exists kv. split; [done|].
    destruct (numa_extent_refines 7 (new_NUMA_KV two_segments) 4096 10 65536 6 kv) as (_ & Hext & Hget);
      [exact (numa_rep_new two_segments two_segments_maps)|lia|done|exact six_pages_ok|lia| |exact Hi|].
    + cbn. by intros b f x Hb%lookup_empty_Some.
    + rewrite (Hget 4096 six_pages 13); [vm_compute; reflexivity|by rewrite Hext|]. unfold in_extent. cbn. lia.
  - exfalso. assert (bool_decide (is_Some (InsertExtent 7 (new_NUMA_KV two_segments) 4096 10 65536 6)) = true) as Hs
      by (vm_compute; reflexivity).
    rewrite Hi in Hs. discriminate Hs.
Defined.

Lemma extent_pieces_witness :
  exists ps, tiles 10 16 ps
    /\ Insert_extent 7 two_segments 10 4096 6 = foldM (fun t k => ic_Insert t k 4096) ps.*1 two_segments.
Proof.
  apply (extent_pieces 7 two_segments 10 4096 6); [lia|lia|lia|]. intros x Hx. rewrite wrap_small by lia. lia.
Defined.

(** [GetExtent] never looks at the length of an extent.  One page is stored at key 8; the keys 9 to 15
    belong to nothing and are answered with the memory behind it. *)
Theorem extent_past_the_end :
  (kv ← InsertExtent 2 (new_NUMA_KV two_segments) 4096 8 65536 1; mapM (GetExtent kv) [8; 9; 15])
  = Some [65536; 65536 + 4096; 65536 + 7 * 4096].
Proof. vm_compute. reflexivity. Qed.

(** Pages of an extent that are not found: those from 2^29 on of a piece that is larger, and the
    page 2^32-1 when it is a piece by itself. *)
Example extent_large_piece :
  (kv ← InsertExtent 2 (new_NUMA_KV two_segments) 4096 (2 ^ 30) 65536 (2 ^ 30);
   mapM (GetExtent kv) [2 ^ 30 + 1; 2 ^ 30 + 2 ^ 29]) = Some [65536 + 4096; NONE].
Proof. vm_compute. reflexivity. Qed.
Example extent_last_of_32 :
  (kv ← InsertExtent 2 (new_NUMA_KV two_segments) 4096 (2 ^ 32 - 1) 65536 1; GetExtent kv (2 ^ 32 - 1)) = Some NONE.
Proof. vm_compute. reflexivity. Qed.

(** An extent of two pages at key 0 shifts by -1; a page that was stored by [Insert] is taken for an extent. *)
Example extent_at_zero : InsertExtent 3 (new_NUMA_KV two_segments) 4096 0 65536 2 = None.
Proof. vm_compute. reflexivity. Qed.
Example extent_of_page : (kv ← Insert (new_NUMA_KV two_segments) 8 65536 0 0; GetExtent kv 8) = None.
Proof. vm_compute. reflexivity. Qed.

(** The default constructor makes a directory of depth 0: every access shifts by 64. *)
Example hybrid_void_undefined : hybrid_Insert 4 no_junk (hybrid_void no_junk) 5 7 = None /\ hybrid_Get (hybrid_void no_junk) 5 = None.
Proof. split; vm_compute; reflexivity. Qed.

(** The queues of the asynchronous [Get] are never made. *)
Example get_request_null (t : CCEH) wr : Get_request (new_NUMA_KV t) 5 wr = None.
Proof. done. Qed.

End Examples.
