(* ===== verification/StaticHash.v ===== *)
(** * The static table (server/src/static_hash.cpp, static_hash.h)

    One slot for each remainder of the key, without collision handling: a key
    whose slot is taken is not stored.  The semaphore of the class is not used
    by its operations; [Recovery] and the default constructor have no body. *)

From S2P Require Import Prelude PairDefs HashFun CCEH.

Record HashTable : Type := MkTable { hashSize : Z; bucket : list Pair }.

Definition new_HashTable (junk : nat -> Value_t) (size : Z) : HashTable := MkTable size (new_Pairs junk (Z.to_nat size)).

(** [int hKey = key % hashSize], used as an index. *)
Definition hKey (t : HashTable) (key : Key_t) : option nat :=
  x ← urem key (hashSize t);
  let i := s32 x in
  if i <? 0 then None else Some (Z.to_nat i).

Definition Get (t : HashTable) (key : Key_t) : option Value_t :=
  i ← hKey t key;
  p ← bucket t !! i;
  Some (if has_key key p then pvalue p else NONE).

(** The second result tells whether the pair was stored; the code only prints it. *)
Definition Insert (t : HashTable) (key : Key_t) (value : Value_t) : option (HashTable * bool) :=
  i ← hKey t key;
  ret ← Get t key;
  if negb (ret =? NONE) then Some (t, false)
  else
    p ← bucket t !! i;
    if is_free p then b ← store (bucket t) i (MkPair key value); Some (MkTable (hashSize t) b, true)
    else Some (t, false).

(** [bucket[hKey].key = -INVALID], which is 1. *)
Definition Delete (t : HashTable) (key : Key_t) : option (HashTable * bool) :=
  i ← hKey t key;
  p ← bucket t !! i;
  if has_key key p then b ← store (bucket t) i (MkPair (u64 (- INVALID)) (pvalue p)); Some (MkTable (hashSize t) b, true)
  else Some (t, false).

(** The pieces are those of cceh.cpp, but every one is entered under [key] itself. *)
Fixpoint Insert_extent (fuel : nat) (t : HashTable) (key : Key_t) (cluster_num len : Z) (value : Value_t) : option HashTable :=
  match fuel with
  | O => None
  | S fuel =>
      if len <=? 0 then Some t
      else
        let current_key := u64 (key + cluster_num) in
        i ← urem current_key (hashSize t);
        b ← store (bucket t) (Z.to_nat i) (MkPair key value);
        let t := MkTable (hashSize t) b in
        if len =? 1 then Some t
        else
          subextent_size ← subextent current_key len;
          Insert_extent fuel t key (u64 (cluster_num + subextent_size)) (u64 (len - subextent_size)) value
  end.

(** The loop of [Get_extent]; the test that could end it with a value is commented out. *)
Fixpoint extent_loop (fuel : nat) (t : HashTable) (key : Key_t) (mask current_key : Z) : option Value_t :=
  match fuel with
  | O => None
  | S fuel =>
      i ← urem current_key (hashSize t);
      _ ← bucket t !! Z.to_nat i;
      if current_key =? 0 then Some NONE
      else extent_loop fuel t key mask (Z.land current_key (Z.land (u32 (mask ≪ ffs32 key)) mask))
  end.
Definition Get_extent (fuel : nat) (t : HashTable) (key : Key_t) (cluster_num : Z) : option Value_t :=
  let current_key := u64 (key + cluster_num) in
  n ← ctz32 current_key;
  _ ← (if n <? 31 then Some tt else None);
  extent_loop fuel t key (1 ≪ n) current_key.

(** The loop of [Utilization], which never changes [i]. *)
Fixpoint util_loop (fuel : nat) (t : HashTable) (i : Z) (sum cnt : Z) : option (Z * Z) :=
  match fuel with
  | O => None
  | S fuel =>
      if i <? hashSize t then
        target ← bucket t !! Z.to_nat i;
        util_loop fuel t i (if is_free target then sum else sum + 1) (cnt + 1)
      else Some (sum, cnt)
  end.
Definition Utilization_counts (fuel : nat) (t : HashTable) : option (Z * Z) := util_loop fuel t 0 0 0.

Definition Capacity (t : HashTable) : Z := hashSize t.

Definition FindAnyway (t : HashTable) (key : Key_t) : option Value_t :=
  r ← probe (seq 0 (Z.to_nat (hashSize t))) (has_key key) (bucket t);
  match r with
  | Some i => p ← bucket t !! i; Some (pvalue p)
  | None => Some NONE
  end.

(** ** Properties *)

Record table_fits (t : HashTable) : Prop := {
  tf_size : 0 < hashSize t < 2 ^ 31;
  tf_bucket : Z.of_nat (length (bucket t)) = hashSize t;
}.

Lemma hKey_ok t k : table_fits t -> 0 <= k -> hKey t k = Some (Z.to_nat (k mod hashSize t)) /\ (Z.to_nat (k mod hashSize t) < length (bucket t))%nat.
Proof.
  intros [Hs Hb] Hk. pose proof (Z.mod_pos_bound k (hashSize t) ltac:(lia)). unfold hKey. rewrite urem_pos by lia. cbn [mbind option_bind].
  rewrite s32_small by lia. rewrite (proj2 (Z.ltb_ge _ _)) by lia. split; [done|lia].
Qed.

(** The slots that are free. *)
Definition free_slots (t : HashTable) : nat := length (filter (fun p => pkey p = INVALID) (bucket t)).

Lemma free_insert (d : list Pair) i p q :
  d !! i = Some p -> pkey q <> INVALID ->
  (length (filter (fun p => pkey p = INVALID) (<[i := q]> d)) + (if is_free p then 1 else 0)
   = length (filter (fun p => pkey p = INVALID) d))%nat.
Proof.
  intros Hp Hq. rewrite insert_take_drop by (by eapply lookup_lt_Some). rewrite <- (take_drop_middle d i p Hp) at 3.
  rewrite !filter_app, !filter_cons, !length_app.
  destruct (is_free p) eqn:Hf; [apply is_free_true in Hf|apply is_free_false in Hf]; repeat case_decide; try done; cbn [length]; lia.
Qed.

Inductive op := OpInsert (key : Key_t) (value : Value_t) | OpDelete (key : Key_t).
Definition op_key (o : op) : Key_t := match o with OpInsert k _ => k | OpDelete k => k end.

(** A history of calls, and the number of insertions that stored something. *)
Definition run_op (st : HashTable * nat) (o : op) : option (HashTable * nat) :=
  match o with
  | OpInsert k v => '(t, b) ← Insert st.1 k v; Some (t, if (b : bool) then S st.2 else st.2)
  | OpDelete k => '(t, _) ← Delete st.1 k; Some (t, st.2)
  end.

Lemma op_runs t n o :
  table_fits t -> valid_key (op_key o) ->
  exists t' n', run_op (t, n) o = Some (t', n') /\ table_fits t' /\ hashSize t' = hashSize t /\ (n' + free_slots t' = n + free_slots t)%nat.
Proof.
  intros Ht (Hk0 & Hk & _). destruct (hKey_ok t (op_key o) Ht ltac:(lia)) as [Hi Hlt]. destruct (lookup_lt_is_Some_2 _ _ Hlt) as [p Hp].
  assert (forall q, table_fits (MkTable (hashSize t) (<[Z.to_nat (op_key o mod hashSize t) := q]> (bucket t)))) as Hfit.
  { intros q. destruct Ht. split; cbn [hashSize bucket]; [done|by rewrite length_insert]. }
  destruct o as [k v|k]; cbn [op_key run_op fst snd] in *.
  - unfold Insert, Get. rewrite Hi. cbn [mbind option_bind]. rewrite Hp. cbn [mbind option_bind].
    destruct (negb _) eqn:Hg; [cbn; eauto 10|]. destruct (is_free p) eqn:Hf; [|cbn; eauto 10].
    rewrite store_Some by done. cbn [mbind option_bind]. eexists _, _. split; [done|]. split_and!; [done|done|].
    unfold free_slots. cbn [bucket]. pose proof (free_insert _ _ _ (MkPair k v) Hp Hk) as Hc. rewrite Hf in Hc. lia.
  - unfold Delete. rewrite Hi. cbn [mbind option_bind]. rewrite Hp. cbn [mbind option_bind].
    destruct (has_key k p) eqn:Hh; [|cbn; eauto 10]. rewrite store_Some by done. cbn [mbind option_bind].
    eexists _, _. split; [done|]. split_and!; [done|done|]. unfold free_slots. cbn [bucket].
    assert (u64 (- INVALID) <> INVALID) as H1 by done. pose proof (free_insert _ _ _ (MkPair (u64 (- INVALID)) (pvalue p)) Hp H1) as Hc.
    apply has_key_true in Hh. rewrite (proj2 (is_free_false p)) in Hc by congruence. lia.
Qed.

(** A slot that was used once is lost for ever, because [Delete] marks it with the key 1 and not as free: however many
    keys are deleted in between, a table of [n] slots stores at most [n] pairs in its life. *)
Theorem static_insertions_bounded t ops :
  table_fits t -> Forall (fun o => valid_key (op_key o)) ops ->
  exists t' n, foldM run_op ops (t, 0%nat) = Some (t', n) /\ (n + free_slots t' = free_slots t)%nat /\ Z.of_nat n <= hashSize t.
Proof.
  intros Ht Hops.
  assert (forall t n, table_fits t -> exists t' n', foldM run_op ops (t, n) = Some (t', n') /\ (n' + free_slots t' = n + free_slots t)%nat) as Hrun.
  { clear t Ht. induction Hops as [|o ops Ho _ IH]; intros t n Ht; [cbn; eauto|]. cbn [foldM].
    destruct (op_runs t n o Ht Ho) as (t1 & n1 & -> & Ht1 & _ & Hc1). cbn [mbind option_bind].
    destruct (IH t1 n1 Ht1) as (t' & n' & -> & Hc'). exists t', n'. split; [done|lia]. }
  destruct (Hrun t 0%nat Ht) as (t' & n & Hr & Hc). exists t', n. split_and!; [done|lia|]. rewrite <- (tf_bucket _ Ht).
  assert (free_slots t <= length (bucket t))%nat by apply length_filter. lia.
Qed.

(** [Insert] of a key whose slot is free makes it readable and changes no other answer; otherwise it changes nothing. *)
Theorem static_insert_get t k v k' :
  table_fits t -> valid_key k -> valid_key k' -> exists t' b, Insert t k v = Some (t', b) /\
    Get t' k' = (if b && (k' =? k) then Some v else Get t k').
Proof.
  intros Ht (Hk0 & Hk & _) (Hk0' & Hk' & _). destruct (hKey_ok t k Ht ltac:(lia)) as [Hi Hlt]. destruct (lookup_lt_is_Some_2 _ _ Hlt) as [p Hp].
  unfold Insert. rewrite Hi. cbn [mbind option_bind]. unfold Get at 1. rewrite Hi. cbn [mbind option_bind]. rewrite Hp. cbn [mbind option_bind].
  destruct (negb _) eqn:Hg; [by eexists _, _|]. destruct (is_free p) eqn:Hf; [|by eexists _, _]. apply is_free_true in Hf.
  rewrite store_Some by done. cbn [mbind option_bind]. eexists _, _. split; [done|]. cbn [andb].
  destruct (hKey_ok t k' Ht ltac:(lia)) as [Hi' Hlt']. unfold Get. unfold hKey in *. cbn [hashSize bucket]. rewrite Hi'. cbn [mbind option_bind].
  destruct (decide (Z.to_nat (k' mod hashSize t) = Z.to_nat (k mod hashSize t))) as [He|He].
  - rewrite He, list_lookup_insert_eq by done. rewrite Hp. cbn [mbind option_bind]. unfold has_key. cbn [pkey pvalue]. rewrite Hf.
    rewrite (proj2 (Z.eqb_neq INVALID k')) by done. rewrite (Z.eqb_sym k k'). by destruct (k' =? k).
  - rewrite list_lookup_insert_ne by done. destruct (Z.eqb_spec k' k) as [->|]; done.
Qed.

(** [Get_extent] never finds anything. *)
Lemma static_extent_never_found fuel t key cluster_num r : Get_extent fuel t key cluster_num = Some r -> r = NONE.
Proof.
  unfold Get_extent. intros Hg. inv_bind Hg n Hn. inv_bind Hg u Hu. revert Hg. generalize (u64 (key + cluster_num)).
  induction fuel as [|fuel IH]; intros c Hg; [done|]. cbn [extent_loop] in Hg. inv_bind Hg i Hi. inv_bind Hg p Hp.
  destruct (c =? 0); [by injection Hg as <-|by eapply IH].
Qed.

(** The loop of [Utilization] does not end. *)
Lemma static_utilization_loops fuel t : 0 < hashSize t -> Utilization_counts fuel t = None.
Proof.
  intros Hs. unfold Utilization_counts. assert (forall sum cnt, util_loop fuel t 0 sum cnt = None) as Hl; [|apply Hl].
  induction fuel as [|fuel IH]; intros sum cnt; [done|]. cbn [util_loop]. rewrite (proj2 (Z.ltb_lt _ _)) by done.
  destruct (bucket t !! Z.to_nat 0); [apply IH|done].
Qed.

(** ** Concrete runs *)

Definition four : HashTable := new_HashTable (fun _ => 0) 4.

Lemma four_fits : table_fits four.
Proof. split; vm_compute; repeat split; discriminate. Qed.

(** Two keys deleted, and the third finds no slot. *)
Definition churn : list op := [OpInsert 8 100; OpDelete 8; OpInsert 12 200; OpInsert 9 300; OpDelete 9; OpInsert 13 400].

Lemma static_insertions_bounded_witness :
  exists t' n, foldM run_op churn (four, 0%nat) = Some (t', n) /\ (n + free_slots t' = free_slots four)%nat /\ Z.of_nat n <= 4.
Proof.
  apply (static_insertions_bounded four churn); [exact four_fits|]. repeat constructor; vm_compute; repeat split; discriminate.
Defined.

Lemma static_insert_get_witness : exists t' b, Insert four 8 100 = Some (t', b) /\ Get t' 8 = (if b && (8 =? 8) then Some 100 else Get four 8).
Proof. apply (static_insert_get four 8 100 8); [exact four_fits|vm_compute; repeat split; discriminate..]. Defined.

(** After key 9 was deleted, the key 1 is found, with its value; and key 13, which has the same slot, cannot be stored. *)
Example static_delete_makes_key_one :
  ('(t, _) ← Insert four 9 300; '(t, _) ← Delete t 9; '(t', b) ← Insert t 13 400; a ← Get t 1; Some (a, b)) = Some (300, false).
Proof. vm_compute. reflexivity. Qed.

Lemma static_extent_never_found_witness : Get_extent 3 four 6 0 = Some NONE /\ NONE = NONE.
Proof. split; [vm_compute; reflexivity|]. apply (static_extent_never_found 3 four 6 0). vm_compute. reflexivity. Defined.
