(* ===== verification/Semaphore.v ===== *)
(** * The segment and directory semaphore

    [Segment] and [Directory] of [server/src/cceh.h] carry a counter [sema]
    with [lock], [unlock], [suspend] and [reset]: a count of holders when it is
    not negative, and closed when it is.  The four functions are loops around
    compare-and-swap; here every access of a thread to [sema] is one step of an
    interleaving, and the theorems are about all interleavings. *)

From stdpp Require Import base list.
From Stdlib Require Import ZArith Lia.
From S2P Require Import Prelude.
Local Open Scope Z_scope.

(** ** The steps of a thread *)

(** Where a thread is; [val] is the local variable of the function. *)
Inductive pc :=
| Idle
| LockTry (val : Z)      (** [lock], before the test and the swap *)
| LockRead               (** [lock], before [val = sema] after a failed swap *)
| Holding                (** between [lock] and [unlock] *)
| UnlockTry (val : Z)
| UnlockRead
| StrayTry (val : Z)     (** [unlock] by a thread that does not hold the lock *)
| StrayRead
| SuspendTry (val : Z)
| SuspendRead
| Waiting (val : Z)      (** [suspend], in the loop that waits for the holders *)
| Suspended              (** between [suspend] and [reset] *)
| ResetTry (val : Z)
| ResetRead.

(** One access: the counter and the thread before and after.  [strays] tells whether a
    thread may call [unlock] without a [lock] before it, as [CCEH::Get] does in a build
    without [INPLACE] when it finds that the directory has changed. *)
Inductive access (strays : bool) : Z -> pc -> Z -> pc -> Prop :=
| lock_begin s : access strays s Idle s (LockTry s)
| lock_refused s val : val <= -1 -> access strays s (LockTry val) s Idle
| lock_swap s : s > -1 -> access strays s (LockTry s) (s + 1) Holding
| lock_fail s val : val > -1 -> s <> val -> access strays s (LockTry val) s LockRead
| lock_again s : access strays s LockRead s (LockTry s)
| unlock_begin s : access strays s Holding s (UnlockTry s)
| unlock_swap s : access strays s (UnlockTry s) (s - 1) Idle
| unlock_fail s val : s <> val -> access strays s (UnlockTry val) s UnlockRead
| unlock_again s : access strays s UnlockRead s (UnlockTry s)
| stray_begin s : strays = true -> access strays s Idle s (StrayTry s)
| stray_swap s : access strays s (StrayTry s) (s - 1) Idle
| stray_fail s val : s <> val -> access strays s (StrayTry val) s StrayRead
| stray_again s : access strays s StrayRead s (StrayTry s)
| suspend_begin s : access strays s Idle s (SuspendTry s)
| suspend_refused s val : val < 0 -> access strays s (SuspendTry val) s Idle
| suspend_swap s : ~ s < 0 -> access strays s (SuspendTry s) (-1) (Waiting s)
| suspend_fail s val : ~ val < 0 -> s <> val -> access strays s (SuspendTry val) s SuspendRead
| suspend_again s : access strays s SuspendRead s (SuspendTry s)
| suspend_wait s val : val <> 0 -> s <> 0 - val - 1 -> access strays s (Waiting val) s (Waiting val)
| suspend_done s val : val = 0 \/ s = 0 - val - 1 -> access strays s (Waiting val) s Suspended
| reset_begin s : access strays s Suspended s (ResetTry s)
| reset_swap s : access strays s (ResetTry s) 0 Idle
| reset_fail s val : s <> val -> access strays s (ResetTry val) s ResetRead
| reset_again s : access strays s ResetRead s (ResetTry s)
| sema_store s : access strays s Suspended 0 Idle.

Record system := MkSystem { sema : Z; threads : list pc }.

(** Any thread may take the next step. *)
Inductive step (strays : bool) : system -> system -> Prop :=
| step_thread s ts i p s' p' :
    ts !! i = Some p -> access strays s p s' p' -> step strays (MkSystem s ts) (MkSystem s' (<[i := p']> ts)).

Definition initial (n : nat) : system := MkSystem 0 (replicate n Idle).

Definition reachable (strays : bool) (n : nat) (st : system) : Prop := rtc (step strays) (initial n) st.

(** ** The invariant *)

Definition holds_lock (p : pc) : bool :=
  match p with Holding | UnlockTry _ | UnlockRead => true | _ => false end.
Definition suspends (p : pc) : bool :=
  match p with Waiting _ | Suspended | ResetTry _ | ResetRead => true | _ => false end.
Definition has_suspended (p : pc) : bool :=
  match p with Suspended | ResetTry _ | ResetRead => true | _ => false end.

Definition stray (p : pc) : bool :=
  match p with StrayTry _ | StrayRead => true | _ => false end.

(** The number of threads in a class. *)
Definition count (P : pc -> bool) (ts : list pc) : Z := Z.of_nat (length (filter (fun p => P p) ts)).

Lemma count_insert P ts i p p' :
  ts !! i = Some p -> count P (<[i := p']> ts) = count P ts - Z.b2z (P p) + Z.b2z (P p').
Proof.
  intros Hi. rewrite <- (take_drop_middle ts i p Hi) at 2.
  rewrite insert_take_drop by (by eapply lookup_lt_Some). unfold count.
  rewrite !filter_app, !length_app, !filter_cons.
  destruct (decide (P p)) as [Hp|Hp], (decide (P p')) as [Hp'|Hp'];
    destruct (P p), (P p'); simpl in *; try done; lia.
Qed.

Lemma count_nonneg P ts : 0 <= count P ts.
Proof. unfold count. lia. Qed.

Lemma count_zero P ts i p : count P ts = 0 -> ts !! i = Some p -> P p = false.
Proof.
  unfold count. intros Hc Hi. destruct (P p) eqn:HP; [|done].
  assert (p ∈ filter (fun p => P p) ts) as Hin.
  { apply list_elem_of_filter. split; [by rewrite HP|]. by apply (list_elem_of_lookup_2 _ i). }
  destruct (filter _ ts); [by apply not_elem_of_nil in Hin|simpl in Hc; lia].
Qed.

(** Without strays: at most one thread suspends.  Without one the counter is the number of
    holders; with one it is negative, and short of the end of the wait by that
    number. *)
Record sema_inv (st : system) : Prop := {
  si_stray : forall i p, threads st !! i = Some p -> stray p = false;
  si_one : count suspends (threads st) <= 1;
  si_open : count suspends (threads st) = 0 -> sema st = count holds_lock (threads st);
  si_closed : count suspends (threads st) = 1 -> sema st < 0;
  si_wait : forall i val, threads st !! i = Some (Waiting val) ->
    0 <= val /\ sema st = count holds_lock (threads st) - val - 1;
  si_done : forall i p, threads st !! i = Some p -> has_suspended p = true ->
    count holds_lock (threads st) = 0;
}.

Lemma count_pos P ts i p : ts !! i = Some p -> P p = true -> 1 <= count P ts.
Proof.
  intros Hi HP. pose proof (count_nonneg P ts). destruct (decide (count P ts = 0)) as [Hz|]; [|lia].
  by rewrite (count_zero P ts i p Hz Hi) in HP.
Qed.

Lemma count_two P ts i j p q :
  i <> j -> ts !! i = Some p -> ts !! j = Some q -> P p = true -> P q = true -> 2 <= count P ts.
Proof.
  intros Hij Hi Hj HP HQ. unfold count.
  enough (length [i; j] <= length (filter (fun p => P p) ts))%nat as Hl by (simpl in Hl; lia).
  apply filter_positions.
  - apply NoDup_cons. split; [set_solver|]. apply NoDup_singleton.
  - repeat constructor; [exists p|exists q]; by rewrite ?HP, ?HQ.
Qed.

Lemma sema_inv_initial n : sema_inv (initial n).
Proof.
  assert (forall P, P Idle = false -> count P (replicate n Idle) = 0) as Hc.
  { intros P HP. unfold count. rewrite filter_none; [done|].
    apply Forall_replicate. rewrite HP. by intros []. }
  split; simpl; rewrite ?Hc by done; try lia.
  - intros i p Hi. by apply lookup_replicate in Hi as [-> _].
  - intros i val Hi. by apply lookup_replicate in Hi as [? _].
Qed.

Lemma sema_inv_step st st' : sema_inv st -> step false st st' -> sema_inv st'.
Proof.
  intros [H0 H1 H2 H3 H4 H5] Hst. destruct Hst as [s ts i p s' p' Hi Ha]. simpl in *.
  pose proof (H0 i p Hi) as Hp0.
  pose proof (count_insert suspends ts i p p' Hi) as Hs.
  pose proof (count_insert holds_lock ts i p p' Hi) as Hh.
  pose proof (count_nonneg suspends ts). pose proof (count_nonneg holds_lock ts).
  pose proof (fun Hp => count_pos suspends ts i p Hi Hp) as Hs1.
  pose proof (fun Hp => count_pos holds_lock ts i p Hi Hp) as Hh1.
  assert (forall j q, <[i := p']> ts !! j = Some q -> (q = p' /\ j = i) \/ (j <> i /\ ts !! j = Some q)) as Hlk.
  { intros j q [(<- & <- & _)|[? ?]]%list_lookup_insert_Some; auto. }
  assert (forall j q, j <> i -> ts !! j = Some q -> suspends q = true -> suspends p = true -> False) as Hone.
  { intros j q Hj Hq HPq HPp. pose proof (count_two suspends ts i j p q ltac:(done) Hi Hq HPp HPq). lia. }
  split; simpl.
  - intros j q [(-> & ->)|(Hj & Hq)]%Hlk; [by destruct Ha|by apply (H0 j)].
  - destruct Ha; simpl in *; try done; lia.
  - destruct Ha; simpl in *; try done; try lia; rewrite Hh, (H5 i _ Hi) by done; lia.
  - destruct Ha; simpl in *; try done; lia.
  - intros j val [(Hq & ->)|(Hj & Hq)]%Hlk.
    + destruct Ha; simpl in *; try discriminate Hq; try discriminate Hp0; injection Hq as <-; [lia|]. destruct (H4 i _ Hi). lia.
    + destruct (H4 j val Hq) as [Hv Hsv]. pose proof (count_pos suspends ts j _ Hq eq_refl).
      destruct Ha; simpl in *; try done; (try (exfalso; by apply (Hone j _ Hj Hq))); lia.
  - intros j q [(-> & ->)|(Hj & Hq)]%Hlk Hd.
    + destruct Ha; simpl in *; try discriminate Hd; try discriminate Hp0.
      all: try (rewrite Hh, (H5 i _ Hi) by done; lia).
      destruct (H4 i _ Hi). lia.
    + pose proof (H5 j q Hq Hd) as Hz. assert (suspends q = true) as Hsq by (by destruct q).
      pose proof (count_pos suspends ts j _ Hq Hsq).
      destruct Ha; simpl in *; try done; (try (exfalso; by apply (Hone j _ Hj Hq))); lia.
Qed.

Lemma sema_inv_reachable n st : reachable false n st -> sema_inv st.
Proof.
  unfold reachable. intros Hr. pose proof (sema_inv_initial n) as Hi. revert Hi.
  induction Hr as [st|st1 st2 st3 Hs _ IH]; [done|]. intros Hi. by eapply IH, sema_inv_step.
Qed.

(** ** What the semaphore promises *)

(** C30: in every interleaving of any number of threads in which no thread calls
    [unlock] without a [lock] before it, while one thread has suspended a segment no
    other thread holds it and no other has suspended it.  (With such an [unlock] both
    can happen, see [stray_unlock_breaks_exclusion].) *)
Theorem sema_mutual_exclusion n st i p :
  reachable false n st -> threads st !! i = Some p -> has_suspended p = true ->
  forall j q, threads st !! j = Some q -> holds_lock q = false /\ (j <> i -> suspends q = false).
Proof.
  intros Hr Hi Hp j q Hj. apply sema_inv_reachable in Hr as Hinv. split.
  - apply (count_zero holds_lock (threads st) j); [|done]. by apply (si_done _ Hinv i p).
  - intros Hne. destruct (suspends q) eqn:Hq; [|done].
    assert (suspends p = true) as Hsp by (by destruct p).
    pose proof (count_two suspends (threads st) j i q p Hne Hj Hi Hq Hsp). pose proof (si_one _ Hinv). lia.
Qed.

(** the wait of [suspend] is neither too short nor endless: its condition
    holds exactly when no thread holds the lock. *)
Theorem sema_wait_exact n st i val :
  reachable false n st -> threads st !! i = Some (Waiting val) ->
  (val = 0 \/ sema st = 0 - val - 1)
  <-> forall j q, threads st !! j = Some q -> holds_lock q = false.
Proof.
  intros Hr Hi. apply sema_inv_reachable in Hr as Hinv. destruct (si_wait _ Hinv i val Hi) as [Hv Hs].
  pose proof (si_closed _ Hinv) as Hc. pose proof (count_pos suspends _ i _ Hi eq_refl).
  pose proof (si_one _ Hinv). pose proof (count_nonneg holds_lock (threads st)).
  assert (count holds_lock (threads st) = 0 <-> val = 0 \/ sema st = 0 - val - 1) as <- by lia.
  split.
  - intros Hz j q Hj. by apply (count_zero holds_lock (threads st) j).
  - intros Hno. unfold count. rewrite filter_none; [done|]. apply Forall_lookup. intros j q Hj.
    rewrite (Hno j q Hj). by intros [].
Qed.

(** ** An unlock that has no lock

    After an [unlock] by a thread that does not hold the lock, the counter of an
    otherwise unused semaphore is negative: from then on every [lock] and every
    [suspend] is refused. *)

Definition shut (p : pc) : Prop := p = Idle \/ p = LockTry (-1) \/ p = SuspendTry (-1).

Lemma shut_step st st' :
  sema st = -1 -> Forall shut (threads st) -> step false st st' -> sema st' = -1 /\ Forall shut (threads st').
Proof.
  intros Hs Hf Hst. destruct Hst as [s ts i p s' p' Hi Ha]. simpl in *. subst s.
  assert (shut p) as Hp by (by apply (Forall_lookup_1 _ _ _ _ Hf Hi)).
  enough (s' = -1 /\ shut p') as [-> Hp'] by (split; [done|by apply Forall_insert]).
  unfold shut in *. destruct Hp as [-> |[-> | ->]]; inversion Ha; subst; try done; (split; [lia|]); auto; lia.
Qed.

Theorem unlock_unheld_blocks n st :
  access true 0 (StrayTry 0) (-1) Idle /\
  (rtc (step false) (MkSystem (-1) (replicate n Idle)) st ->
   forall i p, threads st !! i = Some p -> holds_lock p = false /\ suspends p = false).
Proof.
  split; [apply (stray_swap true 0)|]. intros Hr.
  assert (sema st = -1 /\ Forall shut (threads st)) as [_ Hf].
  { remember (MkSystem (-1) (replicate n Idle)) as st0 eqn:Hst0.
    assert (sema st0 = -1 /\ Forall shut (threads st0)) as Hinit.
    { subst. split; [done|]. apply Forall_replicate. by left. }
    clear Hst0. induction Hr as [|st1 st2 st3 Hs _ IH]; [done|].
    apply IH. destruct Hinit. by apply (shut_step st1). }
  intros i p Hi. apply (Forall_lookup_1 _ _ _ _ Hf) in Hi as [->|[-> | ->]]; done.
Qed.

(** ** A run *)

Ltac take_step i := eapply rtc_l; [eapply (step_thread _ _ _ i); [reflexivity|]|simpl].

(** Thread 0 locks, thread 1 suspends and waits, thread 0 unlocks, thread 1 is
    done. *)
Lemma run_waiting : reachable false 2 (MkSystem (-1) [Holding; Waiting 1]).
Proof.
  unfold reachable, initial. take_step 0%nat; [apply lock_begin|]. take_step 0%nat; [apply lock_swap; lia|].
  take_step 1%nat; [apply suspend_begin|]. take_step 1%nat; [apply suspend_swap; lia|]. apply rtc_refl.
Qed.

Lemma run_suspended : reachable false 2 (MkSystem (-2) [Idle; Suspended]).
Proof.
  unfold reachable. etrans; [exact run_waiting|].
  take_step 0%nat; [apply unlock_begin|]. take_step 0%nat; [apply unlock_swap|].
  take_step 1%nat; [apply suspend_done; by right|]. apply rtc_refl.
Qed.

(** Thread 0 holds a segment, thread 2 unlocks it, and thread 1 suspends it at once. *)
Example stray_unlock_breaks_exclusion : reachable true 3 (MkSystem (-1) [Holding; Suspended; Idle]).
Proof.
  unfold reachable, initial. take_step 0%nat; [apply lock_begin|]. take_step 0%nat; [apply lock_swap; lia|].
  take_step 2%nat; [by apply stray_begin|]. take_step 2%nat; [apply stray_swap|].
  take_step 1%nat; [apply suspend_begin|]. take_step 1%nat; [apply suspend_swap; lia|].
  take_step 1%nat; [apply suspend_done; by left|]. apply rtc_refl.
Qed.

Lemma sema_mutual_exclusion_witness : holds_lock Idle = false.
Proof.
  exact (proj1 (sema_mutual_exclusion 2 _ 1 Suspended run_suspended eq_refl eq_refl 0 Idle eq_refl)).
Defined.

Lemma sema_wait_exact_witness : ~ (1 = 0 \/ -1 = 0 - 1 - 1).
Proof.
  intros Hw. pose proof (proj1 (sema_wait_exact 2 _ 1 1 run_waiting eq_refl) Hw 0%nat Holding eq_refl) as Hf.
  discriminate Hf.
Defined.
