(* ===== verification/Wire.v ===== *)
(** * What client and server agree on (client/rdpma.h, rdpma.c, server/rdma_svr.h, rdma_svr.cpp)

    A request is a 32-bit immediate value, packed by [bit_mask] on one side and
    taken apart by [bit_unmask] on the other, and an entry of the metadata
    region of the server, whose place both sides compute from the queue and the
    message number.  Each side has its own copy of the macros; the modules [Svr]
    and [Cli] translate them one by one.

    The theorems: the immediate value survives the way from one side to the
    other, the entries of different requests do not overlap, and the two sides
    compute the same places. *)

From S2P Require Import Prelude PairDefs HashFun.

(** ** Memory

    Registered memory, a byte at every address, and what a remote write does
    to it. *)

Definition memory : Type := Z -> Z.

Definition read (m : memory) (a : Z) (n : nat) : list Z := (fun i => m (a + Z.of_nat i)) <$> seq 0 n.

Definition write (m : memory) (a : Z) (bs : list Z) : memory :=
  fun x => if (a <=? x) && (x <? a + Z.of_nat (length bs)) then default 0 (bs !! Z.to_nat (x - a)) else m x.

(** A [uint64_t] in memory, little endian. *)
Definition read64 (m : memory) (a : Z) : Z := le_word (read m a 8).
Definition write64 (m : memory) (a z : Z) : memory := write m a (le_bytes 8 z).

(** The verbs library: an RDMA write, or a send into a posted receive, puts the
    bytes of its gather list at the remote address and changes nothing else. *)
Class Verbs := {
  rdma_write : memory -> Z -> list Z -> memory;
  rdma_write_inside : forall m a bs i b, bs !! i = Some b -> rdma_write m a bs (a + Z.of_nat i) = b;
  rdma_write_outside : forall m a bs x,
    (x < a \/ a + Z.of_nat (length bs) <= x) -> rdma_write m a bs x = m x;
}.

(** [htonl] and [ntohl] on a little-endian machine. *)
Definition htonl (x : Z) : Z := le_word (rev (le_bytes 4 x)).
Definition ntohl (x : Z) : Z := le_word (rev (le_bytes 4 x)).

(** The two enumerations, which both sides declare in the same order. *)
Inductive msg_type :=
  MSG_WRITE_REQUEST | MSG_WRITE_REQUEST_REPLY | MSG_WRITE | MSG_WRITE_REPLY
| MSG_READ_REQUEST | MSG_READ_REQUEST_REPLY | MSG_READ | MSG_READ_REPLY.

Inductive tx_state :=
  TX_WRITE_BEGIN | TX_WRITE_READY | TX_WRITE_COMMITTED | TX_WRITE_ABORTED
| TX_READ_BEGIN | TX_READ_READY | TX_READ_COMMITTED | TX_READ_ABORTED.

Definition msg_code (t : msg_type) : Z :=
  match t with
  | MSG_WRITE_REQUEST => 0 | MSG_WRITE_REQUEST_REPLY => 1 | MSG_WRITE => 2 | MSG_WRITE_REPLY => 3
  | MSG_READ_REQUEST => 4 | MSG_READ_REQUEST_REPLY => 5 | MSG_READ => 6 | MSG_READ_REPLY => 7
  end.

Definition tx_code (t : tx_state) : Z :=
  match t with
  | TX_WRITE_BEGIN => 0 | TX_WRITE_READY => 1 | TX_WRITE_COMMITTED => 2 | TX_WRITE_ABORTED => 3
  | TX_READ_BEGIN => 4 | TX_READ_READY => 5 | TX_READ_COMMITTED => 6 | TX_READ_ABORTED => 7
  end.

(** The fields of an immediate value. *)
Record fields := MkFields { f_num : Z; f_msg : Z; f_type : Z; f_state : Z; f_qid : Z }.

(** ** The server's side *)

Module Svr.

Definition PAGE_SIZE : Z := 4096.
Definition BATCH_SIZE : Z := 4.
Definition NUM_CLIENT : Z := 4.
Definition NUM_QUEUES : Z := 8.
Definition MAX_BATCH : Z := 1.
Definition NUM_ENTRY : Z := 4.
Definition METADATA_SIZE : Z := 8 * BATCH_SIZE.
Definition ENTRY_SIZE : Z := METADATA_SIZE + PAGE_SIZE * MAX_BATCH.
Definition CLIENT_META_REGION_SIZE : Z := NUM_QUEUES * NUM_ENTRY * ENTRY_SIZE.
Definition LOCAL_META_REGION_SIZE : Z := NUM_CLIENT * CLIENT_META_REGION_SIZE.

Definition GET_CLIENT_BASE (addr nid : Z) : Z := addr + nid * CLIENT_META_REGION_SIZE.
Definition GET_LOCAL_META_REGION (addr qid mid : Z) : Z :=
  addr + NUM_ENTRY * ENTRY_SIZE * qid + ENTRY_SIZE * mid.
Definition GET_BATCH_SIZE (addr qid mid : Z) : Z :=
  addr + NUM_ENTRY * ENTRY_SIZE * qid + ENTRY_SIZE * mid + 8.
Definition GET_REMOTE_ADDRESS_BASE (addr qid mid : Z) : Z :=
  addr + NUM_ENTRY * ENTRY_SIZE * qid + ENTRY_SIZE * mid + 16.
Definition GET_LOCAL_PAGE_REGION (addr qid mid : Z) : Z :=
  addr + NUM_ENTRY * ENTRY_SIZE * qid + ENTRY_SIZE * mid + METADATA_SIZE.
Definition GET_OFFSET_FROM_BASE (qid mid : Z) : Z := NUM_ENTRY * ENTRY_SIZE * qid + ENTRY_SIZE * mid.
Definition GET_OFFSET_FROM_BASE_TO_ADDR (qid mid : Z) : Z :=
  NUM_ENTRY * ENTRY_SIZE * qid + ENTRY_SIZE * mid + 16.
Definition GET_FREE_PAGE_REGION (addr : Z) : Z := addr + LOCAL_META_REGION_SIZE.

Definition bit_mask (num msg_num type state qid : Z) : Z :=
  Z.lor (Z.lor (Z.lor (Z.lor (u32 (u32 num ≪ 28)) (u32 (u32 msg_num ≪ 16))) (u32 (u32 type ≪ 12)))
           (u32 (u32 state ≪ 8))) (Z.land (u32 qid) 255).

Definition bit_unmask (target : Z) : fields :=
  MkFields (Z.land (target ≫ 28) 15) (Z.land (target ≫ 16) 4095) (Z.land (target ≫ 12) 15)
    (Z.land (target ≫ 8) 15) (Z.land target 255).

Definition longkeyToKey (longkey : Z) : Z := longkey ≫ 32.

End Svr.

(** ** The client's side *)

Module Cli.

Definition PAGE_SIZE : Z := 4096.
Definition BATCH_SIZE : Z := 4.
Definition NUM_QUEUES : Z := 8.
Definition MAX_BATCH : Z := 1.
Definition NUM_ENTRY : Z := 4.
Definition METADATA_SIZE : Z := 8 * BATCH_SIZE.
Definition ENTRY_SIZE : Z := METADATA_SIZE + PAGE_SIZE * MAX_BATCH.
Definition LOCAL_META_REGION_SIZE : Z := NUM_QUEUES * NUM_ENTRY * ENTRY_SIZE.

Definition GET_LOCAL_META_REGION (addr qid mid : Z) : Z :=
  addr + NUM_ENTRY * ENTRY_SIZE * qid + ENTRY_SIZE * mid.
Definition GET_REMOTE_ADDRESS_BASE (addr qid mid : Z) : Z :=
  addr + NUM_ENTRY * ENTRY_SIZE * qid + ENTRY_SIZE * mid + 16.
Definition GET_OFFSET_FROM_BASE (qid mid : Z) : Z := NUM_ENTRY * ENTRY_SIZE * qid + ENTRY_SIZE * mid.
Definition GET_OFFSET_FROM_BASE_TO_ADDR (qid mid : Z) : Z :=
  NUM_ENTRY * ENTRY_SIZE * qid + ENTRY_SIZE * mid + 16.
Definition GET_OFFSET_FROM_BASE_TO_PAGE (qid mid : Z) : Z :=
  NUM_ENTRY * ENTRY_SIZE * qid + ENTRY_SIZE * mid + METADATA_SIZE.

Definition bit_mask (num msg_num type state qid : Z) : Z :=
  Z.lor (Z.lor (Z.lor (Z.lor (u32 (u32 num ≪ 28)) (u32 (u32 msg_num ≪ 16))) (u32 (u32 type ≪ 12)))
           (u32 (u32 state ≪ 8))) (Z.land (u32 qid) 255).

Definition bit_unmask (target : Z) : fields :=
  MkFields (Z.land (target ≫ 28) 15) (Z.land (target ≫ 16) 4095) (Z.land (target ≫ 12) 15)
    (Z.land (target ≫ 8) 15) (Z.land target 255).

(** [rdpma_get_queue_id]; half of the queues are for reads. *)
Inductive qp_type := QP_READ_SYNC | QP_READ_ASYNC | QP_WRITE_SYNC | QP_TEST_SYNC.

#[global] Instance qp_type_eq_dec : EqDecision qp_type.
Proof. solve_decision. Defined.

(** [None] is [BUG()], or a division by zero with fewer than two queues. *)
Definition rdpma_get_queue_id (numqueues cpuid : Z) (type : qp_type) : option Z :=
  cpuid ← urem cpuid (numqueues / 2);
  match type with
  | QP_READ_SYNC => Some cpuid
  | QP_WRITE_SYNC => Some (cpuid + numqueues / 2)
  | _ => None
  end.

(** [msg_id = cpuid / (numqueues / 2)] *)
Definition message_id (numqueues cpuid : Z) : option Z :=
  if numqueues / 2 =? 0 then None else Some (cpuid / (numqueues / 2)).

End Cli.

(** [get_longkey] of client/julee.c, on 64-bit words. *)
Definition get_longkey (key index : Z) : Z := Z.lor (u64 (key ≪ 32)) (u64 index).

(** ** Reads after writes *)

Lemma read_length m a n : length (read m a n) = n.
Proof. unfold read. by rewrite length_fmap, length_seq. Qed.

Lemma read_lookup m a n i : (i < n)%nat -> read m a n !! i = Some (m (a + Z.of_nat i)).
Proof. intros Hi. unfold read. by rewrite list_lookup_fmap, lookup_seq_lt. Qed.

Lemma read_ext m m' a n :
  (forall x, a <= x < a + Z.of_nat n -> m x = m' x) -> read m a n = read m' a n.
Proof.
  intros Hx. apply list_eq_same_length with n; [apply read_length..|]. intros i x y Hi Hxi Hyi.
  rewrite read_lookup in Hxi, Hyi by done. rewrite Hx in Hxi by lia. congruence.
Qed.

Lemma read_of_list m a bs :
  (forall i b, bs !! i = Some b -> m (a + Z.of_nat i) = b) -> read m a (length bs) = bs.
Proof.
  intros Hbs. apply list_eq_same_length with (length bs); [done|apply read_length|].
  intros i x y Hi Hx Hy. rewrite read_lookup in Hx by done. rewrite (Hbs i y Hy) in Hx. congruence.
Qed.

(** A row of pieces of the same length. *)
Lemma concat_lookup_chunk {A} (n : nat) (ls : list (list A)) i l j b :
  Forall (fun l => length l = n) ls -> ls !! i = Some l -> l !! j = Some b ->
  concat ls !! (n * i + j)%nat = Some b.
Proof.
  intros Hls. revert i. induction Hls as [|l' ls Hl' Hls IH]; intros [|i] Hi Hj; try done.
  - injection Hi as ->. cbn [concat]. rewrite Nat.mul_0_r, Nat.add_0_l. by apply lookup_app_l_Some.
  - cbn [concat]. rewrite lookup_app_r by lia. rewrite Hl'.
    replace (n * S i + j - n)%nat with (n * i + j)%nat by lia. by apply IH.
Qed.

Lemma concat_length_const {A} (n : nat) (ls : list (list A)) :
  Forall (fun l => length l = n) ls -> length (concat ls) = (n * length ls)%nat.
Proof.
  induction 1 as [|l ls Hl _ IH]; cbn [concat length]; [lia|]. rewrite length_app, Hl, IH. lia.
Qed.

Lemma read_chunk m a n ls i l :
  (forall x b, concat ls !! x = Some b -> m (a + Z.of_nat x) = b) ->
  Forall (fun l => length l = n) ls -> ls !! i = Some l ->
  read m (a + Z.of_nat n * Z.of_nat i) n = l.
Proof.
  intros Hm Hls Hi. rewrite <- (Forall_lookup_1 _ _ _ _ Hls Hi) at 2. apply read_of_list. intros j b Hj.
  replace (a + Z.of_nat n * Z.of_nat i + Z.of_nat j) with (a + Z.of_nat (n * i + j)) by lia.
  apply Hm. by apply concat_lookup_chunk with l.
Qed.

Lemma write_inside m a bs i b : bs !! i = Some b -> write m a bs (a + Z.of_nat i) = b.
Proof.
  intros Hb. pose proof (lookup_lt_Some _ _ _ Hb). unfold write.
  destruct (Z.leb_spec a (a + Z.of_nat i)), (Z.ltb_spec (a + Z.of_nat i) (a + Z.of_nat (length bs))); try lia.
  cbn [andb]. replace (Z.to_nat (a + Z.of_nat i - a)) with i by lia. by rewrite Hb.
Qed.

Lemma write_outside m a bs x : (x < a \/ a + Z.of_nat (length bs) <= x) -> write m a bs x = m x.
Proof.
  intros Hx. unfold write. by destruct (Z.leb_spec a x), (Z.ltb_spec x (a + Z.of_nat (length bs))); try lia.
Qed.

(** The writes of the machine are a model of the verbs. *)
Definition machine_verbs : Verbs :=
  {| rdma_write := write; rdma_write_inside := write_inside; rdma_write_outside := write_outside |}.

(** ** The immediate value *)

Lemma lor_fields a b n k :
  0 <= n -> 0 <= k -> 0 <= b < 2 ^ n -> Z.lor (a ≪ (n + k)) (b ≪ k) = (a * 2 ^ n + b) ≪ k.
Proof.
  intros Hn Hk Hb. rewrite <- Z.shiftl_shiftl, <- Z.shiftl_lor by lia. by rewrite lor_shiftl.
Qed.

Definition fields_ok (f : fields) : Prop :=
  0 <= f_num f < 16 /\ 0 <= f_msg f < 4096 /\ 0 <= f_type f < 16 /\ 0 <= f_state f < 16 /\ 0 <= f_qid f < 256.

Lemma bit_mask_sum f :
  fields_ok f ->
  Svr.bit_mask (f_num f) (f_msg f) (f_type f) (f_state f) (f_qid f)
  = 2 ^ 28 * f_num f + 2 ^ 16 * f_msg f + 2 ^ 12 * f_type f + 2 ^ 8 * f_state f + f_qid f.
Proof.
  intros (Hn & Hm & Ht & Hs & Hq). unfold Svr.bit_mask.
  change 255 with (Z.ones 8). rewrite Z.land_ones by lia.
  rewrite !(wrap_small 32 (f_num f)), !(wrap_small 32 (f_msg f)), !(wrap_small 32 (f_type f)),
    !(wrap_small 32 (f_state f)), !(wrap_small 32 (f_qid f)) by lia.
  rewrite !wrap_small by (rewrite ?Z.shiftl_mul_pow2 by lia; lia).
  rewrite (lor_fields _ _ 12 16), (lor_fields _ _ 4 12), (lor_fields _ _ 4 8) by lia.
  rewrite (Z.mod_small (f_qid f)), lor_shiftl by lia. lia.
Qed.

Lemma bit_unmask_sum f :
  fields_ok f ->
  Svr.bit_unmask (2 ^ 28 * f_num f + 2 ^ 16 * f_msg f + 2 ^ 12 * f_type f + 2 ^ 8 * f_state f + f_qid f) = f.
Proof.
  intros (Hn & Hm & Ht & Hs & Hq). destruct f as [n m t s q]. cbn [f_num f_msg f_type f_state f_qid] in *.
  unfold Svr.bit_unmask. change 15 with (Z.ones 4). change 4095 with (Z.ones 12). change 255 with (Z.ones 8).
  rewrite !Z.land_ones, !Z.shiftr_div_pow2 by lia. f_equal.
  all: Z.div_mod_to_equations; lia.
Qed.

Lemma le_bytes_word bs :
  Forall (fun b => 0 <= b < 256) bs -> le_bytes (length bs) (le_word bs) = bs.
Proof.
  induction 1 as [|b bs Hb _ IH]; [done|]. cbn [length le_bytes le_word]. f_equal.
  - unfold u8, wrap. change (2 ^ 8) with 256. rewrite Z.mul_comm, Z.mod_add by lia. by apply Z.mod_small.
  - rewrite Z.shiftr_div_pow2 by lia. change (2 ^ 8) with 256.
    rewrite Z.mul_comm, Z.div_add, Z.div_small by lia. done.
Qed.

Lemma le_bytes_range n z : Forall (fun b => 0 <= b < 256) (le_bytes n z).
Proof.
  revert z. induction n as [|n IH]; intros z; cbn [le_bytes]; constructor; [|apply IH].
  apply (wrap_bound 8). lia.
Qed.

Lemma ntohl_htonl x : 0 <= x < 2 ^ 32 -> ntohl (htonl x) = x.
Proof.
  intros Hx. unfold ntohl, htonl.
  assert (length (rev (le_bytes 4 x)) = 4%nat) as Hl by (rewrite length_rev; apply le_bytes_length).
  rewrite <- Hl at 1. rewrite le_bytes_word, rev_involutive; [apply le_word_bytes; lia|].
  rewrite <- Permutation_rev. apply le_bytes_range.
Qed.

Lemma unmask_wire f :
  fields_ok f ->
  Svr.bit_unmask (ntohl (htonl (Svr.bit_mask (f_num f) (f_msg f) (f_type f) (f_state f) (f_qid f)))) = f.
Proof.
  intros Hf. rewrite bit_mask_sum, ntohl_htonl, bit_unmask_sum by (done || destruct Hf as (? & ? & ? & ? & ?); lia).
  done.
Qed.

(** an immediate value that one side packs is taken apart by the other into the
    same five fields, through [htonl] and [ntohl], for every value that fits its
    field. *)
Theorem immediate_roundtrip f :
  fields_ok f ->
  Svr.bit_unmask (ntohl (htonl (Cli.bit_mask (f_num f) (f_msg f) (f_type f) (f_state f) (f_qid f)))) = f
  /\ Cli.bit_unmask (ntohl (htonl (Svr.bit_mask (f_num f) (f_msg f) (f_type f) (f_state f) (f_qid f)))) = f.
Proof.
  intros Hf. change Cli.bit_mask with Svr.bit_mask. change Cli.bit_unmask with Svr.bit_unmask.
  by rewrite unmask_wire.
Qed.

Lemma immediate_roundtrip_witness :
  Svr.bit_unmask (ntohl (htonl (Cli.bit_mask 1 3 (msg_code MSG_READ) (tx_code TX_READ_BEGIN) 5)))
  = MkFields 1 3 6 4 5.
Proof. refine (proj1 (immediate_roundtrip (MkFields 1 3 6 4 5) _)). unfold fields_ok. simpl. lia. Defined.

(** A message number of 4096 runs into the field above it. *)
Example message_number_overflow :
  Svr.bit_unmask (Cli.bit_mask 1 4096 (msg_code MSG_READ) (tx_code TX_READ_BEGIN) 5) = MkFields 1 0 6 4 5.
Proof. reflexivity. Qed.

(** ** The metadata region *)

(** The message number of a request: a get of the two-sided build has that of its processor, and a
    put of this build has 0, whatever its processor. *)
Definition request_message (numqueues cpuid : Z) (type : Cli.qp_type) : option Z :=
  match type with Cli.QP_WRITE_SYNC => Some 0 | _ => Cli.message_id numqueues cpuid end.

(** The place of the request of a processor. *)
Definition request_entry (numqueues base cpuid : Z) (type : Cli.qp_type) : option Z :=
  qid ← Cli.rdpma_get_queue_id numqueues cpuid type;
  mid ← request_message numqueues cpuid type;
  Some (base + Cli.GET_OFFSET_FROM_BASE qid mid).

Definition sync (type : Cli.qp_type) : Prop := type = Cli.QP_READ_SYNC \/ type = Cli.QP_WRITE_SYNC.

(** The requests that have one place: those of one processor, and the writes of one queue, which
    its lock keeps apart. *)
Definition one_place (numqueues : Z) (r1 r2 : Z * Cli.qp_type) : Prop :=
  r1.2 = r2.2 /\ (r1.1 = r2.1 \/ r1.2 = Cli.QP_WRITE_SYNC /\ r1.1 mod (numqueues / 2) = r2.1 mod (numqueues / 2)).

Lemma request_entry_eq numqueues base cpuid type :
  2 <= numqueues -> sync type ->
  request_entry numqueues base cpuid type =
  Some (base + 16512 * (cpuid mod (numqueues / 2) + (if decide (type = Cli.QP_WRITE_SYNC) then numqueues / 2 else 0))
        + (if decide (type = Cli.QP_WRITE_SYNC) then 0 else 4128 * (cpuid / (numqueues / 2)))).
Proof.
  intros Hn Ht. assert (1 <= numqueues / 2) as Hh by (apply Z.div_le_lower_bound; lia).
  unfold request_entry, request_message, Cli.rdpma_get_queue_id, Cli.message_id. rewrite urem_pos by lia.
  destruct (Z.eqb_spec (numqueues / 2) 0); [lia|]. unfold Cli.GET_OFFSET_FROM_BASE.
  change (Cli.NUM_ENTRY * Cli.ENTRY_SIZE) with 16512. change Cli.ENTRY_SIZE with 4128.
  destruct Ht as [-> | ->]; cbn [mbind option_bind]; f_equal;
    [rewrite !decide_False by done|rewrite !decide_True by done]; lia.
Qed.

(** C37: while there are at most four processors per queue pair, every request has its place inside
    the region of the client.  The gets of different processors, the writes of different queues,
    and gets and writes have disjoint places; the writes of processors that share a queue have the
    same place. *)
Theorem entries_disjoint numqueues base c1 c2 t1 t2 a1 a2 :
  2 <= numqueues <= Cli.NUM_QUEUES -> sync t1 -> sync t2 ->
  0 <= c1 < Cli.NUM_ENTRY * (numqueues / 2) -> 0 <= c2 < Cli.NUM_ENTRY * (numqueues / 2) ->
  request_entry numqueues base c1 t1 = Some a1 -> request_entry numqueues base c2 t2 = Some a2 ->
  (base <= a1 /\ a1 + Cli.ENTRY_SIZE <= base + Cli.LOCAL_META_REGION_SIZE)
  /\ (one_place numqueues (c1, t1) (c2, t2) -> a1 = a2)
  /\ (~ one_place numqueues (c1, t1) (c2, t2) -> a1 + Cli.ENTRY_SIZE <= a2 \/ a2 + Cli.ENTRY_SIZE <= a1).
Proof.
  intros Hn Ht1 Ht2 Hc1 Hc2. rewrite !request_entry_eq by (done || lia). unfold one_place. cbn [fst snd].
  change Cli.ENTRY_SIZE with 4128. change Cli.LOCAL_META_REGION_SIZE with 132096.
  change Cli.NUM_ENTRY with 4 in *. change Cli.NUM_QUEUES with 8 in *.
  assert (1 <= numqueues / 2 <= 4) as Hh.
  { split; [apply Z.div_le_lower_bound; lia|apply Z.div_le_upper_bound; lia]. }
  set (h := numqueues / 2) in *. intros Ha1 Ha2. injection Ha1 as <-. injection Ha2 as <-.
  pose proof (Z.div_mod c1 h ltac:(lia)) as E1. pose proof (Z.mod_pos_bound c1 h ltac:(lia)).
  pose proof (Z.div_mod c2 h ltac:(lia)) as E2. pose proof (Z.mod_pos_bound c2 h ltac:(lia)).
  assert (0 <= c1 / h < 4) by (split; [apply Z.div_pos; lia|apply Z.div_lt_upper_bound; lia]).
  assert (0 <= c2 / h < 4) by (split; [apply Z.div_pos; lia|apply Z.div_lt_upper_bound; lia]).
  set (q1 := c1 mod h) in *. set (q2 := c2 mod h) in *. set (m1 := c1 / h) in *. set (m2 := c2 / h) in *.
  split; [repeat destruct (decide _); lia|]. split.
  - intros [<- [<- | [-> Hq]]]; [done|]. rewrite !decide_True by done. lia.
  - intros Hne. assert (q1 = q2 -> m1 = m2 -> c1 = c2) as Hinj by (intros Hq Hm; rewrite E1, E2, Hq, Hm; done).
    clearbody q1 q2 m1 m2 h. clear E1 E2. destruct Ht1 as [-> | ->], Ht2 as [-> | ->]; repeat destruct (decide _); try congruence; try lia.
    + assert (q1 <> q2 \/ m1 <> m2) as Hd; [|clear Hne Hinj; lia].
      destruct (decide (q1 = q2)) as [Hq|]; [|by left]. right. intros Hm. apply Hne. split; [done|]. left. by apply Hinj.
    + assert (q1 <> q2) by (intros Hq; apply Hne; auto). clear Hne Hinj. lia.
Qed.

(** A get of processor 9 and a write of processor 5; the writes of processors 5 and 1. *)
Lemma entries_disjoint_witness :
  (16512 * 1 + 4128 * 2 + Cli.ENTRY_SIZE <= 16512 * 5 \/ 16512 * 5 + Cli.ENTRY_SIZE <= 16512 * 1 + 4128 * 2)
  /\ one_place 8 (5, Cli.QP_WRITE_SYNC) (1, Cli.QP_WRITE_SYNC).
Proof.
  split; [|split; [done|right; done]].
  refine (proj2 (proj2 (entries_disjoint 8 0 9 5 Cli.QP_READ_SYNC Cli.QP_WRITE_SYNC _ _ _ _ _ _ _ eq_refl eq_refl)) _).
  - vm_compute. split; discriminate.
  - by left.
  - by right.
  - vm_compute. split; [discriminate|reflexivity].
  - vm_compute. split; [discriminate|reflexivity].
  - intros [Ht _]. discriminate Ht.
Defined.

(** The seventeenth processor shares the entry of the second one. *)
Example entries_collide :
  request_entry 8 0 16 Cli.QP_READ_SYNC = request_entry 8 0 1 Cli.QP_READ_SYNC.
Proof. reflexivity. Qed.

(** ** Keys *)

(** file and page number can be read back from the key that is sent, so two
    pages share a key only if both numbers are the same; for numbers of 32 bits. *)
Theorem longkey_injective k1 i1 k2 i2 :
  0 <= k1 < 2 ^ 32 -> 0 <= i1 < 2 ^ 32 -> 0 <= k2 < 2 ^ 32 -> 0 <= i2 < 2 ^ 32 ->
  Svr.longkeyToKey (get_longkey k1 i1) = k1
  /\ (get_longkey k1 i1 = get_longkey k2 i2 -> k1 = k2 /\ i1 = i2).
Proof.
  assert (forall k i, 0 <= k < 2 ^ 32 -> 0 <= i < 2 ^ 32 -> get_longkey k i = k * 2 ^ 32 + i) as Heq.
  { intros k i Hk Hi. unfold get_longkey.
    rewrite !wrap_small by (rewrite ?Z.shiftl_mul_pow2 by lia; lia). by apply lor_shiftl. }
  intros H1 H2 H3 H4. rewrite !Heq by done. unfold Svr.longkeyToKey. rewrite Z.shiftr_div_pow2 by lia.
  split; [|lia]. rewrite Z.div_add_l, Z.div_small by lia. lia.
Qed.

Lemma longkey_injective_witness : Svr.longkeyToKey (get_longkey 7 9) = 7.
Proof. refine (proj1 (longkey_injective 7 9 7 9 _ _ _ _)); lia. Defined.

(** A page number of more than 32 bits is taken for one of another file. *)
Example longkey_collision : get_longkey 6 (2 ^ 32 + 5) = get_longkey 7 5.
Proof. reflexivity. Qed.
