(* ===== verification/Server.v ===== *)
(** * The RDMA server (server/rdma_svr.cpp)

    The server owns one registered buffer, [global_mr]: a region of free pages,
    handed out in order by [page_offset], and behind it the metadata regions of
    the clients.  A poller thread per queue takes completions and calls the
    handler of the message: it stores the page of a put and its key, or looks a
    key up and sends the page.

    The handlers are functions from a state to a state and the message they
    send.  The state has the whole buffer as bytes, so that a page that runs
    into a metadata region would be seen.  The theorems say when it cannot. *)

From S2P Require Import Prelude PairDefs HashFun CountingBloom LinearProbing KV Wire.

(** ** State *)

(** What the program is started with: the address of the buffer, its size, and
    the memory region of each client. *)
Record config : Type := MkConfig {
  global_mr : Z;
  BUFFER_SIZE : Z;
  clientmr : Z -> Z;
}.

(** The variants of the build: [NORMALPUT], [BIGMRPUT] or neither; [NORMALGET],
    or [BIGMRGET] and [TWOSIDED], which use the same handler. *)
Inductive put_build := NORMALPUT | BIGMRPUT | NOPUT.
Inductive get_build := NORMALGET | BIGMRGET.

Record server (T : Type) : Type := MkServer {
  smem : memory;
  skv : KV T;
  page_offset : Z;
  putcnt : Z;
  getcnt : Z;
  found_cnt : Z;
  notfound_cnt : Z;
  recvs : gmap (Z * Z) (list Z);   (** posted receives of a queue, oldest first *)
}.
Arguments MkServer {T}.
Arguments smem {T}.
Arguments skv {T}.
Arguments page_offset {T}.
Arguments putcnt {T}.
Arguments getcnt {T}.
Arguments found_cnt {T}.
Arguments notfound_cnt {T}.
Arguments recvs {T}.

(** What a handler sends back: an immediate value, with or without data that is
    written at an address of the client. *)
Inductive send :=
| SendImm (imm : Z)
| SendData (addr : Z) (data : list Z) (imm : Z).

(** A completion of the receive queue. *)
Inductive completion :=
| WC_RECV_RDMA_WITH_IMM (imm : Z)
| WC_RDMA_READ
| WC_RECV (wr_id imm : Z)
| WC_OTHER.

Section Operations.
Context {T : Type} `{IHash T} (cfg : config).

(** [ctrl->local_mm] of [get_device] *)
Definition local_mm (cid : Z) : Z :=
  global_mr cfg + BUFFER_SIZE cfg + Svr.LOCAL_META_REGION_SIZE * cid.

Definition page_at (offset : Z) : Z :=
  u64 (Svr.GET_FREE_PAGE_REGION (global_mr cfg) + Svr.PAGE_SIZE * offset).

Definition set_mem (st : server T) (m : memory) : server T :=
  MkServer m (skv st) (page_offset st) (putcnt st) (getcnt st) (found_cnt st) (notfound_cnt st) (recvs st).
Definition set_kv (st : server T) (kv : KV T) : server T :=
  MkServer (smem st) kv (page_offset st) (putcnt st) (getcnt st) (found_cnt st) (notfound_cnt st) (recvs st).
Definition set_offset (st : server T) (o : Z) : server T :=
  MkServer (smem st) (skv st) o (putcnt st) (getcnt st) (found_cnt st) (notfound_cnt st) (recvs st).
Definition set_recvs (st : server T) (r : gmap (Z * Z) (list Z)) : server T :=
  MkServer (smem st) (skv st) (page_offset st) (putcnt st) (getcnt st) (found_cnt st) (notfound_cnt st) r.
Definition count_put (n : Z) (st : server T) : server T :=
  MkServer (smem st) (skv st) (page_offset st) (s32 (putcnt st + n)) (getcnt st) (found_cnt st) (notfound_cnt st)
    (recvs st).
Definition count_get (st : server T) : server T :=
  MkServer (smem st) (skv st) (page_offset st) (putcnt st) (s32 (getcnt st + 1)) (found_cnt st) (notfound_cnt st)
    (recvs st).
Definition count_read (found : bool) (st : server T) : server T :=
  MkServer (smem st) (skv st) (page_offset st) (putcnt st) (getcnt st)
    (if found then s32 (found_cnt st + 1) else found_cnt st)
    (if found then notfound_cnt st else s32 (notfound_cnt st + 1)) (recvs st).

(** [ibv_post_recv] appends to the receive queue. *)
Definition post (st : server T) (cid qid addr : Z) : server T :=
  set_recvs st (<[(cid, qid) := default [] (recvs st !! (cid, qid)) ++ [addr]]> (recvs st)).
Definition post_recv (st : server T) (cid qid : Z) : server T := post st cid qid 0.
Definition post_recv_with_addr (st : server T) (addr cid qid : Z) : server T := post st cid qid addr.

(** A message takes the oldest receive. *)
Definition take_recv (st : server T) (cid qid : Z) : option (Z * server T) :=
  match recvs st !! (cid, qid) with
  | Some (a :: l) => Some (a, set_recvs st (<[(cid, qid) := l]> (recvs st)))
  | _ => None
  end.

(** [kv->Insert(local_keys[i], cur_page)] *)
Definition insert_page (target : Z) (keys : list Z) (kv : KV T) (i : nat) : option (KV T) :=
  key ← keys !! i;
  '(kv, _) ← KV.Insert kv key (u64 (target + Svr.PAGE_SIZE * Z.of_nat i));
  Some kv.

Definition batch_keys (m : memory) (addr : Z) : list Z :=
  (fun i => read64 m (addr + 8 * Z.of_nat i)) <$> seq 0 (Z.to_nat Svr.BATCH_SIZE).

(** [sent] says whether the completion of the reply was a success; otherwise the
    handler returns before it posts the next receive. *)
Definition process_write_twosided (sent : bool) (st : server T) (target cid qid mid : Z)
  : option (server T * send) :=
  let local_keys := batch_keys (smem st) (Svr.GET_LOCAL_META_REGION (local_mm cid) qid 0) in
  let reply := htonl (Svr.bit_mask 0 mid (msg_code MSG_READ_REPLY) (tx_code TX_WRITE_COMMITTED) qid) in
  kv ← foldM (insert_page target local_keys) (seq 0 (Z.to_nat Svr.BATCH_SIZE)) (skv st);
  let st := set_kv st kv in
  if sent then
    let local_page_offset := page_offset st in
    let st := set_offset st (u64 (page_offset st + Svr.BATCH_SIZE)) in
    Some (post_recv_with_addr st (page_at local_page_offset) cid qid, SendImm reply)
  else Some (st, SendImm reply).

Definition process_write (st : server T) (cid qid mid : Z) : option (server T * send) :=
  let local_key := read64 (smem st) (Svr.GET_LOCAL_META_REGION (local_mm cid) qid mid) in
  let page := Svr.GET_LOCAL_PAGE_REGION (local_mm cid) qid mid in
  let save_page := page_at (page_offset st) in
  let st := set_offset st (u64 (page_offset st + 1)) in
  let st := set_mem st (write (smem st) save_page (read (smem st) page (Z.to_nat Svr.PAGE_SIZE))) in
  '(kv, _) ← KV.Insert (skv st) local_key save_page;
  Some (set_kv st kv,
        SendImm (htonl (Svr.bit_mask 0 mid (msg_code MSG_READ_REPLY) (tx_code TX_WRITE_COMMITTED) qid))).

Definition process_read (st : server T) (cid qid mid : Z) : option (server T * send) :=
  let local_key := read64 (smem st) (Svr.GET_LOCAL_META_REGION (local_mm cid) qid mid) in
  let target_addr := Svr.GET_REMOTE_ADDRESS_BASE (local_mm cid) qid mid in
  '(kv, value) ← KV.Get (skv st) local_key;
  let st := set_kv st kv in
  if value =? 0 then
    Some (count_read false st,
          SendImm (htonl (Svr.bit_mask 0 mid (msg_code MSG_READ_REPLY) (tx_code TX_READ_ABORTED) qid)))
  else
    let st := count_read true st in
    Some (set_mem st (write (smem st) target_addr (read (smem st) value (Z.to_nat Svr.PAGE_SIZE))),
          SendImm (htonl (Svr.bit_mask 0 mid (msg_code MSG_READ_REPLY) (tx_code TX_READ_COMMITTED) qid))).

(** The address is sent before the page has arrived, and the key stored. *)
Definition process_write_odp (st : server T) (cid qid mid : Z) : option (server T * send) :=
  let local_key := read64 (smem st) (Svr.GET_LOCAL_META_REGION (local_mm cid) qid mid) in
  let target_addr := Svr.GET_REMOTE_ADDRESS_BASE (local_mm cid) qid mid in
  let save_page := page_at (page_offset st) in
  let st := set_offset st (u64 (page_offset st + 1)) in
  let st := set_mem st (write64 (smem st) target_addr save_page) in
  '(kv, _) ← KV.Insert (skv st) local_key save_page;
  Some (set_kv st kv,
        SendData (clientmr cfg cid + Svr.GET_OFFSET_FROM_BASE_TO_ADDR qid mid)
          (read (smem st) target_addr 8)
          (htonl (Svr.bit_mask 0 mid (msg_code MSG_READ_REPLY) (tx_code TX_WRITE_COMMITTED) qid))).

Definition process_read_odp (st : server T) (cid qid mid : Z) : option (server T * send) :=
  let local_key := read64 (smem st) (Svr.GET_LOCAL_META_REGION (local_mm cid) qid mid) in
  let local_remote_addr := read64 (smem st) (Svr.GET_REMOTE_ADDRESS_BASE (local_mm cid) qid mid) in
  '(kv, value) ← KV.Get (skv st) local_key;
  let st := set_kv st kv in
  if value =? 0 then
    Some (count_read false st,
          SendImm (htonl (Svr.bit_mask 0 mid (msg_code MSG_READ_REPLY) (tx_code TX_READ_ABORTED) qid)))
  else
    Some (count_read true st,
          SendData local_remote_addr (read (smem st) value (Z.to_nat Svr.PAGE_SIZE))
            (htonl (Svr.bit_mask 0 mid (msg_code MSG_READ_REPLY) (tx_code TX_READ_COMMITTED) qid))).

(** One round of the loop of [server_recv_poll_cq]. *)
Definition server_recv (pb : put_build) (gb : get_build) (sent : bool) (st : server T)
    (client_id queue_id : Z) (wc : completion) : option (server T * option send) :=
  match wc with
  | WC_RECV_RDMA_WITH_IMM imm =>
      let f := Svr.bit_unmask (ntohl imm) in
      let st := post_recv st client_id queue_id in
      if f_type f =? msg_code MSG_WRITE then
        let st := count_put 1 st in
        match pb with
        | NORMALPUT => '(st, s) ← process_write st client_id (f_qid f) (f_msg f); Some (st, Some s)
        | BIGMRPUT => '(st, s) ← process_write_odp st client_id (f_qid f) (f_msg f); Some (st, Some s)
        | NOPUT => Some (st, None)
        end
      else if f_type f =? msg_code MSG_READ then
        let st := count_get st in
        match gb with
        | NORMALGET => '(st, s) ← process_read st client_id (f_qid f) (f_msg f); Some (st, Some s)
        | BIGMRGET => '(st, s) ← process_read_odp st client_id (f_qid f) (f_msg f); Some (st, Some s)
        end
      else Some (st, None)
  | WC_RDMA_READ => Some (st, None)
  | WC_RECV wr_id imm =>
      if wr_id =? 0 then Some (st, None)
      else
        let st := count_put Svr.BATCH_SIZE st in
        let f := Svr.bit_unmask (ntohl imm) in
        '(st, s) ← process_write_twosided sent st wr_id client_id (f_qid f) (f_msg f);
        Some (st, Some s)
  | WC_OTHER => Some (st, None)
  end.

(** The receives that [main] posts for a queue of a client that has connected. *)
Definition prepost_one (cid qid : Z) (st : server T) (_ : nat) : option (server T) :=
  if qid <? Svr.NUM_QUEUES / 2 then Some (post_recv st cid qid)
  else
    let local_page_offset := page_offset st in
    let st := set_offset st (u64 (page_offset st + Svr.BATCH_SIZE)) in
    Some (post_recv_with_addr st (page_at local_page_offset) cid qid).
Definition prepost (st : server T) (cid qid : Z) : option (server T) :=
  foldM (prepost_one cid qid) (seq 0 100) st.

(** The loop of [main] over the queues of a client, and over [n] clients. *)
Definition accept_client (st : server T) (c : nat) : option (server T) :=
  foldM (fun st i => prepost st (Z.of_nat c) (Z.of_nat i)) (seq 0 (Z.to_nat Svr.NUM_QUEUES)) st.
Definition accept_clients (n : nat) (st : server T) : option (server T) :=
  foldM accept_client (seq 0 n) st.

(** The server before any client has connected: [alloc_control]. *)
Definition new_server (m : memory) (kv : KV T) : server T := MkServer m kv 0 0 0 0 0 ∅.

End Operations.

(** ** The buffer

    Free pages that lie below the metadata regions. *)

Section Pages.
Context (cfg : config).

Definition page_limit : Z := (BUFFER_SIZE cfg - Svr.LOCAL_META_REGION_SIZE) / Svr.PAGE_SIZE.

Record config_ok : Prop := {
  co_base : 0 < global_mr cfg;
  co_size : Svr.LOCAL_META_REGION_SIZE <= BUFFER_SIZE cfg;
  co_end : global_mr cfg + BUFFER_SIZE cfg + Svr.NUM_CLIENT * Svr.LOCAL_META_REGION_SIZE < 2 ^ 64;
}.
Hypothesis Hcfg : config_ok.

Lemma page_at_eq j :
  0 <= j < page_limit -> page_at cfg j = global_mr cfg + 528384 + 4096 * j
    /\ global_mr cfg + 528384 + 4096 * j + 4096 <= global_mr cfg + BUFFER_SIZE cfg.
Proof.
  unfold page_limit. destruct Hcfg as [Hb Hs He]. change Svr.LOCAL_META_REGION_SIZE with 528384 in *.
  change Svr.NUM_CLIENT with 4 in *. change Svr.PAGE_SIZE with 4096. intros Hj.
  pose proof (Z.div_mod (BUFFER_SIZE cfg - 528384) 4096 ltac:(lia)).
  pose proof (Z.mod_pos_bound (BUFFER_SIZE cfg - 528384) 4096 ltac:(lia)).
  unfold page_at, Svr.GET_FREE_PAGE_REGION. change Svr.LOCAL_META_REGION_SIZE with 528384.
  change Svr.PAGE_SIZE with 4096. split; [|lia]. apply wrap_small. lia.
Qed.

(** A place in a metadata region. *)
Definition in_meta (a : Z) (n : nat) : Prop :=
  global_mr cfg + BUFFER_SIZE cfg <= a /\ (n <= 4128)%nat.

Lemma entry_in_meta cid qid mid :
  0 <= cid -> 0 <= qid -> 0 <= mid -> in_meta (Svr.GET_LOCAL_META_REGION (local_mm cfg cid) qid mid) 0.
Proof.
  intros. unfold in_meta, Svr.GET_LOCAL_META_REGION, local_mm. change Svr.LOCAL_META_REGION_SIZE with 528384.
  change (Svr.NUM_ENTRY * Svr.ENTRY_SIZE) with 16512. change Svr.ENTRY_SIZE with 4128. lia.
Qed.

End Pages.

(** ** The invariant

    [hist] has the pages put so far.  Every pair of the table leads to a page that
    was put under its key, and no posted receive will overwrite it. *)

Section Invariant.
Context {T : Type} `{IHashPairs T} `{Verbs} (cfg : config).
Hypothesis Hcfg : config_ok cfg.

Definition page : Type := list Z.

(** A receive of the write queues: four pages from number [j] on. *)
Definition posted (st : server T) (cq : Z * Z) (i : nat) (j : Z) : Prop :=
  exists l, recvs st !! cq = Some l /\ l !! i = Some (page_at cfg j) /\ 0 <= j /\ j + 4 <= page_offset st.

(** [a] is a page of the buffer that was put under [k] and that no receive will
    overwrite. *)
Definition good (hist : list (Key_t * page)) (st : server T) (k a : Z) : Prop :=
  exists j p, 0 <= j < page_offset st /\ a = page_at cfg j /\ (k, p) ∈ hist
    /\ length p = 4096%nat /\ read (smem st) a 4096 = p
    /\ forall cq i j', posted st cq i j' -> j < j' \/ j' + 4 <= j.

Record server_inv (hist : list (Key_t * page)) (st : server T) : Prop := {
  sv_wf : ihp_wf (hash (skv st));
  sv_offset : 0 <= page_offset st <= page_limit cfg;
  sv_recv : forall cq l i a, recvs st !! cq = Some l -> l !! i = Some a ->
    a = 0 \/ exists j, a = page_at cfg j /\ posted st cq i j;
  sv_apart : forall cq i j cq' i' j', posted st cq i j -> posted st cq' i' j' -> (cq, i) <> (cq', i') ->
    j + 4 <= j' \/ j' + 4 <= j;
  sv_held : forall k a, valid_key k -> ihp_holds (hash (skv st)) k a -> good hist st k a;
}.

Lemma sv_mono hist hist' st : hist ⊆ hist' -> server_inv hist st -> server_inv hist' st.
Proof.
  intros Hsub [Q1 Q2 Q3 Q4 Q5]. split; try done. intros k a Hv Hh.
  destruct (Q5 k a Hv Hh) as (j & p & Hj & Ha & Hp & Hl & Hr & Hd). exists j, p. auto 10.
Qed.

(** Writes outside the free pages. *)
Lemma sv_set_mem hist st m :
  server_inv hist st ->
  (forall x, x < global_mr cfg + BUFFER_SIZE cfg -> m x = smem st x) ->
  server_inv hist (set_mem st m).
Proof.
  intros [Q1 Q2 Q3 Q4 Q5] Hm. split; try done. cbn [skv smem set_mem]. intros k a Hv Hh.
  destruct (Q5 k a Hv Hh) as (j & p & Hj & Ha & Hp & Hl & Hr & Hd). exists j, p. split_and!; try done; try apply Hj.
  rewrite <- Hr. apply read_ext. intros x Hx. apply Hm.
  destruct (page_at_eq cfg Hcfg j) as [Heq Hend]; [lia|]. rewrite Ha, Heq in Hx. lia.
Qed.

Lemma sv_meta_write hist st a bs :
  server_inv hist st -> global_mr cfg + BUFFER_SIZE cfg <= a ->
  server_inv hist (set_mem st (rdma_write (smem st) a bs)).
Proof.
  intros Hinv Ha. apply sv_set_mem; [done|]. intros x Hx. apply rdma_write_outside. lia.
Qed.

(** Another empty receive. *)
Lemma posted_post st cq i j cid qid a :
  posted (post st cid qid a) cq i j ->
  posted st cq i j \/ (cq = (cid, qid) /\ i = length (default [] (recvs st !! (cid, qid))) /\ a = page_at cfg j
                       /\ 0 <= j /\ j + 4 <= page_offset st).
Proof.
  intros (l & Hl & Hi & Hj & Ho). cbn [recvs set_recvs post page_offset] in *.
  destruct (decide (cq = (cid, qid))) as [->|Hne].
  - rewrite lookup_insert_eq in Hl. injection Hl as <-.
    destruct (decide (i < length (default [] (recvs st !! (cid, qid))))%nat) as [Hlt|Hge].
    + left. rewrite lookup_app_l in Hi by done. destruct (recvs st !! (cid, qid)) as [l|] eqn:Hr; [|done].
      by exists l.
    + right. rewrite lookup_app_r in Hi by lia. apply list_lookup_singleton_Some in Hi as [Hi ->].
      split_and!; (done || lia).
  - left. rewrite lookup_insert_ne in Hl by done. by exists l.
Qed.

Lemma posted_post_old st cq i j cid qid a : posted st cq i j -> posted (post st cid qid a) cq i j.
Proof.
  intros (l & Hl & Hi & Hj & Ho). unfold posted. cbn [recvs set_recvs post page_offset].
  destruct (decide (cq = (cid, qid))) as [->|Hne].
  - rewrite lookup_insert_eq, Hl. eexists. split; [done|]. cbn [default]. split; [|done].
    by rewrite lookup_app_l by (by eapply lookup_lt_Some).
  - rewrite lookup_insert_ne by done. by exists l.
Qed.

Lemma page_at_pos j : 0 <= j < page_limit cfg -> page_at cfg j <> 0.
Proof. intros Hj. destruct (page_at_eq cfg Hcfg j Hj) as [-> _]. pose proof (co_base _ Hcfg). lia. Qed.

Lemma page_at_inj j j' :
  0 <= j < page_limit cfg -> 0 <= j' < page_limit cfg -> page_at cfg j = page_at cfg j' -> j = j'.
Proof.
  intros Hj Hj'. destruct (page_at_eq cfg Hcfg j Hj) as [-> _], (page_at_eq cfg Hcfg j' Hj') as [-> _]. lia.
Qed.

(** What every step keeps of a page that is held: it stays where it is, its bytes
    do not change, and no new receive covers it. *)
Lemma good_keep hist (st st' : server T) k a :
  good hist st k a -> page_offset st <= page_offset st' ->
  (forall j, 0 <= j < page_offset st -> a = page_at cfg j ->
     (forall cq i j', posted st cq i j' -> j < j' \/ j' + 4 <= j) ->
     read (smem st') a 4096 = read (smem st) a 4096
     /\ forall cq i j', posted st' cq i j' -> j < j' \/ j' + 4 <= j) ->
  good hist st' k a.
Proof.
  intros (j & p & Hj & Ha & Hp & Hl & Hr & Hd) Ho Hk. destruct (Hk j Hj Ha Hd) as [Hr' Hd'].
  exists j, p. split; [lia|]. rewrite Hr'. exact (conj Ha (conj Hp (conj Hl (conj Hr Hd')))).
Qed.

(** Four pages that nothing uses. *)
Definition fresh (st : server T) (j : Z) : Prop :=
  (forall cq i j', posted st cq i j' -> j + 4 <= j' \/ j' + 4 <= j)
  /\ forall k a j', valid_key k -> ihp_holds (hash (skv st)) k a -> 0 <= j' < page_offset st -> a = page_at cfg j' ->
       j' < j \/ j + 4 <= j'.

Lemma sv_post hist st cid qid a :
  server_inv hist st ->
  (forall j, a = page_at cfg j -> 0 <= j -> j + 4 <= page_offset st -> fresh st j) ->
  a = 0 \/ (exists j, a = page_at cfg j /\ 0 <= j /\ j + 4 <= page_offset st) ->
  server_inv hist (post st cid qid a).
Proof.
  intros [Q1 Q2 Q3 Q4 Q5] Hf Ha. split; cbn [skv post set_recvs page_offset]; try done.
  - intros cq l i b Hl Hi. cbn [recvs post set_recvs] in Hl.
    assert (Hold : forall l, recvs st !! cq = Some l -> l !! i = Some b ->
      b = 0 \/ exists j, b = page_at cfg j /\ posted (post st cid qid a) cq i j).
    { intros l' Hl' Hi'. destruct (Q3 _ _ _ _ Hl' Hi') as [?|(j & Hb & Hp)]; [by left|right].
      exists j. split; [done|]. by apply posted_post_old. }
    destruct (decide (cq = (cid, qid))) as [->|Hne];
      [|rewrite lookup_insert_ne in Hl by done; by apply (Hold l)].
    rewrite lookup_insert_eq in Hl. injection Hl as <-. pose proof Hi as Hi0.
    apply lookup_app_Some in Hi as [Hi|[_ Hi]].
    + destruct (recvs st !! (cid, qid)) as [l|] eqn:Hr; [|done]. by apply (Hold l).
    + apply list_lookup_singleton_Some in Hi as [_ <-]. destruct Ha as [?|(j & Hj & Hj0 & Ho)]; [by left|right].
      exists j. split; [done|]. eexists. cbn [recvs post set_recvs page_offset]. rewrite lookup_insert_eq.
      split; [done|]. by rewrite Hi0, Hj.
  - intros cq i j cq' i' j' H1' H2' Hne.
    apply posted_post in H1' as [H1'|(-> & -> & Hj & Hj0 & Ho)],
      H2' as [H2'|(-> & -> & Hj' & Hj0' & Ho')].
    + by apply (Q4 cq i j cq' i' j').
    + destruct (Hf j' Hj' Hj0' Ho') as [Hf1 _]. specialize (Hf1 _ _ _ H1'). lia.
    + destruct (Hf j Hj Hj0 Ho) as [Hf1 _]. by apply (Hf1 cq' i').
    + done.
  - intros k b Hv Hh. apply (good_keep hist st); [by apply Q5|done|].
    intros j Hj Hb Hd. split; [done|]. intros cq i j' Hp.
    apply posted_post in Hp as [Hp|(_ & _ & Hj' & Hj0 & Ho)]; [by apply (Hd cq i)|].
    destruct (Hf j' Hj' Hj0 Ho) as [_ Hf2]. by apply (Hf2 k b j).
Qed.

Lemma sv_post_recv hist st cid qid : server_inv hist st -> server_inv hist (post_recv st cid qid).
Proof.
  intros Hinv. apply sv_post; [done| |by left]. intros j Hz Hj Ho. exfalso.
  apply (page_at_pos j); [|done]. pose proof (sv_offset _ _ Hinv). lia.
Qed.

(** The page counter moves on. *)
Lemma posted_grow hist st cq i j o :
  server_inv hist st -> o <= page_limit cfg -> posted (set_offset st o) cq i j -> posted st cq i j.
Proof.
  intros Hinv Ho (l & Hl & Hi & Hj & Hjo). cbn [recvs set_offset page_offset] in *.
  destruct (sv_recv _ _ Hinv _ _ _ _ Hl Hi) as [Hz|(j' & He & l' & Hl' & Hi' & Hj' & Ho')].
  - exfalso. by apply (page_at_pos j); [lia|].
  - pose proof (sv_offset _ _ Hinv). rewrite (page_at_inj j j') by (done || lia). by exists l'.
Qed.

Lemma sv_grow hist st o :
  server_inv hist st -> page_offset st <= o <= page_limit cfg -> server_inv hist (set_offset st o).
Proof.
  intros Hinv Ho. pose proof Hinv as [Q1 Q2 Q3 Q4 Q5].
  assert (Hback : forall cq i j, posted (set_offset st o) cq i j -> posted st cq i j).
  { intros cq i j. apply (posted_grow hist); [done|lia]. }
  split; cbn [skv set_offset page_offset]; try done.
  - lia.
  - intros cq l i a Hl Hi. destruct (Q3 _ _ _ _ Hl Hi) as [?|(j & Ha & Hp)]; [by left|right].
    exists j. split; [done|]. destruct Hp as (l' & Hp). exists l'. cbn [recvs set_offset page_offset]. intuition lia.
  - intros cq i j cq' i' j' H1' H2'. apply Q4; by apply Hback.
  - intros k a Hv Hh. apply (good_keep hist st); [by apply Q5|cbn; lia|].
    intros j Hj Ha Hd. split; [done|]. intros cq i j' Hp. by apply (Hd cq i), Hback.
Qed.

Lemma sv_post_fresh hist st cid qid :
  server_inv hist st -> page_offset st + 4 <= page_limit cfg ->
  server_inv hist (post_recv_with_addr (set_offset st (page_offset st + 4)) (page_at cfg (page_offset st)) cid qid).
Proof.
  intros Hinv Ho. pose proof (sv_offset _ _ Hinv). apply sv_post; [apply sv_grow; [done|lia]| |].
  - intros j Hj Hj0 Hjo. cbn [page_offset set_offset] in Hjo.
    rewrite <- (page_at_inj (page_offset st) j) by (done || lia). split.
    + intros cq i j' Hp. apply (posted_grow hist) in Hp as (l & _ & _ & _ & Hb); [lia|done|lia].
    + intros k a j' Hv Hh Hj' Ha. cbn [page_offset set_offset skv] in *.
      destruct (sv_held _ _ Hinv k a Hv Hh) as (j1 & p & Hj1 & Ha1 & _).
      rewrite (page_at_inj j' j1) by (lia || congruence). lia.
  - right. exists (page_offset st). cbn [page_offset set_offset]. split_and!; (done || lia).
Qed.

(** *** A message arrives *)

Lemma posted_take st st' cid qid a cq i j :
  take_recv st cid qid = Some (a, st') -> posted st' cq i j ->
  posted st cq (if decide (cq = (cid, qid)) then S i else i) j.
Proof.
  unfold take_recv. destruct (recvs st !! (cid, qid)) as [[|b l]|] eqn:Hr; [done| |done].
  intros [= <- <-] (l' & Hl' & Hi & Hj). cbn [recvs set_recvs page_offset] in *. case_decide as Hcq.
  - subst cq. rewrite lookup_insert_eq in Hl'. injection Hl' as <-. by exists (b :: l).
  - rewrite lookup_insert_ne in Hl' by done. by exists l'.
Qed.

Lemma sv_take hist st st' cid qid a :
  server_inv hist st -> take_recv st cid qid = Some (a, st') ->
  server_inv hist st' /\ page_offset st' = page_offset st
  /\ forall j, a = page_at cfg j -> 0 <= j -> j + 4 <= page_offset st -> fresh st' j.
Proof.
  intros Hinv Ht. pose proof Hinv as [Q1 Q2 Q3 Q4 Q5].
  assert (Hback := fun cq i j => posted_take st st' cid qid a cq i j Ht).
  assert (Hst : skv st' = skv st /\ page_offset st' = page_offset st /\ smem st' = smem st
    /\ exists l, recvs st !! (cid, qid) = Some (a :: l) /\ recvs st' = <[(cid, qid) := l]> (recvs st)).
  { unfold take_recv in Ht. destruct (recvs st !! (cid, qid)) as [[|b l]|]; [done| |done].
    injection Ht as <- <-. split_and!; try done. by exists l. }
  destruct Hst as (Hkv & Hoff & Hmem & l0 & Hl0 & Hrec). split_and!; [|done|].
  - split; rewrite ?Hkv, ?Hoff; try done.
    + intros cq l i b Hl Hi. unfold posted. rewrite Hoff. rewrite Hrec in *.
      destruct (decide (cq = (cid, qid))) as [->|Hne].
      * rewrite lookup_insert_eq in Hl. injection Hl as <-.
        destruct (Q3 (cid, qid) _ (S i) b Hl0 Hi) as [?|(j & Hb & l' & Hp1 & Hp2 & Hp3)]; [by left|right].
        exists j. split; [done|]. exists l0. rewrite lookup_insert_eq. by rewrite Hi, Hb.
      * rewrite lookup_insert_ne in Hl by done.
        destruct (Q3 cq l i b Hl Hi) as [?|(j & Hb & l' & Hp1 & Hp2 & Hp3)]; [by left|right].
        exists j. split; [done|]. exists l'. by rewrite lookup_insert_ne.
    + intros cq i j cq' i' j' H1' H2' Hne. eapply Q4; [apply Hback, H1'|apply Hback, H2'|].
      intros [= -> Hi]. apply Hne. f_equal. case_decide; lia.
    + intros k b Hv Hh. apply (good_keep hist st); [by apply Q5|lia|].
      intros j Hj Hb Hd. rewrite Hmem. split; [done|]. intros cq i j' Hp. by eapply Hd, Hback.
  - intros j Ha Hj0 Hjo.
    assert (Hp0 : posted st (cid, qid) 0 j) by (exists (a :: l0); split_and!; [done|by subst a|done..]). split.
    + intros cq i j' Hp. apply (Q4 _ _ _ _ _ _ Hp0 (Hback _ _ _ Hp)).
      intros [= <- Hi]. case_decide; [done|congruence].
    + intros k b j' Hv Hh Hj' Hb. rewrite Hkv in Hh. rewrite Hoff in Hj'.
      destruct (Q5 k b Hv Hh) as (j1 & p & Hj1 & Hb1 & _ & _ & _ & Hd).
      rewrite (page_at_inj j' j1) by (lia || congruence). by apply (Hd (cid, qid) 0%nat).
Qed.

Lemma take_recv_smem (st st' : server T) cid qid a : take_recv st cid qid = Some (a, st') -> smem st' = smem st.
Proof.
  unfold take_recv. destruct (recvs st !! (cid, qid)) as [[|b l]|]; [done| |done]. by intros [= _ <-].
Qed.

Lemma take_recv_head hist st st' cid qid a :
  server_inv hist st -> take_recv st cid qid = Some (a, st') ->
  a = 0 \/ exists j, a = page_at cfg j /\ 0 <= j /\ j + 4 <= page_offset st.
Proof.
  intros Hinv. unfold take_recv. destruct (recvs st !! (cid, qid)) as [[|b l]|] eqn:Hr; [done| |done].
  intros [= -> _]. destruct (sv_recv _ _ Hinv _ _ 0 a Hr) as [?|(j & Ha & l' & _ & _ & Hj)]; [done|by left|].
  right. by exists j.
Qed.

(** The bytes of a message go to pages that nothing uses. *)
Lemma sv_receive hist st j bs :
  server_inv hist st -> fresh st j -> 0 <= j -> j + 4 <= page_offset st -> Z.of_nat (length bs) = 16384 ->
  server_inv hist (set_mem st (rdma_write (smem st) (page_at cfg j) bs)).
Proof.
  intros Hinv [Hf1 Hf2] Hj Ho Hbs. pose proof Hinv as [Q1 Q2 Q3 Q4 Q5]. split; try done.
  intros k a Hv Hh. apply (good_keep hist st); [by apply Q5|done|].
  intros j' Hj' Ha Hd. split; [|done]. cbn [smem set_mem]. apply read_ext. intros x Hx.
  apply rdma_write_outside. destruct (page_at_eq cfg Hcfg j) as [-> _]; [lia|].
  destruct (page_at_eq cfg Hcfg j') as [Heq _]; [lia|]. rewrite Ha, Heq in Hx.
  specialize (Hf2 k a j' Hv Hh Hj' Ha). lia.
Qed.

(** *** The table changes *)

Lemma sv_set_kv hist st kv :
  server_inv hist st -> ihp_wf (hash kv) ->
  (forall k a, valid_key k -> ihp_holds (hash kv) k a -> good hist st k a) ->
  server_inv hist (set_kv st kv).
Proof. intros [Q1 Q2 Q3 Q4 Q5] Hwf Hh. split; try done. Qed.

Lemma KV_Insert_holds (kv kv' : KV T) key value b :
  ihp_wf (hash kv) -> valid_key key -> KV.Insert kv key value = Some (kv', b) ->
  ihp_wf (hash kv') /\ forall k v, ihp_holds (hash kv') k v ->
    ihp_holds (hash kv) k v \/ (k = key /\ v = value).
Proof.
  intros Hwf Hk. unfold KV.Insert. intros Hi.
  apply bind_Some in Hi as ([t' d] & Ht & Hi). apply bind_Some in Hi as (f & Hf & Hi).
  injection Hi as <- _. cbn [hash]. by apply (ihp_Insert_holds (hash kv) key value t' d).
Qed.

Lemma insert_pages_holds target keys ns (kv kv' : KV T) :
  ihp_wf (hash kv) -> Forall valid_key keys ->
  foldM (insert_page target keys) ns kv = Some kv' ->
  ihp_wf (hash kv') /\ forall k v, ihp_holds (hash kv') k v ->
    ihp_holds (hash kv) k v
    \/ exists i, i ∈ ns /\ keys !! i = Some k /\ v = u64 (target + 4096 * Z.of_nat i).
Proof.
  intros Hwf Hkeys. revert kv Hwf. induction ns as [|n ns IH]; intros kv Hwf Hf; cbn [foldM] in Hf.
  { injection Hf as <-. split; [done|]. by left. }
  apply bind_Some in Hf as (kv1 & Hn & Hf). unfold insert_page in Hn.
  apply bind_Some in Hn as (key & Hkey & Hn). apply bind_Some in Hn as ([kv2 b] & Hins & Hn).
  injection Hn as ->. destruct (KV_Insert_holds _ _ _ _ _ Hwf (Forall_lookup_1 _ _ _ _ Hkeys Hkey) Hins) as [Hwf1 H1'].
  destruct (IH kv1 Hwf1 Hf) as [Hwf' H2']. split; [done|]. intros k v Hh.
  destruct (H2' k v Hh) as [Hh1|(i & Hi & Hki & Hv)].
  - destruct (H1' k v Hh1) as [?|[-> ->]]; [by left|]. right. exists n. split_and!; [left|done|done].
  - right. exists i. split_and!; [by right|done|done].
Qed.

Lemma page_at_next j i : 0 <= j -> 0 <= i -> j + i < page_limit cfg ->
  u64 (page_at cfg j + 4096 * i) = page_at cfg (j + i).
Proof.
  intros Hj Hi Hl. destruct (page_at_eq cfg Hcfg j) as [-> _]; [lia|].
  destruct (page_at_eq cfg Hcfg (j + i)) as [-> He]; [lia|]. pose proof Hcfg as [Hb Hs He'].
  change Svr.LOCAL_META_REGION_SIZE with 528384 in *. change Svr.NUM_CLIENT with 4 in *.
  etrans; [apply wrap_small|]; lia.
Qed.

(** *** The handlers *)

Lemma sv_twosided hist sent st st' s j cid qid mid :
  server_inv hist st -> fresh st j -> 0 <= j -> j + 4 <= page_offset st ->
  page_offset st + 4 <= page_limit cfg ->
  (forall i key, batch_keys (smem st) (Svr.GET_LOCAL_META_REGION (local_mm cfg cid) qid 0) !! i = Some key ->
     valid_key key /\ (key, read (smem st) (page_at cfg (j + Z.of_nat i)) 4096) ∈ hist) ->
  process_write_twosided cfg sent st (page_at cfg j) cid qid mid = Some (st', s) ->
  server_inv hist st' /\ page_offset st' <= page_offset st + 4.
Proof.
  intros Hinv [Hf1 Hf2] Hj Hjo Ho Hkeys. unfold process_write_twosided. intros Hp.
  apply bind_Some in Hp as (kv & Hkv & Hp). pose proof (sv_offset _ _ Hinv) as Hoff.
  apply insert_pages_holds in Hkv as [Hwf Hh]; [|apply (sv_wf _ _ Hinv)|].
  2: { apply Forall_lookup_2. intros i key Hk. apply (Hkeys i key Hk). }
  assert (Hinv' : server_inv hist (set_kv st kv)).
  { apply sv_set_kv; [done..|]. intros k a Hv Hka.
    destruct (Hh k a Hka) as [Hold|(i & Hi & Hki & ->)]; [by apply (sv_held _ _ Hinv)|].
    apply elem_of_seq in Hi. change (Z.to_nat Svr.BATCH_SIZE) with 4%nat in Hi.
    rewrite page_at_next by lia. eexists _, _. split; [|split; [done|]]; [lia|].
    split; [apply (Hkeys i k Hki)|]. split; [apply read_length|]. split; [done|].
    intros cq i' j' Hpo. specialize (Hf1 cq i' j' Hpo). lia. }
  destruct sent; injection Hp as <- _; [|by split; [|cbn; lia]].
  pose proof Hcfg as [Hb Hs He]. assert (page_limit cfg < 2 ^ 64).
  { unfold page_limit. change Svr.LOCAL_META_REGION_SIZE with 528384 in *. change Svr.NUM_CLIENT with 4 in *.
    apply Z.div_lt_upper_bound; [done|]. change Svr.PAGE_SIZE with 4096. lia. }
  cbn [page_offset set_kv]. change Svr.BATCH_SIZE with 4.
  replace (u64 (page_offset st + 4)) with (page_offset st + 4) by (symmetry; apply wrap_small; lia).
  split; [|done]. by apply (sv_post_fresh hist (set_kv st kv)).
Qed.

Lemma sv_read_odp hist st st' s cid qid mid :
  server_inv hist st -> valid_key (read64 (smem st) (Svr.GET_LOCAL_META_REGION (local_mm cfg cid) qid mid)) ->
  process_read_odp cfg st cid qid mid = Some (st', s) ->
  server_inv hist st' /\ page_offset st' = page_offset st /\
  (s = SendImm (htonl (Svr.bit_mask 0 mid (msg_code MSG_READ_REPLY) (tx_code TX_READ_ABORTED) qid))
   \/ exists p, (read64 (smem st) (Svr.GET_LOCAL_META_REGION (local_mm cfg cid) qid mid), p) ∈ hist /\ length p = 4096%nat
       /\ s = SendData (read64 (smem st) (Svr.GET_REMOTE_ADDRESS_BASE (local_mm cfg cid) qid mid)) p
                (htonl (Svr.bit_mask 0 mid (msg_code MSG_READ_REPLY) (tx_code TX_READ_COMMITTED) qid))).
Proof.
  intros Hinv Hk. unfold process_read_odp, KV.Get. intros Hp.
  apply bind_Some in Hp as ([kv v] & Hg & Hp). apply bind_Some in Hg as (v' & Hg & Hv).
  injection Hv as <- ->.
  match type of Hp with context [set_kv st ?kv] => assert (Hinv' : server_inv hist (set_kv st kv)) end.
  { apply sv_set_kv; [done|apply (sv_wf _ _ Hinv)|apply (sv_held _ _ Hinv)]. }
  destruct (Z.eqb_spec v 0) as [->|Hv0]; injection Hp as <- <-.
  - split_and!; [by destruct Hinv'|done|by left].
  - split_and!; [by destruct Hinv'|done|]. right. eexists. split; [|split; [apply read_length|done]].
    pose proof (ihp_Get_holds _ _ _ (sv_wf _ _ Hinv) Hk Hg Hv0) as Hh.
    destruct (sv_held _ _ Hinv _ _ Hk Hh) as (j & p & _ & Ha & Hin & Hl & Hr & _). cbn [smem set_kv count_read].
    change (Z.to_nat Svr.PAGE_SIZE) with 4096%nat. by rewrite Hr.
Qed.

(** *** The start *)

Lemma page_limit_bound : page_limit cfg < 2 ^ 64 - 4.
Proof.
  pose proof Hcfg as [Hb Hs He]. unfold page_limit. change Svr.LOCAL_META_REGION_SIZE with 528384 in *.
  change Svr.NUM_CLIENT with 4 in *. apply Z.div_lt_upper_bound; [done|]. change Svr.PAGE_SIZE with 4096. lia.
Qed.

Definition grows (n : Z) (st st' : server T) : Prop := page_offset st' <= page_offset st + n.

(** A loop whose rounds keep the invariant and use at most [n] pages each. *)
Lemma foldM_inv {A} (f : server T -> A -> option (server T)) n hist xs st st' :
  0 <= n ->
  (forall st st' x, server_inv hist st -> page_offset st + n <= page_limit cfg -> f st x = Some st' ->
     server_inv hist st' /\ grows n st st') ->
  server_inv hist st -> page_offset st + n * Z.of_nat (length xs) <= page_limit cfg ->
  foldM f xs st = Some st' -> server_inv hist st' /\ grows (n * Z.of_nat (length xs)) st st'.
Proof.
  intros Hn Hf. revert st. induction xs as [|x xs IH]; intros st Hinv Hroom Hfold; cbn [foldM length] in *.
  { injection Hfold as <-. split; [done|]. unfold grows. lia. }
  apply bind_Some in Hfold as (st1 & H1' & Hfold).
  destruct (Hf st st1 x Hinv ltac:(lia) H1') as [Hinv1 Hg]. unfold grows in *.
  destruct (IH st1 Hinv1 ltac:(lia) Hfold) as [Hinv' Hg']. split; [done|lia].
Qed.

Local Strategy 1000 [foldM].

Lemma sv_prepost hist st st' c i :
  server_inv hist st -> page_offset st + 400 <= page_limit cfg -> prepost cfg st c i = Some st' ->
  server_inv hist st' /\ grows 400 st st'.
Proof.
  intros Hinv Hroom Ha. unfold prepost in Ha. apply (foldM_inv _ 4 hist) in Ha; [|done| |done|].
  - by rewrite length_seq in Ha.
  - clear Hinv Hroom Ha st st'. intros st st' j Hinv Hroom Ha. unfold prepost_one in Ha.
    destruct (i <? Svr.NUM_QUEUES / 2); injection Ha as <-.
    + split; [by apply sv_post_recv|]. unfold grows. cbn [page_offset post_recv post set_recvs]. lia.
    + change Svr.BATCH_SIZE with 4. pose proof page_limit_bound. pose proof (sv_offset _ _ Hinv).
      replace (u64 (page_offset st + 4)) with (page_offset st + 4) by (symmetry; apply wrap_small; lia).
      split; [by apply sv_post_fresh|]. unfold grows. cbn. lia.
  - by rewrite length_seq.
Qed.

Lemma sv_accept_client hist st st' c :
  server_inv hist st -> page_offset st + 3200 <= page_limit cfg -> accept_client cfg st c = Some st' ->
  server_inv hist st' /\ grows 3200 st st'.
Proof.
  intros Hinv Hroom Ha. unfold accept_client in Ha. apply (foldM_inv _ 400 hist) in Ha; [|done| |done|].
  - by rewrite length_seq in Ha.
  - intros st0 st1 i. apply sv_prepost.
  - by rewrite length_seq.
Qed.

Lemma sv_accept hist n st st' :
  server_inv hist st -> page_offset st + 3200 * Z.of_nat n <= page_limit cfg ->
  accept_clients cfg n st = Some st' -> server_inv hist st'.
Proof.
  intros Hinv Hroom Ha. unfold accept_clients in Ha.
  apply (foldM_inv _ 3200 hist) in Ha as [Ha _]; [done|done| |done|by rewrite length_seq].
  intros st0 st1 c. apply sv_accept_client.
Qed.

Lemma sv_new m kv :
  ihp_wf (hash kv) -> (forall k v, valid_key k -> ~ ihp_holds (hash kv) k v) -> 0 <= page_limit cfg ->
  server_inv [] (new_server m kv).
Proof.
  intros Hwf Hnone Hl. split; cbn [skv new_server page_offset recvs]; try done.
  - intros cq i j cq' i' j' (l & Hc & _). cbn [recvs new_server] in Hc. by rewrite lookup_empty in Hc.
  - intros k a Hv Hh. by destruct (Hnone k a Hv).
Qed.

End Invariant.

(** ** The end of the buffer *)

Section Overrun.
Context {T : Type} `{IHash T} (cfg : config).

(** nothing stops the page counter: once all pages of the buffer have been handed
    out, the receive that a put posts for the next one reaches behind the buffer, into
    the metadata regions of the clients. *)
Theorem receive_beyond_buffer st st' s target cid qid mid :
  config_ok cfg -> page_limit cfg <= page_offset st ->
  global_mr cfg + Svr.LOCAL_META_REGION_SIZE + Svr.PAGE_SIZE * page_offset st < 2 ^ 64 ->
  process_write_twosided cfg true st target cid qid mid = Some (st', s) ->
  exists l a, recvs st' !! (cid, qid) = Some (l ++ [a])
    /\ local_mm cfg 0 < a + Svr.BATCH_SIZE * Svr.PAGE_SIZE.
Proof.
  intros [Hb Hs He] Hfull Hsmall Hp. unfold process_write_twosided in Hp.
  apply bind_Some in Hp as (kv & _ & Hp). injection Hp as <- _.
  eexists _, _. split; [apply lookup_insert_eq|]. cbn [page_offset set_kv].
  unfold page_limit in Hfull. unfold page_at, local_mm, Svr.GET_FREE_PAGE_REGION.
  change Svr.LOCAL_META_REGION_SIZE with 528384 in *. change Svr.PAGE_SIZE with 4096 in *.
  change Svr.BATCH_SIZE with 4. change Svr.NUM_CLIENT with 4 in *.
  assert (0 <= (BUFFER_SIZE cfg - 528384) / 4096) by (apply Z.div_pos; lia).
  pose proof (Z.mod_pos_bound (BUFFER_SIZE cfg - 528384) 4096 ltac:(lia)).
  pose proof (Z.div_mod (BUFFER_SIZE cfg - 528384) 4096 ltac:(lia)).
  rewrite wrap_small by lia. lia.
Qed.

End Overrun.

(** The buffer of 10 GB has 2621311 pages. *)
Example pages_of_buffer : page_limit (MkConfig 4096 (10 * 2 ^ 30) (fun _ => 0)) = 2621311.
Proof. reflexivity. Qed.

Module Full.
#[local] Existing Instance plain_hash.
Definition cfg : config := MkConfig 4096 (10 * 2 ^ 30) (fun _ => 0).
Definition st : server LinearProbingHash :=
  set_offset (new_server (fun _ => 1) (MkKV (new_table (fun _ => 0) 16) None ∅ 0 0 0)) 2621311.
Definition put : option (server LinearProbingHash * send) := process_write_twosided cfg true st 4096 0 4 0.
End Full.

Lemma receive_beyond_buffer_witness :
  exists st' s l a, Full.put = Some (st', s)
    /\ recvs st' !! (0, 4) = Some (l ++ [a]) /\ local_mm Full.cfg 0 < a + Svr.BATCH_SIZE * Svr.PAGE_SIZE.
Proof.
  destruct Full.put as [[st' s]|] eqn:Hp; [|by vm_compute in Hp].
  destruct (@receive_beyond_buffer _ (@LinearProbing_IHash plain_hash) Full.cfg Full.st st' s 4096 0 4 0)
    as (l & a & Ha); [by split; vm_compute|by vm_compute|by vm_compute|exact Hp|]. exists st', s, l, a. exact (conj eq_refl Ha).
Defined.
