(* ===== verification/Tmem.v ===== *)
(** * Transcendent memory (client/tmem.h, client/tcp_style/tmem.c)

    Object ids and their order, and the shim that gives the page cache
    (cleancache) and the swap system (frontswap) pages in the memory of the
    hypervisor.  The hypercall is not part of the source: it is a parameter, with
    what the shim relies on as the laws of the classes below.

    The contents of the page travel with the call, since the hypervisor reads or
    writes the frame it is given. *)

From S2P Require Import Prelude.

Record tmem_oid : Type := MkOid { oid0 : Z; oid1 : Z; oid2 : Z }.

#[export] Instance tmem_oid_eq_dec : EqDecision tmem_oid.
Proof. solve_decision. Defined.
#[export] Instance tmem_oid_countable : Countable tmem_oid.
Proof. by apply (inj_countable' (fun o => (oid0 o, oid1 o, oid2 o)) (fun '(a, b, c) => MkOid a b c)); intros []. Defined.

(** ** Object ids (tmem.h) *)

Definition tmem_oid_set_invalid : tmem_oid := MkOid (u64 (-1)) (u64 (-1)) (u64 (-1)).

Definition tmem_oid_valid (o : tmem_oid) : bool :=
  negb (oid0 o =? u64 (-1)) || negb (oid1 o =? u64 (-1)) || negb (oid2 o =? u64 (-1)).

Definition tmem_oid_compare (left right : tmem_oid) : Z :=
  if oid2 left =? oid2 right then
    if oid1 left =? oid1 right then
      if oid0 left =? oid0 right then 0
      else if oid0 left <? oid0 right then -1
      else 1
    else if oid1 left <? oid1 right then -1
    else 1
  else if oid2 left <? oid2 right then -1
  else 1.

(** [tmem_oid_compare] is a total order on object ids whose equality is that of the ids, and only the id of all ones
    is invalid. *)
Theorem tmem_oid_order a b c :
  (tmem_oid_compare a b = 0 <-> a = b) /\ tmem_oid_compare b a = - tmem_oid_compare a b
  /\ (tmem_oid_compare a b <= 0 -> tmem_oid_compare b c <= 0 -> tmem_oid_compare a c <= 0)
  /\ (tmem_oid_valid a = false <-> a = tmem_oid_set_invalid).
Proof.
  destruct a as [a0 a1 a2], b as [b0 b1 b2], c as [c0 c1 c2]. unfold tmem_oid_compare, tmem_oid_valid, tmem_oid_set_invalid.
  cbn [oid0 oid1 oid2]. split_and!.
  - repeat (case_match; cbn); split; intros; simplify_eq; try done; try lia; f_equal; lia.
  - repeat case_match; lia.
  - repeat case_match; lia.
  - rewrite !orb_false_iff, !negb_false_iff, !Z.eqb_eq. split; [intros [[-> ->] ->]; done|intros Heq; by injection Heq as -> -> ->].
Qed.

(** ** The hypercall *)

Inductive tmem_cmd := NEW_POOL | DESTROY_POOL | PUT_PAGE | GET_PAGE | FLUSH_PAGE | FLUSH_OBJECT.

Definition TMEM_POOL_PERSIST : Z := 1.
Definition TMEM_POOL_SHARED : Z := 2.
Definition TMEM_POOL_PAGESIZE_SHIFT : Z := 4.
Definition TMEM_VERSION_SHIFT : Z := 24.

Record tmem_op : Type := MkOp { cmd : tmem_cmd; pool_id : Z; op_oid : tmem_oid; op_index : Z; op_uuid : Z * Z; op_flags : Z }.

(** The new state, the return code, and the frame. *)
Class Hypervisor (H : Type) := {
  HYPERVISOR_tmem_op : H -> tmem_op -> list Z -> H * Z * list Z;
  TMEM_SPEC_VERSION : Z;
}.

Section Shim.
Context {H : Type} `{Hypervisor H}.

Definition xen_tmem_op (s : H) (c : tmem_cmd) (tmem_pool : Z) (oid : tmem_oid) (index : Z) (page : list Z) : H * Z * list Z :=
  HYPERVISOR_tmem_op s (MkOp c tmem_pool oid index (0, 0) 0) page.

(** [for (pageshift = 0; pagesize != 1; pageshift++) pagesize >>= 1] *)
Fixpoint page_shift (fuel : nat) (pagesize pageshift : Z) : option Z :=
  match fuel with
  | O => None
  | S fuel => if pagesize =? 1 then Some pageshift else page_shift fuel (pagesize ≫ 1) (pageshift + 1)
  end.
Definition xen_tmem_new_pool (s : H) (uuid : Z * Z) (flags pagesize : Z) : option (H * Z) :=
  pageshift ← page_shift 64 pagesize 0;
  let flags := Z.lor flags (u32 ((pageshift - 12) ≪ TMEM_POOL_PAGESIZE_SHIFT)) in
  let flags := Z.lor flags (u32 (TMEM_SPEC_VERSION ≪ TMEM_VERSION_SHIFT)) in
  let '(s, rc, _) := HYPERVISOR_tmem_op s (MkOp NEW_POOL 0 (MkOid 0 0 0) 0 uuid flags) [] in
  Some (s, rc).

Definition xen_tmem_put_page (s : H) (pool : Z) (oid : tmem_oid) (index : Z) (page : list Z) : H * Z :=
  let '(s, rc, _) := xen_tmem_op s PUT_PAGE pool oid index page in (s, rc).
Definition xen_tmem_get_page (s : H) (pool : Z) (oid : tmem_oid) (index : Z) (page : list Z) : H * Z * list Z :=
  xen_tmem_op s GET_PAGE pool oid index page.
Definition xen_tmem_flush_page (s : H) (pool : Z) (oid : tmem_oid) (index : Z) : H := (xen_tmem_op s FLUSH_PAGE pool oid index []).1.1.
Definition xen_tmem_flush_object (s : H) (pool : Z) (oid : tmem_oid) : H := (xen_tmem_op s FLUSH_OBJECT pool oid 0 []).1.1.
Definition xen_tmem_destroy_pool (s : H) (pool : Z) : H := (xen_tmem_op s DESTROY_POOL pool (MkOid 0 0 0) 0 []).1.1.

(** *** cleancache *)

Definition tmem_cleancache_put_page (s : H) (pool : Z) (oid : tmem_oid) (index : Z) (page : list Z) : H :=
  let ind := u32 index in
  if pool <? 0 then s
  else if negb (ind =? index) then s
  else (xen_tmem_put_page s (u32 pool) oid ind page).1.

(** The result is 0 for a hit and -1 for a miss. *)
Definition tmem_cleancache_get_page (s : H) (pool : Z) (oid : tmem_oid) (index : Z) (page : list Z) : H * Z * list Z :=
  let ind := u32 index in
  if pool <? 0 then (s, -1, page)
  else if negb (ind =? index) then (s, -1, page)
  else
    let '(s, ret, page) := xen_tmem_get_page s (u32 pool) oid ind page in
    (s, if ret =? 1 then 0 else -1, page).

Definition tmem_cleancache_flush_page (s : H) (pool : Z) (oid : tmem_oid) (index : Z) : H :=
  let ind := u32 index in
  if pool <? 0 then s
  else if negb (ind =? index) then s
  else xen_tmem_flush_page s (u32 pool) oid ind.
Definition tmem_cleancache_flush_inode (s : H) (pool : Z) (oid : tmem_oid) : H :=
  if pool <? 0 then s else xen_tmem_flush_object s (u32 pool) oid.
Definition tmem_cleancache_flush_fs (s : H) (pool : Z) : H :=
  if pool <? 0 then s else xen_tmem_destroy_pool s (u32 pool).
Definition tmem_cleancache_init_fs (s : H) (pagesize : Z) : option (H * Z) := xen_tmem_new_pool s (0, 0) 0 pagesize.
Definition tmem_cleancache_init_shared_fs (s : H) (uuid : Z * Z) (pagesize : Z) : option (H * Z) :=
  xen_tmem_new_pool s uuid TMEM_POOL_SHARED pagesize.

(** *** frontswap *)

Definition SWIZ_BITS : Z := 4.
Definition SWIZ_MASK : Z := (1 ≪ SWIZ_BITS) - 1.
Definition _oswiz (type ind : Z) : Z := Z.lor (u32 (type ≪ SWIZ_BITS)) (Z.land ind SWIZ_MASK).
Definition iswiz (ind : Z) : Z := ind ≫ SWIZ_BITS.
Definition oswiz (type ind : Z) : tmem_oid := MkOid (_oswiz type ind) 0 0.

(** The pool of the swap system is in the state of the shim. *)
Record frontswap : Type := MkSwap { hyp : H; tmem_frontswap_poolid : Z }.

(** [huge] is [PageTransHuge]. *)
Definition tmem_frontswap_store (f : frontswap) (type offset : Z) (page : list Z) (huge : bool) : frontswap * Z :=
  let ind := u32 offset in
  let pool := tmem_frontswap_poolid f in
  if huge then (f, -1)
  else if pool <? 0 then (f, -1)
  else if negb (offset =? ind) then (f, -1)
  else
    let '(s, ret) := xen_tmem_put_page (hyp f) pool (oswiz type ind) (iswiz ind) page in
    (MkSwap s pool, if ret =? 1 then 0 else -1).

Definition tmem_frontswap_load (f : frontswap) (type offset : Z) (page : list Z) : frontswap * Z * list Z :=
  let ind := u32 offset in
  let pool := tmem_frontswap_poolid f in
  if pool <? 0 then (f, -1, page)
  else if negb (offset =? ind) then (f, -1, page)
  else
    let '(s, ret, page) := xen_tmem_get_page (hyp f) pool (oswiz type ind) (iswiz ind) page in
    (MkSwap s pool, if ret =? 1 then 0 else -1, page).

Definition tmem_frontswap_flush_page (f : frontswap) (type offset : Z) : frontswap :=
  let ind := u32 offset in
  let pool := tmem_frontswap_poolid f in
  if pool <? 0 then f
  else if negb (offset =? ind) then f
  else MkSwap (xen_tmem_flush_page (hyp f) pool (oswiz type ind) (iswiz ind)) pool.

(** [for (ind = SWIZ_MASK; ind >= 0; ind--)] *)
Definition tmem_frontswap_flush_area (f : frontswap) (type : Z) : frontswap :=
  let pool := tmem_frontswap_poolid f in
  if pool <? 0 then f
  else MkSwap (foldl (fun s ind => xen_tmem_flush_object s pool (oswiz type (Z.of_nat ind))) (hyp f)
                (rev (seq 0 (Z.to_nat (SWIZ_MASK + 1))))) pool.

Definition tmem_frontswap_init (f : frontswap) : option frontswap :=
  if tmem_frontswap_poolid f <? 0 then
    '(s, rc) ← xen_tmem_new_pool (hyp f) (0, 0) TMEM_POOL_PERSIST 4096; Some (MkSwap s rc)
  else Some f.

End Shim.
Arguments frontswap H : clear implicits.

(** ** What the hypervisor promises *)

(** The pages it has, by pool, object and index.  It may forget a page of an ephemeral pool at any time, but never
    returns one that was replaced or flushed. *)
Class TmemSpec (H : Type) `{Hypervisor H} := {
  view : H -> gmap (Z * tmem_oid * Z) (list Z);
  law_put : forall s pool oid ind page s' rc pg,
    HYPERVISOR_tmem_op s (MkOp PUT_PAGE pool oid ind (0, 0) 0) page = (s', rc, pg) ->
    view s' ⊆ <[(pool, oid, ind) := page]> (view s);
  law_get : forall s pool oid ind page s' rc pg,
    HYPERVISOR_tmem_op s (MkOp GET_PAGE pool oid ind (0, 0) 0) page = (s', rc, pg) ->
    view s' ⊆ view s /\ (rc = 1 -> view s !! (pool, oid, ind) = Some pg);
  law_flush_page : forall s pool oid ind page,
    view (HYPERVISOR_tmem_op s (MkOp FLUSH_PAGE pool oid ind (0, 0) 0) page).1.1 ⊆ delete (pool, oid, ind) (view s);
  law_flush_object : forall s pool oid ind page,
    view (HYPERVISOR_tmem_op s (MkOp FLUSH_OBJECT pool oid ind (0, 0) 0) page).1.1
      ⊆ filter (fun x => x.1.1 <> (pool, oid)) (view s);
  law_destroy : forall s pool oid ind page,
    view (HYPERVISOR_tmem_op s (MkOp DESTROY_POOL pool oid ind (0, 0) 0) page).1.1
      ⊆ filter (fun x => x.1.1.1 <> pool) (view s);
}.

(** A persistent pool keeps what it accepted, and its operations have exactly their effect. *)
Class TmemPersistent (H : Type) `{TmemSpec H} := {
  persistent : H -> Z -> Prop;
  plaw_put : forall s pool oid ind page s' rc pg,
    persistent s pool -> HYPERVISOR_tmem_op s (MkOp PUT_PAGE pool oid ind (0, 0) 0) page = (s', rc, pg) ->
    persistent s' pool /\ forall o i, view s' !! (pool, o, i) =
      if decide ((o, i) = (oid, ind)) then if decide (rc = 1) then Some page else None else view s !! (pool, o, i);
  plaw_get : forall s pool oid ind page s' rc pg,
    persistent s pool -> HYPERVISOR_tmem_op s (MkOp GET_PAGE pool oid ind (0, 0) 0) page = (s', rc, pg) ->
    persistent s' pool /\ (forall o i, view s' !! (pool, o, i) = view s !! (pool, o, i))
    /\ (rc = 1 <-> is_Some (view s !! (pool, oid, ind)));
  plaw_flush_page : forall s pool oid ind page s' rc pg,
    persistent s pool -> HYPERVISOR_tmem_op s (MkOp FLUSH_PAGE pool oid ind (0, 0) 0) page = (s', rc, pg) ->
    persistent s' pool /\ forall o i, view s' !! (pool, o, i) =
      if decide ((o, i) = (oid, ind)) then None else view s !! (pool, o, i);
  plaw_flush_object : forall s pool oid ind page s' rc pg,
    persistent s pool -> HYPERVISOR_tmem_op s (MkOp FLUSH_OBJECT pool oid ind (0, 0) 0) page = (s', rc, pg) ->
    persistent s' pool /\ forall o i, view s' !! (pool, o, i) = if decide (o = oid) then None else view s !! (pool, o, i);
}.

(** ** The page cache is coherent *)

Section Cleancache.
Context {H : Type} `{TmemSpec H}.

Inductive call :=
| CPut (pool : Z) (oid : tmem_oid) (index : Z) (page : list Z)
| CGet (pool : Z) (oid : tmem_oid) (index : Z)
| CFlushPage (pool : Z) (oid : tmem_oid) (index : Z)
| CFlushInode (pool : Z) (oid : tmem_oid)
| CFlushFs (pool : Z).

(** The calls, and the answers of the gets. *)
Definition run_call (st : H * list (option (list Z))) (c : call) : H * list (option (list Z)) :=
  match c with
  | CPut pool oid index page => (tmem_cleancache_put_page st.1 pool oid index page, st.2)
  | CGet pool oid index =>
      let '(s, ret, page) := tmem_cleancache_get_page st.1 pool oid index [] in
      (s, st.2 ++ [if ret =? 0 then Some page else None])
  | CFlushPage pool oid index => (tmem_cleancache_flush_page st.1 pool oid index, st.2)
  | CFlushInode pool oid => (tmem_cleancache_flush_inode st.1 pool oid, st.2)
  | CFlushFs pool => (tmem_cleancache_flush_fs st.1 pool, st.2)
  end.

(** The page of every key that was put last and not invalidated since. *)
Definition spec_call (st : gmap (Z * tmem_oid * Z) (list Z) * list (option (list Z))) (c : call)
  : gmap (Z * tmem_oid * Z) (list Z) * list (option (list Z)) :=
  match c with
  | CPut pool oid index page => (<[(pool, oid, index) := page]> st.1, st.2)
  | CGet pool oid index => (st.1, st.2 ++ [st.1 !! (pool, oid, index)])
  | CFlushPage pool oid index => (delete (pool, oid, index) st.1, st.2)
  | CFlushInode pool oid => (filter (fun x => x.1.1 <> (pool, oid)) st.1, st.2)
  | CFlushFs pool => (filter (fun x => x.1.1.1 <> pool) st.1, st.2)
  end.

(** The hypervisor has nothing but current pages, under numbers that fit. *)
Definition current (s : H) (m : gmap (Z * tmem_oid * Z) (list Z)) : Prop :=
  view s ⊆ m /\ forall pool oid ind, is_Some (view s !! (pool, oid, ind)) -> 0 <= pool < 2 ^ 31 /\ 0 <= ind < 2 ^ 32.

Lemma current_shrinks s s' m : current s m -> view s' ⊆ view s -> current s' m.
Proof.
  intros [Hm Hr] Hs. split; [by etrans|]. intros pool oid ind [pg Hpg]. apply (Hr pool oid ind). exists pg. by eapply lookup_weaken.
Qed.

(** The hypervisor dropped pages. *)
Lemma current_flush s s' m m' : current s m -> view s' ⊆ view s -> view s' ⊆ m' -> current s' m'.
Proof. intros Hc Hs Hm'. split; [done|]. by apply (current_shrinks s s' m). Qed.

(** A call that the shim ignores concerns no page the hypervisor has. *)
Lemma current_ignored s m (P : Z * tmem_oid * Z -> Prop) m' :
  current s m -> (forall k, P k -> view s !! k = None) -> (forall k, ~ P k -> m' !! k = m !! k) -> current s m'.
Proof.
  intros [Hm Hr] HP Hm'. split; [|done]. apply map_subseteq_spec. intros k pg Hk.
  rewrite Hm'; [by eapply lookup_weaken|]. intros HPk. rewrite (HP k HPk) in Hk. done.
Qed.

Lemma out_of_range s m pool oid index :
  current s m -> (pool <? 0) = true \/ negb (u32 index =? index) = true -> view s !! (pool, oid, index) = None.
Proof.
  intros [_ Hr] Hbad. apply eq_None_not_Some. intros Hs. destruct (Hr pool oid index Hs) as [Hp Hi]. rewrite wrap_small in Hbad by lia.
  rewrite Z.eqb_refl in Hbad. cbn [negb] in Hbad. lia.
Qed.

Lemma pool_small pool : pool < 2 ^ 31 -> (pool <? 0) = false -> u32 pool = pool.
Proof. intros. apply wrap_small. lia. Qed.

Lemma run_current s m c out :
  current s m -> (forall pool, match c with CPut p _ _ _ | CGet p _ _ | CFlushPage p _ _ | CFlushInode p _ | CFlushFs p => p = pool end -> pool < 2 ^ 31) ->
  current (run_call (s, out) c).1 (spec_call (m, out) c).1.
Proof.
  intros Hc Hpool. pose proof Hc as [Hm Hr].
  destruct c as [pool oid index page|pool oid index|pool oid index|pool oid|pool]; specialize (Hpool pool eq_refl); cbn [run_call spec_call fst snd].
  - unfold tmem_cleancache_put_page. destruct (pool <? 0) eqn:Hp; [|destruct (negb (u32 index =? index)) eqn:Hi].
    1, 2: apply (current_ignored s m (fun k => k = (pool, oid, index))); [done|intros k ->; eapply out_of_range; eauto|intros k Hk; by apply lookup_insert_ne].
    rewrite (pool_small pool Hpool Hp). apply negb_false_iff, Z.eqb_eq in Hi. rewrite Hi. unfold xen_tmem_put_page, xen_tmem_op.
    destruct (HYPERVISOR_tmem_op s _ page) as [[s' rc] pg] eqn:Hop. apply law_put in Hop. cbn [fst]. split.
    + etrans; [exact Hop|]. by apply insert_mono.
    + intros pool' oid' ind' [pg' Hpg']. apply (lookup_weaken _ _ _ _ Hpg') in Hop. apply lookup_insert_Some in Hop as [[[= <- <- <-] _]|[_ Hop]]; [|by eapply Hr].
      pose proof (wrap_bound 32 index). lia.
  - unfold tmem_cleancache_get_page. destruct (pool <? 0); [done|]. destruct (negb _); [done|]. unfold xen_tmem_get_page, xen_tmem_op.
    destruct (HYPERVISOR_tmem_op s _ []) as [[s' rc] pg] eqn:Hop. apply law_get in Hop as [Hop _]. by eapply current_shrinks.
  - unfold tmem_cleancache_flush_page. destruct (pool <? 0) eqn:Hp; [|destruct (negb (u32 index =? index)) eqn:Hi].
    1, 2: apply (current_ignored s m (fun k => k = (pool, oid, index))); [done|intros k ->; eapply out_of_range; eauto|intros k Hk; by apply lookup_delete_ne].
    rewrite (pool_small pool Hpool Hp). apply negb_false_iff, Z.eqb_eq in Hi. rewrite Hi. unfold xen_tmem_flush_page, xen_tmem_op.
    pose proof (law_flush_page s pool oid index []) as Hl.
    apply (current_flush s _ m); [done|etrans; [exact Hl|]; apply delete_subseteq|]. etrans; [exact Hl|]. by apply delete_mono.
  - unfold tmem_cleancache_flush_inode. destruct (pool <? 0) eqn:Hp.
    + apply (current_ignored s m (fun k => k.1 = (pool, oid))); [done| |].
      * intros [[p' o'] i'] [= -> ->]. eapply out_of_range; eauto.
      * intros k Hk. rewrite map_lookup_filter. by destruct (m !! k); cbn; [rewrite option_guard_True|].
    + rewrite (pool_small pool Hpool Hp). unfold xen_tmem_flush_object, xen_tmem_op. pose proof (law_flush_object s pool oid 0 []) as Hl.
      apply (current_flush s _ m); [done|etrans; [exact Hl|]; apply map_filter_subseteq|]. etrans; [exact Hl|]. by apply map_filter_subseteq_mono.
  - unfold tmem_cleancache_flush_fs. destruct (pool <? 0) eqn:Hp.
    + apply (current_ignored s m (fun k => k.1.1 = pool)); [done| |].
      * intros [[p' o'] i'] Hk. cbn in Hk. subst. eapply out_of_range; eauto.
      * intros k Hk. rewrite map_lookup_filter. by destruct (m !! k); cbn; [rewrite option_guard_True|].
    + rewrite (pool_small pool Hpool Hp). unfold xen_tmem_destroy_pool, xen_tmem_op. pose proof (law_destroy s pool (MkOid 0 0 0) 0 []) as Hl.
      apply (current_flush s _ m); [done|etrans; [exact Hl|]; apply map_filter_subseteq|]. etrans; [exact Hl|]. by apply map_filter_subseteq_mono.
Qed.

(** What a get may answer: nothing, or the current page. *)
Definition allowed (got want : option (list Z)) : Prop := got = None \/ got = want.

Definition call_pool (c : call) : Z :=
  match c with CPut p _ _ _ | CGet p _ _ | CFlushPage p _ _ | CFlushInode p _ | CFlushFs p => p end.

(** C24: The page cache never sees a page that is out of date: in any sequence of calls a get that succeeds returns the page that was put
    last under its pool, file and index, and not invalidated since, whatever pages the hypervisor dropped. *)
Theorem tmem_cleancache_coherent s cs :
  view s = ∅ -> Forall (fun c => call_pool c < 2 ^ 31) cs ->
  Forall2 allowed (foldl run_call (s, []) cs).2 (foldl spec_call (∅, []) cs).2.
Proof.
  intros Hv Hcs. assert (forall s m out want, current s m -> Forall2 allowed out want ->
    Forall2 allowed (foldl run_call (s, out) cs).2 (foldl spec_call (m, want) cs).2) as Hrun.
  { clear s Hv. induction Hcs as [|c cs Hp _ IH]; intros s m out want Hc Hout; [done|]. cbn [foldl].
    pose proof (run_current s m c out Hc) as Hc'. rewrite (surjective_pairing (run_call (s, out) c)), (surjective_pairing (spec_call (m, want) c)).
    apply IH.
    - replace ((spec_call (m, want) c).1) with ((spec_call (m, out) c).1) by (by destruct c). apply Hc'. intros pool. destruct c; cbn in Hp; lia.
    - destruct c as [pool oid index page|pool oid index|pool oid index|pool oid|pool]; cbn [run_call spec_call fst snd]; try done.
      destruct (tmem_cleancache_get_page s pool oid index []) as [[s' ret] pg] eqn:Hg. cbn [snd]. apply Forall2_app; [done|]. constructor; [|done].
      destruct (Z.eqb_spec ret 0) as [->|]; [right|by left]. unfold tmem_cleancache_get_page in Hg.
      destruct (pool <? 0) eqn:Hp0; [done|]. destruct (negb _) eqn:Hi; [done|]. rewrite (pool_small pool Hp Hp0) in Hg.
      apply negb_false_iff, Z.eqb_eq in Hi. rewrite Hi in Hg. unfold xen_tmem_get_page, xen_tmem_op in Hg.
      destruct (HYPERVISOR_tmem_op s _ []) as [[s1 rc] pg1] eqn:Hop. apply law_get in Hop as [_ Hop].
      destruct (Z.eqb_spec rc 1) as [Hrc|]; [|done]. injection Hg as <- <-. symmetry. eapply lookup_weaken; [by apply Hop|apply Hc]. }
  apply Hrun; [|done]. split; [rewrite Hv; apply map_empty_subseteq|]. intros pool oid ind. rewrite Hv, lookup_empty. by intros [? ?].
Qed.

End Cleancache.

(** ** The swap system is a map *)

Lemma oswiz_value type ind : 0 <= type < 2 ^ 28 -> 0 <= ind -> _oswiz type ind = type * 16 + ind mod 16.
Proof.
  intros Ht Hi. unfold _oswiz. change SWIZ_MASK with (Z.ones 4). change SWIZ_BITS with 4. rewrite Z.land_ones by lia.
  rewrite wrap_small by (rewrite Z.shiftl_mul_pow2 by lia; lia). pose proof (Z.mod_pos_bound ind (2 ^ 4) ltac:(lia)).
  rewrite lor_shiftl by lia. done.
Qed.

(** Different pages of the swap devices have different objects and indices. *)
Lemma swiz_inj type ind type' ind' :
  0 <= type < 2 ^ 28 -> 0 <= type' < 2 ^ 28 -> 0 <= ind -> 0 <= ind' ->
  (oswiz type ind, iswiz ind) = (oswiz type' ind', iswiz ind') <-> (type, ind) = (type', ind').
Proof.
  intros Ht Ht' Hi Hi'. split; [|by intros [= -> ->]]. intros Heq. injection Heq as Ho Hw.
  rewrite !oswiz_value in Ho by done. unfold iswiz in Hw. change SWIZ_BITS with 4 in Hw. rewrite !Z.shiftr_div_pow2 in Hw by lia.
  change (2 ^ 4) with 16 in Hw. pose proof (Z.div_mod ind 16 ltac:(lia)). pose proof (Z.div_mod ind' 16 ltac:(lia)).
  pose proof (Z.mod_pos_bound ind 16 ltac:(lia)). pose proof (Z.mod_pos_bound ind' 16 ltac:(lia)).
  assert (type = type') as -> by lia. f_equal. lia.
Qed.

Section Frontswap.
Context {H : Type} `{TmemPersistent H}.

Definition swap_page (p : Z * Z) : Prop := 0 <= p.1 < 2 ^ 28 /\ 0 <= p.2 < 2 ^ 32.

(** The pages of the swap devices, by device and offset. *)
Record swap_rep (f : frontswap H) (m : gmap (Z * Z) (list Z)) : Prop := {
  sr_pool : 0 <= tmem_frontswap_poolid f /\ persistent (hyp f) (tmem_frontswap_poolid f);
  sr_pages : forall type offset, swap_page (type, offset) ->
    view (hyp f) !! (tmem_frontswap_poolid f, oswiz type offset, iswiz offset) = m !! (type, offset);
}.

Lemma swap_key type offset type' offset' {A} (x y : A) :
  swap_page (type, offset) -> swap_page (type', offset') ->
  (if decide ((oswiz type' offset', iswiz offset') = (oswiz type offset, iswiz offset)) then x else y)
  = if decide ((type', offset') = (type, offset)) then x else y.
Proof. intros [Ht Ho] [Ht' Ho']. cbn in *. apply decide_ext. apply swiz_inj; lia. Qed.

Lemma swap_fits (f : frontswap H) m type offset : swap_rep f m -> swap_page (type, offset) ->
  (tmem_frontswap_poolid f <? 0) = false /\ u32 offset = offset.
Proof. intros [[Hp _] _] [_ Ho]. split; [lia|by apply wrap_small]. Qed.

Lemma store_ok f m type offset page : swap_rep f m -> swap_page (type, offset) ->
  exists f' r, tmem_frontswap_store f type offset page false = (f', r)
    /\ swap_rep f' (if decide (r = 0) then <[(type, offset) := page]> m else delete (type, offset) m).
Proof.
  intros Hr Hpage. destruct (swap_fits _ _ _ _ Hr Hpage) as [Hp Hu]. destruct Hr as [[Hp0 Hper] Hm].
  unfold tmem_frontswap_store. rewrite Hp, Hu, Z.eqb_refl. cbn [negb]. unfold xen_tmem_put_page, xen_tmem_op.
  destruct (HYPERVISOR_tmem_op _ _ page) as [[s' rc] pg] eqn:Hop. apply plaw_put in Hop as [Hper' Hv]; [|done]. eexists _, _. split; [done|].
  split; [done|]. cbn [hyp tmem_frontswap_poolid]. intros t' o' Hpg'. rewrite Hv, swap_key, Hm by done.
  destruct (Z.eqb_spec rc 1) as [->|Hrc]; destruct (decide ((t', o') = (type, offset))) as [->|Hne]; repeat case_decide; try done.
  - by rewrite lookup_insert_eq.
  - by rewrite lookup_insert_ne.
  - by rewrite lookup_delete_eq.
  - by rewrite lookup_delete_ne.
Qed.

Lemma load_ok f m type offset page : swap_rep f m -> swap_page (type, offset) ->
  exists f' pg, tmem_frontswap_load f type offset page = (f', (if decide (is_Some (m !! (type, offset))) then 0 else -1), pg)
    /\ swap_rep f' m /\ forall q, m !! (type, offset) = Some q -> pg = q.
Proof.
  intros Hr Hpage. destruct (swap_fits _ _ _ _ Hr Hpage) as [Hp Hu]. destruct Hr as [[Hp0 Hper] Hm].
  unfold tmem_frontswap_load. rewrite Hp, Hu, Z.eqb_refl. cbn [negb]. unfold xen_tmem_get_page, xen_tmem_op.
  destruct (HYPERVISOR_tmem_op _ _ page) as [[s' rc] pg] eqn:Hop. pose proof (law_get _ _ _ _ _ _ _ _ Hop) as [_ Hpg].
  apply plaw_get in Hop as (Hper' & Hv & Hrc); [|done]. rewrite Hm in Hrc, Hpg by done. eexists _, _. split_and!.
  - f_equal. f_equal. destruct (Z.eqb_spec rc 1); case_decide; tauto.
  - split; [done|]. cbn [hyp tmem_frontswap_poolid]. intros t' o' Hpg'. by rewrite Hv, Hm.
  - intros q Hq. assert (rc = 1) as Hrc1 by (apply Hrc; eauto). specialize (Hpg Hrc1). congruence.
Qed.

Lemma flush_page_ok f m type offset : swap_rep f m -> swap_page (type, offset) ->
  swap_rep (tmem_frontswap_flush_page f type offset) (delete (type, offset) m).
Proof.
  intros Hr Hpage. destruct (swap_fits _ _ _ _ Hr Hpage) as [Hp Hu]. destruct Hr as [[Hp0 Hper] Hm].
  unfold tmem_frontswap_flush_page. rewrite Hp, Hu, Z.eqb_refl. cbn [negb]. unfold xen_tmem_flush_page, xen_tmem_op.
  destruct (HYPERVISOR_tmem_op _ _ []) as [[s' rc] pg] eqn:Hop. apply plaw_flush_page in Hop as [Hper' Hv]; [|done].
  split; [done|]. cbn [hyp tmem_frontswap_poolid fst]. intros t' o' Hpg'. rewrite Hv, swap_key, Hm by done.
  destruct (decide ((t', o') = (type, offset))) as [->|Hne]; [by rewrite lookup_delete_eq|by rewrite lookup_delete_ne].
Qed.

(** Flushing objects one after the other. *)
Lemma flush_objects (s : H) pool (l : list tmem_oid) :
  persistent s pool ->
  let s' := foldl (fun s o => xen_tmem_flush_object s pool o) s l in
  persistent s' pool /\ forall o i, view s' !! (pool, o, i) = if decide (o ∈ l) then None else view s !! (pool, o, i).
Proof.
  revert s. induction l as [|x l IH]; intros s Hp; cbn [foldl].
  - split; [done|]. intros o i. rewrite decide_False; [done|]. apply not_elem_of_nil.
  - assert (persistent (xen_tmem_flush_object s pool x) pool /\ forall o i, view (xen_tmem_flush_object s pool x) !! (pool, o, i)
      = if decide (o = x) then None else view s !! (pool, o, i)) as [Hp1 Hv1].
    { unfold xen_tmem_flush_object, xen_tmem_op. destruct (HYPERVISOR_tmem_op _ _ []) as [[s' rc] pg] eqn:Hop. by apply plaw_flush_object in Hop. }
    destruct (IH _ Hp1) as [Hp' Hv']. split; [done|]. intros o i. rewrite Hv', Hv1. repeat case_decide; try done; set_solver.
Qed.

Lemma flush_area_ok f m type : swap_rep f m -> 0 <= type < 2 ^ 28 ->
  swap_rep (tmem_frontswap_flush_area f type) (filter (fun x => x.1.1 <> type) m).
Proof.
  intros [[Hp0 Hper] Hm] Ht. unfold tmem_frontswap_flush_area. rewrite (proj2 (Z.ltb_ge _ _)) by done.
  assert (forall l s, foldl (fun s ind => xen_tmem_flush_object s (tmem_frontswap_poolid f) (oswiz type (Z.of_nat ind))) s l
    = foldl (fun s o => xen_tmem_flush_object s (tmem_frontswap_poolid f) o) s ((fun ind => oswiz type (Z.of_nat ind)) <$> l)) as Hfold.
  { intros l. induction l as [|x l IH]; intros s; [done|]. apply IH. }
  rewrite Hfold. destruct (flush_objects (hyp f) (tmem_frontswap_poolid f) ((fun ind => oswiz type (Z.of_nat ind)) <$> rev (seq 0 (Z.to_nat (SWIZ_MASK + 1)))) Hper)
    as [Hper' Hv]. split; [done|]. cbn [hyp tmem_frontswap_poolid]. intros t' o' [Ht' Ho']. cbn in Ht', Ho'. rewrite Hv, Hm by done.
  assert (oswiz t' o' ∈ (fun ind => oswiz type (Z.of_nat ind)) <$> rev (seq 0 (Z.to_nat (SWIZ_MASK + 1))) <-> t' = type) as Hin.
  { rewrite list_elem_of_fmap. pose proof (Z.mod_pos_bound o' 16 ltac:(lia)). split.
    - intros (i & Heq & Hi). injection Heq as Heq. rewrite !oswiz_value in Heq by lia. pose proof (Z.mod_pos_bound (Z.of_nat i) 16 ltac:(lia)). lia.
    - intros ->. exists (Z.to_nat (o' mod 16)). split.
      + unfold oswiz. f_equal. rewrite !oswiz_value by lia. rewrite Z2Nat.id, Z.mod_mod by lia. done.
      + rewrite list_elem_of_In, <- in_rev, <- list_elem_of_In. apply elem_of_seq. change (Z.to_nat (SWIZ_MASK + 1)) with 16%nat. lia. }
  rewrite map_lookup_filter. cbn [fst]. destruct (decide (t' = type)) as [->|Hne].
  - rewrite decide_True by (by apply Hin). destruct (m !! (type, o')); cbn; [|done]. by rewrite option_guard_False by tauto.
  - rewrite decide_False by (by rewrite Hin). destruct (m !! (t', o')); cbn; [|done]. by rewrite option_guard_True.
Qed.

(** C25: The swap system is a map of pages: a store that returns 0 can be loaded until the page or its device is flushed or
    stored again, a load of a page that is there succeeds, and no operation touches another page. *)
Theorem frontswap_refines f m type offset page :
  swap_rep f m -> swap_page (type, offset) ->
  (exists f' r, tmem_frontswap_store f type offset page false = (f', r)
     /\ swap_rep f' (if decide (r = 0) then <[(type, offset) := page]> m else delete (type, offset) m))
  /\ (exists f' pg, tmem_frontswap_load f type offset page = (f', (if decide (is_Some (m !! (type, offset))) then 0 else -1), pg)
     /\ swap_rep f' m /\ forall q, m !! (type, offset) = Some q -> pg = q)
  /\ swap_rep (tmem_frontswap_flush_page f type offset) (delete (type, offset) m)
  /\ swap_rep (tmem_frontswap_flush_area f type) (filter (fun x => x.1.1 <> type) m).
Proof.
  intros Hr Hp. split_and!; [by apply store_ok|by apply load_ok|by apply flush_page_ok|]. apply flush_area_ok; [done|apply Hp].
Qed.

End Frontswap.

(** ** A hypervisor that never drops a page *)

Section Examples.

Abbreviation store_of_pages := (gmap (Z * tmem_oid * Z) (list Z)) (only parsing).

#[local] Instance simple_hypervisor : Hypervisor store_of_pages := {|
  HYPERVISOR_tmem_op s op page :=
    let k := (pool_id op, op_oid op, op_index op) in
    match cmd op with
    | PUT_PAGE => (<[k := page]> s, 1, page)
    | GET_PAGE => match s !! k with Some pg => (s, 1, pg) | None => (s, 0, page) end
    | FLUSH_PAGE => (delete k s, 1, page)
    | FLUSH_OBJECT => (filter (fun x => x.1.1 <> (pool_id op, op_oid op)) s, 1, page)
    | DESTROY_POOL => (filter (fun x => x.1.1.1 <> pool_id op) s, 1, page)
    | NEW_POOL => (s, 0, page)
    end;
  TMEM_SPEC_VERSION := 1;
|}.

#[local] Instance simple_spec : TmemSpec store_of_pages.
Proof.
  refine {| view := fun s => s |}.
  - intros s pool oid ind page s' rc pg Hop. by injection Hop as <- _ _.
  - intros s pool oid ind page s' rc pg Hop. cbn in Hop. destruct (s !! (pool, oid, ind)) eqn:Hk; injection Hop as <- <- <-; (split; [done|]); [done|lia].
  - done.
  - done.
  - done.
Defined.

#[local] Instance simple_persistent : TmemPersistent store_of_pages.
Proof.
  refine {| persistent := fun _ _ => True |}.
  - intros s pool oid ind page s' rc pg _ Hop. injection Hop as <- <- _. split; [done|]. intros o i. cbn.
    destruct (decide ((o, i) = (oid, ind))) as [[= -> ->]|Hne]; [by rewrite lookup_insert_eq|]. rewrite lookup_insert_ne; [done|congruence].
  - intros s pool oid ind page s' rc pg _ Hop. cbn in Hop. destruct (s !! (pool, oid, ind)) eqn:Hk; injection Hop as <- <- <-; cbn; rewrite Hk.
    + split_and!; [done|done|split; [eauto|done]].
    + split_and!; [done|done|split; [lia|by intros [? ?]]].
  - intros s pool oid ind page s' rc pg _ Hop. injection Hop as <- _ _. split; [done|]. intros o i. cbn.
    destruct (decide ((o, i) = (oid, ind))) as [[= -> ->]|Hne]; [by rewrite lookup_delete_eq|]. rewrite lookup_delete_ne; [done|congruence].
  - intros s pool oid ind page s' rc pg _ Hop. injection Hop as <- _ _. split; [done|]. intros o i. cbn. rewrite map_lookup_filter.
    destruct (s !! (pool, o, i)); cbn; [|by case_decide]. destruct (decide (o = oid)) as [->|Hne]; [by rewrite option_guard_False by tauto|].
    rewrite option_guard_True; [done|]. congruence.
Defined.

Definition swap0 : frontswap store_of_pages := MkSwap (∅ : store_of_pages) 0.

Lemma swap0_rep : swap_rep swap0 ∅.
Proof. split; [done|]. intros type offset _. cbn. by rewrite !lookup_empty. Qed.

Lemma frontswap_refines_witness :
  exists f' r, tmem_frontswap_store swap0 1 37 [7; 8] false = (f', r)
    /\ swap_rep f' (if decide (r = 0) then <[(1, 37) := [7; 8]]> ∅ else delete (1, 37) ∅).
Proof. apply (frontswap_refines swap0 ∅ 1 37 [7; 8]); [exact swap0_rep|]. unfold swap_page. cbn. lia. Defined.

(** The page 37 of device 1 is page 2 of object 21. *)
Example swizzled : oswiz 1 37 = MkOid 21 0 0 /\ iswiz 37 = 2.
Proof. done. Qed.

Definition some_calls : list call :=
  [CPut 0 (MkOid 5 0 0) 3 [1]; CGet 0 (MkOid 5 0 0) 3; CPut 0 (MkOid 5 0 0) 3 [2]; CGet 0 (MkOid 5 0 0) 3;
   CFlushInode 0 (MkOid 5 0 0); CGet 0 (MkOid 5 0 0) 3; CPut 0 (MkOid 5 0 0) (2 ^ 32) [3]; CGet 0 (MkOid 5 0 0) (2 ^ 32)].

Lemma tmem_cleancache_coherent_witness :
  Forall2 allowed (foldl run_call ((∅ : store_of_pages), []) some_calls).2 [Some [1]; Some [2]; None; Some [3]].
Proof. apply (tmem_cleancache_coherent (∅ : store_of_pages) some_calls); [done|]. repeat constructor; cbn; lia. Defined.

Example coherent_answers : (foldl run_call ((∅ : store_of_pages), []) some_calls).2 = [Some [1]; Some [2]; None; None].
Proof. vm_compute. reflexivity. Qed.

(** A page size of zero never becomes one. *)
Example page_shift_zero fuel : page_shift fuel 0 0 = None.
Proof.
  assert (forall n, page_shift fuel 0 n = None) as Hn; [|apply Hn]. induction fuel as [|fuel IH]; intros n; [done|].
  cbn [page_shift]. change (0 =? 1) with false. cbv iota. apply IH.
Qed.

End Examples.
