(* ===== verification/DramBackend.v ===== *)
(** * The local backend of the client (client/dram-backend)

    A cleancache backend that keeps the pages in the memory of the client: every
    put takes the next page of one buffer and adds an entry to a hash table of
    the kernel; a get walks the bucket of its key.  The buffer is indexed by byte
    offsets that are multiples of the page size.  [None] is a crash of the
    kernel: a [BUG_ON], a null pointer, or memory outside of the buffer.

    The Bloom filter of bloom_filter.c, which the build with PMDFC_BF puts in front of
    the table and which the other clients share, hashes with a list of digests of
    the kernel's crypto library. *)

From S2P Require Import Prelude PairDefs HashFun Wire.

(** ** The filter (bloom_filter.c) *)

(** The crypto library: the digest of a message under a named algorithm, or an error code.
    The algorithms that exist, with the lengths of their digests. *)
Class Crypto := {
  shash_digest : Z -> list Z -> Z * list Z;
  shash_size : Z -> option nat;
}.

Record bloom_filter : Type := MkFilter { bitmap_size : Z; alg_list : list Z; bitmap : list bool }.

Definition EINVAL : Z := 22.
Definition ENOENT : Z := 2.

Definition bloom_filter_new (bit_size : Z) : bloom_filter := MkFilter bit_size [] (replicate (Z.to_nat bit_size) false).

Section Filter.
Context `{Crypto}.

(** An algorithm that the library does not have is reported, and not added. *)
Definition bloom_filter_add_hash_alg (f : bloom_filter) (name : Z) : bloom_filter * Z :=
  match shash_size name with
  | None => (f, - ENOENT)
  | Some _ => (MkFilter (bitmap_size f) (alg_list f ++ [name]) (bitmap f), 0)
  end.

(** [*bit += alg->data[i] << i; *bit %= bitmap_size], the shift that of an [int]. *)
Definition bit_step (size : Z) (st : Z * Z) (d : Z) : option (Z * Z) :=
  let '(i, bit) := st in
  _ ← (if i <? 32 then Some tt else None);
  bit ← urem (u32 (bit + s32 (d ≪ i))) (u32 size);
  Some (i + 1, bit).
Definition __bit_for_crypto_alg (alg : Z) (data : list Z) (size : Z) : option (Z * Z) :=
  let '(ret, digest) := shash_digest alg data in
  '(_, bit) ← foldM (bit_step size) digest (0, 0);
  Some (ret, bit).

(** The loops over the algorithms; the results are the filter and [ret]. *)
Fixpoint add_loop (algs : list Z) (f : bloom_filter) (data : list Z) (ret : Z) : option (bloom_filter * Z) :=
  match algs with
  | [] => Some (f, ret)
  | alg :: algs =>
      '(ret, bit) ← __bit_for_crypto_alg alg data (bitmap_size f);
      if ret <? 0 then Some (f, ret)
      else
        b ← store (bitmap f) (Z.to_nat bit) true;
        add_loop algs (MkFilter (bitmap_size f) (alg_list f) b) data ret
  end.
Definition bloom_filter_add (f : bloom_filter) (data : list Z) : option (bloom_filter * Z) :=
  match alg_list f with
  | [] => Some (f, - EINVAL)
  | algs => add_loop algs f data 0
  end.

Fixpoint check_loop (algs : list Z) (f : bloom_filter) (data : list Z) (ret : Z) : option (bool * Z) :=
  match algs with
  | [] => Some (true, ret)
  | alg :: algs =>
      '(ret, bit) ← __bit_for_crypto_alg alg data (bitmap_size f);
      if ret <? 0 then Some (true, ret)
      else
        b ← bitmap f !! Z.to_nat bit;
        if negb b then Some (false, ret) else check_loop algs f data ret
  end.
(** [result] keeps its value when there is no algorithm. *)
Definition bloom_filter_check (f : bloom_filter) (data : list Z) (result : bool) : option (bool * Z) :=
  match alg_list f with
  | [] => Some (result, - EINVAL)
  | algs => check_loop algs f data 0
  end.

Definition bloom_filter_reset (f : bloom_filter) : bloom_filter :=
  MkFilter (bitmap_size f) (alg_list f) (replicate (length (bitmap f)) false).

End Filter.

(** ** The backend (pmdfc.c) *)

Definition BITS : Z := 21.
Definition PAGE_SIZE : Z := 4096.
Definition NUM_PAGES : Z := 1 ≪ BITS.
Definition REMOTE_BUF_SIZE : Z := PAGE_SIZE * NUM_PAGES.

Record ht_data : Type := MkData { longkey : Z; roffset : Z }.

Record backend : Type := MkBackend {
  mr_free_start : Z;
  mr_free_end : Z;
  dram_buf : gmap Z (list Z);     (** pages that were written, by their offset *)
  hash_head : gmap Z (list ht_data);
  put_cnt : Z;
  get_cnt : Z;
  pool_id : Z;
}.

Definition pmdfc_init : backend := MkBackend 0 REMOTE_BUF_SIZE ∅ ∅ 0 0 0.

(** [cleancache_filekey]: the three words of the object id. *)
Record filekey : Type := MkKey { oid0 : Z; oid1 : Z; oid2 : Z }.

(** [atomic_long_fetch_add_unless]: the old value and the new one. *)
Definition fetch_add_unless (v a u : Z) : Z * Z := (v, if v =? u then v else v + a).

Definition in_buffer (off : Z) : bool := (0 <=? off) && (off + PAGE_SIZE <=? REMOTE_BUF_SIZE).

Section Backend.
(** The bucket of a key, by the hash function of the kernel. *)
Context (hash_min : Z -> Z).

Definition bucket (s : backend) (k : Z) : list ht_data := default [] (hash_head s !! hash_min k).

(** [alloc] tells whether [kmalloc] has memory, [irqs_off] whether interrupts are disabled. *)
Definition pmdfc_cleancache_put_page (s : backend) (pool : Z) (key : filekey) (index : Z) (page : list Z) (irqs_off alloc : bool)
  : option backend :=
  if negb irqs_off then None
  else if pool <? 0 then Some s
  else if negb (oid1 key =? 0) then None
  else if negb (oid2 key =? 0) then None
  else if negb alloc then None
  else
    let k := get_longkey (oid0 key) index in
    let '(off, start) := fetch_add_unless (mr_free_start s) PAGE_SIZE (mr_free_end s) in
    let tmp := MkData k off in
    let head := <[hash_min k := tmp :: bucket s k]> (hash_head s) in
    if in_buffer off then
      Some (MkBackend start (mr_free_end s) (<[off := page]> (dram_buf s)) head (u64 (put_cnt s + 1)) (get_cnt s) (pool_id s))
    else None.

(** [hash_for_each_possible] goes on after a match. *)
Definition find_last (k : Z) (l : list ht_data) : option ht_data :=
  foldl (fun r cur => if longkey cur =? k then Some cur else r) None l.

(** The result and the page; a page of the buffer that was never written is zero. *)
Definition pmdfc_cleancache_get_page (s : backend) (key : filekey) (index : Z) (page : list Z) : option (backend * Z * list Z) :=
  if negb (oid1 key =? 0) then None
  else if negb (oid2 key =? 0) then None
  else
    let s' := MkBackend (mr_free_start s) (mr_free_end s) (dram_buf s) (hash_head s) (put_cnt s) (u64 (get_cnt s + 1)) (pool_id s) in
    let k := get_longkey (oid0 key) index in
    match find_last k (bucket s k) with
    | None => Some (s', -1, page)
    | Some cur =>
        if in_buffer (roffset cur) then
          Some (s', 0, default (replicate (Z.to_nat PAGE_SIZE) 0) (dram_buf s !! roffset cur))
        else None
    end.

Definition pmdfc_cleancache_flush_page (s : backend) (pool : Z) (key : filekey) (index : Z) : backend := s.
Definition pmdfc_cleancache_flush_inode (s : backend) (pool : Z) (key : filekey) : backend := s.
Definition pmdfc_cleancache_flush_fs (s : backend) (pool : Z) : backend := s.
Definition pmdfc_cleancache_init_fs (s : backend) : backend * Z :=
  let id := s32 (pool_id s + 1) in
  (MkBackend (mr_free_start s) (mr_free_end s) (dram_buf s) (hash_head s) (put_cnt s) (get_cnt s) id, id).
Definition pmdfc_cleancache_init_shared_fs : Z := -1.

(** ** The backend keeps the first page of every key *)

Lemma find_last_acc k l r :
  foldl (fun r cur => if longkey cur =? k then Some cur else r) r l = match find_last k l with Some d => Some d | None => r end.
Proof.
  revert r. unfold find_last. induction l as [|d l IH]; intros r; [done|]. cbn [foldl].
  destruct (longkey d =? k); rewrite IH, ?(IH (Some _)); by destruct (foldl _ None l).
Qed.

Lemma find_last_cons k d l :
  find_last k (d :: l) = match find_last k l with Some d' => Some d' | None => if longkey d =? k then Some d else None end.
Proof. unfold find_last at 1. cbn [foldl]. apply find_last_acc. Qed.

Lemma find_last_in k l d : find_last k l = Some d -> d ∈ l.
Proof.
  induction l as [|d' l IH]; [done|]. rewrite find_last_cons. destruct (find_last k l); [intros [= ->]; right; auto|].
  destruct (_ =? k); [intros [= ->]; left|done].
Qed.

(** A table of offsets below [limit] and the pages at them: the map has the page that is found
    for a key. *)
Definition chain (t : gmap Z (list ht_data)) (k : Z) : list ht_data := default [] (t !! hash_min k).
Record table_rep (t : gmap Z (list ht_data)) (buf : gmap Z (list Z)) (m : gmap Z (list Z)) (limit : Z) : Prop := {
  tr_node : forall b l d, t !! b = Some l -> d ∈ l -> 0 <= roffset d /\ roffset d + PAGE_SIZE <= limit /\ is_Some (buf !! roffset d);
  tr_map : forall k, m !! k = (d ← find_last k (chain t k); buf !! roffset d);
}.

(** The first page of a key stays. *)
Definition keep_first (k : Z) (page : list Z) (m : gmap Z (list Z)) : gmap Z (list Z) :=
  match m !! k with Some _ => m | None => <[k := page]> m end.

Lemma lookup_keep_first k page m k' :
  keep_first k page m !! k' = match m !! k' with Some pg => Some pg | None => if decide (k' = k) then Some page else None end.
Proof.
  unfold keep_first. destruct (m !! k) as [pg|] eqn:Hk; destruct (decide (k' = k)) as [->|Hne].
  - by rewrite Hk.
  - by destruct (m !! k').
  - by rewrite lookup_insert_eq, Hk.
  - rewrite lookup_insert_ne by done. by destruct (m !! k').
Qed.

Lemma table_rep_empty limit : table_rep ∅ ∅ ∅ limit.
Proof. split; [intros b l d Hb; by rewrite lookup_empty in Hb|]. intros k. unfold chain. by rewrite !lookup_empty. Qed.

Lemma chain_node t k d : d ∈ chain t k -> exists b l, t !! b = Some l /\ d ∈ l.
Proof. unfold chain. destruct (t !! hash_min k) as [l|] eqn:Hl; [eauto|]. intros Hd. by apply not_elem_of_nil in Hd. Qed.

Lemma table_found t buf m limit k d :
  table_rep t buf m limit -> find_last k (chain t k) = Some d -> 0 <= roffset d /\ roffset d + PAGE_SIZE <= limit /\ is_Some (buf !! roffset d).
Proof. intros Hr Hd%find_last_in%chain_node. destruct Hd as (b & l & Hb & Hd). by eapply tr_node. Qed.

(** A page at an offset that is not in use yet. *)
Lemma table_put t buf m off k page :
  table_rep t buf m off -> 0 <= off ->
  table_rep (<[hash_min k := MkData k off :: chain t k]> t) (<[off := page]> buf) (keep_first k page m) (off + PAGE_SIZE).
Proof.
  intros Hr Hoff. pose proof Hr as [Hnode Hmap].
  assert (forall d, (exists b l, t !! b = Some l /\ d ∈ l) -> <[off := page]> buf !! roffset d = buf !! roffset d) as Hold.
  { intros d (b & l & Hb & Hd). destruct (Hnode b l d Hb Hd) as (_ & Hlt & _). rewrite lookup_insert_ne; [done|]. unfold PAGE_SIZE in *. lia. }
  split.
  - assert (forall d, (exists b l, t !! b = Some l /\ d ∈ l) ->
      0 <= roffset d /\ roffset d + PAGE_SIZE <= off + PAGE_SIZE /\ is_Some (<[off := page]> buf !! roffset d)) as Hgen.
    { intros d Hd. rewrite Hold by done. destruct Hd as (b & l & Hb & Hd). destruct (Hnode b l d Hb Hd) as (? & ? & ?).
      split_and!; try done; unfold PAGE_SIZE in *; lia. }
    intros b l d Hb Hd. apply lookup_insert_Some in Hb as [[<- <-]|[_ Hb]]; [|eauto].
    apply elem_of_cons in Hd as [->|Hd]; [|by apply Hgen, (chain_node t k)]. cbn [roffset]. rewrite lookup_insert_eq. split_and!; try done; lia.
  - intros k'. rewrite lookup_keep_first, (Hmap k').
    assert (forall d, find_last k' (chain t k') = Some d -> <[off := page]> buf !! roffset d = buf !! roffset d) as Hsame
      by (intros d Hd%find_last_in%chain_node; by apply Hold).
    unfold chain at 2. destruct (decide (hash_min k' = hash_min k)) as [He|He].
    + rewrite He, lookup_insert_eq. cbn [default from_option id]. rewrite find_last_cons.
      replace (chain t k) with (chain t k') by (unfold chain; by rewrite He). pose proof (table_found t buf m off k') as Hf.
      destruct (find_last k' (chain t k')) as [d|] eqn:Hd; cbn [mbind option_bind longkey].
      * destruct (Hf d Hr eq_refl) as (_ & _ & [pg Hpg]). by rewrite Hsame, Hpg.
      * destruct (Z.eqb_spec k k') as [<-|Hne]; [|by rewrite decide_False by congruence].
        rewrite decide_True by done. cbn [mbind option_bind roffset]. by rewrite lookup_insert_eq.
    + rewrite lookup_insert_ne by congruence. fold (chain t k'). rewrite decide_False by congruence.
      destruct (find_last k' (chain t k')) as [d|]; [|done]. cbn [mbind option_bind]. rewrite Hsame by done. by destruct (buf !! roffset d).
Qed.

(** [n] pages are used; the map has the page that a get of a key returns. *)
Record dram_rep (s : backend) (m : gmap Z (list Z)) (n : Z) : Prop := {
  dr_start : mr_free_start s = PAGE_SIZE * n /\ mr_free_end s = REMOTE_BUF_SIZE /\ 0 <= n <= NUM_PAGES;
  dr_table : table_rep (hash_head s) (dram_buf s) m (mr_free_start s);
}.

Lemma dram_rep_init : dram_rep pmdfc_init ∅ 0.
Proof. split; [done|apply table_rep_empty]. Qed.

Lemma dram_rep_put s m n oid index page :
  dram_rep s m n -> n < NUM_PAGES ->
  exists s', pmdfc_cleancache_put_page s 0 (MkKey oid 0 0) index page true true = Some s'
    /\ dram_rep s' (keep_first (get_longkey oid index) page m) (n + 1).
Proof.
  intros [(Hst & Hend & Hn0) Ht] Hn. unfold pmdfc_cleancache_put_page. cbn [oid0 oid1 oid2 negb Z.ltb Z.compare Z.eqb].
  unfold fetch_add_unless. rewrite Hst, Hend in *. unfold REMOTE_BUF_SIZE at 1.
  assert (in_buffer (PAGE_SIZE * n) = true) as -> by (unfold in_buffer, REMOTE_BUF_SIZE, PAGE_SIZE in *; lia).
  rewrite (proj2 (Z.eqb_neq (PAGE_SIZE * n) (PAGE_SIZE * NUM_PAGES))) by (unfold PAGE_SIZE in *; lia). eexists. split; [done|].
  split; cbn [mr_free_start mr_free_end hash_head dram_buf]; [unfold PAGE_SIZE in *; lia|].
  apply table_put; [done|]. unfold PAGE_SIZE. lia.
Qed.

Lemma dram_rep_get s m n oid index page :
  dram_rep s m n -> exists s', pmdfc_cleancache_get_page s (MkKey oid 0 0) index page =
    Some (match m !! get_longkey oid index with Some pg => (s', 0, pg) | None => (s', -1, page) end) /\ dram_rep s' m n.
Proof.
  intros [(Hst & Hend & Hn0) Ht]. unfold pmdfc_cleancache_get_page. cbn [oid0 oid1 oid2 negb Z.eqb]. rewrite (tr_map _ _ _ _ Ht).
  set (s' := MkBackend _ _ _ _ _ _ _). exists s'. split; [|by split].
  change (bucket s) with (chain (hash_head s)). destruct (find_last _ _) as [d|] eqn:Hd; [|done].
  destruct (table_found _ _ _ _ _ _ Ht Hd) as (H1 & H2 & [pg Hpg]). cbn [mbind option_bind]. rewrite Hpg.
  assert (in_buffer (roffset d) = true) as -> by (unfold in_buffer, REMOTE_BUF_SIZE, PAGE_SIZE in *; lia). done.
Qed.

(** A history of calls, with what the gets answered. *)
Inductive call := Put (oid index : Z) (page : list Z) | Ask (oid index : Z).
Definition run_call (st : backend * list (option (list Z))) (c : call) : option (backend * list (option (list Z))) :=
  match c with
  | Put oid index page => s ← pmdfc_cleancache_put_page st.1 0 (MkKey oid 0 0) index page true true; Some (s, st.2)
  | Ask oid index => '(s, r, pg) ← pmdfc_cleancache_get_page st.1 (MkKey oid 0 0) index [];
      Some (s, st.2 ++ [if r =? 0 then Some pg else None])
  end.

(** What the calls should answer: the page that was put first under the key. *)
Definition spec_call (st : gmap Z (list Z) * list (option (list Z))) (c : call) : gmap Z (list Z) * list (option (list Z)) :=
  match c with
  | Put oid index page => (keep_first (get_longkey oid index) page st.1, st.2)
  | Ask oid index => (st.1, st.2 ++ [st.1 !! get_longkey oid index])
  end.
Definition is_put (c : call) : bool := match c with Put _ _ _ => true | Ask _ _ => false end.

Lemma run_calls cs : forall s m n out, dram_rep s m n -> n + Z.of_nat (length (List.filter is_put cs)) <= NUM_PAGES ->
  exists s', foldM run_call cs (s, out) = Some (s', (foldl spec_call (m, out) cs).2)
    /\ dram_rep s' (foldl spec_call (m, out) cs).1 (n + Z.of_nat (length (List.filter is_put cs))).
Proof.
  induction cs as [|c cs IH]; intros s m n out Hr Hn; [cbn; rewrite Z.add_0_r; eauto|]. cbn [foldM foldl]. destruct c as [oid index page|oid index].
  - cbn [List.filter is_put length] in Hn |- *. cbn [run_call spec_call fst snd].
    destruct (dram_rep_put s m n oid index page Hr) as (s1 & -> & Hr1); [lia|]. cbn [mbind option_bind].
    replace (n + Z.of_nat (S (length (List.filter is_put cs)))) with (n + 1 + Z.of_nat (length (List.filter is_put cs))) by lia.
    apply IH; [done|lia].
  - cbn [List.filter is_put] in Hn |- *. cbn [run_call spec_call fst snd].
    destruct (dram_rep_get s m n oid index [] Hr) as (s1 & -> & Hr1). cbn [mbind option_bind].
    destruct (m !! get_longkey oid index) as [pg|]; cbn [mbind option_bind]; by apply IH.
Qed.

(** C22: Up to as many puts as the buffer has pages no call crashes, and the backend refines a map in which the first page that was
    put under a key stays: a get returns that page, and misses when there was none; whatever the hash function of the
    kernel does with the keys. *)
Theorem dram_refines cs :
  Z.of_nat (length (List.filter is_put cs)) <= NUM_PAGES ->
  exists s, foldM run_call cs (pmdfc_init, []) = Some (s, (foldl spec_call (∅, []) cs).2).
Proof.
  intros Hn. destruct (run_calls cs pmdfc_init ∅ 0 []) as (s & Hs & _); [apply dram_rep_init|lia|eauto].
Qed.

(** The put after those writes behind the end of the buffer: the code only prints that the memory is full. *)
Theorem dram_full_overflows cs oid index page :
  Z.of_nat (length (List.filter is_put cs)) = NUM_PAGES ->
  foldM run_call (cs ++ [Put oid index page]) (pmdfc_init, []) = None.
Proof.
  intros Hn. destruct (run_calls cs pmdfc_init ∅ 0 []) as (s & Hs & [(Hst & Hend & _) _]); [apply dram_rep_init|lia|].
  rewrite Hn, Z.add_0_l in Hst. rewrite foldM_snoc, Hs. cbn [mbind option_bind run_call fst]. unfold pmdfc_cleancache_put_page.
  cbn [oid0 oid1 oid2 negb Z.ltb Z.compare Z.eqb]. unfold fetch_add_unless. by rewrite Hst, Hend.
Qed.

End Backend.

(** ** The filter has no false negatives *)

Section FilterCorrect.
Context `{Crypto}.

(** The bits that are set stay set. *)
Record filter_le (f f' : bloom_filter) : Prop := {
  fl_size : bitmap_size f' = bitmap_size f;
  fl_algs : alg_list f' = alg_list f;
  fl_bits : forall i, bitmap f !! i = Some true -> bitmap f' !! i = Some true;
}.

Lemma filter_le_trans f1 f2 f3 : filter_le f1 f2 -> filter_le f2 f3 -> filter_le f1 f3.
Proof. intros [] []. split; [congruence|congruence|auto]. Qed.

(** The filter answers yes for an algorithm. *)
Definition says_yes (f : bloom_filter) (data : list Z) (alg : Z) : Prop :=
  exists ret bit, __bit_for_crypto_alg alg data (bitmap_size f) = Some (ret, bit) /\ 0 <= ret /\ bitmap f !! Z.to_nat bit = Some true.

Lemma says_yes_le f f' data alg : filter_le f f' -> says_yes f data alg -> says_yes f' data alg.
Proof. intros [Hs _ Hb] (ret & bit & He & Hr & Ht). exists ret, bit. rewrite Hs. auto. Qed.

Lemma crypto_add_loop_ok algs f data r0 f' r :
  add_loop algs f data r0 = Some (f', r) -> filter_le f f' /\ (0 <= r -> Forall (says_yes f' data) algs).
Proof.
  revert f r0. induction algs as [|alg algs IH]; intros f r0 Ha; cbn [add_loop] in Ha; [injection Ha as <- <-; by split|].
  apply bind_Some in Ha as ([ret bit] & Hb & Ha). destruct (Z.ltb_spec ret 0) as [Hlt|Hge]; [injection Ha as <- <-; split; [done|lia]|].
  inv_bind Ha b Hst. apply store_inv in Hst as [Hlt ->]. set (f1 := MkFilter _ _ _) in Ha.
  assert (filter_le f f1) as Hle1.
  { split; [done|done|]. intros i Hi. cbn [f1 bitmap]. destruct (decide (i = Z.to_nat bit)) as [->|]; [by apply list_lookup_insert_eq|].
    by rewrite list_lookup_insert_ne. }
  destruct (IH f1 ret Ha) as [Hle Hyes]. split; [by eapply filter_le_trans|]. intros Hr. constructor; [|by apply Hyes].
  apply (says_yes_le f1); [done|]. exists ret, bit. split_and!; [done|done|]. by apply list_lookup_insert_eq.
Qed.

Lemma add_ok f data f' r :
  bloom_filter_add f data = Some (f', r) -> filter_le f f' /\ (0 <= r -> alg_list f <> [] /\ Forall (says_yes f' data) (alg_list f)).
Proof.
  unfold bloom_filter_add. destruct (alg_list f) as [|alg algs]; [intros [= <- <-]; split; [done|unfold EINVAL; lia]|].
  intros Ha. destruct (crypto_add_loop_ok _ _ _ _ _ _ Ha) as [Hle Hyes]. split; [done|]. intros Hr. split; [done|by apply Hyes].
Qed.

Lemma check_loop_yes algs f data r0 :
  Forall (says_yes f data) algs -> 0 <= r0 -> exists r, check_loop algs f data r0 = Some (true, r) /\ 0 <= r.
Proof.
  intros Hall. revert r0. induction Hall as [|alg algs (ret & bit & Hb & Hr & Ht) _ IH]; intros r0 Hr0; cbn [check_loop]; [eauto|].
  rewrite Hb. cbn [mbind option_bind]. destruct (Z.ltb_spec ret 0); [lia|]. rewrite Ht. cbn [mbind option_bind negb]. by apply IH.
Qed.

(** C23: A page that was added to the client's filter is found by [bloom_filter_check], also after any other pages were added,
    whichever of their additions failed on the way; for all digests that the crypto library computes. *)
Theorem crypto_filter_no_false_negative f data f1 r datas f2 result :
  bloom_filter_add f data = Some (f1, r) -> 0 <= r ->
  foldM (fun f d => fst <$> bloom_filter_add f d) datas f1 = Some f2 ->
  exists r', bloom_filter_check f2 data result = Some (true, r') /\ 0 <= r'.
Proof.
  intros Ha Hr Hf. destruct (add_ok _ _ _ _ Ha) as [Hle1 Hyes]. destruct (Hyes Hr) as [Hne Hall].
  assert (filter_le f1 f2) as Hle2.
  { revert Hf. clear. revert f1. induction datas as [|d datas IH]; intros f1 Hf; cbn [foldM] in Hf; [by injection Hf as <-|].
    inv_bind Hf f' Hf'. apply fmap_Some in Hf' as ([f'' r'] & Hadd & ->). eapply filter_le_trans; [by apply (add_ok _ _ _ _ Hadd)|by apply IH]. }
  unfold bloom_filter_check. rewrite (fl_algs _ _ Hle2), (fl_algs _ _ Hle1).
  destruct (alg_list f) as [|alg algs]; [done|]. apply check_loop_yes; [|lia]. eapply Forall_impl; [exact Hall|].
  intros x. by apply says_yes_le.
Qed.

End FilterCorrect.

(** ** Concrete runs *)

Section Examples.

(** A library with two algorithms, of digests of four and of 48 bytes. *)
#[local] Instance small_crypto : Crypto := {|
  shash_digest alg data := (0, if alg =? 1 then take 4 (data ++ [1; 2; 3; 4]) else replicate 48 7);
  shash_size alg := if alg =? 1 then Some 4%nat else if alg =? 2 then Some 48%nat else None;
|}.

Definition small_filter : bloom_filter := (bloom_filter_add_hash_alg (bloom_filter_new 97) 1).1.

Definition filter_5_6 : bloom_filter := default small_filter (fst <$> bloom_filter_add small_filter [5; 6]).
Definition filter_5_6_9 : bloom_filter := default small_filter (fst <$> bloom_filter_add filter_5_6 [9]).

Lemma crypto_filter_no_false_negative_witness : exists r', bloom_filter_check filter_5_6_9 [5; 6] false = Some (true, r') /\ 0 <= r'.
Proof.
  apply (crypto_filter_no_false_negative small_filter [5; 6] filter_5_6 0 [[9]] filter_5_6_9 false); [|lia|]; vm_compute; reflexivity.
Defined.

(** A digest of more than 32 bytes shifts an [int] by 32. *)
Example crypto_long_digest : __bit_for_crypto_alg 2 [5] 97 = None.
Proof. vm_compute. reflexivity. Qed.

(** The first page put under a key is returned also after another one was put: the old contents of a file. *)
Definition put_twice : list call := [Put 5 0 [1]; Ask 5 0; Put 5 0 [2]; Ask 5 0; Ask 6 0].

Lemma dram_refines_witness : exists s, foldM (run_call (fun k => k mod 8)) put_twice (pmdfc_init, []) = Some (s, [Some [1]; Some [1]; None]).
Proof. apply (dram_refines (fun k => k mod 8) put_twice). vm_compute. discriminate. Defined.

(** As many puts as there are pages. *)
Definition many_puts : list call := replicate (Z.to_nat NUM_PAGES) (Put 5 0 [1]).

Lemma filter_puts n : length (List.filter is_put (replicate n (Put 5 0 [1]))) = n.
Proof. induction n as [|n IH]; [done|]. cbn [replicate List.filter is_put length]. by rewrite IH. Qed.

Lemma dram_full_overflows_witness : foldM (run_call (fun k => k mod 8)) (many_puts ++ [Put 5 0 [1]]) (pmdfc_init, []) = None.
Proof.
  apply (dram_full_overflows (fun k => k mod 8) many_puts). unfold many_puts. rewrite filter_puts. rewrite Z2Nat.id; [reflexivity|]. vm_compute. discriminate.
Defined.

End Examples.
