(* ===== verification/OneSided.v ===== *)
(** * The one-sided client and its server (client/onesided, server/onesided)

    The server registers one buffer; the client gives every page that is put an
    offset in it, remembers the offset in a hash table, and reads and writes the
    buffer by RDMA (rdma_op.c).  A request is posted to the queue of a CPU and
    counted in [pending]; the caller polls the queue until nothing is pending.
    The network card is a parameter: it accepts a request or not, and completes
    some of those that are posted, in their order, whenever it is polled. *)

From S2P Require Import Prelude Wire DramBackend.

(** ** The server (server/onesided/rdma_svr.cpp) *)

Module Server.

Definition BUFFER_SIZE : Z := (1 ≪ 30) * 16.
Definition NUM_QUEUES : nat := 40.

Inductive queue_state := INIT | CONNECTED.

(** [regions] counts how often the memory region was sent to the client. *)
Record ctrl : Type := MkCtrl { queue_ctr : nat; states : list queue_state; dev : bool; regions : nat }.

Definition alloc_control : ctrl := MkCtrl 0 (replicate NUM_QUEUES INIT) false 0.

(** A queue that is not in [INIT] ends the program; [None] also behind the array. *)
Definition on_connect_request (c : ctrl) : option (ctrl * nat) :=
  q ← states c !! queue_ctr c;
  match q with
  | INIT => Some (MkCtrl (S (queue_ctr c)) (states c) true (regions c), queue_ctr c)
  | CONNECTED => None
  end.
Definition on_connection (c : ctrl) (q : nat) : option ctrl :=
  st ← states c !! q;
  match st with
  | INIT => Some (MkCtrl (queue_ctr c) (<[q := CONNECTED]> (states c)) (dev c) (if (q =? 0)%nat then S (regions c) else regions c))
  | CONNECTED => None
  end.
Definition on_disconnect (c : ctrl) (q : nat) : option ctrl :=
  st ← states c !! q;
  Some (match st with CONNECTED => MkCtrl (queue_ctr c) (<[q := INIT]> (states c)) (dev c) (regions c) | INIT => c end).

(** The context of an event is the queue that its connection was given. *)
Inductive event := ConnectRequest | Established (q : nat) | Disconnected (q : nat) | Unknown.
Definition on_event (c : ctrl) (e : event) : option (ctrl * Z) :=
  match e with
  | ConnectRequest => '(c, _) ← on_connect_request c; Some (c, 0)
  | Established q => c ← on_connection c q; Some (c, 0)
  | Disconnected q => c ← on_disconnect c q; Some (c, 1)
  | Unknown => Some (c, 1)
  end.

(** The loop of [main] that waits until queue [i] is connected. *)
Fixpoint wait_queue (i : nat) (es : list event) (c : ctrl) : option (ctrl * list event) :=
  match es with
  | [] => Some (c, [])
  | e :: es =>
      '(c, r) ← on_event c e;
      q ← states c !! i;
      if negb (r =? 0) || match q with CONNECTED => true | INIT => false end then Some (c, es) else wait_queue i es c
  end.
Fixpoint wait_queues (qs : list nat) (es : list event) (c : ctrl) : option (ctrl * list event) :=
  match qs with
  | [] => Some (c, es)
  | i :: qs => '(c, es) ← wait_queue i es c; wait_queues qs es c
  end.
(** The loop that handles the events after that: the first that is not a connection ends it. *)
Fixpoint handle (es : list event) (c : ctrl) : option (ctrl * list event) :=
  match es with
  | [] => Some (c, [])
  | e :: es => '(c, r) ← on_event c e; if negb (r =? 0) then Some (c, es) else handle es c
  end.
Definition main (es : list event) : option (ctrl * list event) :=
  '(c, es) ← wait_queues (seq 0 NUM_QUEUES) es alloc_control;
  handle es c.

End Server.

(** ** Queues (rdma_conn.c, rdma_op.c) *)

Inductive qp_type := QP_READ_SYNC | QP_READ_ASYNC | QP_WRITE_SYNC | QP_TEST_SYNC.

Definition get_queue_type (numcpus idx : Z) : qp_type := if idx <? numcpus / 2 then QP_READ_SYNC else QP_WRITE_SYNC.

(** The number of the queue; a [BUG] for the other types. *)
Definition pmdfc_rdma_get_queue (numcpus cpuid : Z) (type : qp_type) : option nat :=
  match type with
  | QP_READ_SYNC => Some (Z.to_nat (if numcpus / 2 <=? cpuid then cpuid - numcpus / 2 else cpuid))
  | QP_WRITE_SYNC => Some (Z.to_nat (if cpuid <? numcpus / 2 then cpuid + numcpus / 2 else cpuid))
  | _ => None
  end.

Inductive wr_opcode := RDMA_WRITE | RDMA_READ.
(** [rdma_req]: the page, and what is posted for it. *)
Record rdma_req : Type := MkReq { opcode : wr_opcode; req_page : Z; remote : Z }.

(** [posted] are the requests the card has; a queue that saw an error completes nothing more
    with success. *)
Record rdma_queue : Type := MkQueue { pending : Z; posted : list rdma_req; qp_error : bool }.

Definition QP_MAX_SEND_WR : Z := 4096.

(** The network card: whether [ib_post_send] accepts a request, and how many of the [n] requests
    of a queue are complete when at most [b] of them are polled. *)
Class Rnic (D : Type) := {
  ib_post_send : D -> D * Z;
  completions : D -> nat -> nat -> D * nat;
  healthy : D -> Prop;
  lag : D -> nat;
}.
(** A healthy card accepts requests, and a queue with requests does not stay silent for ever. *)
Class RnicSpec (D : Type) `{Rnic D} : Prop := {
  post_accepted : forall d d' r, healthy d -> ib_post_send d = (d', r) -> healthy d' /\ r = 0;
  completions_bound : forall d n b d' k, completions d n b = (d', k) -> (k <= n)%nat /\ (k <= b)%nat;
  completions_healthy : forall d n b d' k, healthy d -> completions d n b = (d', k) -> healthy d';
  completions_soon : forall d n b d', healthy d -> (0 < n)%nat -> (0 < b)%nat -> completions d n b = (d', 0%nat) -> (lag d' < lag d)%nat;
}.

(** [nic] and the queues; [region] is the buffer of the server, by offset, [pages] the pages of
    the client, by their address. *)
Record rdma {D : Type} : Type := MkRdma {
  nic : D;
  numcpus : Z;
  queues : list rdma_queue;
  mr_size : Z;
  region : gmap Z (list Z);
  pages : gmap Z (list Z);
  uptodate : gset Z;
}.
Arguments rdma : clear implicits.

Definition zero_page : list Z := replicate (Z.to_nat PAGE_SIZE) 0.
Definition in_region (size off : Z) : bool := (0 <=? off) && (off + PAGE_SIZE <=? size).

Section Ops.
Context {D : Type} `{Rnic D}.
(** Whether [kmem_cache_alloc] has memory and whether the page can be mapped. *)
Context (alloc mapped : bool).

Definition set_nic (d : D) (rd : rdma D) : rdma D :=
  MkRdma D d (numcpus rd) (queues rd) (mr_size rd) (region rd) (pages rd) (uptodate rd).
Definition set_queue (qi : nat) (q : rdma_queue) (rd : rdma D) : rdma D :=
  MkRdma D (nic rd) (numcpus rd) (<[qi := q]> (queues rd)) (mr_size rd) (region rd) (pages rd) (uptodate rd).

(** What the card does for a request, and whether it reports success: an address outside of the
    region is refused. *)
Definition transfer (q : rdma_queue) (r : rdma_req) (rd : rdma D) : rdma D * bool :=
  if qp_error q || negb (in_region (mr_size rd) (remote r)) then (rd, false)
  else match opcode r with
       | RDMA_WRITE => (MkRdma D (nic rd) (numcpus rd) (queues rd) (mr_size rd)
                          (<[remote r := default zero_page (pages rd !! req_page r)]> (region rd)) (pages rd) (uptodate rd), true)
       | RDMA_READ => (MkRdma D (nic rd) (numcpus rd) (queues rd) (mr_size rd) (region rd)
                         (<[req_page r := default zero_page (region rd !! remote r)]> (pages rd)) (uptodate rd), true)
       end.

Definition pmdfc_rdma_write_done (qi : nat) (q : rdma_queue) (rd : rdma D) : rdma D :=
  set_queue qi (MkQueue (pending q - 1) (posted q) (qp_error q)) rd.
(** The page is marked and unlocked whatever the status is. *)
Definition pmdfc_rdma_read_done (qi : nat) (q : rdma_queue) (page : Z) (rd : rdma D) : rdma D :=
  MkRdma D (nic rd) (numcpus rd) (<[qi := MkQueue (pending q - 1) (posted q) (qp_error q)]> (queues rd)) (mr_size rd)
    (region rd) (pages rd) (uptodate rd ∪ {[ page ]}).

(** The first request of a queue is complete. *)
Definition complete_one (qi : nat) (rd : rdma D) : option (rdma D) :=
  q ← queues rd !! qi;
  match posted q with
  | [] => None
  | r :: rs =>
      let '(rd, ok) := transfer q r rd in
      let q := MkQueue (pending q) rs (qp_error q || negb ok) in
      Some (match opcode r with
            | RDMA_WRITE => pmdfc_rdma_write_done qi q rd
            | RDMA_READ => pmdfc_rdma_read_done qi q (req_page r) rd
            end)
  end.

Fixpoint complete_many (k qi : nat) (rd : rdma D) : option (rdma D) :=
  match k with O => Some rd | S k => rd ← complete_one qi rd; complete_many k qi rd end.

Definition ib_process_cq_direct (qi budget : nat) (rd : rdma D) : option (rdma D * nat) :=
  q ← queues rd !! qi;
  let '(d, k) := completions (nic rd) (length (posted q)) budget in
  rd ← complete_many k qi (set_nic d rd);
  Some (rd, k).

(** Also when nothing was accepted, the request stays counted. *)
Definition pmdfc_rdma_post_rdma (qi : nat) (r : rdma_req) (rd : rdma D) : option (rdma D * Z) :=
  q ← queues rd !! qi;
  let '(d, ret) := ib_post_send (nic rd) in
  Some (set_nic d (set_queue qi (MkQueue (pending q + 1) (if ret =? 0 then posted q ++ [r] else posted q) (qp_error q)) rd), ret).

(** Without memory the request is a null pointer; a failed mapping frees the pointer to it. *)
Definition get_req_for_page : option Z := if alloc && mapped then Some 0 else None.

Fixpoint poll_target (fuel : nat) (qi : nat) (target completed : nat) (rd : rdma D) : option (rdma D * nat) :=
  match fuel with
  | O => None
  | S fuel =>
      q ← queues rd !! qi;
      if (completed <? target)%nat && (0 <? pending q) then
        '(rd, k) ← ib_process_cq_direct qi (target - completed) rd; poll_target fuel qi target (completed + k) rd
      else Some (rd, completed)
  end.

Fixpoint drain_queue (fuel : nat) (qi : nat) (rd : rdma D) : option (rdma D) :=
  match fuel with
  | O => None
  | S fuel =>
      q ← queues rd !! qi;
      if 0 <? pending q then '(rd, _) ← ib_process_cq_direct qi 16 rd; drain_queue fuel qi rd else Some rd
  end.

(** The loops of [write_queue_add] and [begin_read]. *)
Fixpoint back_pressure (fuel : nat) (limit : Z) (qi : nat) (rd : rdma D) : option (rdma D) :=
  match fuel with
  | O => None
  | S fuel =>
      q ← queues rd !! qi;
      if limit <=? pending q then
        if QP_MAX_SEND_WR <? pending q then None
        else '(rd, _) ← poll_target fuel qi 2048 0 rd; back_pressure fuel limit qi rd
      else Some rd
  end.

Definition write_queue_add (fuel qi : nat) (page roffset : Z) (rd : rdma D) : option (rdma D * Z) :=
  rd ← back_pressure fuel (QP_MAX_SEND_WR - 8) qi rd;
  ret ← get_req_for_page;
  if negb (ret =? 0) then Some (rd, ret) else pmdfc_rdma_post_rdma qi (MkReq RDMA_WRITE page roffset) rd.
Definition begin_read (fuel qi : nat) (page roffset : Z) (rd : rdma D) : option (rdma D * Z) :=
  rd ← back_pressure fuel QP_MAX_SEND_WR qi rd;
  ret ← get_req_for_page;
  if negb (ret =? 0) then Some (rd, ret) else pmdfc_rdma_post_rdma qi (MkReq RDMA_READ page roffset) rd.

Definition pmdfc_rdma_write (fuel : nat) (cpu page roffset : Z) (rd : rdma D) : option (rdma D * Z) :=
  qi ← pmdfc_rdma_get_queue (numcpus rd) cpu QP_WRITE_SYNC;
  '(rd, ret) ← write_queue_add fuel qi page roffset rd;
  if negb (ret =? 0) then None else rd ← drain_queue fuel qi rd; Some (rd, ret).
Definition pmdfc_rdma_read_async (fuel : nat) (cpu page roffset : Z) (rd : rdma D) : option (rdma D * Z) :=
  qi ← pmdfc_rdma_get_queue (numcpus rd) cpu QP_READ_ASYNC; begin_read fuel qi page roffset rd.
Definition pmdfc_rdma_read_sync (fuel : nat) (cpu page roffset : Z) (rd : rdma D) : option (rdma D * Z) :=
  qi ← pmdfc_rdma_get_queue (numcpus rd) cpu QP_READ_SYNC; begin_read fuel qi page roffset rd.
Definition pmdfc_rdma_poll_load (fuel : nat) (cpu : Z) (rd : rdma D) : option (rdma D) :=
  qi ← pmdfc_rdma_get_queue (numcpus rd) cpu QP_READ_SYNC; drain_queue fuel qi rd.

End Ops.

(** ** Page operations (pmdfc.c) *)

(** [use_rdma] and [rdma_direct] are the parameters of the module. *)
Record client {D : Type} : Type := MkClient {
  link : rdma D;
  use_rdma : bool;
  rdma_direct : bool;
  free_start : Z;
  free_end : Z;
  table : gmap Z (list ht_data);
  puts : Z;
  gets : Z;
  pool : Z;
}.
Arguments client : clear implicits.

Section Pages.
Context {D : Type} `{Rnic D} (alloc mapped : bool).
(** The hash function of the kernel. *)
Context (hash_min : Z -> Z).

Definition entries (c : client D) (k : Z) : list ht_data := default [] (table c !! hash_min k).

Definition set_link (rd : rdma D) (c : client D) : client D :=
  MkClient D rd (use_rdma c) (rdma_direct c) (free_start c) (free_end c) (table c) (puts c) (gets c) (pool c).

(** [pmdfc_rdma_recv_remotemr_done]: the size of the buffer comes from the server. *)
Definition pmdfc_rdma_recv_remotemr_done (c : client D) : client D :=
  MkClient D (link c) (use_rdma c) (rdma_direct c) (free_start c) (mr_size (link c)) (table c) (puts c) (gets c) (pool c).

(** [page] is the address of a page; [mem] tells whether [kmalloc] has memory. *)
Definition pmdfc_cleancache_put_page (fuel : nat) (cpu oid index page : Z) (mem : bool) (c : client D) : option (client D) :=
  if negb mem then None
  else
    let k := get_longkey oid index in
    let '(off, start) := fetch_add_unless (free_start c) PAGE_SIZE (free_end c) in
    let t := <[hash_min k := MkData k off :: entries c k]> (table c) in
    rd ← (if use_rdma c && rdma_direct c then '(rd, _) ← pmdfc_rdma_write alloc mapped fuel cpu page off (link c); Some rd
          else Some (link c));
    Some (MkClient D rd (use_rdma c) (rdma_direct c) start (free_end c) t (puts c + 1) (gets c) (pool c)).

(** The result of the read is not looked at. *)
Definition pmdfc_cleancache_get_page (fuel : nat) (cpu oid index page : Z) (c : client D) : option (client D * Z) :=
  let k := get_longkey oid index in
  let more c := MkClient D (link c) (use_rdma c) (rdma_direct c) (free_start c) (free_end c) (table c) (puts c) (gets c + 1) (pool c) in
  match find_last k (entries c k) with
  | None => Some (more c, -1)
  | Some cur =>
      if rdma_direct c then
        '(rd, _) ← pmdfc_rdma_read_sync alloc mapped fuel cpu page (roffset cur) (link c);
        rd ← pmdfc_rdma_poll_load fuel cpu rd;
        Some (more (set_link rd c), 0)
      else Some (c, 0)
  end.

Definition pmdfc_cleancache_flush_page (c : client D) : client D := c.
Definition pmdfc_cleancache_flush_inode (c : client D) : client D := c.
Definition pmdfc_cleancache_flush_fs (c : client D) : client D := c.
Definition pmdfc_cleancache_init_fs (c : client D) : client D * Z :=
  let id := s32 (pool c + 1) in
  (MkClient D (link c) (use_rdma c) (rdma_direct c) (free_start c) (free_end c) (table c) (puts c) (gets c) id, id).
Definition pmdfc_cleancache_init_shared_fs : Z := -1.

End Pages.

(** ** Draining a queue *)

Section Drain.
Context {D : Type} `{RnicSpec D}.

Lemma complete_one_nic qi (d : D) rd : complete_one qi (set_nic d rd) = set_nic d <$> complete_one qi rd.
Proof.
  unfold complete_one. cbn [set_nic queues]. destruct (queues rd !! qi) as [q|]; [|done]. cbn [mbind option_bind].
  destruct (posted q) as [|r rs]; [done|]. unfold transfer. cbn [set_nic mr_size].
  destruct (qp_error q || _); [by destruct (opcode r)|]. by destruct (opcode r).
Qed.

Lemma complete_many_nic k qi (d : D) : forall rd, complete_many k qi (set_nic d rd) = set_nic d <$> complete_many k qi rd.
Proof.
  induction k as [|k IH]; intros rd; [done|]. cbn [complete_many]. rewrite complete_one_nic. destruct (complete_one qi rd); [|done]. cbn. apply IH.
Qed.

Lemma complete_many_add k j qi (rd : rdma D) : complete_many (k + j) qi rd = (rd' ← complete_many k qi rd; complete_many j qi rd').
Proof. revert rd. induction k as [|k IH]; intros rd; [done|]. cbn [Nat.add complete_many]. destruct (complete_one qi rd); [|done]. cbn. apply IH. Qed.

(** The queue after [k] of its requests. *)
Lemma complete_many_queue k qi : forall (rd : rdma D) q,
  queues rd !! qi = Some q -> (k <= length (posted q))%nat ->
  exists rd' q', complete_many k qi rd = Some rd' /\ nic rd' = nic rd /\ queues rd' !! qi = Some q'
    /\ posted q' = drop k (posted q) /\ pending q' = pending q - Z.of_nat k.
Proof.
  induction k as [|k IH]; intros rd q Hq Hk; [exists rd, q; split_and!; [done..|lia]|].
  destruct (posted q) as [|r rs] eqn:Hp; [cbn in Hk; lia|]. cbn [length] in Hk. pose proof (lookup_lt_Some _ _ _ Hq) as Hlt.
  assert (exists rd1 q1, complete_one qi rd = Some rd1 /\ nic rd1 = nic rd /\ queues rd1 !! qi = Some q1 /\ posted q1 = rs /\ pending q1 = pending q - 1)
    as (rd1 & q1 & E1 & En & Eq1 & Ep1 & Epe1).
  { unfold complete_one. rewrite Hq. cbn [mbind option_bind]. rewrite Hp. unfold transfer.
    destruct (qp_error q || _); destruct (opcode r); eexists _, _;
      (split_and!; [reflexivity|done|cbn [queues pmdfc_rdma_write_done pmdfc_rdma_read_done set_queue]; by apply list_lookup_insert_eq|done|done]). }
  destruct (IH rd1 q1 Eq1) as (rd' & q' & E & En' & Eq' & Ep' & Epe'); [rewrite Ep1; lia|].
  exists rd', q'. cbn [complete_many]. rewrite E1. cbn [mbind option_bind drop]. split_and!; [done|congruence|done|by rewrite Ep', Ep1|lia].
Qed.

(** Polled for long enough, the queue has completed all of its requests, in their order. *)
Lemma drain_queue_spec qi : forall (rd : rdma D) q,
  queues rd !! qi = Some q -> pending q = Z.of_nat (length (posted q)) -> healthy (nic rd) ->
  exists fuel d' rd', healthy d' /\ complete_many (length (posted q)) qi rd = Some rd'
    /\ forall fuel', (fuel <= fuel')%nat -> drain_queue fuel' qi rd = Some (set_nic d' rd').
Proof.
  intros rd q. remember (length (posted q)) as n eqn:En. revert rd q En. induction (lt_wf n) as [n _ IHn]. intros rd q En Hq Hp Hh.
  remember (lag (nic rd)) as l eqn:El. revert rd Hq Hh El. induction (lt_wf l) as [l _ IHl]. intros rd Hq Hh El.
  destruct (decide (n = 0%nat)) as [->|Hn].
  { exists 1%nat, (nic rd), rd. split_and!; [done|done|]. intros fuel' Hf. destruct fuel'; [lia|]. cbn [drain_queue]. rewrite Hq. cbn [mbind option_bind].
    rewrite Hp. by destruct rd. }
  destruct (completions (nic rd) n 16) as [d k] eqn:Ec. destruct (completions_bound _ _ _ _ _ Ec) as [Hk _].
  pose proof (completions_healthy _ _ _ _ _ Hh Ec) as Hh'.
  assert (forall fuel, drain_queue (S fuel) qi rd = (rd' ← complete_many k qi rd; drain_queue fuel qi (set_nic d rd'))) as Hstep.
  { intros fuel. cbn [drain_queue]. rewrite Hq. cbn [mbind option_bind]. rewrite Hp, (proj2 (Z.ltb_lt 0 _)) by lia.
    unfold ib_process_cq_direct. rewrite Hq. cbn [mbind option_bind]. rewrite <- En, Ec, complete_many_nic. by destruct (complete_many k qi rd). }
  destruct (decide (k = 0%nat)) as [->|Hk0].
  - pose proof (completions_soon (nic rd) n 16 d Hh ltac:(lia) ltac:(lia) Ec) as Hlag.
    destruct (IHl (lag d) ltac:(lia) (set_nic d rd) Hq Hh' eq_refl) as (fuel & d' & rd' & Hd' & Hm & Hf).
    rewrite complete_many_nic in Hm. destruct (complete_many n qi rd) as [rd1|]; [|done]. exists (S fuel), d', rd1. split_and!; [done|done|].
    intros [|fuel'] Hle; [lia|]. rewrite Hstep. cbn [complete_many mbind option_bind]. rewrite (Hf fuel') by lia.
    assert (rd' = set_nic d rd1) as -> by (cbn in Hm; congruence). done.
  - destruct (complete_many_queue k qi rd q Hq ltac:(lia)) as (rd1 & q1 & E1 & En1 & Eq1 & Ep1 & Epe1).
    assert (length (posted q1) = n - k)%nat as Hl1 by (rewrite Ep1, length_drop; lia).
    destruct (IHn (n - k)%nat ltac:(lia) (set_nic d rd1) q1) as (fuel & d' & rd' & Hd' & Hm & Hf); [done|done|lia|done|].
    rewrite complete_many_nic in Hm. destruct (complete_many (n - k) qi rd1) as [rd2|] eqn:E2; [|done].
    exists (S fuel), d', rd2. split_and!; [done|by replace n with (k + (n - k))%nat by lia; rewrite complete_many_add, E1|].
    intros [|fuel'] Hle; [lia|]. rewrite Hstep, E1. cbn [mbind option_bind]. rewrite (Hf fuel') by lia.
    assert (rd' = set_nic d rd2) as -> by (cbn in Hm; congruence). done.
Qed.

End Drain.

(** ** One request, from the post to the end *)

Section Sync.
Context {D : Type} `{RnicSpec D}.

Definition idle (q : rdma_queue) : Prop := pending q = 0 /\ posted q = [].

(** The request of an idle queue is served. *)
Definition served (qi : nat) (q : rdma_queue) (r : rdma_req) (rd : rdma D) : rdma D :=
  let '(rd, ok) := transfer q r rd in
  let q := MkQueue 0 [] (qp_error q || negb ok) in
  match opcode r with
  | RDMA_WRITE => set_queue qi q rd
  | RDMA_READ => MkRdma D (nic rd) (numcpus rd) (<[qi := q]> (queues rd)) (mr_size rd) (region rd) (pages rd) (uptodate rd ∪ {[ req_page r ]})
  end.

Lemma transfer_queues q r (rd : rdma D) qs d :
  transfer q r (MkRdma D d (numcpus rd) qs (mr_size rd) (region rd) (pages rd) (uptodate rd)) =
  (let '(rd1, ok) := transfer q r rd in (MkRdma D d (numcpus rd1) qs (mr_size rd1) (region rd1) (pages rd1) (uptodate rd1), ok)).
Proof. unfold transfer. cbn [mr_size]. destruct (qp_error q || _); [done|]. by destruct (opcode r). Qed.

Lemma transfer_same_queues q r (rd : rdma D) : queues (transfer q r rd).1 = queues rd.
Proof. unfold transfer. destruct (qp_error q || _); [done|]. by destruct (opcode r). Qed.

(** A posted request is drained. *)
Lemma post_and_drain qi (rd : rdma D) q r :
  queues rd !! qi = Some q -> idle q -> healthy (nic rd) ->
  exists rd1 fuel d', healthy d' /\ pmdfc_rdma_post_rdma qi r rd = Some (rd1, 0) /\ numcpus rd1 = numcpus rd
    /\ forall fuel', (fuel <= fuel')%nat -> drain_queue fuel' qi rd1 = Some (set_nic d' (served qi q r rd)).
Proof.
  intros Hq [Hpe Hpo] Hh. pose proof (lookup_lt_Some _ _ _ Hq) as Hlt. unfold pmdfc_rdma_post_rdma. rewrite Hq. cbn [mbind option_bind].
  destruct (ib_post_send (nic rd)) as [d ret] eqn:E. destruct (post_accepted _ _ _ Hh E) as [Hh1 ->]. rewrite Hpe, Hpo. change (0 =? 0) with true.
  cbn [app]. change (0 + 1) with 1. set (q1 := MkQueue 1 [r] (qp_error q)). set (rd1 := set_nic d (set_queue qi q1 rd)).
  assert (queues rd1 !! qi = Some q1) as Hq1 by (by apply list_lookup_insert_eq).
  destruct (drain_queue_spec qi rd1 q1 Hq1 eq_refl Hh1) as (fuel & d' & rd' & Hd' & Hm & Hf).
  exists rd1, fuel, d'. split_and!; [done|done|done|]. intros fuel' Hle. rewrite (Hf fuel' Hle). f_equal.
  cbn [length posted q1 complete_many] in Hm. inv_bind Hm rd2 E2. injection Hm as <-. unfold complete_one in E2. rewrite Hq1 in E2.
  cbn [mbind option_bind q1 posted] in E2. unfold rd1, set_nic, set_queue in E2. cbn [nic numcpus queues mr_size region pages uptodate] in E2.
  rewrite transfer_queues in E2. unfold served. pose proof (transfer_same_queues q r rd) as Hsame.
  assert (transfer q1 r rd = transfer q r rd) as Ht by done. rewrite Ht in E2. destruct (transfer q r rd) as [rd3 ok]. cbn [fst] in Hsame.
  injection E2 as <-. unfold pmdfc_rdma_write_done, pmdfc_rdma_read_done, set_queue, set_nic.
  destruct (opcode r); cbn [nic numcpus queues mr_size region pages uptodate pending posted qp_error];
    rewrite list_insert_insert_eq, Hsame; done.
Qed.

Lemma back_pressure_idle fuel limit qi (rd : rdma D) q :
  queues rd !! qi = Some q -> idle q -> 0 < limit -> back_pressure (S fuel) limit qi rd = Some rd.
Proof. intros Hq [Hp _] Hl. cbn [back_pressure]. rewrite Hq. cbn [mbind option_bind]. rewrite Hp, (proj2 (Z.leb_gt _ _)) by lia. done. Qed.

Lemma rdma_write_spec cpu page off (rd : rdma D) qi q :
  pmdfc_rdma_get_queue (numcpus rd) cpu QP_WRITE_SYNC = Some qi -> queues rd !! qi = Some q -> idle q -> healthy (nic rd) ->
  exists fuel d', healthy d' /\ forall fuel', (fuel <= fuel')%nat ->
    pmdfc_rdma_write true true fuel' cpu page off rd = Some (set_nic d' (served qi q (MkReq RDMA_WRITE page off) rd), 0).
Proof.
  intros Hqi Hq Hidle Hh. destruct (post_and_drain qi rd q (MkReq RDMA_WRITE page off) Hq Hidle Hh) as (rd1 & fuel & d' & Hd' & Hp & _ & Hf).
  exists (S fuel), d'. split; [done|]. intros [|fuel'] Hle; [lia|]. unfold pmdfc_rdma_write, write_queue_add. rewrite Hqi. cbn [mbind option_bind].
  rewrite (back_pressure_idle _ _ _ _ q) by (done || unfold QP_MAX_SEND_WR; lia). cbn [mbind option_bind get_req_for_page andb].
  change (negb (0 =? 0)) with false. cbn iota. rewrite Hp. cbn [mbind option_bind]. change (negb (0 =? 0)) with false. cbn iota. by rewrite Hf by lia.
Qed.

Lemma rdma_read_spec cpu page off (rd : rdma D) qi q :
  pmdfc_rdma_get_queue (numcpus rd) cpu QP_READ_SYNC = Some qi -> queues rd !! qi = Some q -> idle q -> healthy (nic rd) ->
  exists fuel d', healthy d' /\ forall fuel', (fuel <= fuel')%nat ->
    ('(rd, _) ← pmdfc_rdma_read_sync true true fuel' cpu page off rd; pmdfc_rdma_poll_load fuel' cpu rd)
    = Some (set_nic d' (served qi q (MkReq RDMA_READ page off) rd)).
Proof.
  intros Hqi Hq Hidle Hh. destruct (post_and_drain qi rd q (MkReq RDMA_READ page off) Hq Hidle Hh) as (rd1 & fuel & d' & Hd' & Hp & Hn & Hf).
  exists (S fuel), d'. split; [done|]. intros [|fuel'] Hle; [lia|]. unfold pmdfc_rdma_read_sync, begin_read. rewrite Hqi. cbn [mbind option_bind].
  rewrite (back_pressure_idle _ _ _ _ q) by (done || unfold QP_MAX_SEND_WR; lia). cbn [mbind option_bind get_req_for_page andb].
  change (negb (0 =? 0)) with false. cbn iota. rewrite Hp. cbn [mbind option_bind]. unfold pmdfc_rdma_poll_load. rewrite Hn, Hqi. cbn [mbind option_bind].
  by rewrite Hf by lia.
Qed.

End Sync.

(** The queue that a CPU reads from is one for reading and the one it writes to is one for
    writing, if the number of CPUs is even. *)
Lemma get_queue_typed n cpu type qi :
  0 <= cpu < n -> Z.Even n -> pmdfc_rdma_get_queue n cpu type = Some qi -> get_queue_type n (Z.of_nat qi) = type /\ Z.of_nat qi < n.
Proof.
  intros Hc [h ->] Hq. unfold pmdfc_rdma_get_queue, get_queue_type in *. rewrite Z.mul_comm, Z.div_mul in * by lia.
  destruct type; try done; injection Hq as <-.
  - destruct (Z.leb_spec h cpu); rewrite Z2Nat.id by lia; (split; [|lia]); by rewrite (proj2 (Z.ltb_lt _ _)) by lia.
  - destruct (Z.ltb_spec cpu h); rewrite Z2Nat.id by lia; (split; [|lia]); by rewrite (proj2 (Z.ltb_ge _ _)) by lia.
Qed.

(** ** The client is a map *)

Section Refinement.
Context {D : Type} `{RnicSpec D} (hash_min : Z -> Z).

(** [n] of [cap] pages of the buffer are used; nothing is in flight. *)
Record rep (c : client D) (m : gmap Z (list Z)) (n cap : Z) : Prop := {
  rp_direct : use_rdma c = true /\ rdma_direct c = true;
  rp_free : free_start c = PAGE_SIZE * n /\ free_end c = PAGE_SIZE * cap /\ mr_size (link c) = PAGE_SIZE * cap /\ 0 <= n <= cap;
  rp_queues : queues (link c) = replicate (Z.to_nat (numcpus (link c))) (MkQueue 0 [] false);
  rp_healthy : healthy (nic (link c));
  rp_table : table_rep hash_min (table c) (region (link c)) m (free_start c);
}.

Definition start (d : D) (ncpus cap : Z) : client D :=
  pmdfc_rdma_recv_remotemr_done
    (MkClient D (MkRdma D d ncpus (replicate (Z.to_nat ncpus) (MkQueue 0 [] false)) (PAGE_SIZE * cap) ∅ ∅ ∅) true true 0 0 ∅ 0 0 0).

Lemma rep_start d ncpus cap : healthy d -> 0 <= cap -> rep (start d ncpus cap) ∅ 0 cap.
Proof. intros Hd Hcap. split; cbn; [done|lia|done|done|apply table_rep_empty]. Qed.

(** The queues of a CPU. *)
Lemma queue_of_cpu n cpu type (q : rdma_queue) :
  0 <= cpu < n -> type = QP_READ_SYNC \/ type = QP_WRITE_SYNC ->
  exists qi, pmdfc_rdma_get_queue n cpu type = Some qi /\ replicate (Z.to_nat n) q !! qi = Some q.
Proof.
  intros Hc [-> | ->]; (eexists; split; [done|]); apply lookup_replicate_2; apply Z2Nat.inj_lt; try lia.
  - destruct (Z.leb_spec (n / 2) cpu); lia.
  - destruct (Z.leb_spec (n / 2) cpu); [|lia]. pose proof (Z.div_pos n 2). lia.
  - destruct (Z.ltb_spec cpu (n / 2)); [|lia]. pose proof (Z.div_pos n 2). lia.
  - destruct (Z.ltb_spec cpu (n / 2)); [|lia]. pose proof (Z.div_le_upper_bound n 2 n). pose proof (Z.div_mod n 2). pose proof (Z.mod_pos_bound n 2). lia.
Qed.

(** A request inside of the region leaves its queue as it was. *)
Lemma served_inside qi q r (rd : rdma D) :
  queues rd !! qi = Some q -> q = MkQueue 0 [] false -> in_region (mr_size rd) (remote r) = true ->
  served qi q r rd =
    match opcode r with
    | RDMA_WRITE => MkRdma D (nic rd) (numcpus rd) (queues rd) (mr_size rd) (<[remote r := default zero_page (pages rd !! req_page r)]> (region rd)) (pages rd) (uptodate rd)
    | RDMA_READ => MkRdma D (nic rd) (numcpus rd) (queues rd) (mr_size rd) (region rd)
                     (<[req_page r := default zero_page (region rd !! remote r)]> (pages rd)) (uptodate rd ∪ {[ req_page r ]})
    end.
Proof.
  intros Hq -> Hin. unfold served, transfer. cbn [qp_error]. rewrite Hin. cbn [negb orb]. destruct (opcode r); cbn [orb negb set_queue]; unfold set_queue;
    cbn [nic numcpus queues mr_size region pages uptodate]; by rewrite list_insert_id.
Qed.

Lemma rep_put c m n cap cpu oid index page contents :
  rep c m n cap -> n < cap -> 0 <= cpu < numcpus (link c) -> pages (link c) !! page = Some contents ->
  exists fuel c', numcpus (link c') = numcpus (link c) /\ rep c' (keep_first (get_longkey oid index) contents m) (n + 1) cap
    /\ forall fuel', (fuel <= fuel')%nat -> pmdfc_cleancache_put_page true true hash_min fuel' cpu oid index page true c = Some c'.
Proof.
  intros [[Hu Hd] (Hst & Hend & Hsz & Hn0) Hq Hh Ht] Hn Hcpu Hpg. set (rd := link c) in *.
  destruct (queue_of_cpu (numcpus rd) cpu QP_WRITE_SYNC (MkQueue 0 [] false) Hcpu) as (qi & Hqi & Hl); [by right|]. rewrite <- Hq in Hl.
  destruct (rdma_write_spec cpu page (PAGE_SIZE * n) rd qi _ Hqi Hl (conj eq_refl eq_refl) Hh) as (fuel & d' & Hd' & Hf).
  rewrite served_inside in Hf by (done || cbn [remote]; unfold in_region, PAGE_SIZE in *; lia).
  cbn [opcode remote req_page] in Hf. rewrite Hpg in Hf. cbn [default from_option id] in Hf.
  unfold pmdfc_cleancache_put_page, fetch_add_unless. rewrite Hst, Hend, Hu, Hd. fold rd. cbn [negb andb].
  rewrite (proj2 (Z.eqb_neq (PAGE_SIZE * n) (PAGE_SIZE * cap))) by (unfold PAGE_SIZE; lia).
  eexists fuel, _. split; [|split; [|intros fuel' Hle; rewrite (Hf fuel' Hle); cbn [mbind option_bind]; reflexivity]]; [done|].
  split; cbn [set_nic link use_rdma rdma_direct free_start free_end table nic numcpus queues mr_size region pages uptodate];
    [done|unfold PAGE_SIZE in *; lia|done|done|]. rewrite Hst in Ht. apply table_put; [done|unfold PAGE_SIZE; lia].
Qed.

Lemma rep_get c m n cap cpu oid index page :
  rep c m n cap -> 0 <= cpu < numcpus (link c) ->
  exists fuel c', numcpus (link c') = numcpus (link c) /\ rep c' m n cap
    /\ (forall pg, m !! get_longkey oid index = Some pg -> pages (link c') !! page = Some pg)
    /\ forall fuel', (fuel <= fuel')%nat -> pmdfc_cleancache_get_page true true hash_min fuel' cpu oid index page c =
         Some (c', match m !! get_longkey oid index with Some _ => 0 | None => -1 end).
Proof.
  intros [[Hu Hd] (Hst & Hend & Hsz & Hn0) Hq Hh Ht] Hcpu. set (rd := link c) in *. rewrite (tr_map _ _ _ _ _ Ht).
  unfold pmdfc_cleancache_get_page. change (entries hash_min c) with (chain hash_min (table c)).
  destruct (find_last _ _) as [d|] eqn:Hfl.
  2: { eexists 0%nat, _. split_and!; [|split|done|intros fuel' _; reflexivity]; cbn; done. }
  destruct (table_found _ _ _ _ _ _ _ Ht Hfl) as (H1 & H2 & [pg Hpg]).
  destruct (queue_of_cpu (numcpus rd) cpu QP_READ_SYNC (MkQueue 0 [] false) Hcpu) as (qi & Hqi & Hl); [by left|]. rewrite <- Hq in Hl.
  destruct (rdma_read_spec cpu page (roffset d) rd qi _ Hqi Hl (conj eq_refl eq_refl) Hh) as (fuel & d' & Hd' & Hf).
  rewrite served_inside in Hf by (done || cbn [remote]; unfold in_region, PAGE_SIZE in *; lia).
  cbn [opcode remote req_page] in Hf. rewrite Hpg in Hf. cbn [default from_option id] in Hf. cbn [mbind option_bind]. rewrite Hpg, Hd.
  eexists fuel, _. split_and!; [| | |intros fuel' Hle; specialize (Hf fuel' Hle); fold rd; cbn [mbind option_bind];
    destruct (pmdfc_rdma_read_sync true true fuel' cpu page (roffset d) rd) as [[rd1 r1]|]; [|done]; cbn [mbind option_bind] in Hf |- *; rewrite Hf; reflexivity].
  - done.
  - split; cbn [set_link set_nic link use_rdma rdma_direct free_start free_end table nic numcpus queues mr_size region pages uptodate]; [done|lia|done..].
  - intros pg' [= <-]. cbn. by rewrite lookup_insert_eq.
Qed.

(** A history of calls, each on a CPU, and what the gets answered. *)
Inductive call := Put (cpu oid index page : Z) (contents : list Z) | Ask (cpu oid index page : Z).
Definition set_page (page : Z) (contents : list Z) (rd : rdma D) : rdma D :=
  MkRdma D (nic rd) (numcpus rd) (queues rd) (mr_size rd) (region rd) (<[page := contents]> (pages rd)) (uptodate rd).
Definition run_call (fuel : nat) (st : client D * list (option (list Z))) (x : call) : option (client D * list (option (list Z))) :=
  match x with
  | Put cpu oid index page contents =>
      c ← pmdfc_cleancache_put_page true true hash_min fuel cpu oid index page true (set_link (set_page page contents (link st.1)) st.1); Some (c, st.2)
  | Ask cpu oid index page =>
      '(c, r) ← pmdfc_cleancache_get_page true true hash_min fuel cpu oid index page st.1;
      Some (c, st.2 ++ [if r =? 0 then pages (link c) !! page else None])
  end.

(** What they should answer: the page that was put first under the key. *)
Definition spec_call (st : gmap Z (list Z) * list (option (list Z))) (x : call) : gmap Z (list Z) * list (option (list Z)) :=
  match x with
  | Put _ oid index _ contents => (keep_first (get_longkey oid index) contents st.1, st.2)
  | Ask _ oid index _ => (st.1, st.2 ++ [st.1 !! get_longkey oid index])
  end.
Definition is_put (x : call) : bool := match x with Put _ _ _ _ _ => true | Ask _ _ _ _ => false end.
Definition on_cpu (n : Z) (x : call) : Prop := match x with Put cpu _ _ _ _ | Ask cpu _ _ _ => 0 <= cpu < n end.

Lemma rep_set_page c m n cap page contents : rep c m n cap -> rep (set_link (set_page page contents (link c)) c) m n cap.
Proof. intros []. by split. Qed.

Lemma run_history xs : forall c m n cap out,
  rep c m n cap -> Forall (on_cpu (numcpus (link c))) xs -> n + Z.of_nat (length (List.filter is_put xs)) <= cap ->
  exists fuel c', rep c' (foldl spec_call (m, out) xs).1 (n + Z.of_nat (length (List.filter is_put xs))) cap
    /\ numcpus (link c') = numcpus (link c)
    /\ forall fuel', (fuel <= fuel')%nat -> foldM (run_call fuel') xs (c, out) = Some (c', (foldl spec_call (m, out) xs).2).
Proof.
  induction xs as [|x xs IH]; intros c m n cap out Hr Hcpu Hn.
  { exists 0%nat, c. cbn. rewrite Z.add_0_r. split_and!; done. }
  apply Forall_cons in Hcpu as [Hx Hcpu]. destruct x as [cpu oid index page contents|cpu oid index page]; cbn [List.filter is_put length foldl spec_call fst snd] in *.
  - destruct (rep_put _ m n cap cpu oid index page contents (rep_set_page c m n cap page contents Hr)) as (f1 & c1 & N1 & R1 & H1);
      [lia|done|apply lookup_insert_eq|]. change (numcpus (link c1) = numcpus (link c)) in N1.
    replace (n + Z.of_nat (S (length (List.filter is_put xs)))) with (n + 1 + Z.of_nat (length (List.filter is_put xs))) in * by lia.
    destruct (IH c1 _ (n + 1) cap out R1) as (f2 & c2 & R2 & N2 & H2); [by rewrite N1|done|].
    exists (f1 `max` f2)%nat, c2. split_and!; [done|congruence|]. intros fuel' Hle. cbn [foldM run_call fst snd].
    rewrite H1 by lia. cbn [mbind option_bind]. apply H2. lia.
  - destruct (rep_get c m n cap cpu oid index page Hr Hx) as (f1 & c1 & N1 & R1 & P1 & H1).
    destruct (IH c1 m n cap (out ++ [m !! get_longkey oid index]) R1) as (f2 & c2 & R2 & N2 & H2); [by rewrite N1|done|].
    exists (f1 `max` f2)%nat, c2. split_and!; [done|congruence|]. intros fuel' Hle. cbn [foldM run_call fst snd].
    rewrite H1 by lia. cbn [mbind option_bind].
    replace (if match m !! get_longkey oid index with Some _ => 0 | None => -1 end =? 0 then pages (link c1) !! page else None)
      with (m !! get_longkey oid index); [apply H2; lia|].
    destruct (m !! get_longkey oid index) as [pg|] eqn:E; [|done]. by rewrite (P1 pg).
Qed.

(** C8: Up to as many puts as the buffer of the server has pages, on any of the CPUs, every call of
    the one-sided client returns once the card has had time enough, and the client refines a
    map in which the first page that was put under a key stays. *)
Theorem onesided_refines d ncpus cap xs :
  healthy d -> 0 <= cap -> Forall (on_cpu ncpus) xs -> Z.of_nat (length (List.filter is_put xs)) <= cap ->
  exists fuel c', forall fuel', (fuel <= fuel')%nat ->
    foldM (run_call fuel') xs (start d ncpus cap, []) = Some (c', (foldl spec_call (∅, []) xs).2).
Proof.
  intros Hd Hcap Hcpu Hn. destruct (run_history xs _ ∅ 0 cap [] (rep_start d ncpus cap Hd Hcap)) as (fuel & c' & _ & _ & Hf); [done|lia|eauto].
Qed.

End Refinement.

(** ** When it goes wrong *)

Section Errors.
Context {D : Type} `{RnicSpec D} (hash_min : Z -> Z).

(** A request outside of the region: nothing moves, the queue is broken. *)
Lemma served_outside qi q r (rd : rdma D) :
  in_region (mr_size rd) (remote r) = false ->
  served qi q r rd =
    match opcode r with
    | RDMA_WRITE => set_queue qi (MkQueue 0 [] true) rd
    | RDMA_READ => MkRdma D (nic rd) (numcpus rd) (<[qi := MkQueue 0 [] true]> (queues rd)) (mr_size rd) (region rd) (pages rd) (uptodate rd ∪ {[ req_page r ]})
    end.
Proof.
  intros Hin. unfold served, transfer. rewrite Hin. cbn [negb]. rewrite orb_true_r. cbn [negb]. rewrite orb_true_r. done.
Qed.

(** The buffer is full.  The next put of a key that is not stored yet returns, its page is lost,
    and a get of that key reports success: the page is marked up to date, but nothing was read
    into it. *)
Theorem onesided_full_loses c m cap cpu oid index page contents cpu' page' :
  rep hash_min c m cap cap -> m !! get_longkey oid index = None -> pages (link c) !! page = Some contents ->
  0 <= cpu < numcpus (link c) -> 0 <= cpu' < numcpus (link c) ->
  exists fuel c1 c2, forall fuel', (fuel <= fuel')%nat ->
    pmdfc_cleancache_put_page true true hash_min fuel' cpu oid index page true c = Some c1 /\ region (link c1) = region (link c)
    /\ pmdfc_cleancache_get_page true true hash_min fuel' cpu' oid index page' c1 = Some (c2, 0)
    /\ page' ∈ uptodate (link c2) /\ pages (link c2) = pages (link c).
Proof.
  intros [[Hu Hd] (Hst & Hend & Hsz & Hn0) Hq Hh Ht] Hm Hpg Hcpu Hcpu'. set (rd := link c) in *. set (k := get_longkey oid index) in *.
  assert (in_region (mr_size rd) (PAGE_SIZE * cap) = false) as Hout by (rewrite Hsz; unfold in_region, PAGE_SIZE; lia).
  destruct (queue_of_cpu (numcpus rd) cpu QP_WRITE_SYNC (MkQueue 0 [] false) Hcpu) as (qi & Hqi & Hl); [by right|]. rewrite <- Hq in Hl.
  destruct (rdma_write_spec cpu page (PAGE_SIZE * cap) rd qi _ Hqi Hl (conj eq_refl eq_refl) Hh) as (f1 & d1 & Hd1 & Hf1).
  rewrite served_outside in Hf1 by done. cbn [opcode] in Hf1. set (rd1 := set_nic d1 (set_queue qi (MkQueue 0 [] true) rd)) in *.
  destruct (queue_of_cpu (numcpus rd) cpu' QP_READ_SYNC (MkQueue 0 [] false) Hcpu') as (qj & Hqj & Hlj); [by left|]. rewrite <- Hq in Hlj.
  assert (exists q, queues rd1 !! qj = Some q /\ idle q) as (q & Hlq & Hidle).
  { cbn [rd1 set_nic set_queue queues]. destruct (decide (qj = qi)) as [->|Hne].
    - rewrite list_lookup_insert_eq by (by eapply lookup_lt_Some). by eexists.
    - rewrite list_lookup_insert_ne by done. by eexists. }
  destruct (rdma_read_spec cpu' page' (PAGE_SIZE * cap) rd1 qj q Hqj Hlq Hidle Hd1) as (f2 & d2 & Hd2 & Hf2).
  rewrite served_outside in Hf2 by done. cbn [opcode req_page] in Hf2.
  unfold pmdfc_cleancache_put_page, fetch_add_unless. rewrite Hst, Hend, Hu, Hd, Z.eqb_refl. fold k. fold rd. cbn [negb andb].
  eexists (f1 `max` f2)%nat, _, _. intros fuel' Hle. split_and!; [rewrite Hf1 by lia; reflexivity|done| | |].
  - unfold pmdfc_cleancache_get_page. fold k. unfold entries at 1. cbn [table rdma_direct]. rewrite lookup_insert_eq. cbn [default from_option id].
    rewrite find_last_cons. change (entries hash_min c) with (chain hash_min (table c)).
    assert (find_last k (chain hash_min (table c) k) = None) as ->.
    { pose proof (tr_map _ _ _ _ _ Ht k) as Hk. rewrite Hm in Hk. destruct (find_last k _) as [d|] eqn:E; [|done].
      destruct (table_found _ _ _ _ _ _ _ Ht E) as (_ & _ & [pg Hpg']). cbn [mbind option_bind] in Hk. congruence. }
    cbn [longkey roffset]. rewrite Z.eqb_refl. specialize (Hf2 fuel' ltac:(lia)). cbn [link roffset].
    destruct (pmdfc_rdma_read_sync true true fuel' cpu' page' (PAGE_SIZE * cap) rd1) as [[rd2 r2]|]; [|done]. cbn [mbind option_bind] in Hf2 |- *.
    rewrite Hf2. reflexivity.
  - cbn [set_link set_nic link uptodate]. set_solver.
  - done.
Qed.

Lemma drain_queue_hangs qi q : forall fuel (rd : rdma D),
  queues rd !! qi = Some q -> posted q = [] -> 0 < pending q -> drain_queue fuel qi rd = None.
Proof.
  induction fuel as [|fuel IH]; intros rd Hq Hp Hpe; [done|]. cbn [drain_queue]. rewrite Hq. cbn [mbind option_bind]. rewrite (proj2 (Z.ltb_lt _ _)) by done.
  unfold ib_process_cq_direct. rewrite Hq. cbn [mbind option_bind]. rewrite Hp. cbn [length]. destruct (completions (nic rd) 0 16) as [d k] eqn:E.
  destruct (completions_bound _ _ _ _ _ E) as [Hk _]. assert (k = 0%nat) as -> by lia. cbn [complete_many mbind option_bind]. by apply IH.
Qed.

(** The card refuses a request for a read: the request stays counted as pending, and the get
    polls the queue for ever. *)
Theorem onesided_refused_read_hangs c cpu oid index page cur d ret :
  rdma_direct c = true -> queues (link c) = replicate (Z.to_nat (numcpus (link c))) (MkQueue 0 [] false) -> 0 <= cpu < numcpus (link c) ->
  find_last (get_longkey oid index) (entries hash_min c (get_longkey oid index)) = Some cur ->
  ib_post_send (nic (link c)) = (d, ret) -> ret <> 0 ->
  exists rd', (forall fuel, pmdfc_rdma_read_sync true true (S fuel) cpu page (roffset cur) (link c) = Some (rd', ret))
    /\ (forall fuel, pmdfc_rdma_poll_load fuel cpu rd' = None)
    /\ forall fuel, pmdfc_cleancache_get_page true true hash_min fuel cpu oid index page c = None.
Proof.
  intros Hd Hq Hcpu Hcur Hpost Hret. set (rd := link c) in *.
  destruct (queue_of_cpu (numcpus rd) cpu QP_READ_SYNC (MkQueue 0 [] false) Hcpu) as (qi & Hqi & Hl); [by left|]. rewrite <- Hq in Hl.
  pose proof (lookup_lt_Some _ _ _ Hl) as Hlt. set (rd1 := set_nic d (set_queue qi (MkQueue 1 [] false) rd)).
  assert (forall fuel, pmdfc_rdma_read_sync true true (S fuel) cpu page (roffset cur) rd = Some (rd1, ret)) as Hread.
  { intros fuel. unfold pmdfc_rdma_read_sync, begin_read. rewrite Hqi. cbn [mbind option_bind].
    rewrite (back_pressure_idle _ _ _ _ (MkQueue 0 [] false)) by (done || unfold QP_MAX_SEND_WR; lia). cbn [mbind option_bind get_req_for_page andb].
    change (negb (0 =? 0)) with false. cbn iota. unfold pmdfc_rdma_post_rdma. rewrite Hl. cbn [mbind option_bind]. rewrite Hpost.
    cbn [pending posted qp_error]. by rewrite (proj2 (Z.eqb_neq ret 0)). }
  assert (forall fuel, pmdfc_rdma_poll_load fuel cpu rd1 = None) as Hhang.
  { intros fuel. unfold pmdfc_rdma_poll_load. cbn [rd1 set_nic set_queue numcpus]. rewrite Hqi. cbn [mbind option_bind].
    apply (drain_queue_hangs qi (MkQueue 1 [] false)); [by apply list_lookup_insert_eq|done|done]. }
  exists rd1. split_and!; [done|done|]. intros fuel. unfold pmdfc_cleancache_get_page. rewrite Hcur, Hd. fold rd.
  destruct fuel as [|fuel]; [unfold pmdfc_rdma_read_sync; by rewrite Hqi|]. rewrite Hread. cbn [mbind option_bind]. by rewrite Hhang.
Qed.

End Errors.

(** ** A card *)

(** It completes what is posted at every fourth poll. *)
#[export] Instance slow_card : Rnic nat := {
  ib_post_send d := (d, 0);
  completions d n b := match d with O => (3%nat, (n `min` b)%nat) | S d => (d, 0%nat) end;
  healthy _ := True;
  lag d := d;
}.
#[export] Instance slow_card_spec : RnicSpec nat.
Proof.
  split; cbn.
  - by intros d d' r _ [= <- <-].
  - intros [|d] n b d' k [= <- <-]; lia.
  - done.
  - intros [|d] n b d' _ Hn Hb [= <-]; lia.
Qed.

(** One that refuses everything. *)
Module Refusing.
Definition card : Rnic unit := {| ib_post_send d := (d, -12); completions d _ _ := (d, 0%nat); healthy _ := False; lag _ := 0%nat |}.
Lemma card_spec : @RnicSpec unit card.
Proof. split; cbn; try done. intros [] n b [] k [= <-]. lia. Qed.
End Refusing.

(** ** Runs *)

Module OneDemo.
(** A page is put twice under the same key, on two CPUs. *)
Definition calls : list call := [Put 0 1 2 100 [7]; Ask 1 1 2 101; Put 1 1 2 100 [8]; Ask 0 1 2 102; Ask 0 1 3 102].
(** A buffer without room. *)
Definition full : client nat := set_link (set_page 100 [7] (link (start 0%nat 2 0))) (start 0%nat 2 0).
(** A page is stored, and the card has failed. *)
Definition stuck : client unit :=
  MkClient unit (MkRdma unit tt 2 (replicate 2 (MkQueue 0 [] false)) PAGE_SIZE {[ 0 := [7] ]} ∅ ∅) true true PAGE_SIZE PAGE_SIZE
    {[ 0 := [MkData (get_longkey 1 2) 0] ]} 1 0 0.
End OneDemo.

Lemma onesided_refines_witness :
  exists fuel c', forall fuel', (fuel <= fuel')%nat ->
    foldM (run_call (fun k => k) fuel') OneDemo.calls (start 0%nat 2 2, []) = Some (c', [Some [7]; Some [7]; None]).
Proof.
  apply (onesided_refines (fun k => k) 0%nat 2 2 OneDemo.calls); [done|lia|repeat constructor; cbn; lia|cbn; lia].
Defined.

Lemma onesided_full_loses_witness :
  exists fuel c1 c2, forall fuel', (fuel <= fuel')%nat ->
    pmdfc_cleancache_put_page true true (fun k => k) fuel' 0 1 2 100 true OneDemo.full = Some c1 /\ region (link c1) = ∅
    /\ pmdfc_cleancache_get_page true true (fun k => k) fuel' 1 1 2 101 c1 = Some (c2, 0)
    /\ 101 ∈ uptodate (link c2) /\ pages (link c2) = pages (link OneDemo.full).
Proof.
  apply (onesided_full_loses (fun k => k) OneDemo.full ∅ 0 0 1 2 100 [7] 1 101);
    [apply rep_set_page, rep_start; [done|lia]|done|done|cbn; lia|cbn; lia].
Defined.

Lemma onesided_refused_read_hangs_witness :
  exists rd', (forall fuel, @pmdfc_rdma_read_sync unit Refusing.card true true (S fuel) 0 101 0 (link OneDemo.stuck) = Some (rd', -12))
    /\ (forall fuel, @pmdfc_rdma_poll_load unit Refusing.card fuel 0 rd' = None)
    /\ forall fuel, @pmdfc_cleancache_get_page unit Refusing.card true true (fun _ => 0) fuel 0 1 2 101 OneDemo.stuck = None.
Proof.
  apply (@onesided_refused_read_hangs unit Refusing.card Refusing.card_spec (fun _ => 0) OneDemo.stuck 0 1 2 101 (MkData (get_longkey 1 2) 0) tt (-12));
    [done|done|cbn; lia|by vm_compute|done|done].
Defined.

(** Forty connections are accepted and the region is sent once; the disconnection of one queue
    ends the server; one more request for a connection uses the queue behind the array. *)
Example server_connects rest :
  let es := concat (map (fun i => [Server.ConnectRequest; Server.Established i]) (seq 0 Server.NUM_QUEUES)) in
  Server.main (es ++ Server.Disconnected 5 :: rest)
    = Some (Server.MkCtrl 40 (<[5%nat := Server.INIT]> (replicate 40 Server.CONNECTED)) true 1, rest)
  /\ Server.main (es ++ [Server.ConnectRequest]) = None.
Proof. by vm_compute. Qed.

(** With three CPUs the last one reads from a queue for writing. *)
Example odd_cpus_share_a_queue : pmdfc_rdma_get_queue 3 2 QP_READ_SYNC = Some 1%nat /\ get_queue_type 3 1 = QP_WRITE_SYNC.
Proof. done. Qed.
