(* ===== verification/PmNode.v ===== *)
(** * Nodes, socket containers and requests of the TCP client (client/tcp_style/tcp.c)

    A node has at most one socket container, which counts its references
    ([sc_kref]); the node, the callbacks of the socket, every queued work item and
    every thread that uses the container hold one each.  A request waits with a
    record of its own ([pmnet_status_wait]), which the node lists and numbers; a
    reply, or the loss of the connection, completes it.

    The regions under [nn_lock] and under [sk_callback_lock] are functions; a step
    relation interleaves them, for any number of threads.  The theorems: the count
    is exact, so that no step uses a container that was freed, and a step crashes
    only on a status that does not exist or on a payload that does not fit its
    page; and a node that lost its container never gets another one. *)

From S2P Require Import Prelude.

Definition ENOENT : Z := 2.
Definition EINVAL : Z := 22.
Definition ENOMEM : Z := 12.
Definition ENOTCONN : Z := 107.
Definition INT_MAX : Z := 2 ^ 31 - 1.

(** [enum pmnet_system_error] *)
Definition PMNET_ERR_NONE : Z := 0.
Definition PMNET_ERR_NO_HNDLR : Z := 1.
Definition PMNET_ERR_OVERFLOW : Z := 2.
Definition PMNET_ERR_DIED : Z := 3.
Definition PMNET_ERR_MAX : Z := 4.

Definition pmnet_sys_err_translations : list Z := [0; -92; -75; -112].

(** [None] is a [BUG_ON]. *)
Definition pmnet_sys_err_to_errno (err : Z) : option Z :=
  if PMNET_ERR_MAX <=? err then None
  else
    trans ← pmnet_sys_err_translations !! Z.to_nat err;
    if negb (err =? PMNET_ERR_NONE) && (trans =? 0) then None else Some trans.

(** ** The state *)

Record pmnet_status_wait : Type := MkNsw {
  ns_sys_status : Z;
  ns_status : Z;
  ns_id : Z;
  ns_page : option (list Z);
}.

(** [nn_status_list] has the waiting requests, named by their threads; a request is on
    the list or its [ns_node_item] is empty. *)
Record pmnet_node : Type := MkNode {
  nn_sc : option Z;
  nn_sc_valid : bool;
  nn_persistent_error : Z;
  nn_timeout : Z;
  nn_status_idr : gmap Z nat;
  nn_status_list : list nat;
}.

(** The page of the header, the page of the payload, and what is read of them. *)
Record rx_state : Type := MkRx {
  sc_handshake_ok : bool;
  sc_page : list Z;
  sc_page_off : nat;
  sc_page_data : list Z;
  sc_page_data_off : nat;
}.

Inductive work := ConnectWork | RxWork | ShutdownWork | KeepaliveWork.
#[export] Instance work_eq_dec : EqDecision work.
Proof. solve_decision. Defined.

(** [sc_user_data]: the socket points to this container; [sc_queued]: the work items in
    the work queue. *)
Record sock_container : Type := MkSc {
  sc_kref : Z;
  sc_node : nat;
  sc_user_data : bool;
  sc_queued : list work;
  sc_rx : rx_state;
}.

(** [nodes] is the array [pmnet_nodes]; a container that is not in [scs] was freed. *)
Record pmnet : Type := MkNet {
  nodes : list pmnet_node;
  scs : gmap Z sock_container;
  nsws : gmap nat pmnet_status_wait;
}.

Definition set_node (net : pmnet) (n : nat) (nn : pmnet_node) : pmnet := MkNet (<[n := nn]> (nodes net)) (scs net) (nsws net).
Definition set_sc (net : pmnet) (p : Z) (sc : sock_container) : pmnet := MkNet (nodes net) (<[p := sc]> (scs net)) (nsws net).
Definition free_sc (net : pmnet) (p : Z) : pmnet := MkNet (nodes net) (delete p (scs net)) (nsws net).
Definition set_nsw (net : pmnet) (w : nat) (nsw : pmnet_status_wait) : pmnet := MkNet (nodes net) (scs net) (<[w := nsw]> (nsws net)).

Definition set_kref (k : Z) (sc : sock_container) : sock_container := MkSc k (sc_node sc) (sc_user_data sc) (sc_queued sc) (sc_rx sc).
Definition set_user_data (b : bool) (sc : sock_container) : sock_container := MkSc (sc_kref sc) (sc_node sc) b (sc_queued sc) (sc_rx sc).
Definition set_queued (ws : list work) (sc : sock_container) : sock_container := MkSc (sc_kref sc) (sc_node sc) (sc_user_data sc) ws (sc_rx sc).
Definition set_rx (rx : rx_state) (sc : sock_container) : sock_container := MkSc (sc_kref sc) (sc_node sc) (sc_user_data sc) (sc_queued sc) rx.
Definition set_waiting (idr : gmap Z nat) (l : list nat) (nn : pmnet_node) : pmnet_node :=
  MkNode (nn_sc nn) (nn_sc_valid nn) (nn_persistent_error nn) (nn_timeout nn) idr l.

(** A [BUG_ON] when there is no such node. *)
Definition pmnet_nn_from_num (net : pmnet) (n : nat) : option pmnet_node := nodes net !! n.

(** ** References *)

Definition sc_get (net : pmnet) (p : Z) : option pmnet :=
  sc ← scs net !! p; Some (set_sc net p (set_kref (sc_kref sc + 1) sc)).

Definition sc_kref_release (net : pmnet) (p : Z) : pmnet := free_sc net p.

Definition sc_put (net : pmnet) (p : Z) : option pmnet :=
  sc ← scs net !! p;
  Some (if sc_kref sc =? 1 then sc_kref_release net p else set_sc net p (set_kref (sc_kref sc - 1) sc)).

(** [queue_work] answers whether the item was not yet queued. *)
Definition pmnet_sc_queue_work (net : pmnet) (p : Z) (w : work) : option pmnet :=
  net ← sc_get net p;
  sc ← scs net !! p;
  if bool_decide (w ∈ sc_queued sc) then sc_put net p else Some (set_sc net p (set_queued (w :: sc_queued sc) sc)).

Definition pmnet_sc_cancel_delayed_work (net : pmnet) (p : Z) (w : work) : option pmnet :=
  sc ← scs net !! p;
  if bool_decide (w ∈ sc_queued sc) then sc_put (set_sc net p (set_queued (filter (.≠ w) (sc_queued sc)) sc)) p
  else Some net.

(** The page of the payload may be missing, which the code does not test: [None] is the
    [NULL] that [alloc_page] answered, and no byte can be stored there. *)
Definition sc_alloc (net : pmnet) (p : Z) (n : nat) (page : list Z) (page_data : option (list Z)) : pmnet :=
  set_sc net p (MkSc 1 n false [] (MkRx false page 0 (default [] page_data) 0)).

Definition pmnet_register_callbacks (net : pmnet) (p : Z) : option pmnet :=
  sc ← scs net !! p;
  if sc_user_data sc then None else sc_get (set_sc net p (set_user_data true sc)) p.

(** The result tells whether the callbacks were registered. *)
Definition pmnet_unregister_callbacks (net : pmnet) (p : Z) : option (pmnet * bool) :=
  sc ← scs net !! p;
  Some (if sc_user_data sc then (set_sc net p (set_user_data false sc), true) else (net, false)).

(** ** Requests that wait *)

Section Requests.
(** [idr_alloc] of the kernel: a number, or an error. *)
Context (idr_alloc : gmap Z nat -> Z).

(** The region under the lock; the fields are set after it. *)
Definition prep_nsw_locked (net : pmnet) (n w : nat) : option (pmnet * Z) :=
  nn ← pmnet_nn_from_num net n;
  nsw ← nsws net !! w;
  let ret := idr_alloc (nn_status_idr nn) in
  Some (if 0 <=? ret
        then (set_nsw (set_node net n (set_waiting (<[ret := w]> (nn_status_idr nn)) (nn_status_list nn ++ [w]) nn)) w
                (MkNsw (ns_sys_status nsw) (ns_status nsw) ret (ns_page nsw)), 0)
        else (net, ret)).
Definition prep_nsw_init (net : pmnet) (w : nat) : option pmnet :=
  nsw ← nsws net !! w; Some (set_nsw net w (MkNsw PMNET_ERR_NONE 0 (ns_id nsw) (ns_page nsw))).

(** With a page or without. *)
Definition complete_nsw_locked (net : pmnet) (n w : nat) (page : option (list Z)) (sys_status status : Z) : option pmnet :=
  nn ← pmnet_nn_from_num net n;
  if bool_decide (w ∈ nn_status_list nn) then
    nsw ← nsws net !! w;
    Some (set_nsw (set_node net n (set_waiting (delete (ns_id nsw) (nn_status_idr nn)) (filter (.≠ w) (nn_status_list nn)) nn)) w
            (MkNsw sys_status status (ns_id nsw) (match page with Some _ => page | None => ns_page nsw end)))
  else Some net.
Definition pmnet_complete_nsw_locked (net : pmnet) (n w : nat) (sys_status status : Z) : option pmnet :=
  complete_nsw_locked net n w None sys_status status.
Definition pmnet_complete_nsw_locked_with_page (net : pmnet) (n w : nat) (page : list Z) (sys_status status : Z) : option pmnet :=
  complete_nsw_locked net n w (Some page) sys_status status.

(** [nsw == NULL]: the request is found by its number. *)
Definition find_nsw (nn : pmnet_node) (nsw : option nat) (id : Z) : option nat :=
  match nsw with
  | Some w => Some w
  | None => if INT_MAX <? id then None else nn_status_idr nn !! id
  end.
Definition pmnet_complete_nsw (net : pmnet) (n : nat) (nsw : option nat) (id sys_status status : Z) : option pmnet :=
  nn ← pmnet_nn_from_num net n;
  match find_nsw nn nsw id with
  | Some w => pmnet_complete_nsw_locked net n w sys_status status
  | None => Some net
  end.
Definition pmnet_complete_nsw_with_page (net : pmnet) (n : nat) (nsw : option nat) (page : list Z) (id sys_status status : Z)
  : option pmnet :=
  nn ← pmnet_nn_from_num net n;
  match find_nsw nn nsw id with
  | Some w => pmnet_complete_nsw_locked_with_page net n w page sys_status status
  | None => Some net
  end.

Definition pmnet_complete_nodes_nsw (net : pmnet) (n : nat) : option pmnet :=
  nn ← pmnet_nn_from_num net n;
  foldM (fun net w => pmnet_complete_nsw_locked net n w PMNET_ERR_DIED 0) (nn_status_list nn) net.

Definition pmnet_nsw_completed (net : pmnet) (n w : nat) : option bool :=
  nn ← pmnet_nn_from_num net n; Some (negb (bool_decide (w ∈ nn_status_list nn))).

(** ** The state of a node *)

Definition pmnet_set_nn_state (net : pmnet) (n : nat) (sc : option Z) (valid : bool) (err : Z) : option pmnet :=
  nn ← pmnet_nn_from_num net n;
  let was_valid := nn_sc_valid nn in
  let old_sc := nn_sc nn in
  if match sc, old_sc with Some p, Some q => negb (q =? p) | _, _ => false end then None
  else
    let err := if was_valid && negb valid && (err =? 0) then - ENOTCONN else err in
    let net := set_node net n (MkNode sc valid err (nn_timeout nn) (nn_status_idr nn) (nn_status_list nn)) in
    net ← (if was_valid && negb valid then pmnet_complete_nodes_nsw net n else Some net);
    net ← (match old_sc, sc with None, Some p => sc_get net p | _, _ => Some net end);
    match old_sc with
    | Some q => if bool_decide (sc = Some q) then Some net
                else net ← pmnet_sc_queue_work net q ShutdownWork; sc_put net q
    | None => Some net
    end.

Definition pmnet_ensure_shutdown (net : pmnet) (n : nat) (p : Z) (err : Z) : option pmnet :=
  nn ← pmnet_nn_from_num net n;
  if bool_decide (nn_sc nn = Some p) then pmnet_set_nn_state net n None false err else Some net.

(** What a transmission gets to know: nothing yet, an error, or a container. *)
Definition pmnet_tx_can_proceed (net : pmnet) (n : nat) : option (pmnet * option (Z + Z)) :=
  nn ← pmnet_nn_from_num net n;
  if negb (nn_persistent_error nn =? 0) then Some (net, Some (inl (nn_persistent_error nn)))
  else if nn_sc_valid nn then p ← nn_sc nn; net ← sc_get net p; Some (net, Some (inr p))
  else Some (net, None).

Definition set_nn_timeout (net : pmnet) (n : nat) (t : Z) : option pmnet :=
  nn ← pmnet_nn_from_num net n;
  Some (set_node net n (MkNode (nn_sc nn) (nn_sc_valid nn) (nn_persistent_error nn) t (nn_status_idr nn) (nn_status_list nn))).

(** The last part of [pmnet_check_handshake] under the lock. *)
Definition handshake_valid (net : pmnet) (n : nat) (p : Z) : option pmnet :=
  nn ← pmnet_nn_from_num net n;
  if bool_decide (nn_sc nn = Some p) then net ← set_nn_timeout net n 0; pmnet_set_nn_state net n (Some p) true 0
  else Some net.

Definition pmnet_disconnect_node (net : pmnet) : option pmnet :=
  net ← set_nn_timeout net 0 0; pmnet_set_nn_state net 0 None false (- ENOTCONN).

End Requests.

(** ** Threads

    Where a thread is between two regions; the container it uses, and the node.  A
    work item that runs is a thread; so is a caller that sends. *)

(** What a caller gets: the result, [*status], and the page if one was copied. *)
Record reply : Type := MkReply { r_ret : Z; r_status : Z; r_page : option (list Z) }.

Inductive pc :=
| Idle
(* pmnet_start_connect *)
| ConnStart (n : nat) | ConnNew (n : nat) (p : Z) | ConnReg (n : nat) (p : Z) | ConnSet (n : nat) (p : Z) | ConnErr (n : nat) (p : Z)
(* pmnet_sc_connect_completed, pmnet_sc_send_keep_req, pmnet_rx_until_empty *)
| Sending (p : Z) | Reading (p : Z) | WorkErr (p : Z)
(* pmnet_shutdown_sc *)
| Shut (p : Z) | ShutCancel (p : Z) | ShutPut (p : Z) | ShutNode (p : Z)
| WorkPut (p : Z)
(* pmnet_send_recv_message_vec, and pmnet_send_message_vec without the wait *)
| TxWait (n : nat) (waits : bool) (status : Z) | TxSc (n : nat) (waits : bool) (status : Z) (p : Z)
| TxListed (n : nat) (status : Z) (p : Z) | TxReady (n : nat) (waits : bool) (status : Z) (p : Z) | TxSent (n : nat) (status : Z) (p : Z)
| TxPut (n : nat) (waits : bool) (r : reply) (p : Z) | TxEnd (n : nat) (r : reply) | TxDone (r : reply).

Record state : Type := MkState { net : pmnet; threads : list pc }.

Section Steps.
Context (idr_alloc : gmap Z nat -> Z).

Definition work_pc (w : work) (p : Z) : pc :=
  match w with ConnectWork | KeepaliveWork => Sending p | RxWork => Reading p | ShutdownWork => Shut p end.

(** What the receiving work may do to the node while it reads: it completes a request with
    whatever status the message has, completes the handshake, shuts the container down, or
    stores bytes.  Which of them it does, and with which bytes, is left open here; the
    reader itself is in [PmRx]. *)
Inductive rx_action (n : nat) (p : Z) : pmnet -> option pmnet -> Prop :=
| rx_status net id sys st : rx_action n p net (pmnet_complete_nsw net n None id sys st)
| rx_page net id sys st page : rx_action n p net (pmnet_complete_nsw_with_page net n None page id sys st)
| rx_handshake net : rx_action n p net (handshake_valid net n p)
| rx_shutdown net err : rx_action n p net (pmnet_ensure_shutdown net n p err)
| rx_bytes net sc rx : scs net !! p = Some sc -> rx_action n p net (Some (set_sc net p (set_rx rx sc))).

(** The end of a request: [pmnet_sys_err_to_errno], the status, and the page. *)
Definition tx_result (nsw : pmnet_status_wait) (status : Z) : option reply :=
  ret ← pmnet_sys_err_to_errno (ns_sys_status nsw);
  let status := if ret =? 0 then ns_status nsw else status in
  Some (MkReply ret status (if negb (status =? -1) then ns_page nsw else None)).

(** One region of a thread; [None] is a crash. *)
Inductive exec (i : nat) : pmnet -> pc -> option pmnet -> pc -> Prop :=
| conn_nomem net n : exec i net (ConnStart n) (Some net) Idle
| conn_alloc net n p page page_data :
    scs net !! p = None -> exec i net (ConnStart n) (Some (sc_alloc net p n page page_data)) (ConnNew n p)
| conn_nosock net n p : exec i net (ConnNew n p) (Some net) (ConnErr n p)
| conn_register net n p : exec i net (ConnNew n p) (pmnet_register_callbacks net p) (ConnReg n p)
| conn_state net n p : exec i net (ConnReg n p) (pmnet_set_nn_state net n (Some p) false 0) (ConnSet n p)
| conn_ok net n p : exec i net (ConnSet n p) (Some net) (WorkPut p)
| conn_fail net n p : exec i net (ConnSet n p) (Some net) (ConnErr n p)
| conn_err net n p : exec i net (ConnErr n p) (pmnet_ensure_shutdown net n p 0) (WorkPut p)
| send_ok net p : exec i net (Sending p) (Some net) (WorkPut p)
| send_fail net p : exec i net (Sending p) (Some net) (WorkErr p)
| read_some net p sc o : scs net !! p = Some sc -> rx_action (sc_node sc) p net o -> exec i net (Reading p) o (Reading p)
| read_overrun net p sc k : scs net !! p = Some sc -> (length (sc_page_data (sc_rx sc)) < sc_page_data_off (sc_rx sc) + k)%nat ->
    exec i net (Reading p) None Idle
| read_again net p : exec i net (Reading p) (Some net) (WorkPut p)
| read_fail net p : exec i net (Reading p) (Some net) (WorkErr p)
| work_err net p : exec i net (WorkErr p)
    (sc ← scs net !! p; pmnet_ensure_shutdown net (sc_node sc) p 0) (WorkPut p)
| shut_first net net' p : pmnet_unregister_callbacks net p = Some (net', true) -> exec i net (Shut p) (Some net') (ShutCancel p)
| shut_again net net' p : pmnet_unregister_callbacks net p = Some (net', false) -> exec i net (Shut p) (Some net') (ShutNode p)
| shut_freed net p : pmnet_unregister_callbacks net p = None -> exec i net (Shut p) None (ShutNode p)
| shut_cancel net p : exec i net (ShutCancel p) (pmnet_sc_cancel_delayed_work net p KeepaliveWork) (ShutPut p)
| shut_put net p : exec i net (ShutPut p) (sc_put net p) (ShutNode p)
| shut_node net p : exec i net (ShutNode p) (sc ← scs net !! p; pmnet_ensure_shutdown net (sc_node sc) p 0) (WorkPut p)
| work_put net p : exec i net (WorkPut p) (sc_put net p) Idle
| tx_error net net' n waits status err :
    pmnet_tx_can_proceed net n = Some (net', Some (inl err)) ->
    exec i net (TxWait n waits status) (Some net') (let r := MkReply err status None in if waits then TxEnd n r else TxDone r)
| tx_proceed net net' n waits status p :
    pmnet_tx_can_proceed net n = Some (net', Some (inr p)) -> exec i net (TxWait n waits status) (Some net') (TxSc n waits status p)
| tx_crash net n waits status : pmnet_tx_can_proceed net n = None -> exec i net (TxWait n waits status) None Idle
| tx_nomem net n waits status p : exec i net (TxSc n waits status p) (Some net) (TxPut n waits (MkReply (- ENOMEM) status None) p)
| tx_post net n status p : exec i net (TxSc n false status p) (Some net) (TxReady n false status p)
| tx_prep net net' n status p :
    prep_nsw_locked idr_alloc net n i = Some (net', 0) -> exec i net (TxSc n true status p) (Some net') (TxListed n status p)
| tx_noid net net' n status p ret :
    prep_nsw_locked idr_alloc net n i = Some (net', ret) -> ret < 0 ->
    exec i net (TxSc n true status p) (Some net') (TxPut n true (MkReply ret status None) p)
| tx_prep_crash net n status p : prep_nsw_locked idr_alloc net n i = None -> exec i net (TxSc n true status p) None Idle
| tx_init net n status p : exec i net (TxListed n status p) (prep_nsw_init net i) (TxReady n true status p)
| tx_unsent net n waits status p ret :
    ret < 0 -> exec i net (TxReady n waits status p) (Some net) (TxPut n waits (MkReply ret (if waits then -1 else status) None) p)
| tx_sent net n status p : exec i net (TxReady n true status p) (Some net) (TxSent n status p)
| tx_posted net n status p : exec i net (TxReady n false status p) (Some net) (TxPut n false (MkReply 0 status None) p)
| tx_woken net n status p nsw r :
    pmnet_nsw_completed net n i = Some true -> nsws net !! i = Some nsw -> tx_result nsw status = Some r ->
    exec i net (TxSent n status p) (Some net) (TxPut n true r p)
| tx_woken_crash net n status p nsw :
    pmnet_nsw_completed net n i = Some true -> nsws net !! i = Some nsw -> tx_result nsw status = None ->
    exec i net (TxSent n status p) None Idle
| tx_put net n r p : exec i net (TxPut n true r p) (sc_put net p) (TxEnd n r)
| tx_put_post net n r p : exec i net (TxPut n false r p) (sc_put net p) (TxDone r)
| tx_end net n r : exec i net (TxEnd n r) (pmnet_complete_nsw net n (Some i) 0 0 0) (TxDone r).

(** What happens outside of the threads: the callbacks of a socket, a work item that
    starts, a new call, and the disconnection of the node. *)
Inductive outside : state -> option state -> Prop :=
| callback st p sc w : scs (net st) !! p = Some sc -> sc_user_data sc = true -> w <> KeepaliveWork ->
    outside st ((fun net' => MkState net' (threads st)) <$> pmnet_sc_queue_work (net st) p w)
| dispatch st p sc w i : scs (net st) !! p = Some sc -> w ∈ sc_queued sc -> threads st !! i = Some Idle ->
    outside st (Some (MkState (set_sc (net st) p (set_queued (filter (.≠ w) (sc_queued sc)) sc)) (<[i := work_pc w p]> (threads st))))
| call st i n waits status : threads st !! i = Some Idle -> (n < length (nodes (net st)))%nat ->
    outside st (Some (MkState (set_nsw (net st) i (MkNsw 0 0 0 None)) (<[i := TxWait n waits status]> (threads st))))
| disconnect st :
    outside st ((fun net' => MkState net' (threads st)) <$> pmnet_disconnect_node (net st)).

Inductive step : state -> option state -> Prop :=
| step_thread st i c o c' : threads st !! i = Some c -> exec i (net st) c o c' ->
    step st ((fun net' => MkState net' (<[i := c']> (threads st))) <$> o)
| step_outside st o : outside st o -> step st o.

(** [pmnet_init]: the first of the two nodes is initialised, and its connection is started once. *)
Definition init_node : pmnet_node := MkNode None false (- ENOTCONN) 0 ∅ [].
Definition static_node : pmnet_node := MkNode None false 0 0 ∅ [].
Definition init_state (k : nat) : state := MkState (MkNet [init_node; static_node] ∅ ∅) (ConnStart 0 :: replicate k Idle).

Inductive reachable (k : nat) : state -> Prop :=
| reach_init : reachable k (init_state k)
| reach_step st st' : reachable k st -> step st (Some st') -> reachable k st'.

End Steps.

(** ** Counting references *)

Fixpoint sumz {A} (f : A -> Z) (l : list A) : Z := match l with [] => 0 | x :: l => f x + sumz f l end.

Lemma sumz_insert {A} (f : A -> Z) l i x y : l !! i = Some x -> sumz f (<[i := y]> l) = sumz f l - f x + f y.
Proof. revert i. induction l as [|z l IH]; intros [|i] Hi; [done..| |]; simpl in *; [injection Hi as ->; lia|]. rewrite (IH i Hi). lia. Qed.

Lemma sumz_nonneg {A} (f : A -> Z) l : (forall x, 0 <= f x) -> 0 <= sumz f l.
Proof. intros Hf. induction l as [|x l IH]; cbn; [lia|]. specialize (Hf x). lia. Qed.

Lemma sumz_ge {A} (f : A -> Z) l i x : (forall x, 0 <= f x) -> l !! i = Some x -> f x <= sumz f l.
Proof.
  intros Hf. revert i. induction l as [|z l IH]; intros [|i] Hi; [done..| |]; cbn in *.
  - injection Hi as ->. pose proof (sumz_nonneg f l Hf). lia.
  - specialize (IH i Hi). specialize (Hf z). lia.
Qed.

(** The references that a thread holds. *)
Definition holds (p : Z) (c : pc) : Z :=
  match c with
  | ConnNew _ q | ConnReg _ q | ConnSet _ q | ConnErr _ q | Sending q | Reading q | WorkErr q | Shut q | ShutNode q | WorkPut q
  | TxSc _ _ _ q | TxListed _ _ q | TxReady _ _ _ q | TxSent _ _ q | TxPut _ _ _ q => if q =? p then 1 else 0
  | ShutCancel q | ShutPut q => if q =? p then 2 else 0
  | Idle | ConnStart _ | TxWait _ _ _ | TxEnd _ _ | TxDone _ => 0
  end.

(** Those of a node, and those that a container holds of itself. *)
Definition node_holds (p : Z) (nn : pmnet_node) : Z := if bool_decide (nn_sc nn = Some p) then 1 else 0.
Definition self_holds (sc : sock_container) : Z := (if sc_user_data sc then 1 else 0) + Z.of_nat (length (sc_queued sc)).

(** The references that are left for the threads. *)
Definition rest (net : pmnet) (p : Z) : Z :=
  match scs net !! p with Some sc => sc_kref sc - self_holds sc | None => 0 end - sumz (node_holds p) (nodes net).

Lemma holds_nonneg p c : 0 <= holds p c.
Proof. destruct c; cbn; repeat case_match; lia. Qed.
Lemma node_holds_nonneg p nn : 0 <= node_holds p nn.
Proof. unfold node_holds. case_match; lia. Qed.
Lemma self_holds_nonneg sc : 0 <= self_holds sc.
Proof. unfold self_holds. case_match; lia. Qed.
#[local] Hint Resolve holds_nonneg node_holds_nonneg self_holds_nonneg : core.

(** Every container that lives has a positive count and a node, no work item is queued
    twice, and a request that waits has its record. *)
Record net_ok (net : pmnet) : Prop := {
  ok_kref : forall p sc, scs net !! p = Some sc -> 1 <= sc_kref sc;
  ok_queued : forall p sc, scs net !! p = Some sc -> NoDup (sc_queued sc);
  ok_node : forall p sc, scs net !! p = Some sc -> (sc_node sc < length (nodes net))%nat;
  ok_rest : forall p, 0 <= rest net p;
  ok_nsw : forall n nn w, nodes net !! n = Some nn -> w ∈ nn_status_list nn -> is_Some (nsws net !! w);
}.

Section Moves.
(** The containers whose callbacks may be registered, and the nodes that may get a container. *)
Context (reg : Z -> Prop) (attach : nat -> Prop).

Record head_ok (n : nat) (nn nn' : pmnet_node) : Prop := {
  hd_sc : nn_sc nn' = nn_sc nn \/ nn_sc nn' = None \/ attach n;
  hd_valid : nn_sc_valid nn' = true -> is_Some (nn_sc nn') \/ (nn_sc_valid nn = true /\ nn_sc nn' = nn_sc nn);
}.

Lemma head_refl n nn : head_ok n nn nn.
Proof. split; auto. Qed.
Lemma head_trans n nn1 nn2 nn3 : head_ok n nn1 nn2 -> head_ok n nn2 nn3 -> head_ok n nn1 nn3.
Proof.
  intros [A1 A2] [B1 B2]. split.
  - destruct B1 as [B1|[B1|B1]], A1 as [A1|[A1|A1]]; try rewrite B1; try rewrite A1; auto.
  - intros H3. destruct (B2 H3) as [|[H2 E2]]; [by left|]. destruct (A2 H2) as [|[H1 E1]]; [left; by rewrite E2|right]. split; congruence.
Qed.
#[local] Hint Resolve head_refl : core.

(** [net'] is [net] with [d p] more references of [p] for the threads; no container is new. *)
Record moves (net net' : pmnet) (d : Z -> Z) : Prop := {
  mv_ok : net_ok net';
  mv_rest : forall p, rest net' p = rest net p + d p;
  mv_len : length (nodes net') = length (nodes net);
  mv_nsws : forall w, is_Some (nsws net !! w) -> is_Some (nsws net' !! w);
  mv_sc : forall p sc', scs net' !! p = Some sc' -> exists sc, scs net !! p = Some sc /\ sc_node sc = sc_node sc'
    /\ (sc_user_data sc' = true -> sc_user_data sc = true \/ reg p);
  mv_head : forall n nn', nodes net' !! n = Some nn' -> exists nn, nodes net !! n = Some nn /\ head_ok n nn nn';
}.

Definition one (q : Z) (k : Z) (p : Z) : Z := if q =? p then k else 0.

Lemma moves_trans net1 net2 net3 d1 d2 d3 :
  moves net1 net2 d1 -> moves net2 net3 d2 -> (forall p, d3 p = d1 p + d2 p) -> moves net1 net3 d3.
Proof.
  intros [A1 A2 A3 A4 A5 A6] [B1 B2 B3 B4 B5 B6] Hd. split; auto; [|congruence|..].
  - intros p. rewrite B2, A2, Hd. lia.
  - intros p sc3 H3. destruct (B5 p sc3 H3) as (sc2 & H2 & E2 & U2). destruct (A5 p sc2 H2) as (sc1 & ? & ? & U1). exists sc1.
    split_and!; [done|congruence|]. intros Hu. destruct (U2 Hu) as [Hu2|]; auto.
  - intros n nn3 H3. destruct (B6 n nn3 H3) as (nn2 & H2 & ?). destruct (A6 n nn2 H2) as (nn1 & ? & ?).
    exists nn1. split; [done|by eapply head_trans].
Qed.

Lemma moves_refl net : net_ok net -> moves net net (fun _ => 0).
Proof. intros Hok. split; [done|lia|done|done|eauto 6|eauto]. Qed.

Lemma rest_live net p : 0 < rest net p -> is_Some (scs net !! p).
Proof.
  unfold rest. pose proof (sumz_nonneg (node_holds p) (nodes net) (node_holds_nonneg p)).
  destruct (scs net !! p); [done|lia].
Qed.

Lemma node_live net n nn p : net_ok net -> nodes net !! n = Some nn -> nn_sc nn = Some p -> is_Some (scs net !! p).
Proof.
  intros Hok Hn Hp. pose proof (ok_rest _ Hok p) as Hr. unfold rest in Hr.
  pose proof (sumz_ge (node_holds p) (nodes net) n nn (node_holds_nonneg p) Hn) as Hge. unfold node_holds in Hge at 1.
  rewrite bool_decide_true in Hge by done. destruct (scs net !! p); [done|lia].
Qed.

(** A container changes. *)
Lemma moves_set_sc net p sc sc' k :
  net_ok net -> scs net !! p = Some sc -> sc_node sc' = sc_node sc -> 1 <= sc_kref sc' -> NoDup (sc_queued sc') ->
  (sc_kref sc' - self_holds sc') - (sc_kref sc - self_holds sc) = k -> 0 <= rest net p + k ->
  (sc_user_data sc' = true -> sc_user_data sc = true \/ reg p) ->
  moves net (set_sc net p sc') (one p k).
Proof.
  intros [O1 O2 O3 O4 O5] Hp Hn Hk Hq Hd Hr Hu.
  assert (forall q, rest (set_sc net p sc') q = rest net q + one p k q) as Hrest.
  { intros q. unfold rest, one, set_sc. cbn [scs nodes]. destruct (Z.eqb_spec p q) as [<-|Hne].
    - rewrite lookup_insert_eq, Hp. lia.
    - rewrite lookup_insert_ne by done. lia. }
  split; [split|..]; unfold set_sc in *; cbn [scs nodes nsws] in *; try done.
  - intros q sc0. rewrite lookup_insert_Some. intros [[_ <-]|[_ ?]]; eauto.
  - intros q sc0. rewrite lookup_insert_Some. intros [[_ <-]|[_ ?]]; eauto.
  - intros q sc0. rewrite lookup_insert_Some. intros [[_ <-]|[_ ?]]; [rewrite Hn|]; eauto.
  - intros q. rewrite Hrest. unfold one. destruct (Z.eqb_spec p q) as [<-|]; [lia|]. specialize (O4 q). lia.
  - intros q sc0. rewrite lookup_insert_Some. intros [[<- <-]|[_ ?]]; eauto 6.
  - eauto.
Qed.

Lemma sc_get_moves net p : net_ok net -> is_Some (scs net !! p) -> exists net', sc_get net p = Some net' /\ moves net net' (one p 1).
Proof.
  intros Hok [sc Hp]. unfold sc_get. rewrite Hp. eexists. split; [done|].
  pose proof (ok_kref _ Hok p sc Hp). pose proof (ok_rest _ Hok p).
  apply (moves_set_sc net p sc); cbn; try done; [lia|by apply (ok_queued _ Hok p)|unfold self_holds; cbn; lia|lia|auto].
Qed.

(** The caller gives one of its own references back. *)
Lemma sc_put_moves net p : net_ok net -> 0 < rest net p -> exists net', sc_put net p = Some net' /\ moves net net' (one p (-1)).
Proof.
  intros Hok Hr. destruct (rest_live net p Hr) as [sc Hp]. unfold sc_put. rewrite Hp. eexists. split; [done|].
  pose proof (ok_kref _ Hok p sc Hp). pose proof (self_holds_nonneg sc).
  pose proof (sumz_nonneg (node_holds p) (nodes net) (node_holds_nonneg p)).
  assert (rest net p = sc_kref sc - self_holds sc - sumz (node_holds p) (nodes net)) as He by (unfold rest; by rewrite Hp).
  destruct (Z.eqb_spec (sc_kref sc) 1) as [Hk|Hk].
  2: { apply (moves_set_sc net p sc); cbn; try done; [lia|by apply (ok_queued _ Hok p)|unfold self_holds; cbn; lia|lia|auto]. }
  destruct Hok as [O1 O2 O3 O4 O5].
  assert (forall q, rest (sc_kref_release net p) q = rest net q + one p (-1) q) as Hrest.
  { intros q. unfold rest, one, sc_kref_release, free_sc. cbn [scs nodes]. destruct (Z.eqb_spec p q) as [<-|Hne].
    - rewrite lookup_delete_eq, Hp. lia.
    - rewrite lookup_delete_ne by done. lia. }
  split; [split|..]; unfold sc_kref_release, free_sc in *; cbn [scs nodes nsws] in *; try done.
  - intros q sc0. rewrite lookup_delete_Some. intros [_ ?]; eauto.
  - intros q sc0. rewrite lookup_delete_Some. intros [_ ?]; eauto.
  - intros q sc0. rewrite lookup_delete_Some. intros [_ ?]; eauto.
  - intros q. rewrite Hrest. unfold one. destruct (Z.eqb_spec p q) as [<-|]; [lia|]. specialize (O4 q). lia.
  - intros q sc0. rewrite lookup_delete_Some. intros [_ ?]; eauto 6.
  - eauto.
Qed.

Lemma filter_ne_length (w : work) l : NoDup l -> w ∈ l -> length (filter (.≠ w) l) = (length l - 1)%nat.
Proof.
  induction 1 as [|v l Hv Hl IH]; intros Hw; [by apply not_elem_of_nil in Hw|]. apply elem_of_cons in Hw as [->|Hw].
  - rewrite filter_cons_False by tauto. rewrite filter_all; [cbn; lia|]. apply Forall_forall. intros x Hx ->. done.
  - rewrite filter_cons_True by (intros ->; done). cbn [length]. rewrite IH by done.
    destruct l; [by apply not_elem_of_nil in Hw|cbn; lia].
Qed.

Lemma filter_ne_NoDup {A} `{EqDecision A} (w : A) l : NoDup l -> NoDup (filter (.≠ w) l).
Proof. apply NoDup_filter. Qed.

Lemma one_diag p k : one p k p = k.
Proof. unfold one. by rewrite Z.eqb_refl. Qed.
Lemma one_add p k k' q : one p (k + k') q = one p k q + one p k' q.
Proof. unfold one. case_match; lia. Qed.
Lemma one_zero p q : one p 0 q = 0.
Proof. unfold one. by case_match. Qed.

Lemma moves_ext net net' d d' : moves net net' d -> (forall p, d p = d' p) -> moves net net' d'.
Proof. intros [] He. split; auto. intros p. rewrite <- He. auto. Qed.

Lemma queue_work_moves net p w :
  net_ok net -> is_Some (scs net !! p) -> exists net', pmnet_sc_queue_work net p w = Some net' /\ moves net net' (fun _ => 0).
Proof.
  intros Hok Hp. unfold pmnet_sc_queue_work. destruct (sc_get_moves net p Hok Hp) as (net1 & Hg & M1). rewrite Hg.
  pose proof (mv_rest _ _ _ M1 p) as Hr. rewrite one_diag in Hr. pose proof (ok_rest _ Hok p).
  destruct (rest_live net1 p) as [sc Hsc]; [lia|]. cbn [mbind option_bind]. rewrite Hsc. cbn [mbind option_bind].
  pose proof (mv_ok _ _ _ M1) as Hok1. case_bool_decide as Hw.
  - destruct (sc_put_moves net1 p Hok1) as (net2 & Hput & M2); [lia|]. exists net2. split; [done|].
    eapply moves_trans; [exact M1|exact M2|]. intros q. cbn. rewrite <- one_add. by rewrite one_zero.
  - eexists. split; [done|]. eapply moves_trans; [exact M1| |].
    + apply (moves_set_sc net1 p sc _ (-1)); cbn; try done; [by apply (ok_kref _ Hok1 p)| |unfold self_holds; cbn [sc_user_data sc_queued set_queued length]; lia|lia|auto].
      apply NoDup_cons. split; [done|]. by apply (ok_queued _ Hok1 p).
    + intros q. cbn. rewrite <- one_add. by rewrite one_zero.
Qed.

(** A work item leaves the queue: its reference goes to the thread. *)
Lemma unqueue_moves net p sc w :
  net_ok net -> scs net !! p = Some sc -> w ∈ sc_queued sc ->
  moves net (set_sc net p (set_queued (filter (.≠ w) (sc_queued sc)) sc)) (one p 1).
Proof.
  intros Hok Hsc Hw. pose proof (ok_rest _ Hok p). pose proof (ok_queued _ Hok p sc Hsc) as Hnd.
  assert (1 <= length (sc_queued sc))%nat by (destruct (sc_queued sc); [by apply not_elem_of_nil in Hw|cbn; lia]).
  apply (moves_set_sc net p sc); cbn [sc_node sc_kref sc_queued set_queued]; try done; [by apply (ok_kref _ Hok p)|by apply filter_ne_NoDup| |lia|auto].
  unfold self_holds. cbn [sc_user_data sc_queued set_queued]. rewrite filter_ne_length by done. lia.
Qed.

Lemma cancel_moves net p w :
  net_ok net -> is_Some (scs net !! p) -> exists net', pmnet_sc_cancel_delayed_work net p w = Some net' /\ moves net net' (fun _ => 0).
Proof.
  intros Hok [sc Hsc]. unfold pmnet_sc_cancel_delayed_work. rewrite Hsc. cbn [mbind option_bind]. case_bool_decide as Hw.
  - pose proof (unqueue_moves net p sc w Hok Hsc Hw) as M1. pose proof (mv_rest _ _ _ M1 p) as Hr. rewrite one_diag in Hr.
    pose proof (ok_rest _ Hok p). destruct (sc_put_moves _ p (mv_ok _ _ _ M1)) as (net2 & Hput & M2); [lia|].
    exists net2. split; [done|]. eapply moves_trans; [exact M1|exact M2|]. intros q. cbn. rewrite <- one_add. by rewrite one_zero.
  - exists net. split; [done|by apply moves_refl].
Qed.

Lemma register_moves net p sc :
  reg p -> net_ok net -> 0 < rest net p -> scs net !! p = Some sc -> sc_user_data sc = false ->
  exists net', pmnet_register_callbacks net p = Some net' /\ moves net net' (fun _ => 0).
Proof.
  intros Hup Hok Hr Hsc Hu. unfold pmnet_register_callbacks. rewrite Hsc. cbn [mbind option_bind]. rewrite Hu.
  assert (moves net (set_sc net p (set_user_data true sc)) (one p (-1))) as M1.
  { apply (moves_set_sc net p sc); cbn [sc_node sc_kref sc_queued set_user_data]; try done;
      [by apply (ok_kref _ Hok p)|by apply (ok_queued _ Hok p)|unfold self_holds; cbn [sc_user_data sc_queued set_user_data]; rewrite Hu; lia|lia|auto]. }
  destruct (sc_get_moves _ p (mv_ok _ _ _ M1)) as (net2 & Hg & M2); [unfold set_sc; cbn [scs]; rewrite lookup_insert_eq; done|].
  exists net2. split; [done|]. eapply moves_trans; [exact M1|exact M2|]. intros q. cbn. rewrite <- one_add. by rewrite one_zero.
Qed.

Lemma unregister_moves net p sc :
  net_ok net -> scs net !! p = Some sc ->
  exists net', pmnet_unregister_callbacks net p = Some (net', sc_user_data sc)
    /\ moves net net' (one p (if sc_user_data sc then 1 else 0)).
Proof.
  intros Hok Hsc. unfold pmnet_unregister_callbacks. rewrite Hsc. cbn [mbind option_bind]. pose proof (ok_rest _ Hok p).
  destruct (sc_user_data sc) eqn:Hu; eexists; (split; [done|]).
  - apply (moves_set_sc net p sc); cbn [sc_node sc_kref sc_queued set_user_data]; try done;
      [by apply (ok_kref _ Hok p)|by apply (ok_queued _ Hok p)|unfold self_holds; cbn [sc_user_data sc_queued set_user_data]; rewrite Hu; lia|lia].
  - eapply moves_ext; [by apply moves_refl|]. intros q. by rewrite one_zero.
Qed.

(** A node changes, or the record of a request. *)
Lemma moves_set_node net n nn nn' d :
  net_ok net -> nodes net !! n = Some nn -> (forall w, w ∈ nn_status_list nn' -> is_Some (nsws net !! w)) ->
  (forall q, d q = node_holds q nn - node_holds q nn') -> (forall q, 0 <= rest net q + d q) ->
  head_ok n nn nn' -> moves net (set_node net n nn') d.
Proof.
  intros [O1 O2 O3 O4 O5] Hn Hl Hd Hr Hh.
  assert (forall q, rest (set_node net n nn') q = rest net q + d q) as Hrest.
  { intros q. unfold rest, set_node. cbn [scs nodes]. rewrite (sumz_insert _ _ _ nn) by done. rewrite Hd. lia. }
  split; [split|..]; unfold set_node in *; cbn [scs nodes nsws] in *; try done.
  - intros q sc Hq. rewrite length_insert. eauto.
  - intros q. rewrite Hrest. auto.
  - intros m mm w Hm. apply list_lookup_insert_Some in Hm as [(<- & <- & _)|[_ Hm]]; eauto.
  - by rewrite length_insert.
  - eauto 6.
  - intros m mm Hm. apply list_lookup_insert_Some in Hm as [(<- & <- & _)|[_ Hm]]; eauto.
Qed.

Lemma moves_set_nsw net w nsw : net_ok net -> moves net (set_nsw net w nsw) (fun _ => 0).
Proof.
  intros [O1 O2 O3 O4 O5].
  assert (forall v, is_Some (nsws net !! v) -> is_Some (nsws (set_nsw net w nsw) !! v)) as Hmore.
  { intros v Hv. cbn. apply lookup_insert_is_Some'. by right. }
  split; [split|..]; cbn in *; try done.
  - intros n nn v Hn Hv. apply Hmore. eauto.
  - intros p. unfold rest. cbn. lia.
  - eauto 6.
  - eauto.
Qed.

Lemma moves_then net1 net2 net3 d : moves net1 net2 (fun _ => 0) -> moves net2 net3 d -> moves net1 net3 d.
Proof. intros M1 M2. eapply moves_trans; [exact M1|exact M2|]. intros p. cbn. lia. Qed.

(** The list of a node changes, and the rest of it stays. *)
Lemma moves_set_waiting net n nn idr l :
  net_ok net -> nodes net !! n = Some nn -> (forall w, w ∈ l -> is_Some (nsws net !! w)) ->
  moves net (set_node net n (set_waiting idr l nn)) (fun _ => 0).
Proof.
  intros Hok Hn Hl. apply (moves_set_node net n nn); try done; [intros q; pose proof (ok_rest _ Hok q);
    unfold node_holds, set_waiting; cbn [nn_sc]; lia..|]. split; auto.
Qed.

Section Counting.
Context (idr_alloc : gmap Z nat -> Z).

Lemma complete_moves net n w page sys st :
  net_ok net -> (n < length (nodes net))%nat ->
  exists net', complete_nsw_locked net n w page sys st = Some net' /\ moves net net' (fun _ => 0) /\ scs net' = scs net.
Proof.
  intros Hok Hn. unfold complete_nsw_locked, pmnet_nn_from_num. destruct (lookup_lt_is_Some_2 _ _ Hn) as [nn Hnn]. rewrite Hnn.
  cbn [mbind option_bind]. case_bool_decide as Hw; [|exists net; split_and!; [done|by apply moves_refl|done]].
  destruct (ok_nsw _ Hok n nn w Hnn Hw) as [nsw Hnsw]. rewrite Hnsw. eexists. split; [done|]. split; [|done].
  eapply moves_then; [apply (moves_set_waiting net n nn); try done|].
  - intros v Hv. apply list_elem_of_filter in Hv as [_ Hv]. by apply (ok_nsw _ Hok n nn).
  - apply moves_set_nsw. apply (mv_ok net _ (fun _ => 0)). apply (moves_set_waiting net n nn); try done.
    intros v Hv. apply list_elem_of_filter in Hv as [_ Hv]. by apply (ok_nsw _ Hok n nn).
Qed.

Lemma complete_by_id_moves net n nsw page id sys st :
  net_ok net -> (n < length (nodes net))%nat ->
  (exists net', pmnet_complete_nsw net n nsw id sys st = Some net' /\ moves net net' (fun _ => 0))
  /\ (exists net', pmnet_complete_nsw_with_page net n nsw page id sys st = Some net' /\ moves net net' (fun _ => 0)).
Proof.
  intros Hok Hn. unfold pmnet_complete_nsw, pmnet_complete_nsw_with_page, pmnet_nn_from_num.
  destruct (lookup_lt_is_Some_2 _ _ Hn) as [nn Hnn]. rewrite Hnn. cbn [mbind option_bind].
  destruct (find_nsw nn nsw id) as [w|]; [|split; exists net; (split; [done|by apply moves_refl])].
  split; [destruct (complete_moves net n w None sys st) as (net' & ? & ? & _)|destruct (complete_moves net n w (Some page) sys st) as (net' & ? & ? & _)];
    eauto.
Qed.

Lemma complete_all_moves net n ws :
  net_ok net -> (n < length (nodes net))%nat ->
  exists net', foldM (fun net w => pmnet_complete_nsw_locked net n w PMNET_ERR_DIED 0) ws net = Some net' /\ moves net net' (fun _ => 0)
    /\ scs net' = scs net.
Proof.
  revert net. induction ws as [|w ws IH]; intros net Hok Hn; cbn [foldM]; [exists net; split_and!; [done|by apply moves_refl|done]|].
  destruct (complete_moves net n w None PMNET_ERR_DIED 0 Hok Hn) as (net1 & H1 & M1 & S1).
  assert (pmnet_complete_nsw_locked net n w PMNET_ERR_DIED 0 = Some net1) as -> by done. cbn [mbind option_bind].
  destruct (IH net1 (mv_ok _ _ _ M1)) as (net2 & H2 & M2 & S2); [by rewrite (mv_len _ _ _ M1)|].
  exists net2. split_and!; [done|by eapply moves_then|congruence].
Qed.

Lemma complete_nodes_moves net n :
  net_ok net -> (n < length (nodes net))%nat -> exists net', pmnet_complete_nodes_nsw net n = Some net' /\ moves net net' (fun _ => 0) /\ scs net' = scs net.
Proof.
  intros Hok Hn. unfold pmnet_complete_nodes_nsw, pmnet_nn_from_num. destruct (lookup_lt_is_Some_2 _ _ Hn) as [nn Hnn]. rewrite Hnn.
  by apply complete_all_moves.
Qed.

Lemma prep_moves net n w :
  net_ok net -> (n < length (nodes net))%nat -> is_Some (nsws net !! w) ->
  exists net' ret, prep_nsw_locked idr_alloc net n w = Some (net', ret) /\ moves net net' (fun _ => 0) /\ ret <= 0.
Proof.
  intros Hok Hn [nsw Hw]. unfold prep_nsw_locked, pmnet_nn_from_num. destruct (lookup_lt_is_Some_2 _ _ Hn) as [nn Hnn].
  rewrite Hnn, Hw. cbn [mbind option_bind]. destruct (Z.leb_spec 0 (idr_alloc (nn_status_idr nn))) as [H0|H0];
    eexists _, _; (split; [done|]); (split; [|lia]); [|by apply moves_refl].
  assert (moves net (set_node net n (set_waiting (<[idr_alloc (nn_status_idr nn) := w]> (nn_status_idr nn))
    (nn_status_list nn ++ [w]) nn)) (fun _ => 0)) as M.
  { apply (moves_set_waiting net n nn); try done. intros v [Hv|Hv]%elem_of_app; [by apply (ok_nsw _ Hok n nn)|].
    apply list_elem_of_singleton in Hv as ->. eauto. }
  eapply moves_then; [exact M|]. apply moves_set_nsw, (mv_ok _ _ _ M).
Qed.

Lemma init_moves net w :
  net_ok net -> is_Some (nsws net !! w) -> exists net', prep_nsw_init net w = Some net' /\ moves net net' (fun _ => 0).
Proof. intros Hok [nsw Hw]. unfold prep_nsw_init. rewrite Hw. eexists. split; [done|]. by apply moves_set_nsw. Qed.

(** The new container of a node, and the thread that brings it. *)
Definition may_set (net : pmnet) (n : nat) (nn : pmnet_node) (sc : option Z) : Prop :=
  match sc with Some p => nn_sc nn = Some p \/ (nn_sc nn = None /\ 0 < rest net p /\ attach n) | None => True end.

Lemma set_nn_state_moves net n nn sc valid err :
  net_ok net -> nodes net !! n = Some nn -> may_set net n nn sc -> (valid = true -> is_Some sc) ->
  exists net', pmnet_set_nn_state net n sc valid err = Some net' /\ moves net net' (fun _ => 0).
Proof.
  intros Hok Hn Hmay Hval. unfold pmnet_set_nn_state, pmnet_nn_from_num. rewrite Hn. cbn [mbind option_bind].
  assert (match sc, nn_sc nn with Some p, Some q => negb (q =? p) | _, _ => false end = false) as ->.
  { destruct sc as [p|]; [|done]. destruct Hmay as [->|(-> & _)]; [|done]. by rewrite Z.eqb_refl. }
  cbv zeta. set (err' := if _ && _ && _ then _ else _). set (nn' := MkNode sc valid err' _ _ _). set (net0 := set_node net n nn').
  set (d := fun q => node_holds q nn - node_holds q nn').
  assert (forall q, 0 <= rest net q + d q) as Hpos.
  { intros q. unfold d, node_holds, nn'. cbn [nn_sc]. pose proof (ok_rest _ Hok q) as Hq. destruct sc as [p|]; cbn in Hmay.
    - destruct Hmay as [->|(-> & Hp & _)]; repeat case_bool_decide; simplify_eq; lia.
    - rewrite (bool_decide_false (None = Some q)) by done. case_bool_decide; lia. }
  assert (moves net net0 d) as M0.
  { apply (moves_set_node net n nn); try done; [intros w Hw; by apply (ok_nsw _ Hok n nn)|]. split; cbn; [|auto].
    destruct sc as [p|]; [|auto]. destruct Hmay as [->|(_ & _ & ?)]; auto. }
  assert (exists net1, (if nn_sc_valid nn && negb valid then pmnet_complete_nodes_nsw net0 n else Some net0) = Some net1
    /\ moves net net1 d /\ scs net1 = scs net) as (net1 & -> & M1 & S1).
  { destruct (nn_sc_valid nn && negb valid); [|by exists net0].
    destruct (complete_nodes_moves net0 n (mv_ok _ _ _ M0)) as (net1 & -> & M1 & S1).
    { unfold net0, set_node. cbn [nodes]. rewrite length_insert. by eapply lookup_lt_Some. }
    exists net1. split_and!; [done|eapply moves_trans; [exact M0|exact M1|intros; cbn; lia]|done]. }
  cbn [mbind option_bind]. pose proof (mv_ok _ _ _ M1) as Hok1.
  destruct (nn_sc nn) as [q|] eqn:Hold; [|destruct sc as [p|]].
  - cbn [mbind option_bind]. case_bool_decide as Hsc.
    + exists net1. split; [done|]. eapply moves_ext; [exact M1|]. intros x. unfold d, node_holds, nn'. cbn [nn_sc].
      rewrite Hold, Hsc. lia.
    + destruct sc as [p|]; [destruct Hmay as [?|(? & _)]; congruence|].
      destruct (queue_work_moves net1 q ShutdownWork Hok1) as (net2 & -> & M2); [rewrite S1; by apply (node_live net n nn)|].
      cbn [mbind option_bind]. pose proof (mv_rest _ _ _ M2 q) as R2. pose proof (mv_rest _ _ _ M1 q) as R1.
      pose proof (ok_rest _ Hok q). unfold d, node_holds, nn' in R1. cbn [nn_sc] in R1. rewrite Hold, bool_decide_true in R1 by done.
      rewrite (bool_decide_false (None = Some q)) in R1 by done. cbn in R1, R2.
      destruct (sc_put_moves net2 q (mv_ok _ _ _ M2)) as (net3 & -> & M3); [lia|]. exists net3. split; [done|].
      eapply moves_trans; [exact M1|eapply moves_then; [exact M2|exact M3]|].
      intros x. unfold d, node_holds, nn', one. cbn [nn_sc]. rewrite Hold, (bool_decide_false (None = Some x)) by done.
      destruct (Z.eqb_spec q x) as [->|]; [rewrite bool_decide_true by done; lia|rewrite bool_decide_false by congruence; lia].
  - destruct Hmay as [?|(_ & Hp & _)]; [congruence|].
    destruct (sc_get_moves net1 p Hok1) as (net2 & -> & M2); [rewrite S1; by apply rest_live|].
    exists net2. split; [done|]. eapply moves_trans; [exact M1|exact M2|]. intros x. unfold d, node_holds, nn', one. cbn [nn_sc].
    rewrite Hold, (bool_decide_false (None = Some x)) by done.
    destruct (Z.eqb_spec p x) as [->|]; [rewrite bool_decide_true by done; lia|rewrite bool_decide_false by congruence; lia].
  - exists net1. split; [done|]. eapply moves_ext; [exact M1|]. intros x. unfold d, node_holds, nn'. cbn [nn_sc]. rewrite Hold. lia.
Qed.

Lemma ensure_shutdown_moves net n p err :
  net_ok net -> (n < length (nodes net))%nat -> exists net', pmnet_ensure_shutdown net n p err = Some net' /\ moves net net' (fun _ => 0).
Proof.
  intros Hok Hn. unfold pmnet_ensure_shutdown, pmnet_nn_from_num. destruct (lookup_lt_is_Some_2 _ _ Hn) as [nn Hnn]. rewrite Hnn.
  cbn [mbind option_bind]. case_bool_decide; [by apply (set_nn_state_moves net n nn)|]. exists net. split; [done|by apply moves_refl].
Qed.

Lemma timeout_moves net n t :
  net_ok net -> (n < length (nodes net))%nat ->
  exists nn nn', nodes net !! n = Some nn /\ set_nn_timeout net n t = Some (set_node net n nn')
    /\ moves net (set_node net n nn') (fun _ => 0) /\ nn_sc nn' = nn_sc nn.
Proof.
  intros Hok Hn. unfold set_nn_timeout, pmnet_nn_from_num. destruct (lookup_lt_is_Some_2 _ _ Hn) as [nn Hnn]. rewrite Hnn.
  exists nn. eexists. split_and!; [done|done| |done].
  apply (moves_set_node net n nn); try done; [intros w Hw; by apply (ok_nsw _ Hok n nn)|
    intros q; pose proof (ok_rest _ Hok q); unfold node_holds; cbn [nn_sc]; lia..|]. split; auto.
Qed.

Lemma set_node_lookup net n nn nn' : nodes net !! n = Some nn -> nodes (set_node net n nn') !! n = Some nn'.
Proof. intros Hn. unfold set_node. cbn [nodes]. apply list_lookup_insert_eq. by eapply lookup_lt_Some. Qed.

Lemma handshake_moves net n p :
  net_ok net -> (n < length (nodes net))%nat -> exists net', handshake_valid net n p = Some net' /\ moves net net' (fun _ => 0).
Proof.
  intros Hok Hn. unfold handshake_valid. destruct (timeout_moves net n 0 Hok Hn) as (nn & nn' & Hnn & Ht & M & Hs).
  unfold pmnet_nn_from_num. rewrite Hnn. cbn [mbind option_bind]. case_bool_decide as Hp; [|exists net; split; [done|by apply moves_refl]].
  rewrite Ht. cbn [mbind option_bind].
  destruct (set_nn_state_moves (set_node net n nn') n nn' (Some p) true 0 (mv_ok _ _ _ M)) as (net2 & H2 & M2);
    [by apply (set_node_lookup net n nn)|left; congruence|done|].
  exists net2. split; [done|by eapply moves_then].
Qed.

Lemma disconnect_moves net :
  net_ok net -> (0 < length (nodes net))%nat -> exists net', pmnet_disconnect_node net = Some net' /\ moves net net' (fun _ => 0).
Proof.
  intros Hok Hn. unfold pmnet_disconnect_node. destruct (timeout_moves net 0 0 Hok Hn) as (nn & nn' & Hnn & Ht & M & Hs).
  rewrite Ht. cbn [mbind option_bind].
  destruct (set_nn_state_moves (set_node net 0 nn') 0 nn' None false (- ENOTCONN) (mv_ok _ _ _ M)) as (net2 & H2 & M2);
    [by apply (set_node_lookup net 0 nn)|done|done|].
  exists net2. split; [done|by eapply moves_then].
Qed.

(** A valid node has a container. *)
Definition valid_ok (net : pmnet) : Prop := forall n nn, nodes net !! n = Some nn -> nn_sc_valid nn = true -> is_Some (nn_sc nn).

Lemma can_proceed_moves net n :
  net_ok net -> valid_ok net -> (n < length (nodes net))%nat ->
  exists net' r, pmnet_tx_can_proceed net n = Some (net', r)
    /\ moves net net' (match r with Some (inr p) => one p 1 | _ => fun _ => 0 end).
Proof.
  intros Hok Hv Hn. unfold pmnet_tx_can_proceed, pmnet_nn_from_num. destruct (lookup_lt_is_Some_2 _ _ Hn) as [nn Hnn]. rewrite Hnn.
  cbn [mbind option_bind]. destruct (negb _); [eexists _, _; split; [done|by apply moves_refl]|].
  destruct (nn_sc_valid nn) eqn:Hval; [|eexists _, _; split; [done|by apply moves_refl]].
  destruct (Hv n nn Hnn Hval) as [p Hp]. rewrite Hp. cbn [mbind option_bind].
  destruct (sc_get_moves net p Hok) as (net1 & -> & M1); [by apply (node_live net n nn)|]. by eexists _, _.
Qed.

End Counting.
End Moves.

(** ** The invariant *)

(** The thread that still has to give the node its container. *)
Definition early (c : pc) : bool := match c with ConnStart _ | ConnNew _ _ | ConnReg _ _ => true | _ => false end.
Definition early_node (c : pc) : option nat := match c with ConnStart n | ConnNew n _ | ConnReg n _ => Some n | _ => None end.

(** The node exists, and the record of a request that waits. *)
Definition pc_ok (net : pmnet) (i : nat) (c : pc) : Prop :=
  match c with
  | ConnStart n | ConnNew n _ | ConnReg n _ | ConnSet n _ | ConnErr n _ => (n < length (nodes net))%nat
  | TxWait n _ _ | TxSc n _ _ _ | TxListed n _ _ | TxReady n _ _ _ | TxSent n _ _ | TxPut n _ _ _ | TxEnd n _ =>
      (n < length (nodes net))%nat /\ is_Some (nsws net !! i)
  | _ => True
  end.

Record inv (st : state) : Prop := {
  i_ok : net_ok (net st);
  i_rest : forall p, rest (net st) p = sumz (holds p) (threads st);
  i_len : length (nodes (net st)) = 2%nat;
  i_valid : valid_ok (net st);
  i_early : forall n nn i c, nodes (net st) !! n = Some nn -> threads st !! i = Some c -> early_node c = Some n -> nn_sc nn = None;
  i_one : forall i j c c', threads st !! i = Some c -> threads st !! j = Some c' -> early c = true -> early c' = true -> i = j;
  i_new : forall i n p sc, threads st !! i = Some (ConnNew n p) -> scs (net st) !! p = Some sc -> sc_user_data sc = false;
  i_pcs : forall i c, threads st !! i = Some c -> pc_ok (net st) i c;
}.

(** The thread that connects a node is done, and the node has no container. *)
Definition connected_once (st : state) (n : nat) : Prop := forall i c, threads st !! i = Some c -> early_node c <> Some n.
Definition no_container (st : state) (n : nat) : Prop := exists nn, nodes (net st) !! n = Some nn /\ nn_sc nn = None.

(** The invariant holds again, and no node gets a second container. *)
Record good (st st' : state) : Prop := {
  gd_inv : inv st';
  gd_once : forall n, connected_once st n -> connected_once st' n;
  gd_gone : forall n, connected_once st n -> no_container st n -> no_container st' n;
}.

Lemma early_spec c : early c = true <-> is_Some (early_node c).
Proof. destruct c; cbn; split; intros H; try done; by destruct H. Qed.

Lemma pc_ok_mono reg attach net net' d i c : moves reg attach net net' d -> pc_ok net i c -> pc_ok net' i c.
Proof. intros M. pose proof (mv_len _ _ _ _ _ M) as Hl. pose proof (mv_nsws _ _ _ _ _ M i). destruct c; cbn; rewrite ?Hl; tauto. Qed.

Lemma holds_live st i c p : inv st -> threads st !! i = Some c -> 1 <= holds p c -> 0 < rest (net st) p.
Proof.
  intros Hinv Hi Hh. rewrite (i_rest _ Hinv). pose proof (sumz_ge (holds p) _ i c (holds_nonneg p) Hi). lia.
Qed.

(** A thread goes on. *)
Lemma inv_thread st i c c' reg attach net' d :
  inv st -> threads st !! i = Some c -> moves reg attach (net st) net' d -> (forall p, d p = holds p c' - holds p c) ->
  (forall n, attach n -> early_node c = Some n /\ early c' = false) ->
  (forall p, reg p -> exists n, c = ConnNew n p) ->
  (early c' = true -> early_node c' = early_node c) -> (forall n p, c' <> ConnNew n p) -> pc_ok net' i c' ->
  good st (MkState net' (<[i := c']> (threads st))).
Proof.
  intros Hinv Hi M Hd Ha Hg He Hn Hpc. pose proof (lookup_lt_Some _ _ _ Hi) as Hlt.
  assert (forall j x, <[i := c']> (threads st) !! j = Some x -> (j = i /\ x = c') \/ (j <> i /\ threads st !! j = Some x)) as Hthr.
  { intros j x Hj. apply list_lookup_insert_Some in Hj as [(<- & <- & _)|[? ?]]; [left|right]; auto. }
  assert (forall p, rest net' p = sumz (holds p) (<[i := c']> (threads st))) as Hrest.
  { intros p. rewrite (mv_rest _ _ _ _ _ M), Hd, (i_rest _ Hinv), (sumz_insert _ _ i c) by done. lia. }
  split; [split|..]; cbn [net threads].
  - apply (mv_ok _ _ _ _ _ M).
  - done.
  - rewrite (mv_len _ _ _ _ _ M). apply (i_len _ Hinv).
  - intros n nn' Hnn Hv. destruct (mv_head _ _ _ _ _ M n nn' Hnn) as (nn & Ho & [_ H2]).
    destruct (H2 Hv) as [|[Hv' Hs]]; [done|]. rewrite Hs. by apply (i_valid _ Hinv n nn).
  - intros n nn' j x Hnn Hj Hx. destruct (mv_head _ _ _ _ _ M n nn' Hnn) as (nn & Ho & [H1 _]).
    destruct (Hthr j x Hj) as [[-> ->]|[Hne Hj']].
    + assert (early c' = true) as Hc by (apply early_spec; eauto). rewrite (He Hc) in Hx.
      pose proof (i_early _ Hinv n nn i c Ho Hi Hx). destruct H1 as [?|[?|Hat]]; [congruence|done|]. destruct (Ha n Hat). congruence.
    + pose proof (i_early _ Hinv n nn j x Ho Hj' Hx). destruct H1 as [?|[?|Hat]]; [congruence|done|]. destruct (Ha n Hat) as [Hc _].
      destruct Hne. apply (i_one _ Hinv j i x c); [done|done|apply early_spec; eauto..].
  - intros j k x y Hj Hk Hx Hy. destruct (Hthr j x Hj) as [[-> ->]|[Hj1 Hj2]], (Hthr k y Hk) as [[-> ->]|[Hk1 Hk2]]; [done|..].
    + apply (i_one _ Hinv i k c y); [done|done| |done]. apply early_spec. rewrite <- He by done. by apply early_spec.
    + apply (i_one _ Hinv j i x c); [done|done|done|]. apply early_spec. rewrite <- He by done. by apply early_spec.
    + by apply (i_one _ Hinv j k x y).
  - intros j n p sc' Hj Hsc. destruct (Hthr j _ Hj) as [[-> Heq]|[Hne Hj']]; [by destruct (Hn n p)|].
    destruct (mv_sc _ _ _ _ _ M p sc' Hsc) as (sc & Ho & _ & Hu). pose proof (i_new _ Hinv j n p sc Hj' Ho) as Hf.
    destruct (sc_user_data sc') eqn:Hu'; [|done]. destruct (Hu eq_refl) as [|Hr]; [congruence|]. destruct (Hg p Hr) as [m ->].
    destruct Hne. by apply (i_one _ Hinv j i _ _ Hj' Hi).
  - intros j x Hj. destruct (Hthr j x Hj) as [[-> ->]|[_ Hj']]; [done|]. eapply pc_ok_mono; eauto using i_pcs.
  - intros n Hall j x Hj Hx. destruct (Hthr j x Hj) as [[-> ->]|[_ Hj']]; [|by apply (Hall j x)].
    apply (Hall i c Hi). rewrite <- He; [done|]. apply early_spec. eauto.
  - intros n Hall (nn & Ho & Hnone). destruct (lookup_lt_is_Some_2 (nodes net') n) as [nn' Hnn'].
    { rewrite (mv_len _ _ _ _ _ M). by eapply lookup_lt_Some. }
    exists nn'. split; [done|]. destruct (mv_head _ _ _ _ _ M n nn' Hnn') as (nn0 & Ho' & [H1 _]).
    destruct H1 as [?|[?|Hat]]; [congruence|done|]. destruct (Ha n Hat) as [Hc _]. by destruct (Hall i c Hi).
Qed.

(** Nothing of the threads changes. *)
Lemma inv_outside st net' :
  inv st -> moves (fun _ => False) (fun _ => False) (net st) net' (fun _ => 0) -> good st (MkState net' (threads st)).
Proof.
  intros [I1 I2 I3 I4 I5 I6 I7 I8] M. split; [split|..]; cbn [net threads]; auto.
  - apply (mv_ok _ _ _ _ _ M).
  - intros p. rewrite (mv_rest _ _ _ _ _ M), I2. lia.
  - by rewrite (mv_len _ _ _ _ _ M).
  - intros n nn' Hnn Hv. destruct (mv_head _ _ _ _ _ M n nn' Hnn) as (nn & Ho & [_ H2]).
    destruct (H2 Hv) as [|[Hv' Hs]]; [done|]. rewrite Hs. by apply (I4 n nn).
  - intros n nn' j x Hnn Hj Hx. destruct (mv_head _ _ _ _ _ M n nn' Hnn) as (nn & Ho & [H1 _]).
    pose proof (I5 n nn j x Ho Hj Hx). destruct H1 as [?|[?|[]]]; congruence.
  - intros j n p sc' Hj Hsc. destruct (mv_sc _ _ _ _ _ M p sc' Hsc) as (sc & Ho & _ & Hu). pose proof (I7 j n p sc Hj Ho).
    destruct (sc_user_data sc'); [|done]. destruct (Hu eq_refl) as [|[]]. congruence.
  - intros j x Hj. eapply pc_ok_mono; eauto.
  - intros n _ (nn & Ho & Hnone). destruct (lookup_lt_is_Some_2 (nodes net') n) as [nn' Hnn'].
    { rewrite (mv_len _ _ _ _ _ M). by eapply lookup_lt_Some. }
    exists nn'. split; [done|]. destruct (mv_head _ _ _ _ _ M n nn' Hnn') as (nn0 & Ho' & [H1 _]).
    destruct H1 as [?|[?|[]]]; congruence.
Qed.

Section Safe.
Context (idr_alloc : gmap Z nat -> Z).

Abbreviation none := (fun _ => False).
Abbreviation moves0 := (moves none none).

(** The usual case: no callback is registered and no node gets a container. *)
Lemma inv_go st i c c' net' d :
  inv st -> threads st !! i = Some c -> moves0 (net st) net' d -> (forall p, d p = holds p c' - holds p c) ->
  (early c' = true -> early_node c' = early_node c) -> (forall n p, c' <> ConnNew n p) -> pc_ok (net st) i c' ->
  exists net'', Some net' = Some net'' /\ good st (MkState net'' (<[i := c']> (threads st))).
Proof.
  intros Hinv Hi M Hd He Hn Hpc. exists net'. split; [done|].
  eapply (inv_thread st i c c' none none); eauto; [tauto|tauto|by eapply pc_ok_mono].
Qed.

Lemma conn_alloc_ok st i n p page page_data :
  inv st -> threads st !! i = Some (ConnStart n) -> scs (net st) !! p = None ->
  good st (MkState (sc_alloc (net st) p n page page_data) (<[i := ConnNew n p]> (threads st))).
Proof.
  intros [I1 I2 I3 I4 I5 I6 I7 I8] Hi Hp. pose proof (I8 i _ Hi) as Hn. cbn in Hn.
  assert (forall j x, <[i := ConnNew n p]> (threads st) !! j = Some x -> (j = i /\ x = ConnNew n p) \/ (j <> i /\ threads st !! j = Some x)) as Hthr.
  { intros j x Hj. apply list_lookup_insert_Some in Hj as [(<- & <- & _)|[? ?]]; [left|right]; auto. }
  assert (forall q, rest (sc_alloc (net st) p n page page_data) q = rest (net st) q + one p 1 q) as Hrest.
  { intros q. unfold rest, sc_alloc, set_sc, one. cbn [scs nodes]. destruct (Z.eqb_spec p q) as [<-|].
    - rewrite lookup_insert_eq, Hp. unfold self_holds. cbn. lia.
    - rewrite lookup_insert_ne by done. lia. }
  destruct I1 as [O1 O2 O3 O4 O5].
  assert (forall q, 0 <= rest (sc_alloc (net st) p n page page_data) q) as Hpos.
  { intros q. rewrite Hrest. specialize (O4 q). unfold one. case_match; lia. }
  assert (forall j x, threads st !! j = Some x -> early x = true -> j = i) as Honly by (intros j x Hj Hx; by apply (I6 j i x (ConnStart n) Hj Hi)).
  split; [split; [split|..]|..]; unfold sc_alloc, set_sc in *; cbn [net threads scs nodes nsws] in *; try done.
  - intros q sc. rewrite lookup_insert_Some. intros [[_ <-]|[_ ?]]; [done|eauto].
  - intros q sc. rewrite lookup_insert_Some. intros [[_ <-]|[_ ?]]; [apply NoDup_nil_2|eauto].
  - intros q sc. rewrite lookup_insert_Some. intros [[_ <-]|[_ ?]]; [done|eauto].
  - intros q. rewrite Hrest, I2, (sumz_insert _ _ i (ConnStart n)) by done. unfold one. cbn. case_match; lia.
  - intros m nn j x Hm Hj Hx. destruct (Hthr j x Hj) as [[-> ->]|[_ Hj']]; [|by eapply I5].
    injection Hx as <-. by eapply (I5 n nn i).
  - intros j k x y Hj Hk Hx Hy. destruct (Hthr j x Hj) as [[-> ->]|[Hj1 Hj2]], (Hthr k y Hk) as [[-> ->]|[Hk1 Hk2]]; [done|..].
    + symmetry. by apply (Honly k y).
    + by apply (Honly j x).
    + rewrite (Honly j x), (Honly k y); done.
  - intros j m q sc Hj. destruct (Hthr j _ Hj) as [[-> [= -> ->]]|[Hne Hj']]; [rewrite lookup_insert_eq; by intros [= <-]|].
    destruct Hne. by apply (Honly j _ Hj').
  - intros j x Hj. destruct (Hthr j x Hj) as [[-> ->]|[_ Hj']]; [done|]. by apply I8 in Hj'.
  - intros m Hall j x Hj Hx. destruct (Hthr j x Hj) as [[-> ->]|[_ Hj']]; [|by apply (Hall j x)]. by apply (Hall i _ Hi).
Qed.

Lemma register_ok st i n p :
  inv st -> threads st !! i = Some (ConnNew n p) ->
  exists net', pmnet_register_callbacks (net st) p = Some net' /\ good st (MkState net' (<[i := ConnReg n p]> (threads st))).
Proof.
  intros Hinv Hi. pose proof (holds_live st i _ p Hinv Hi) as Hr. cbn in Hr. rewrite Z.eqb_refl in Hr.
  destruct (rest_live (net st) p) as [sc Hsc]; [lia|].
  destruct (register_moves (.= p) (fun _ => False) (net st) p sc eq_refl (i_ok _ Hinv)) as (net' & Hg & M);
    [lia|done|by apply (i_new _ Hinv i n p)|].
  exists net'. split; [done|]. apply (inv_thread st i (ConnNew n p) _ (.= p) (fun _ => False) _ _ Hinv Hi M); try done.
  - intros q. cbn. case_match; lia.
  - intros q ->. by exists n.
  - eapply pc_ok_mono; [exact M|]. by apply (i_pcs _ Hinv i (ConnNew n p)).
Qed.

Lemma set_state_ok st i n p :
  inv st -> threads st !! i = Some (ConnReg n p) ->
  exists net', pmnet_set_nn_state (net st) n (Some p) false 0 = Some net' /\ good st (MkState net' (<[i := ConnSet n p]> (threads st))).
Proof.
  intros Hinv Hi. pose proof (holds_live st i _ p Hinv Hi) as Hr. cbn in Hr. rewrite Z.eqb_refl in Hr.
  pose proof (i_pcs _ Hinv i _ Hi) as Hn. cbn in Hn. destruct (lookup_lt_is_Some_2 _ _ Hn) as [nn Hnn].
  destruct (set_nn_state_moves (fun _ => False) (.= n) (net st) n nn (Some p) false 0 (i_ok _ Hinv) Hnn) as (net' & Hs & M); [|done|].
  { right. split_and!; [by apply (i_early _ Hinv n nn i (ConnReg n p))|lia|done]. }
  exists net'. split; [done|]. apply (inv_thread st i (ConnReg n p) _ (fun _ => False) (.= n) _ _ Hinv Hi M); try done.
  - intros q. cbn. case_match; lia.
  - intros m ->. done.
  - by eapply pc_ok_mono; [exact M|].
Qed.

(** What the receiving work does to a node. *)
Lemma rx_moves net0 n p o :
  net_ok net0 -> (n < length (nodes net0))%nat -> rx_action n p net0 o -> exists net', o = Some net' /\ moves0 net0 net' (fun _ => 0).
Proof.
  intros Hok Hn Hrx. inversion Hrx as [? id sys st|? id sys st page| |? err|? sc rx Hsc]; subst.
  - by apply (complete_by_id_moves _ _ net0 n None []).
  - by apply (complete_by_id_moves _ _ net0 n None page).
  - by apply handshake_moves.
  - by apply ensure_shutdown_moves.
  - eexists. split; [done|]. eapply moves_ext.
    + apply (moves_set_sc _ _ net0 p sc (set_rx rx sc) 0); cbn; try done; try (by left).
      * by apply (ok_kref _ Hok p).
      * by apply (ok_queued _ Hok p).
      * unfold self_holds. cbn. lia.
      * pose proof (ok_rest _ Hok p). lia.
    + intros q. by rewrite one_zero.
Qed.

Ltac settle :=
  first [ by intros ?; cbn; unfold one; repeat case_match; lia | done | by cbn in *; tauto ].
Ltac go M := eapply inv_go; [done|done|exact M|settle|settle|settle|settle].
(** [use L]: the operation returns, by [L], with the moves it states. *)
Ltac use L := let net' := fresh "net'" in let E := fresh "E" in let M := fresh "M" in
  destruct L as (net' & E & M); rewrite ?E; [first [go M]].

(** The only results that are not there: a status that is not one of [enum pmnet_system_error]. *)
Lemma tx_result_None nsw status : tx_result nsw status = None -> ~ 0 <= ns_sys_status nsw < PMNET_ERR_MAX.
Proof.
  unfold tx_result, pmnet_sys_err_to_errno, PMNET_ERR_MAX. destruct nsw as [sys ns id pg]. cbn [ns_sys_status ns_status ns_page].
  intros E Hs. assert (sys = 0 \/ sys = 1 \/ sys = 2 \/ sys = 3) as [-> | [-> | [-> | ->]]] by lia; done.
Qed.

(** The two ways a thread can stop in a crash. *)
Definition bad_status (st : state) (i : nat) (c : pc) : Prop :=
  exists n status p nsw, c = TxSent n status p /\ pmnet_nsw_completed (net st) n i = Some true
    /\ nsws (net st) !! i = Some nsw /\ ~ 0 <= ns_sys_status nsw < PMNET_ERR_MAX.
Definition overrun (st : state) (c : pc) : Prop :=
  exists p sc k, c = Reading p /\ scs (net st) !! p = Some sc /\ (length (sc_page_data (sc_rx sc)) < sc_page_data_off (sc_rx sc) + k)%nat.

Lemma exec_ok st i c o c' :
  inv st -> threads st !! i = Some c -> exec idr_alloc i (net st) c o c' ->
  (o = None /\ (bad_status st i c \/ overrun st c)) \/ exists net', o = Some net' /\ good st (MkState net' (<[i := c']> (threads st))).
Proof.
  intros Hinv Hi He. pose proof (i_ok _ Hinv) as Hok. pose proof (i_pcs _ Hinv i c Hi) as Hpc.
  pose proof (moves_refl none none (net st) Hok) as M0.
  assert (forall p, 1 <= holds p c -> 0 < rest (net st) p) as Hlive by (intros p; by apply (holds_live st i)).
  assert (forall p, 1 <= holds p c -> is_Some (scs (net st) !! p)) as Hsc by (intros p Hh; by apply rest_live, Hlive).
  inversion He; subst; cbn [pc_ok holds] in *;
    try (left; split; [reflexivity|first [right; by eexists _, _, _ | left; eexists _, _, _, _; split_and!; eauto using tx_result_None; done]]);
    right; try (go M0);
    try (assert (0 < rest (net st) p) as Hp by (apply Hlive; rewrite Z.eqb_refl; lia); destruct (rest_live _ _ Hp) as [sc0 Hsc0]).
  - eexists. split; [done|by apply conn_alloc_ok].
  - by apply register_ok.
  - by apply set_state_ok.
  - use (ensure_shutdown_moves none none (net st) n p 0 Hok Hpc).
  - use (rx_moves (net st) (sc_node sc) p o Hok (ok_node _ Hok p sc H) H0).
  - rewrite Hsc0. cbn [mbind option_bind]. use (ensure_shutdown_moves none none (net st) (sc_node sc0) p 0 Hok (ok_node _ Hok p sc0 Hsc0)).
  - destruct (unregister_moves none none (net st) p sc0 Hok Hsc0) as (net2 & E & M).
    rewrite H in E. injection E as -> E. rewrite <- E in M. go M.
  - destruct (unregister_moves none none (net st) p sc0 Hok Hsc0) as (net2 & E & M).
    rewrite H in E. injection E as -> E. rewrite <- E in M. go M.
  - destruct (unregister_moves none none (net st) p sc0 Hok Hsc0) as (net2 & E & M). congruence.
  - use (cancel_moves none none (net st) p KeepaliveWork Hok (mk_is_Some _ _ Hsc0)).
  - use (sc_put_moves none none (net st) p Hok Hp).
  - rewrite Hsc0. cbn [mbind option_bind]. use (ensure_shutdown_moves none none (net st) (sc_node sc0) p 0 Hok (ok_node _ Hok p sc0 Hsc0)).
  - use (sc_put_moves none none (net st) p Hok Hp).
  - destruct (can_proceed_moves none none (net st) n Hok (i_valid _ Hinv)) as (net2 & r & E & M); [tauto|].
    rewrite H in E. injection E as -> <-. destruct waits; go M.
  - destruct (can_proceed_moves none none (net st) n Hok (i_valid _ Hinv)) as (net2 & r & E & M); [tauto|].
    rewrite H in E. injection E as -> <-. go M.
  - destruct (can_proceed_moves none none (net st) n Hok (i_valid _ Hinv)) as (net2 & r & E & M); [tauto|]. congruence.
  - destruct (prep_moves none none idr_alloc (net st) n i Hok) as (net2 & r & E & M & _); [tauto..|].
    rewrite H in E. injection E as -> <-. go M.
  - destruct (prep_moves none none idr_alloc (net st) n i Hok) as (net2 & r & E & M & _); [tauto..|].
    rewrite H in E. injection E as -> <-. go M.
  - destruct (prep_moves none none idr_alloc (net st) n i Hok) as (net2 & r & E & M & _); [tauto..|]. congruence.
  - use (init_moves none none (net st) i Hok (proj2 Hpc)).
  - use (sc_put_moves none none (net st) p Hok Hp).
  - use (sc_put_moves none none (net st) p Hok Hp).
  - destruct (complete_by_id_moves none none (net st) n (Some i) [] 0 0 0 Hok) as [(net2 & E & M) _]; [tauto|]. rewrite E. go M.
Qed.

Lemma outside_ok st o : inv st -> outside st o -> exists st', o = Some st' /\ good st st'.
Proof.
  intros Hinv Ho. pose proof (i_ok _ Hinv) as Hok. inversion Ho as [? p sc w Hp _ _|? p sc w i Hp Hw Hi|? i n waits status Hi Hn|]; subst.
  - destruct (queue_work_moves none none (net st) p w Hok (mk_is_Some _ _ Hp)) as (net' & -> & M). eexists. split; [done|by apply inv_outside].
  - pose proof (unqueue_moves none none (net st) p sc w Hok Hp Hw) as M.
    destruct (inv_go st i Idle (work_pc w p) _ _ Hinv Hi M) as (net' & [= <-] & ?); [destruct w; settle..|eauto].
  - eexists. split; [done|].
    apply (inv_thread st i Idle _ none none _ _ Hinv Hi (moves_set_nsw none none (net st) i (MkNsw 0 0 0 None) Hok)); try settle.
    cbn. rewrite lookup_insert_eq. eauto.
  - destruct (disconnect_moves none none (net st) Hok) as (net' & -> & M); [rewrite (i_len _ Hinv); lia|].
    eexists. split; [done|by apply inv_outside].
Qed.

Lemma init_inv k : inv (init_state k).
Proof.
  assert (forall i c, threads (init_state k) !! i = Some c -> (i = 0%nat /\ c = ConnStart 0) \/ c = Idle) as Hthr.
  { intros [|i] c; cbn; [intros [= <-]; by left|]. intros [-> _]%lookup_replicate. by right. }
  assert (forall n nn, nodes (net (init_state k)) !! n = Some nn -> nn_sc nn = None /\ nn_sc_valid nn = false /\ nn_status_list nn = []) as Hnodes.
  { intros [|[|n]] nn; cbn; [by intros [= <-]..|done]. }
  assert (forall p, rest (net (init_state k)) p = 0) as Hrest.
  { intros p. unfold rest, node_holds. cbn. by rewrite !bool_decide_false. }
  split; [split|..]; try (intros ? ? Hp; cbn in Hp; by rewrite lookup_empty in Hp).
  - intros p. by rewrite Hrest.
  - intros n nn w Hn Hw. destruct (Hnodes n nn Hn) as (_ & _ & He). rewrite He in Hw. by apply not_elem_of_nil in Hw.
  - intros p. rewrite Hrest. cbn. clear. induction k as [|k IH]; [done|]. cbn. lia.
  - done.
  - intros n nn Hn. destruct (Hnodes n nn Hn) as (_ & -> & _). done.
  - intros n nn i c Hn _ _. by destruct (Hnodes n nn Hn).
  - intros i j c c' Hi Hj. destruct (Hthr i c Hi) as [[-> ->]| ->], (Hthr j c' Hj) as [[-> ->]| ->]; done.
  - intros i n p sc Hi. by destruct (Hthr i _ Hi) as [[_ ?]|?].
  - intros i c Hi. destruct (Hthr i c Hi) as [[-> ->]| ->]; cbn; [lia|done].
Qed.

Lemma step_cases st o :
  inv st -> step idr_alloc st o ->
  (o = None /\ exists i c, threads st !! i = Some c /\ (bad_status st i c \/ overrun st c)) \/ exists st', o = Some st' /\ good st st'.
Proof.
  intros Hinv Hs. inversion Hs as [? i c o' c' Hi He|? ? Ho]; subst; [|right; by apply (outside_ok st)].
  destruct (exec_ok st i c o' c' Hinv Hi He) as [[-> Hc]|(net' & -> & Hinv')]; [left|right]; eauto 6.
Qed.

Lemma step_ok st st' : inv st -> step idr_alloc st (Some st') -> good st st'.
Proof. intros Hinv Hs. by destruct (step_cases st _ Hinv Hs) as [[? _]|(? & [= <-] & ?)]. Qed.

Lemma reachable_inv k st : reachable idr_alloc k st -> inv st.
Proof. induction 1 as [|st st' _ IH Hs]; [apply init_inv|]. apply (gd_inv _ _ (step_ok st st' IH Hs)). Qed.


(** Runs of any length. *)
Definition later (st st' : state) : Prop := rtc (fun a b => step idr_alloc a (Some b)) st st'.

Lemma later_reachable k st st' : reachable idr_alloc k st -> later st st' -> reachable idr_alloc k st'.
Proof. intros Hr. induction 1 as [|a b c Hs _ IH]; [done|]. apply IH. by apply (reach_step _ _ a). Qed.

(** A node that has lost its container, or never got one because the connect failed, is
    never connected again: whatever happens later, a transmission to it returns an error
    or waits, and does not get a container. *)
Theorem pmnet_never_reconnects k st st' n :
  reachable idr_alloc k st -> connected_once st n -> no_container st n -> later st st' ->
  no_container st' n /\ exists r, pmnet_tx_can_proceed (net st') n = Some (net st', r) /\ forall p, r <> Some (inr p).
Proof.
  intros Hr Honce Hno Hl.
  assert (reachable idr_alloc k st' /\ connected_once st' n /\ no_container st' n) as (Hr' & _ & Hno').
  { revert Hr Honce Hno. induction Hl as [|a b c Hs _ IH]; intros Hr Honce Hno; [done|].
    destruct (step_ok a _ (reachable_inv k a Hr) Hs) as [Gi Go Gg]. apply IH; auto. by apply (reach_step _ _ a). }
  split; [done|]. destruct Hno' as (nn & Hnn & Hsc). pose proof (i_valid _ (reachable_inv k st' Hr') n nn Hnn) as Hv.
  unfold pmnet_tx_can_proceed, pmnet_nn_from_num. rewrite Hnn. cbn [mbind option_bind]. rewrite Hsc in *.
  destruct (negb _); [by eexists|]. destruct (nn_sc_valid nn); [by destruct (Hv eq_refl)|by eexists].
Qed.

End Safe.
