(* ===== verification/PmWait.v ===== *)
(** * Requests of the TCP client and their replies (client/tcp_style/tcp.c)

    A request that waits is on the list of its node and has a number; the reply
    names the number.  In every run the list, the numbers and the threads agree
    ([waits_inv]), so that a reply wakes the request it answers and no other; when
    the connection is lost all requests on the list are woken.  A request that is
    put on the list afterwards is not: it waits for ever. *)

From S2P Require Import Prelude PmNode.

(** [idr_alloc] gives numbers that are not in use, and fit an [int]. *)
Class IdrSpec (idr_alloc : gmap Z nat -> Z) : Prop := {
  idr_fresh : forall m, 0 <= idr_alloc m -> m !! idr_alloc m = None;
  idr_bound : forall m, idr_alloc m <= INT_MAX;
}.

(** The requests of a node: on the list once, and numbered. *)
Record node_waits (net : pmnet) (nn : pmnet_node) : Prop := {
  nw_nodup : NoDup (nn_status_list nn);
  nw_idr : forall id w, nn_status_idr nn !! id = Some w <->
    w ∈ nn_status_list nn /\ exists nsw, nsws net !! w = Some nsw /\ ns_id nsw = id;
  nw_bound : forall id w, nn_status_idr nn !! id = Some w -> 0 <= id <= INT_MAX;
}.

(** A request that is on no list. *)
Definition unlisted (net : pmnet) (w : nat) : Prop := forall n nn, nodes net !! n = Some nn -> w ∉ nn_status_list nn.

Section Narrows.
Context {own : nat -> Prop}.

(** [net'] has no requests on its lists that [net] did not have, and the records of those
    that are on no list are the same, except the thread's own. *)
Record narrows (net net' : pmnet) : Prop := {
  nr_waits : forall n nn', nodes net' !! n = Some nn' -> node_waits net' nn';
  nr_list : forall n nn', nodes net' !! n = Some nn' ->
    exists nn, nodes net !! n = Some nn /\ nn_status_list nn' ⊆ nn_status_list nn;
  nr_frame : forall w, ~ own w -> unlisted net w -> nsws net' !! w = nsws net !! w;
}.

Lemma narrows_unlisted net net' w : narrows net net' -> unlisted net w -> unlisted net' w.
Proof. intros N Hu n nn' Hn Hw. destruct (nr_list _ _ N n nn' Hn) as (nn & Hnn & Hsub). by apply (Hu n nn Hnn), Hsub. Qed.

Definition nodes_wait (net : pmnet) : Prop := forall n nn, nodes net !! n = Some nn -> node_waits net nn.

Lemma narrows_refl net : nodes_wait net -> narrows net net.
Proof. intros Hw. split; [done|eauto|done]. Qed.

Lemma narrows_trans net1 net2 net3 : narrows net1 net2 -> narrows net2 net3 -> narrows net1 net3.
Proof.
  intros N [B1 B2 B3]. pose proof N as [_ A C]. split; [done|..].
  - intros n nn3 H3. destruct (B2 n nn3 H3) as (nn2 & H2 & ?). destruct (A n nn2 H2) as (nn1 & ? & ?). exists nn1. split; [done|]. set_solver.
  - intros w Ho Hu. rewrite B3, C; [done..|]. by eapply narrows_unlisted.
Qed.

(** Only containers change, or what is not about requests. *)
Lemma narrows_same net net' :
  nodes_wait net -> nsws net' = nsws net ->
  (forall n nn', nodes net' !! n = Some nn' -> exists nn, nodes net !! n = Some nn
     /\ nn_status_list nn' = nn_status_list nn /\ nn_status_idr nn' = nn_status_idr nn) ->
  narrows net net'.
Proof.
  intros Hw Hs Hn. split; [..|intros; by rewrite Hs];
    intros n nn' Hnn'; destruct (Hn n nn' Hnn') as (nn & Hnn & Hl & Hi); [|exists nn; split; [done|by rewrite Hl]].
  destruct (Hw n nn Hnn) as [W1 W2 W3]. split; rewrite ?Hl, ?Hi, ?Hs; done.
Qed.

Lemma narrows_sc net net' : nodes_wait net -> nsws net' = nsws net -> nodes net' = nodes net -> narrows net net'.
Proof. intros Hw Hs Hn. apply narrows_same; [done|done|]. rewrite Hn. eauto. Qed.

(** The operations on containers leave nodes and requests as they are. *)
Definition sc_only (net net' : pmnet) : Prop := nodes net' = nodes net /\ nsws net' = nsws net.

Lemma sc_get_only net p net' : sc_get net p = Some net' -> sc_only net net'.
Proof. unfold sc_get. intros H. inv_bind H s0 E. by injection H as <-. Qed.
Lemma sc_put_only net p net' : sc_put net p = Some net' -> sc_only net net'.
Proof. unfold sc_put. intros H. inv_bind H s0 E. injection H as <-. by case_match. Qed.
Lemma queue_only net p w net' : pmnet_sc_queue_work net p w = Some net' -> sc_only net net'.
Proof.
  unfold pmnet_sc_queue_work. intros H. inv_bind H net1 E1. inv_bind H s0 E. destruct (sc_get_only _ _ _ E1) as [A1 A2].
  case_bool_decide; [destruct (sc_put_only _ _ _ H) as [B1 B2]|injection H as <-]; split; cbn; congruence.
Qed.
Lemma cancel_only net p w net' : pmnet_sc_cancel_delayed_work net p w = Some net' -> sc_only net net'.
Proof.
  unfold pmnet_sc_cancel_delayed_work. intros H. inv_bind H s0 E.
  case_bool_decide; [apply sc_put_only in H as [B1 B2]; split; cbn in *; congruence|by injection H as <-].
Qed.
Lemma register_only net p net' : pmnet_register_callbacks net p = Some net' -> sc_only net net'.
Proof.
  unfold pmnet_register_callbacks. intros H. inv_bind H s0 E. destruct (sc_user_data s0); [done|].
  apply sc_get_only in H as [B1 B2]. by split.
Qed.
Lemma unregister_only net p net' b : pmnet_unregister_callbacks net p = Some (net', b) -> sc_only net net'.
Proof. unfold pmnet_unregister_callbacks. intros H. inv_bind H s0 E. by case_match; injection H as <- _. Qed.

Lemma narrows_only net net' : nodes_wait net -> sc_only net net' -> narrows net net'.
Proof. intros Hw [? ?]. by apply narrows_sc. Qed.

(** A node changes, but not its requests. *)
Lemma narrows_set_node net n nn nn' :
  nodes_wait net -> nodes net !! n = Some nn -> nn_status_list nn' = nn_status_list nn -> nn_status_idr nn' = nn_status_idr nn ->
  narrows net (set_node net n nn').
Proof.
  intros Hw Hn Hl Hi. apply narrows_same; [done|done|]. intros m mm Hm. cbn in Hm.
  apply list_lookup_insert_Some in Hm as [(<- & <- & _)|[_ Hm]]; eauto.
Qed.

(** A request is completed. *)
Lemma complete_narrows net n w page sys st net' :
  nodes_wait net -> complete_nsw_locked net n w page sys st = Some net' -> narrows net net'.
Proof.
  intros Hw H. unfold complete_nsw_locked, pmnet_nn_from_num in H. inv_bind H nn Hn. case_bool_decide as Hin;
    [|injection H as <-; by apply narrows_refl]. inv_bind H nsw Hnsw. injection H as <-.
  assert (forall v nsw', <[w := MkNsw sys st (ns_id nsw) (match page with Some _ => page | None => ns_page nsw end)]> (nsws net) !! v = Some nsw' ->
    exists nsw0, nsws net !! v = Some nsw0 /\ ns_id nsw0 = ns_id nsw') as Hback.
  { intros v nsw'. rewrite lookup_insert_Some. intros [[<- <-]|[_ ?]]; eauto. }
  assert (forall v nsw0, nsws net !! v = Some nsw0 ->
    exists nsw', <[w := MkNsw sys st (ns_id nsw) (match page with Some _ => page | None => ns_page nsw end)]> (nsws net) !! v = Some nsw' /\ ns_id nsw' = ns_id nsw0) as Hforth.
  { intros v nsw0 Hv. destruct (decide (v = w)) as [->|]; [rewrite lookup_insert_eq; eexists; split; [done|]; cbn; congruence|].
    rewrite lookup_insert_ne by done. eauto. }
  split; cbn [nodes set_nsw set_node nsws]; [..|intros v _ Hv; apply lookup_insert_ne; intros <-; by apply (Hv n nn)];
    intros m mm Hm; apply list_lookup_insert_Some in Hm as [(<- & <- & _)|[Hne Hm]].
  - destruct (Hw n nn Hn) as [W1 W2 W3]. split; cbn [nn_status_list nn_status_idr set_waiting nsws].
    + by apply NoDup_filter.
    + intros id v. rewrite lookup_delete_Some, W2, list_elem_of_filter. split.
      * intros (Hid & Hv & nsw0 & Hv0 & Hi0). split; [split; [intros ->; congruence|done]|].
        destruct (Hforth v nsw0 Hv0) as (nsw' & ? & ?). exists nsw'. split; [done|congruence].
      * intros ((Hvw & Hv) & nsw' & Hv' & Hi'). destruct (Hback v nsw' Hv') as (nsw0 & ? & ?). split; [|split; [done|exists nsw0; split; [done|congruence]]].
        intros Hid. assert (nn_status_idr nn !! id = Some v) as E1 by (apply W2; split; [done|]; exists nsw0; split; [done|congruence]).
        assert (nn_status_idr nn !! id = Some w) as E2 by (apply W2; split; [done|]; exists nsw; split; congruence). congruence.
    + intros id v. rewrite lookup_delete_Some. intros [_ ?]. eauto.
  - destruct (Hw m mm Hm) as [W1 W2 W3]. split; cbn [nsws]; [done| |done]. intros id v. rewrite W2. split; intros (Hv & nsw0 & H0 & Hi0); (split; [done|]).
    + destruct (Hforth v nsw0 H0) as (nsw' & ? & ?). exists nsw'. split; [done|congruence].
    + destruct (Hback v nsw0 H0) as (nsw' & ? & ?). exists nsw'. split; [done|congruence].
  - exists nn. split; [done|]. cbn. intros v Hv. by apply list_elem_of_filter in Hv as [_ ?].
  - eauto.
Qed.

Lemma narrows_nodes_wait net net' : narrows net net' -> nodes_wait net'.
Proof. intros [H _ _]. exact H. Qed.

Lemma complete_all_narrows n ws : forall net net', nodes_wait net ->
  foldM (fun net w => pmnet_complete_nsw_locked net n w PMNET_ERR_DIED 0) ws net = Some net' -> narrows net net'.
Proof.
  induction ws as [|w ws IH]; intros net net' Hw H; cbn [foldM] in H; [injection H as <-; by apply narrows_refl|].
  inv_bind H net1 H1. apply complete_narrows in H1 as N1; [|done].
  eapply narrows_trans; [exact N1|]. apply IH; [by eapply narrows_nodes_wait|done].
Qed.

Lemma set_nn_state_narrows net n sc valid err net' :
  nodes_wait net -> pmnet_set_nn_state net n sc valid err = Some net' -> narrows net net'.
Proof.
  intros Hw H. unfold pmnet_set_nn_state, pmnet_nn_from_num in H. inv_bind H nn Hn.
  destruct (match sc with Some p => _ | None => false end); [done|]. cbv zeta in H. set (net0 := set_node net n _) in H.
  assert (narrows net net0) as N0 by (by apply (narrows_set_node net n nn)). clearbody net0.
  inv_bind H net1 H1. assert (narrows net0 net1) as N1.
  { destruct (_ && _); [|injection H1 as <-; apply narrows_refl; by eapply narrows_nodes_wait].
    unfold pmnet_complete_nodes_nsw in H1. inv_bind H1 nn1 E1. eapply complete_all_narrows; [by eapply narrows_nodes_wait|done]. }
  inv_bind H net2 H2. assert (sc_only net1 net2) as S2.
  { destruct (nn_sc nn), sc; try (by injection H2 as <-). by eapply sc_get_only. }
  eapply narrows_trans; [exact N0|]. eapply narrows_trans; [exact N1|]. apply narrows_only; [by eapply narrows_nodes_wait|].
  destruct S2 as [A1 A2]. destruct (nn_sc nn) as [q|]; [|by injection H as <-]. case_bool_decide; [by injection H as <-|].
  inv_bind H net3 H3. apply queue_only in H3 as [B1 B2]. apply sc_put_only in H as [C1 C2]. split; congruence.
Qed.

Lemma ensure_shutdown_narrows net n p err net' :
  nodes_wait net -> pmnet_ensure_shutdown net n p err = Some net' -> narrows net net'.
Proof.
  intros Hw H. unfold pmnet_ensure_shutdown in H. inv_bind H nn Hn.
  case_bool_decide; [by eapply set_nn_state_narrows|injection H as <-; by apply narrows_refl].
Qed.

Lemma timeout_narrows net n t net' : nodes_wait net -> set_nn_timeout net n t = Some net' -> narrows net net'.
Proof. intros Hw H. unfold set_nn_timeout in H. inv_bind H nn Hn. injection H as <-. by apply (narrows_set_node net n nn). Qed.

Lemma handshake_narrows net n p net' : nodes_wait net -> handshake_valid net n p = Some net' -> narrows net net'.
Proof.
  intros Hw H. unfold handshake_valid in H. inv_bind H nn Hn. case_bool_decide; [|injection H as <-; by apply narrows_refl].
  inv_bind H net1 H1. apply timeout_narrows in H1 as N1; [|done]. eapply narrows_trans; [exact N1|].
  eapply set_nn_state_narrows; [by eapply narrows_nodes_wait|done].
Qed.

Lemma disconnect_narrows net net' : nodes_wait net -> pmnet_disconnect_node net = Some net' -> narrows net net'.
Proof.
  intros Hw H. unfold pmnet_disconnect_node in H. inv_bind H net1 H1. apply timeout_narrows in H1 as N1; [|done].
  eapply narrows_trans; [exact N1|]. eapply set_nn_state_narrows; [by eapply narrows_nodes_wait|done].
Qed.

Lemma complete_by_id_narrows net n nsw id sys st net' :
  nodes_wait net -> pmnet_complete_nsw net n nsw id sys st = Some net' -> narrows net net'.
Proof.
  intros Hw H. unfold pmnet_complete_nsw in H. inv_bind H nn Hn.
  destruct (find_nsw nn nsw id); [by eapply complete_narrows|injection H as <-; by apply narrows_refl].
Qed.

Lemma complete_page_narrows net n nsw page id sys st net' :
  nodes_wait net -> pmnet_complete_nsw_with_page net n nsw page id sys st = Some net' -> narrows net net'.
Proof.
  intros Hw H. unfold pmnet_complete_nsw_with_page in H. inv_bind H nn Hn.
  destruct (find_nsw nn nsw id); [by eapply complete_narrows|injection H as <-; by apply narrows_refl].
Qed.

Lemma can_proceed_narrows net n net' r : nodes_wait net -> pmnet_tx_can_proceed net n = Some (net', r) -> narrows net net'.
Proof.
  intros Hw H. unfold pmnet_tx_can_proceed in H. inv_bind H nn Hn. destruct (negb _); [injection H as <- _; by apply narrows_refl|].
  destruct (nn_sc_valid nn); [|injection H as <- _; by apply narrows_refl]. inv_bind H p Hp. inv_bind H net1 H1. injection H as <- _.
  apply narrows_only; [done|by eapply sc_get_only].
Qed.

(** The record of a request changes, but not its number. *)
Lemma narrows_set_nsw net w nsw nsw' :
  own w -> nodes_wait net -> nsws net !! w = Some nsw -> ns_id nsw' = ns_id nsw -> narrows net (set_nsw net w nsw').
Proof.
  intros Ho Hw Hn Hid. split; cbn; [|eauto|intros v Hv _; apply lookup_insert_ne; by intros <-]. intros n nn Hnn. destruct (Hw n nn Hnn) as [W1 W2 W3]. split; [done| |done].
  intros id v. rewrite W2. cbn. destruct (decide (v = w)) as [->|Hne].
  - rewrite lookup_insert_eq. split; intros (Hv & x & Hx & E); (split; [done|]); [exists nsw'|exists nsw]; (split; [done|]); congruence.
  - by rewrite lookup_insert_ne by done.
Qed.

Lemma rx_narrows net n p o net' : nodes_wait net -> rx_action n p net o -> o = Some net' -> narrows net net'.
Proof.
  intros Hw Hrx E. destruct Hrx as [net id sys st|net id sys st page|net|net err|net s0 rx Hsc].
  - by eapply complete_by_id_narrows.
  - by eapply complete_page_narrows.
  - by eapply handshake_narrows.
  - by eapply ensure_shutdown_narrows.
  - injection E as <-. by apply narrows_sc.
Qed.

End Narrows.
Arguments narrows own net net' : clear implicits.

(** ** The threads that are on a list *)

Definition listed (n : nat) (c : pc) : bool :=
  match c with
  | TxListed m _ _ | TxReady m true _ _ | TxSent m _ _ | TxPut m true _ _ | TxEnd m _ => bool_decide (m = n)
  | _ => false
  end.

Record waits_inv (st : state) : Prop := {
  wi_nodes : nodes_wait (net st);
  wi_thread : forall n nn w, nodes (net st) !! n = Some nn -> w ∈ nn_status_list nn ->
    exists c, threads st !! w = Some c /\ listed n c = true;
}.

Lemma waits_narrow own st i c c' net' :
  waits_inv st -> threads st !! i = Some c -> narrows own (net st) net' -> (forall n, listed n c = true -> listed n c' = true) ->
  waits_inv (MkState net' (<[i := c']> (threads st))).
Proof.
  intros [W1 W2] Hi [N1 N2 _] Hl. split; cbn [net threads]; [done|]. intros n nn' w Hn Hw. destruct (N2 n nn' Hn) as (nn & Hnn & Hsub).
  destruct (W2 n nn w Hnn (Hsub w Hw)) as (x & Hx & Hlx). destruct (decide (w = i)) as [->|Hne].
  - exists c'. rewrite list_lookup_insert_eq by (by eapply lookup_lt_Some). split; [done|]. apply Hl. congruence.
  - exists x. by rewrite list_lookup_insert_ne by done.
Qed.

Lemma waits_outside own st net' : waits_inv st -> narrows own (net st) net' -> waits_inv (MkState net' (threads st)).
Proof.
  intros [W1 W2] [N1 N2 _]. split; cbn [net threads]; [done|]. intros n nn' w Hn Hw. destruct (N2 n nn' Hn) as (nn & Hnn & Hsub). eauto.
Qed.

(** A thread that is at no listed place is on no list. *)
Lemma not_listed st i c n nn :
  waits_inv st -> threads st !! i = Some c -> (forall m, listed m c = false) -> nodes (net st) !! n = Some nn -> i ∉ nn_status_list nn.
Proof.
  intros Hw Hi Hl Hn Hin. destruct (wi_thread _ Hw n nn i Hn Hin) as (x & Hx & Hlx). specialize (Hl n). congruence.
Qed.

Section Waits.
Context (idr_alloc : gmap Z nat -> Z) `{!IdrSpec idr_alloc}.

(** The number of an unlisted request may change. *)
Lemma unlisted_nsw net w nsw :
  nodes_wait net -> (forall n nn, nodes net !! n = Some nn -> w ∉ nn_status_list nn) -> nodes_wait (set_nsw net w nsw).
Proof.
  intros Hw Hno n nn Hnn. cbn in Hnn. destruct (Hw n nn Hnn) as [W1 W2 W3]. split; [done| |done]. intros id v. rewrite W2. cbn.
  split; intros (Hv & x & Hx & E); (split; [done|]); exists x; (split; [|done]); destruct (decide (v = w)) as [->|Hne];
    try (by destruct (Hno n nn Hnn)); [by rewrite lookup_insert_ne|by rewrite lookup_insert_ne in Hx].
Qed.

Lemma prep_waits st i n status p net' :
  waits_inv st -> threads st !! i = Some (TxSc n true status p) -> prep_nsw_locked idr_alloc (net st) n i = Some (net', 0) ->
  waits_inv (MkState net' (<[i := TxListed n status p]> (threads st))).
Proof.
  intros Hw Hi H. assert (forall m nn, nodes (net st) !! m = Some nn -> i ∉ nn_status_list nn) as Hno.
  { intros m nn. by apply (not_listed st i (TxSc n true status p)). }
  destruct Hw as [W1 W2]. unfold prep_nsw_locked, pmnet_nn_from_num in H. inv_bind H nn Hn. inv_bind H nsw Hnsw.
  set (id := idr_alloc (nn_status_idr nn)) in *. destruct (Z.leb_spec 0 id) as [Hid|]; [|injection H; lia]. injection H as <-.
  pose proof (idr_fresh (nn_status_idr nn) Hid) as Hf. fold id in Hf. pose proof (idr_bound (nn_status_idr nn)) as Hb. fold id in Hb.
  pose proof (unlisted_nsw (net st) i (MkNsw (ns_sys_status nsw) (ns_status nsw) id (ns_page nsw)) W1 Hno) as W1'.
  split; cbn [net threads nodes set_nsw set_node].
  - intros m mm Hm. apply list_lookup_insert_Some in Hm as [(<- & <- & _)|[_ Hm]]; [|destruct (W1' m mm Hm); by split].
    destruct (W1' n nn Hn) as [V1 V2 V3]. cbn in V2. split; cbn [nn_status_list nn_status_idr set_waiting nsws set_nsw set_node].
    + apply NoDup_app. split_and!; [done| |apply NoDup_singleton]. intros v Hv ->%list_elem_of_singleton. by apply (Hno n nn).
    + intros id' v. rewrite lookup_insert_Some, elem_of_app, list_elem_of_singleton. split.
      * intros [[<- <-]|[Hne Hv]]; [split; [by right|]; eexists; split; [by rewrite lookup_insert_eq|done]|].
        apply V2 in Hv as (Hv & ?). split; [by left|done].
      * intros ([Hv| ->] & x & Hx & E); [right|left].
        -- assert (nn_status_idr nn !! id' = Some v) as Hl by (apply V2; eauto). split; [congruence|done].
        -- rewrite lookup_insert_eq in Hx. injection Hx as <-. done.
    + intros id' v. rewrite lookup_insert_Some. intros [[<- _]|[_ ?]]; [lia|eauto].
  - intros m mm w Hm Hin. pose proof (lookup_lt_Some _ _ _ Hi) as Hlt.
    destruct (decide (w = i)) as [->|Hne].
    + eexists. split; [by rewrite list_lookup_insert_eq|]. cbn. apply bool_decide_eq_true_2.
      apply list_lookup_insert_Some in Hm as [(-> & _)|[_ Hm]]; [done|]. by destruct (Hno m mm).
    + rewrite list_lookup_insert_ne by done. apply list_lookup_insert_Some in Hm as [(<- & <- & _)|[_ Hm]]; [|by apply (W2 m mm)].
      cbn in Hin. apply elem_of_app in Hin as [Hin|Hin]; [by apply (W2 n nn)|]. by apply list_elem_of_singleton in Hin.
Qed.

Lemma end_waits st i n r net' :
  waits_inv st -> threads st !! i = Some (TxEnd n r) -> pmnet_complete_nsw (net st) n (Some i) 0 0 0 = Some net' ->
  waits_inv (MkState net' (<[i := TxDone r]> (threads st))).
Proof.
  intros Hw Hi H. pose proof (complete_by_id_narrows (own := fun _ => True) _ _ _ _ _ _ _ (wi_nodes _ Hw) H) as [N1 N2 _].
  split; cbn [net threads]; [done|]. intros m mm w Hm Hin. destruct (N2 m mm Hm) as (mm0 & Hm0 & Hsub).
  destruct (wi_thread _ Hw m mm0 w Hm0 (Hsub w Hin)) as (c & Hc & Hlc).
  destruct (decide (w = i)) as [->|Hne]; [|exists c; by rewrite list_lookup_insert_ne].
  exfalso. rewrite Hi in Hc. injection Hc as <-. cbn in Hlc. apply bool_decide_eq_true_1 in Hlc as ->.
  unfold pmnet_complete_nsw, pmnet_nn_from_num in H. rewrite Hm0 in H. cbn [mbind option_bind find_nsw] in H.
  unfold pmnet_complete_nsw_locked, complete_nsw_locked, pmnet_nn_from_num in H. rewrite Hm0 in H. cbn [mbind option_bind] in H.
  rewrite bool_decide_true in H by (by apply Hsub). inv_bind H nsw Hnsw. injection H as <-. cbn in Hm.
  rewrite list_lookup_insert_eq in Hm by (by eapply lookup_lt_Some). injection Hm as <-. cbn in Hin.
  by apply list_elem_of_filter in Hin as [? _].
Qed.

(** A region of a thread puts its own request on a list, or narrows the lists. *)
Lemma exec_narrows i net0 c o c' net' :
  nodes_wait net0 -> exec idr_alloc i net0 c o c' -> o = Some net' ->
  narrows (.= i) net0 net' \/ exists n status p, c = TxSc n true status p /\ c' = TxListed n status p
    /\ prep_nsw_locked idr_alloc net0 n i = Some (net', 0).
Proof.
  intros Hn He. pose proof (narrows_refl (own := (.= i)) _ Hn) as N0.
  destruct He; intros Ho; try discriminate Ho; try injection Ho as <-; first [right; by eauto 6|left; exact N0|left].
  all: first
    [ by apply narrows_sc
    | by eauto using narrows_only, sc_put_only, cancel_only, register_only, unregister_only
    | by eauto using set_nn_state_narrows, ensure_shutdown_narrows, rx_narrows, can_proceed_narrows, complete_by_id_narrows
    | idtac ].
  - inv_bind Ho s0 Hs0. by eapply ensure_shutdown_narrows.
  - inv_bind Ho s0 Hs0. by eapply ensure_shutdown_narrows.
  - unfold prep_nsw_locked in *. match goal with Hp : _ = Some (_, ret) |- _ => inv_bind Hp nn Hnn; inv_bind Hp nsw Hnsw end.
    case_match; simplify_eq; [lia|done].
  - unfold prep_nsw_init in Ho. inv_bind Ho nsw Hnsw. injection Ho as <-. by apply (narrows_set_nsw _ _ nsw).
Qed.

Lemma exec_waits st i c o c' net' :
  waits_inv st -> threads st !! i = Some c -> exec idr_alloc i (net st) c o c' -> o = Some net' ->
  waits_inv (MkState net' (<[i := c']> (threads st))).
Proof.
  intros Hw Hi He Ho. destruct (exec_narrows i _ _ _ _ _ (wi_nodes _ Hw) He Ho) as [N|(n & status & p & -> & -> & Hp)]; [|by eapply prep_waits].
  assert ((forall n, listed n c = true -> listed n c' = true) \/ exists n r, c = TxEnd n r /\ c' = TxDone r /\ pmnet_complete_nsw (net st) n (Some i) 0 0 0 = Some net') as Hl.
  { remember (net st) as net0. destruct He; simplify_eq; cbn; eauto 6; left; intros m; repeat case_match; done. }
  destruct Hl as [Hl|(n & r & -> & -> & H)]; [by eapply waits_narrow|by eapply end_waits].
Qed.

Lemma step_waits st st' : waits_inv st -> step idr_alloc st (Some st') -> waits_inv st'.
Proof.
  intros Hw Hs. remember (Some st') as o eqn:E. destruct Hs as [st i c o c' Hi He|st o Ho]; pose proof (wi_nodes _ Hw) as Hn.
  - destruct o as [net'|]; [|done]. injection E as <-. by eapply exec_waits.
  - destruct Ho as [st p s0 w Hp _ _|st p s0 w i Hp Hq Hi|st i n waits status Hi _|st]; try injection E as <-.
    + destruct (pmnet_sc_queue_work _ _ _) as [net'|] eqn:Hq; [|done]. injection E as <-.
      apply (waits_outside (fun _ => True)); [done|]. apply narrows_only; [done|by eapply queue_only].
    + apply (waits_narrow (fun _ => True) st i Idle); [done|done|by apply narrows_sc|done].
    + split; cbn [net threads].
      * apply unlisted_nsw; [done|]. intros m mm. by apply (not_listed st i Idle).
      * intros m mm w Hm Hin. destruct (wi_thread _ Hw m mm w Hm Hin) as (c & Hc & Hl). destruct (decide (w = i)) as [->|Hne].
        -- rewrite Hi in Hc. by injection Hc as <-.
        -- exists c. by rewrite list_lookup_insert_ne.
    + destruct (pmnet_disconnect_node _) as [net'|] eqn:Hd; [|done]. injection E as <-.
      apply (waits_outside (fun _ => True)); [done|by apply disconnect_narrows].
Qed.

Lemma init_waits k : waits_inv (init_state k).
Proof.
  assert (forall n nn, nodes (net (init_state k)) !! n = Some nn -> nn_status_idr nn = ∅ /\ nn_status_list nn = []) as Hnodes.
  { intros [|[|n]] nn; cbn; [by intros [= <-]..|done]. }
  split.
  - intros n nn Hn. destruct (Hnodes n nn Hn) as [E1 E2]. split; rewrite ?E1, ?E2; [apply NoDup_nil_2| |].
    + intros id w. rewrite lookup_empty. split; [done|]. intros [H _]. by apply not_elem_of_nil in H.
    + intros id w. by rewrite lookup_empty.
  - intros n nn w Hn Hw. destruct (Hnodes n nn Hn) as [_ E2]. rewrite E2 in Hw. by apply not_elem_of_nil in Hw.
Qed.

Lemma reachable_waits k st : reachable idr_alloc k st -> waits_inv st.
Proof. induction 1 as [|st st' _ IH Hs]; [apply init_waits|by eapply step_waits]. Qed.

(** ** Replies *)

Lemma completed_spec net n w b :
  pmnet_nsw_completed net n w = Some b <-> exists nn, nodes net !! n = Some nn /\ b = negb (bool_decide (w ∈ nn_status_list nn)).
Proof.
  unfold pmnet_nsw_completed, pmnet_nn_from_num. destruct (nodes net !! n) as [nn|]; cbn [mbind option_bind].
  - split; [intros [= <-]; eauto|]. by intros (? & [= <-] & ->).
  - split; [done|]. by intros (? & ? & _).
Qed.

(** What it does to the others when a request is completed: nothing. *)
Lemma complete_others net n nn w nsw page sys st :
  nodes net !! n = Some nn -> w ∈ nn_status_list nn -> nsws net !! w = Some nsw ->
  exists net', complete_nsw_locked net n w page sys st = Some net'
    /\ nsws net' = <[w := MkNsw sys st (ns_id nsw) (match page with Some _ => page | None => ns_page nsw end)]> (nsws net)
    /\ nodes net' = <[n := set_waiting (delete (ns_id nsw) (nn_status_idr nn)) (filter (.≠ w) (nn_status_list nn)) nn]> (nodes net)
    /\ pmnet_nsw_completed net' n w = Some true
    /\ forall j m, j <> w -> pmnet_nsw_completed net' m j = pmnet_nsw_completed net m j.
Proof.
  intros Hn Hw Hnsw. pose proof (lookup_lt_Some _ _ _ Hn) as Hlt. unfold complete_nsw_locked, pmnet_nn_from_num. rewrite Hn.
  cbn [mbind option_bind]. rewrite bool_decide_true by done. rewrite Hnsw. eexists. split_and!; [done|done|done|..].
  - apply completed_spec. cbn. rewrite list_lookup_insert_eq by done. eexists. split; [done|]. cbn.
    rewrite bool_decide_false; [done|]. intros H. by apply list_elem_of_filter in H as [? _].
  - intros j m Hj. unfold pmnet_nsw_completed, pmnet_nn_from_num. cbn [nodes set_nsw set_node]. destruct (decide (m = n)) as [->|Hm].
    + rewrite list_lookup_insert_eq, Hn by done. cbn. f_equal. f_equal. apply bool_decide_ext. rewrite list_elem_of_filter. tauto.
    + by rewrite list_lookup_insert_ne.
Qed.

(** C17: In every run, a reply that carries the number of a request which was sent and waits, and a
    page, wakes that request and no other; if its status is good the caller gets this page. *)
Theorem pmnet_reply_routed k st i n status p nsw page sys stt :
  reachable idr_alloc k st -> threads st !! i = Some (TxSent n status p) -> nsws (net st) !! i = Some nsw ->
  pmnet_nsw_completed (net st) n i = Some false ->
  exists net', pmnet_complete_nsw_with_page (net st) n None page (ns_id nsw) sys stt = Some net'
    /\ pmnet_nsw_completed net' n i = Some true
    /\ (exists nsw', nsws net' !! i = Some nsw' /\ (sys = 0 -> stt <> -1 -> tx_result nsw' status = Some (MkReply 0 stt (Some page))))
    /\ forall j, j <> i -> nsws net' !! j = nsws (net st) !! j
         /\ forall m, pmnet_nsw_completed net' m j = pmnet_nsw_completed (net st) m j.
Proof.
  intros Hr Hi Hnsw Hc. pose proof (reachable_waits k st Hr) as Hw. apply completed_spec in Hc as (nn & Hn & Hb).
  destruct (bool_decide_reflect (i ∈ nn_status_list nn)) as [Hin|]; [|done].
  destruct (wi_nodes _ Hw n nn Hn) as [_ W2 W3].
  assert (nn_status_idr nn !! ns_id nsw = Some i) as Hidr by (apply W2; eauto). pose proof (W3 _ _ Hidr) as Hb'.
  destruct (complete_others (net st) n nn i nsw (Some page) sys stt Hn Hin Hnsw) as (net' & Hcomp & Hns & _ & Hdone & Hoth).
  exists net'. unfold pmnet_complete_nsw_with_page, pmnet_nn_from_num. rewrite Hn. cbn [mbind option_bind find_nsw].
  destruct (Z.ltb_spec INT_MAX (ns_id nsw)); [lia|]. rewrite Hidr. split_and!; [done|done|..].
  - rewrite Hns, lookup_insert_eq. eexists. split; [done|]. intros -> Hs. unfold tx_result. cbn [ns_sys_status ns_status ns_page].
    change (pmnet_sys_err_to_errno 0) with (Some 0). cbn [mbind option_bind]. rewrite Z.eqb_refl.
    by rewrite (proj2 (Z.eqb_neq stt (-1))).
  - intros j Hj. rewrite Hns, lookup_insert_ne by done. split; [done|]. intros m. by apply Hoth.
Qed.

(** ** The loss of a connection *)

Lemma complete_all_lost n ws : forall net nn,
  nodes net !! n = Some nn -> (forall w, w ∈ nn_status_list nn -> is_Some (nsws net !! w)) ->
  exists net' nn', foldM (fun net w => pmnet_complete_nsw_locked net n w PMNET_ERR_DIED 0) ws net = Some net'
    /\ nodes net' !! n = Some nn' /\ (forall w, w ∈ nn_status_list nn' <-> w ∈ nn_status_list nn /\ w ∉ ws)
    /\ (forall w, w ∈ ws -> w ∈ nn_status_list nn -> exists nsw, nsws net' !! w = Some nsw /\ ns_sys_status nsw = PMNET_ERR_DIED)
    /\ (forall w, (w ∉ ws \/ w ∉ nn_status_list nn) -> nsws net' !! w = nsws net !! w).
Proof.
  induction ws as [|v ws IH]; intros net nn Hn Hs; cbn [foldM].
  { exists net, nn. split_and!; try done; [|by intros w ?%not_elem_of_nil]. intros w. split; [|tauto]. intros ?. split; [done|apply not_elem_of_nil]. }
  destruct (decide (v ∈ nn_status_list nn)) as [Hv|Hv].
  - destruct (Hs v Hv) as [nsw Hnsw].
    destruct (complete_others net n nn v nsw None PMNET_ERR_DIED 0 Hn Hv Hnsw) as (net1 & E & Hns & Hnd & _ & _).
    assert (pmnet_complete_nsw_locked net n v PMNET_ERR_DIED 0 = Some net1) as -> by done. cbn [mbind option_bind].
    set (nn1 := set_waiting _ _ nn) in Hnd. assert (nodes net1 !! n = Some nn1) as Hn1.
    { rewrite Hnd. apply list_lookup_insert_eq. by eapply lookup_lt_Some. }
    assert (forall w, w ∈ nn_status_list nn1 <-> w <> v /\ w ∈ nn_status_list nn) as Hl1
      by (intros w; unfold nn1; cbn [nn_status_list set_waiting]; by rewrite list_elem_of_filter).
    destruct (IH net1 nn1 Hn1) as (net' & nn' & E' & Hn' & A & B & C).
    { intros w Hw. apply Hl1 in Hw as [Hne Hw]. rewrite Hns, lookup_insert_ne by done. auto. }
    exists net', nn'. split_and!; [done|done|..].
    + intros w. rewrite A, Hl1, not_elem_of_cons. tauto.
    + intros w Hw Hin. destruct (decide (w = v)) as [->|Hne].
      * rewrite C by (right; rewrite Hl1; tauto). rewrite Hns, lookup_insert_eq. by eexists.
      * apply B; [apply elem_of_cons in Hw as [|]; [done|done]|]. by apply Hl1.
    + intros w Hw. destruct (decide (w = v)) as [->|Hne].
      * destruct Hw as [Hw|Hw]; [destruct Hw; by left|done].
      * rewrite C; [by rewrite Hns, lookup_insert_ne|]. rewrite not_elem_of_cons in Hw. rewrite Hl1. tauto.
  - assert (pmnet_complete_nsw_locked net n v PMNET_ERR_DIED 0 = Some net) as ->.
    { unfold pmnet_complete_nsw_locked, complete_nsw_locked, pmnet_nn_from_num. rewrite Hn. cbn [mbind option_bind].
      by rewrite bool_decide_false. }
    cbn [mbind option_bind]. destruct (IH net nn Hn Hs) as (net' & nn' & E' & Hn' & A & B & C).
    exists net', nn'. split_and!; [done|done|..].
    + intros w. rewrite A, not_elem_of_cons. split; [|tauto]. intros [? ?]. split_and!; [done| |done]. by intros ->.
    + intros w Hw Hin. apply B; [|done]. by apply elem_of_cons in Hw as [->|].
    + intros w Hw. apply C. rewrite not_elem_of_cons in Hw. destruct (decide (w ∈ ws)); [right|by left]. destruct Hw as [[]|]; done.
Qed.

(** Any steps of the others, until the thread [w] goes on. *)
Definition until (w : nat) : relation state := rtc (fun a b => step idr_alloc a (Some b) /\ threads b !! w = threads a !! w).

(** A request that was sent and is on no list is nobody else's business. *)
Lemma step_unlisted st st' w n status p :
  waits_inv st -> step idr_alloc st (Some st') -> threads st !! w = Some (TxSent n status p) -> threads st' !! w = threads st !! w ->
  unlisted (net st) w -> unlisted (net st') w /\ nsws (net st') !! w = nsws (net st) !! w.
Proof.
  intros Hw Hs Ht Ht' Hu. pose proof (wi_nodes _ Hw) as Hn.
  assert (forall own net', narrows own (net st) net' -> ~ own w -> unlisted net' w /\ nsws net' !! w = nsws (net st) !! w) as Hnar.
  { intros own net' N Ho. split; [by eapply narrows_unlisted|by apply (nr_frame _ _ N)]. }
  remember (Some st') as o eqn:E. destruct Hs as [st i c o c' Hi He|st o Ho].
  - destruct o as [net'|]; [|done]. injection E as <-. cbn [net threads] in *.
    assert (w <> i) as Hne.
    { intros ->. rewrite Ht in Hi. injection Hi as <-. rewrite Ht, list_lookup_insert_eq in Ht' by (by eapply lookup_lt_Some). inversion He; simplify_eq. }
    destruct (exec_narrows i _ _ _ _ _ Hn He eq_refl) as [N|(m & status' & q & -> & -> & Hp)]; [by apply (Hnar _ _ N)|].
    unfold prep_nsw_locked, pmnet_nn_from_num in Hp. inv_bind Hp nn Hnn. inv_bind Hp nsw Hnsw. case_match; [|simplify_eq; lia].
    injection Hp as <-. cbn [nsws nodes set_nsw set_node]. split; [|by apply lookup_insert_ne].
    intros m' mm Hm. apply list_lookup_insert_Some in Hm as [(<- & <- & _)|[_ Hm]]; [|by apply (Hu m')]. cbn.
    rewrite elem_of_app, list_elem_of_singleton. intros [?|?]; [by apply (Hu m nn)|done].
  - destruct Ho as [st q s0 v Hp _ _|st q s0 v i Hp Hq Hi|st i m waits status' Hi _|st]; try injection E as <-; cbn [net threads] in *.
    + destruct (pmnet_sc_queue_work _ _ _) as [net'|] eqn:Hq; [|done]. injection E as <-. destruct (queue_only _ _ _ _ Hq) as [E1 E2].
      cbn [net]. unfold unlisted. by rewrite E1, E2.
    + done.
    + split; [done|]. apply lookup_insert_ne. intros ->. congruence.
    + destruct (pmnet_disconnect_node _) as [net'|] eqn:Hd; [|done]. injection E as <-.
      apply (Hnar (fun _ => False)); [by apply disconnect_narrows|tauto].
Qed.

Lemma until_unlisted w n status p st st' :
  until w st st' -> waits_inv st -> threads st !! w = Some (TxSent n status p) -> unlisted (net st) w ->
  unlisted (net st') w /\ nsws (net st') !! w = nsws (net st) !! w.
Proof.
  induction 1 as [|a b c [Hs Ht] _ IH]; intros Hw Hi Hu; [done|].
  destruct (step_unlisted a b w n status p Hw Hs Hi Ht Hu) as [Hu' Hn]. destruct IH as [? ?]; [by eapply step_waits|congruence|done|]. split; [done|congruence].
Qed.

Lemma until_inv w st st' : until w st st' -> inv st -> inv st'.
Proof. induction 1 as [|a b c [Hs _] _ IH]; [done|]. intros Hi. apply IH, (gd_inv _ _ (step_ok idr_alloc a b Hi Hs)). Qed.

(** The requests of a lost connection: off the list, and with the status of a node that died. *)
Lemma loss_records k st n nn err :
  reachable idr_alloc k st -> nodes (net st) !! n = Some nn -> nn_sc_valid nn = true ->
  exists net' nn', pmnet_set_nn_state (net st) n None false err = Some net' /\ nodes net' !! n = Some nn' /\ nn_status_list nn' = []
    /\ forall w, w ∈ nn_status_list nn -> exists nsw, nsws net' !! w = Some nsw /\ ns_sys_status nsw = PMNET_ERR_DIED.
Proof.
  intros Hr Hn Hv. pose proof (reachable_inv idr_alloc k st Hr) as Hinv. pose proof (i_ok _ Hinv) as Hok.
  destruct (set_nn_state_moves (fun _ => False) (fun _ => False) (net st) n nn None false err Hok Hn) as (net' & Hset & _); [done|done|].
  exists net'. rewrite Hset. unfold pmnet_set_nn_state, pmnet_nn_from_num in Hset. rewrite Hn in Hset. cbn [mbind option_bind] in Hset.
  rewrite Hv in Hset. cbn [andb negb] in Hset. set (net0 := set_node (net st) n _) in Hset. inv_bind Hset net1 H1.
  unfold pmnet_complete_nodes_nsw, pmnet_nn_from_num in H1. inv_bind H1 nn0 Hn0.
  assert (nn_status_list nn0 = nn_status_list nn) as Hl0.
  { unfold net0, set_node in Hn0. cbn in Hn0. rewrite list_lookup_insert_eq in Hn0 by (by eapply lookup_lt_Some). by injection Hn0 as <-. }
  destruct (complete_all_lost n (nn_status_list nn0) net0 nn0 Hn0) as (net1' & nn1 & E1 & Hn1 & Hlist & Hdied & _).
  { intros w Hw. rewrite Hl0 in Hw. by apply (ok_nsw _ Hok n nn). }
  rewrite E1 in H1. injection H1 as ->. inv_bind Hset net2 H2.
  assert (sc_only net1 net') as [S1 S2].
  { assert (net2 = net1) as -> by (destruct (nn_sc nn); congruence). destruct (nn_sc nn) as [q|]; [|by injection Hset as <-].
    rewrite bool_decide_false in Hset by done. inv_bind Hset net3 H3. apply queue_only in H3 as [? ?]. apply sc_put_only in Hset as [? ?].
    split; congruence. }
  assert (nn_status_list nn1 = []) as Hnil.
  { destruct (nn_status_list nn1) as [|x l] eqn:Hx; [done|]. destruct (proj1 (Hlist x)) as [? []]; [rewrite ?Hx; left|]. done. }
  exists nn1. split_and!; [done|by rewrite S1|done|]. intros w Hw.
  rewrite <- Hl0 in Hw. rewrite S2. by apply Hdied.
Qed.


End Waits.

(** ** Runs

    The numbers are given out from below, as the kernel does. *)

Definition lowest (m : gmap Z nat) : Z :=
  match List.filter (fun i => bool_decide (m !! i = None)) (Z.of_nat <$> seq 0 (S (size m))) with
  | i :: _ => if i <=? INT_MAX then i else -28
  | [] => -28
  end.

#[local] Instance lowest_spec : IdrSpec lowest.
Proof.
  split; intros m; unfold lowest; destruct (List.filter _ _) as [|i l] eqn:Hf; try (unfold INT_MAX; lia).
  - destruct (Z.leb_spec i INT_MAX); [|unfold INT_MAX; lia]. intros _.
    assert (List.In i (List.filter (fun i => bool_decide (m !! i = None)) (Z.of_nat <$> seq 0 (S (size m))))) as Hi by (rewrite Hf; by left).
    apply filter_In in Hi as [_ Hi]. by apply bool_decide_eq_true_1 in Hi.
  - destruct (Z.leb_spec i INT_MAX); [done|unfold INT_MAX; lia].
Qed.

Module PmDemo.

Definition present {A} (o : option A) : bool := match o with Some _ => true | None => false end.

(** A step of thread [i] with operation [o], and the state after it. *)
Definition after (st : state) (i : nat) (c' : pc) (o : option pmnet) : state := MkState (default (net st) o) (<[i := c']> (threads st)).

Lemma run_step k st i c c' o :
  reachable lowest k st -> threads st !! i = Some c -> exec lowest i (net st) c o c' -> present o = true ->
  reachable lowest k (after st i c' o).
Proof.
  intros Hr Hi He Ho. destruct o as [net'|]; [|done]. apply (reach_step _ _ st); [done|]. exact (step_thread _ st i c (Some net') c' Hi He).
Qed.

(** A work item of a container starts in thread [i]. *)
Definition sc_of (net : pmnet) (p : Z) : sock_container := default (MkSc 0 0 false [] (MkRx false [] 0 [] 0)) (scs net !! p).
Definition start_work (st : state) (p : Z) (w : work) (i : nat) : state :=
  MkState (set_sc (net st) p (set_queued (filter (.≠ w) (sc_queued (sc_of (net st) p))) (sc_of (net st) p))) (<[i := work_pc w p]> (threads st)).

Lemma work_runs k st p w i :
  reachable lowest k st -> present (scs (net st) !! p) = true -> bool_decide (w ∈ sc_queued (sc_of (net st) p)) = true ->
  threads st !! i = Some Idle -> reachable lowest k (start_work st p w i).
Proof.
  intros Hr Hp Hw%bool_decide_eq_true_1 Hi. apply (reach_step _ _ st); [done|]. apply step_outside, dispatch; [|done|done].
  unfold sc_of. by destruct (scs (net st) !! p).
Qed.

Definition s0 : state := init_state 2.
Definition s1 := after s0 0 (ConnNew 0 1) (Some (sc_alloc (net s0) 1 0 [] (Some []))).
Definition s2 := after s1 0 (ConnReg 0 1) (pmnet_register_callbacks (net s1) 1).
Definition s3 := after s2 0 (ConnSet 0 1) (pmnet_set_nn_state (net s2) 0 (Some 1) false 0).
Definition s4 := after s3 0 (WorkPut 1) (Some (net s3)).
Definition s5 := after s4 0 Idle (sc_put (net s4) 1).
(** Data arrive, and the handshake with them. *)
Definition s6 := MkState (default (net s5) (pmnet_sc_queue_work (net s5) 1 RxWork)) (threads s5).
Definition s7 := start_work s6 1 RxWork 0.
Definition s8 := after s7 0 (Reading 1) (handshake_valid (net s7) 0 1).
(** A request is put on the list. *)
Definition s9 := MkState (set_nsw (net s8) 1 (MkNsw 0 0 0 None)) (<[1%nat := TxWait 0 true 7]> (threads s8)).
Definition s10 := after s9 1 (TxSc 0 true 7 1) (fst <$> pmnet_tx_can_proceed (net s9) 0).
Definition s11 := after s10 1 (TxListed 0 7 1) (fst <$> prep_nsw_locked lowest (net s10) 0 1).

Lemma s5_runs : reachable lowest 2 s5.
Proof.
  apply (run_step 2 s4 0 (WorkPut 1)); [|done|apply work_put|by vm_compute].
  apply (run_step 2 s3 0 (ConnSet 0 1)); [|done|apply conn_ok|by vm_compute].
  apply (run_step 2 s2 0 (ConnReg 0 1)); [|done|apply conn_state|by vm_compute].
  apply (run_step 2 s1 0 (ConnNew 0 1)); [|done|apply conn_register|by vm_compute].
  apply (run_step 2 s0 0 (ConnStart 0)); [apply reach_init|done|by apply conn_alloc|by vm_compute].
Qed.

Lemma s8_runs : reachable lowest 2 s8.
Proof.
  apply (run_step 2 s7 0 (Reading 1)); [|done| |by vm_compute].
  - apply (work_runs 2 s6 1 RxWork 0); [|by vm_compute|by vm_compute|done]. apply (reach_step _ _ s5); [apply s5_runs|].
    apply step_outside. by apply (callback s5 1 (sc_of (net s5) 1) RxWork); vm_compute.
  - apply (read_some _ _ _ _ (sc_of (net s7) 1)); [by vm_compute|]. apply rx_handshake.
Qed.

Lemma s10_runs : reachable lowest 2 s10.
Proof.
  apply (run_step 2 s9 1 (TxWait 0 true 7)); [|done| |by vm_compute].
  - apply (reach_step _ _ s8); [apply s8_runs|]. apply step_outside. apply (call s8 1 0 true 7); [done|]. vm_compute. lia.
  - apply (tx_proceed _ _ (net s9) (net s10) 0 true 7 1). by vm_compute.
Qed.

Lemma s11_runs : reachable lowest 2 s11.
Proof.
  apply (run_step 2 s10 1 (TxSc 0 true 7 1)); [apply s10_runs|done| |by vm_compute].
  apply (tx_prep _ _ (net s10) (net s11) 0 7 1). by vm_compute.
Qed.

Lemma cut_runs st :
  reachable lowest 2 st -> present (pmnet_disconnect_node (net st)) = true ->
  reachable lowest 2 (MkState (default (net st) (pmnet_disconnect_node (net st))) (threads st)).
Proof.
  intros Hr Hp. destruct (pmnet_disconnect_node (net st)) as [net'|] eqn:Hd; [|done]. apply (reach_step _ _ st); [done|]. apply step_outside. pose proof (disconnect st) as H. by rewrite Hd in *.
Qed.

(** The connection is lost between the two parts of [pmnet_prep_nsw]: the second one overwrites
    the error, and the caller gets 0 and status 0 without a page. *)
Definition s12 := MkState (default (net s11) (pmnet_disconnect_node (net s11))) (threads s11).
Definition s13 := after s12 1 (TxReady 0 true 7 1) (prep_nsw_init (net s12) 1).
Definition s14 := after s13 1 (TxSent 0 7 1) (Some (net s13)).
Definition s15 := after s14 1 (TxPut 0 true (MkReply 0 0 None) 1) (Some (net s14)).

Example lost_connection_reported_as_success :
  reachable lowest 2 s15 /\ threads s15 !! 1%nat = Some (TxPut 0 true (MkReply 0 0 None) 1)
  /\ (nn_sc <$> nodes (net s15) !! 0%nat) = Some None.
Proof.
  split; [|by vm_compute]. apply (run_step 2 s14 1 (TxSent 0 7 1)); [|done| |by vm_compute].
  - apply (run_step 2 s13 1 (TxReady 0 true 7 1)); [|done|apply tx_sent|by vm_compute].
    apply (run_step 2 s12 1 (TxListed 0 7 1)); [|done|apply tx_init|by vm_compute].
    apply cut_runs; [apply s11_runs|by vm_compute].
  - apply (tx_woken _ _ _ 0 7 1 (MkNsw 0 0 0 None)); by vm_compute.
Qed.

(** The connection is lost between [pmnet_tx_can_proceed] and [pmnet_prep_nsw]: the request comes
    on the list when nobody will complete it any more. *)
Definition h0 := MkState (default (net s10) (pmnet_disconnect_node (net s10))) (threads s10).
Definition h1 := after h0 1 (TxListed 0 7 1) (fst <$> prep_nsw_locked lowest (net h0) 0 1).
Definition h2 := after h1 1 (TxReady 0 true 7 1) (prep_nsw_init (net h1) 1).
Definition h3 := after h2 1 (TxSent 0 7 1) (Some (net h2)).
Definition h4 := start_work h3 1 ShutdownWork 2.
Definition h5 := after h4 2 (ShutCancel 1) (fst <$> pmnet_unregister_callbacks (net h4) 1).
Definition h6 := after h5 2 (ShutPut 1) (pmnet_sc_cancel_delayed_work (net h5) 1 KeepaliveWork).
Definition h7 := after h6 2 (ShutNode 1) (sc_put (net h6) 1).
Definition h8 := after h7 2 (WorkPut 1) (sc ← scs (net h7) !! 1; pmnet_ensure_shutdown (net h7) (sc_node sc) 1 0).
Definition h9 := after h8 2 Idle (sc_put (net h8) 1).
Definition h10 := after h9 0 (WorkPut 1) (Some (net h9)).
Definition h11 := after h10 0 Idle (sc_put (net h10) 1).

Example request_after_loss_waits :
  reachable lowest 2 h11 /\ threads h11 = [Idle; TxSent 0 7 1; Idle]
  /\ pmnet_nsw_completed (net h11) 0 1 = Some false /\ (nn_sc <$> nodes (net h11) !! 0%nat) = Some None
  /\ ((fun s => (sc_kref s, sc_user_data s, sc_queued s)) <$> scs (net h11) !! 1) = Some (1, false, []).
Proof.
  split; [|by vm_compute].
  apply (run_step 2 h10 0 (WorkPut 1)); [|done|apply work_put|by vm_compute].
  apply (run_step 2 h9 0 (Reading 1)); [|done|apply read_again|by vm_compute].
  apply (run_step 2 h8 2 (WorkPut 1)); [|done|apply work_put|by vm_compute].
  apply (run_step 2 h7 2 (ShutNode 1)); [|done|apply shut_node|by vm_compute].
  apply (run_step 2 h6 2 (ShutPut 1)); [|done|apply shut_put|by vm_compute].
  apply (run_step 2 h5 2 (ShutCancel 1)); [|done|apply shut_cancel|by vm_compute].
  apply (run_step 2 h4 2 (Shut 1)); [|done|apply (shut_first _ _ (net h4) (net h5)); by vm_compute|by vm_compute].
  apply (work_runs 2 h3 1 ShutdownWork 2); [|by vm_compute|by vm_compute|done].
  apply (run_step 2 h2 1 (TxReady 0 true 7 1)); [|done|apply tx_sent|by vm_compute].
  apply (run_step 2 h1 1 (TxListed 0 7 1)); [|done|apply tx_init|by vm_compute].
  apply (run_step 2 h0 1 (TxSc 0 true 7 1)); [|done|apply (tx_prep _ _ (net h0) (net h1) 0 7 1); by vm_compute|by vm_compute].
  apply cut_runs; [apply s10_runs|by vm_compute].
Qed.

End PmDemo.


(** After the connection was lost, the states up to the last one of the run. *)
Lemma pmnet_never_reconnects_witness :
  no_container PmDemo.s12 0
  /\ exists r, pmnet_tx_can_proceed (net PmDemo.s12) 0 = Some (net PmDemo.s12, r) /\ forall p, r <> Some (inr p).
Proof.
  apply (pmnet_never_reconnects lowest 2 PmDemo.s12 PmDemo.s12 0).
  - apply PmDemo.cut_runs; [apply PmDemo.s11_runs|by vm_compute].
  - intros [|[|[|i]]] c Hc; cbn in Hc; [injection Hc as <-..|]; done.
  - eexists. by split; [vm_compute|].
  - apply rtc_refl.
Defined.

(** The request of the run is sent, and a page comes back. *)
Definition sent_state : state :=
  PmDemo.after (PmDemo.after PmDemo.s11 1 (TxReady 0 true 7 1) (prep_nsw_init (net PmDemo.s11) 1)) 1 (TxSent 0 7 1)
    (prep_nsw_init (net PmDemo.s11) 1).

Lemma sent_runs : reachable lowest 2 sent_state.
Proof.
  change sent_state with (PmDemo.after (PmDemo.after PmDemo.s11 1 (TxReady 0 true 7 1) (prep_nsw_init (net PmDemo.s11) 1)) 1 (TxSent 0 7 1)
    (Some (net (PmDemo.after PmDemo.s11 1 (TxReady 0 true 7 1) (prep_nsw_init (net PmDemo.s11) 1))))).
  eapply PmDemo.run_step; [|done|apply tx_sent|done].
  eapply PmDemo.run_step; [apply PmDemo.s11_runs|done|apply tx_init|by vm_compute].
Qed.


Lemma pmnet_reply_routed_witness :
  exists net', pmnet_complete_nsw_with_page (net sent_state) 0 None [1; 2] 0 0 0 = Some net' /\ pmnet_nsw_completed net' 0 1 = Some true
    /\ (exists nsw', nsws net' !! 1%nat = Some nsw' /\ (0 = 0 -> 0 <> -1 -> tx_result nsw' 7 = Some (MkReply 0 0 (Some [1; 2]))))
    /\ forall j, j <> 1%nat -> nsws net' !! j = nsws (net sent_state) !! j
         /\ forall m, pmnet_nsw_completed net' m j = pmnet_nsw_completed (net sent_state) m j.
Proof.
  apply (pmnet_reply_routed lowest 2 sent_state 1 0 7 1 (MkNsw 0 0 0 None) [1; 2] 0 0); [apply sent_runs|by vm_compute..].
Defined.
