(* ===== verification/PmRx.v ===== *)
(** * Messages of the TCP client and how they are read (client/tcp_style/tcp.c, tcp.h, tcp_internal.h)

    A message is a header of 28 bytes in network byte order and a payload.  The
    socket delivers the stream in pieces of any size; [pmnet_advance_rx] collects
    the header in one page and the payload in another, and hands the message over
    when both are complete.  The theorems: header and handshake survive the way
    over the wire; the messages that are handed over are those that were sent, in
    their order, however the stream was cut; and the reader returns, in every run of
    the threads, as long as its pages are there and no header announces more than
    one page. *)

From S2P Require Import Prelude HashFun PmNode PmWait.

Definition EAGAIN : Z := 11.
Definition EPIPE : Z := 32.
Definition EPROTO : Z := 71.
Definition EOVERFLOW : Z := 75.
Definition PAGE_SIZE : nat := 4096.

(** ** The wire format *)

(** [cpu_to_be16] and the like, in memory. *)
Definition be_bytes (n : nat) (z : Z) : list Z := rev (le_bytes n z).
Definition be_word (bs : list Z) : Z := le_word (rev bs).

(** The fields in the byte order of the machine. *)
Record pmnet_msg : Type := MkMsg {
  magic : Z; data_len : Z; msg_type : Z; pad1 : Z;
  sys_status : Z; status : Z; key : Z; msg_num : Z; index : Z;
}.

Definition PMNET_MSG_MAGIC : Z := 0xfa55.
Definition PMNET_MSG_STATUS_MAGIC : Z := 0xfa58.
Definition PMNET_MSG_KEEP_REQ_MAGIC : Z := 0xfa59.
Definition PMNET_MSG_KEEP_RESP_MAGIC : Z := 0xfa5a.
Definition PMNET_MSG_SENDPAGE : Z := 6.
Definition PMNET_MSG_NOTEXIST : Z := 7.
Definition sizeof_pmnet_msg : nat := 28.
Definition PMNET_MAX_PAYLOAD_BYTES : Z := 8192 - 28.

(** The layout of the structure. *)
Definition msg_bytes (m : pmnet_msg) : list Z :=
  be_bytes 2 (magic m) ++ be_bytes 2 (data_len m) ++ be_bytes 2 (msg_type m) ++ be_bytes 2 (pad1 m)
  ++ be_bytes 4 (sys_status m) ++ be_bytes 4 (status m) ++ be_bytes 4 (key m) ++ be_bytes 4 (msg_num m) ++ be_bytes 4 (index m).

Definition field (bs : list Z) (off n : nat) : Z := be_word (take n (drop off bs)).
Definition msg_of (bs : list Z) : pmnet_msg :=
  MkMsg (field bs 0 2) (field bs 2 2) (field bs 4 2) (field bs 6 2)
        (field bs 8 4) (field bs 12 4) (field bs 16 4) (field bs 20 4) (field bs 24 4).

(** [data_len] and [msg_type] are 16 bits wide. *)
Definition pmnet_init_msg (len type k idx : Z) : pmnet_msg :=
  MkMsg PMNET_MSG_MAGIC (u16 len) (u16 type) 0 PMNET_ERR_NONE 0 (u32 k) 0 (u32 idx).
Definition set_msg_num (num : Z) (m : pmnet_msg) : pmnet_msg :=
  MkMsg (magic m) (data_len m) (msg_type m) (pad1 m) (sys_status m) (status m) (key m) num (index m).

(** What [pmnet_send_recv_message_vec] hands to [kernel_sendmsg], or an error. *)
Definition send_bytes (wq : bool) (msg_type key index ns_id : Z) (vec : list (list Z)) : Z + list Z :=
  if negb wq then inl (-3)
  else if (length vec =? 0)%nat then inl (- EINVAL)
  else if PMNET_MAX_PAYLOAD_BYTES <? Z.of_nat (length (concat vec)) then inl (- EINVAL)
  else inr (msg_bytes (set_msg_num (u32 ns_id) (pmnet_init_msg (Z.of_nat (length (concat vec))) msg_type key index)) ++ concat vec).

(** [sent] is what [kernel_sendmsg] returned. *)
Definition pmnet_send_tcp_msg (sock : bool) (sent total : Z) : Z :=
  if negb sock then - EINVAL
  else if sent =? total then 0
  else if 0 <=? sent then - EPIPE else sent.

(** [pmnet_send_status_magic] reuses the header of the message that it answers. *)
Definition pmnet_send_status_magic (hdr : pmnet_msg) (syserr err : Z) : option pmnet_msg :=
  if PMNET_ERR_MAX <=? syserr then None
  else Some (MkMsg PMNET_MSG_STATUS_MAGIC 0 (msg_type hdr) (pad1 hdr) (u32 syserr) (u32 err) (key hdr) (msg_num hdr) (index hdr)).

Record pmnet_handshake : Type := MkHand {
  protocol_version : Z; connector_id : Z; pmhb_heartbeat_timeout_ms : Z;
  pmnet_idle_timeout_ms : Z; pmnet_keepalive_delay_ms : Z; pmnet_reconnect_delay_ms : Z;
}.
Definition sizeof_pmnet_handshake : nat := 32.
Definition PMNET_PROTOCOL_VERSION : Z := 11.

Definition hand_bytes (h : pmnet_handshake) : list Z :=
  be_bytes 8 (protocol_version h) ++ be_bytes 8 (connector_id h) ++ be_bytes 4 (pmhb_heartbeat_timeout_ms h)
  ++ be_bytes 4 (pmnet_idle_timeout_ms h) ++ be_bytes 4 (pmnet_keepalive_delay_ms h) ++ be_bytes 4 (pmnet_reconnect_delay_ms h).
Definition hand_of (bs : list Z) : pmnet_handshake :=
  MkHand (field bs 0 8) (field bs 8 8) (field bs 16 4) (field bs 20 4) (field bs 24 4) (field bs 28 4).

(** The times of the cluster (nodemanager.c). *)
Definition PMNET_RECONNECT_DELAY_MS_DEFAULT : Z := 2000.
Definition PMNET_KEEPALIVE_DELAY_MS_DEFAULT : Z := 2000.
Definition PMNET_IDLE_TIMEOUT_MS_DEFAULT : Z := 30000.
Record pmnm_cluster : Type := MkCluster { cl_idle_timeout_ms : Z; cl_keepalive_delay_ms : Z; cl_reconnect_delay_ms : Z }.
Definition init_pmnm_cluster : pmnm_cluster :=
  MkCluster PMNET_IDLE_TIMEOUT_MS_DEFAULT PMNET_KEEPALIVE_DELAY_MS_DEFAULT PMNET_RECONNECT_DELAY_MS_DEFAULT.

Definition pmnet_initialize_handshake (cl : pmnm_cluster) : pmnet_handshake :=
  MkHand PMNET_PROTOCOL_VERSION 1 0 (u32 (cl_idle_timeout_ms cl)) (u32 (cl_keepalive_delay_ms cl)) (u32 (cl_reconnect_delay_ms cl)).

(** ** Reading *)

(** The socket: bytes that have arrived or will, and what a read returns. *)
Class Socket (S : Type) := {
  sock_recvmsg : S -> nat -> S * Z * list Z;
  pending : S -> list Z;
  connected : S -> Prop;
}.

(** A stream that is not broken: a read returns some of the next bytes, and [-EAGAIN] only
    when there are none. *)
Class SocketSpec (S : Type) `{Socket S} : Prop := {
  recv_some : forall s n s' ret bs, connected s -> (0 < n)%nat -> pending s <> [] -> sock_recvmsg s n = (s', ret, bs) ->
    connected s' /\ exists k, (0 < k <= n)%nat /\ (k <= length (pending s))%nat /\ ret = Z.of_nat k
      /\ bs = take k (pending s) /\ pending s' = drop k (pending s);
  recv_none : forall s n s' ret bs, connected s -> (0 < n)%nat -> pending s = [] -> sock_recvmsg s n = (s', ret, bs) ->
    connected s' /\ ret = - EAGAIN /\ bs = [] /\ pending s' = [];
}.

(** [memcpy] into a page; [None] behind its end. *)
Definition splice (page : list Z) (off : nat) (bs : list Z) : list Z := take off page ++ bs ++ drop (off + length bs) page.
Definition overwrite (page : list Z) (off : nat) (bs : list Z) : option (list Z) :=
  if decide (off + length bs <= length page)%nat then Some (splice page off bs) else None.

Section Rx.
Context {S : Type} `{Socket S} (cluster : pmnm_cluster).
(** Whether [kmalloc] has memory for the page of a message, and whether [sendpage] sends. *)
Context (kmalloc : pmnet_msg -> bool) (sendpage : pmnet_msg -> bool).

Definition pmnet_recv_tcp_msg (s : S) (page : list Z) (off len : nat) : option (S * Z * list Z) :=
  let '(s, ret, bs) := sock_recvmsg s len in
  page ← overwrite page off bs;
  Some (s, ret, page).

Definition update_rx (net : pmnet) (p : Z) (f : rx_state -> rx_state) : option pmnet :=
  sc ← scs net !! p; Some (set_sc net p (set_rx (f (sc_rx sc)) sc)).

(** The result and the node; only [PMNET_MSG_SENDPAGE] looks at the payload. *)
Definition pmnet_process_message (net : pmnet) (p : Z) (hdr : pmnet_msg) : option (pmnet * Z) :=
  sc ← scs net !! p;
  let n := sc_node sc in
  if magic hdr =? PMNET_MSG_STATUS_MAGIC then
    net ← pmnet_complete_nsw net n None (msg_num hdr) (sys_status hdr) (s32 (status hdr)); Some (net, 0)
  else if magic hdr =? PMNET_MSG_KEEP_REQ_MAGIC then
    net ← (if sendpage hdr then Some net else pmnet_ensure_shutdown net n p 0); Some (net, 0)
  else if magic hdr =? PMNET_MSG_KEEP_RESP_MAGIC then Some (net, 0)
  else if magic hdr =? PMNET_MSG_MAGIC then
    if msg_type hdr =? PMNET_MSG_SENDPAGE then
      if negb (kmalloc hdr) then Some (net, - ENOMEM)
      else if decide (length (sc_page_data (sc_rx sc)) = PAGE_SIZE) then
        net ← pmnet_complete_nsw_with_page net n None (sc_page_data (sc_rx sc)) (msg_num hdr) (sys_status hdr) (s32 (status hdr));
        Some (net, 0)
      else None
    else if msg_type hdr =? PMNET_MSG_NOTEXIST then
      net ← pmnet_complete_nsw net n None (msg_num hdr) (sys_status hdr) (-1); Some (net, 0)
    else Some (net, 0)
  else Some (net, - EINVAL).

(** The handshake is accepted when version and times agree. *)
Definition hand_accepted (h : pmnet_handshake) : bool :=
  (protocol_version h =? PMNET_PROTOCOL_VERSION) && (pmnet_idle_timeout_ms h =? cl_idle_timeout_ms cluster)
  && (pmnet_keepalive_delay_ms h =? cl_keepalive_delay_ms cluster).

Definition pmnet_check_handshake (net : pmnet) (p : Z) : option pmnet :=
  sc ← scs net !! p;
  let rx := sc_rx sc in
  if hand_accepted (hand_of (sc_page rx)) then
    net ← update_rx net p (fun rx => MkRx true (sc_page rx) (sc_page_off rx) (sc_page_data rx) (sc_page_data_off rx));
    net ← handshake_valid net (sc_node sc) p;
    update_rx net p (fun rx =>
      let off := (sc_page_off rx - sizeof_pmnet_handshake)%nat in
      let page := if (off =? 0)%nat then sc_page rx
                  else take off (drop sizeof_pmnet_handshake (sc_page rx)) ++ drop off (sc_page rx) in
      MkRx (sc_handshake_ok rx) page off (sc_page_data rx) (sc_page_data_off rx))
  else pmnet_ensure_shutdown net (sc_node sc) p (- ENOTCONN).

Definition set_header (page : list Z) (off : nat) (rx : rx_state) : rx_state :=
  MkRx (sc_handshake_ok rx) page off (sc_page_data rx) (sc_page_data_off rx).
Definition set_payload (page : list Z) (off : nat) (rx : rx_state) : rx_state :=
  MkRx (sc_handshake_ok rx) (sc_page rx) (sc_page_off rx) page off.
Definition reset_rx (rx : rx_state) : rx_state := MkRx (sc_handshake_ok rx) (sc_page rx) 0 (sc_page_data rx) 0.

(** Until the handshake is complete. *)
Definition advance_handshake (net : pmnet) (s : S) (p : Z) : option (pmnet * S * Z) :=
  sc ← scs net !! p;
  let rx := sc_rx sc in
  let r : option (pmnet * S * Z) :=
    if (sc_page_off rx <? sizeof_pmnet_handshake)%nat then
       '(s, ret, page) ← pmnet_recv_tcp_msg s (sc_page rx) (sc_page_off rx) (sizeof_pmnet_handshake - sc_page_off rx);
       net ← update_rx net p (set_header page (sc_page_off rx + Z.to_nat ret));
       Some (net, s, ret)
     else Some (net, s, 0) in
  '(net, s, ret) ← r;
  sc ← scs net !! p;
  if (sc_page_off (sc_rx sc) =? sizeof_pmnet_handshake)%nat then
    net ← pmnet_check_handshake net p;
    sc ← scs net !! p;
    Some (net, s, if sc_handshake_ok (sc_rx sc) then ret else - EPROTO)
  else Some (net, s, ret).

(** The payload, when the header is complete; [ret] is the result so far. *)
Definition advance_payload (net : pmnet) (s : S) (p : Z) (ret : Z) : option (pmnet * S * Z) :=
  sc ← scs net !! p;
  let rx := sc_rx sc in
  let hdr := msg_of (sc_page rx) in
  let len := Z.to_nat (data_len hdr) in
  let r : option (pmnet * S * Z * bool) :=
    if (sc_page_data_off rx <? len)%nat then
       '(s, ret, page) ← pmnet_recv_tcp_msg s (sc_page_data rx) (sc_page_data_off rx) (len - sc_page_data_off rx);
       net ← update_rx net p (set_payload page (sc_page_data_off rx + Z.to_nat ret));
       Some (net, s, ret, ret <=? 0)
     else Some (net, s, ret, false) in
  '(net, s, ret, stop) ← r;
  if (stop : bool) then Some (net, s, ret)
  else
    sc ← scs net !! p;
    if (sc_page_data_off (sc_rx sc) =? len)%nat then
      '(net, r) ← pmnet_process_message net p hdr;
      net ← update_rx net p reset_rx;
      Some (net, s, if r =? 0 then 1 else r)
    else Some (net, s, ret).

Definition pmnet_advance_rx (net : pmnet) (s : S) (p : Z) : option (pmnet * S * Z) :=
  sc ← scs net !! p;
  let rx := sc_rx sc in
  if negb (sc_handshake_ok rx) then advance_handshake net s p
  else if (sc_page_off rx <? sizeof_pmnet_msg)%nat then
    '(s, ret, page) ← pmnet_recv_tcp_msg s (sc_page rx) (sc_page_off rx) (sizeof_pmnet_msg - sc_page_off rx);
    let off := (sc_page_off rx + Z.to_nat ret)%nat in
    net ← update_rx net p (set_header page off);
    let ret := if (0 <? ret) && (off =? sizeof_pmnet_msg)%nat && (PMNET_MAX_PAYLOAD_BYTES <? data_len (msg_of page)) then - EOVERFLOW else ret in
    if ret <=? 0 then Some (net, s, ret)
    else if (off <? sizeof_pmnet_msg)%nat then Some (net, s, ret)
    else advance_payload net s p ret
  else advance_payload net s p 0.

(** The loop of [pmnet_rx_until_empty]; its end is in [PmNode.exec]. *)
Fixpoint rx_loop (fuel : nat) (net : pmnet) (s : S) (p : Z) : option (pmnet * S * Z) :=
  match fuel with
  | O => None
  | Datatypes.S fuel =>
      '(net, s, ret) ← pmnet_advance_rx net s p;
      if 0 <? ret then rx_loop fuel net s p else Some (net, s, ret)
  end.

Definition pmnet_rx_until_empty (fuel : nat) (net : pmnet) (s : S) (p : Z) : option (pmnet * S) :=
  '(net, s, ret) ← rx_loop fuel net s p;
  sc ← scs net !! p;
  net ← (if negb (ret =? - EAGAIN) then pmnet_ensure_shutdown net (sc_node sc) p 0 else Some net);
  net ← sc_put net p;
  Some (net, s).

End Rx.

(** ** Over the wire *)

Definition msg_ok (m : pmnet_msg) : Prop :=
  0 <= magic m < 2 ^ 16 /\ 0 <= data_len m < 2 ^ 16 /\ 0 <= msg_type m < 2 ^ 16 /\ 0 <= pad1 m < 2 ^ 16
  /\ 0 <= sys_status m < 2 ^ 32 /\ 0 <= status m < 2 ^ 32 /\ 0 <= key m < 2 ^ 32 /\ 0 <= msg_num m < 2 ^ 32 /\ 0 <= index m < 2 ^ 32.

Lemma be_word_bytes n z : 0 <= z < 2 ^ (8 * Z.of_nat n) -> be_word (be_bytes n z) = z.
Proof. intros Hz. unfold be_word, be_bytes. rewrite rev_involutive. by apply le_word_bytes. Qed.

Lemma length_msg_bytes m : length (msg_bytes m) = 28%nat.
Proof. done. Qed.

Lemma msg_of_bytes m rest : msg_ok m -> msg_of (msg_bytes m ++ rest) = m.
Proof.
  intros (H1 & H2 & H3 & H4 & H5 & H6 & H7 & H8 & H9). destruct m as [m1 m2 m3 m4 m5 m6 m7 m8 m9].
  change (msg_of (msg_bytes (MkMsg m1 m2 m3 m4 m5 m6 m7 m8 m9) ++ rest)) with
    (MkMsg (be_word (be_bytes 2 m1)) (be_word (be_bytes 2 m2)) (be_word (be_bytes 2 m3)) (be_word (be_bytes 2 m4)) (be_word (be_bytes 4 m5))
       (be_word (be_bytes 4 m6)) (be_word (be_bytes 4 m7)) (be_word (be_bytes 4 m8)) (be_word (be_bytes 4 m9))).
  by rewrite !be_word_bytes.
Qed.

Lemma init_msg_ok len type k idx id : msg_ok (set_msg_num (u32 id) (pmnet_init_msg len type k idx)).
Proof.
  unfold msg_ok, set_msg_num, pmnet_init_msg. cbn [magic data_len msg_type pad1 sys_status status key msg_num index].
  pose proof (wrap_bound 16 len). pose proof (wrap_bound 16 type). pose proof (wrap_bound 32 k). pose proof (wrap_bound 32 idx).
  pose proof (wrap_bound 32 id). unfold PMNET_MSG_MAGIC, PMNET_ERR_NONE. lia.
Qed.

(** What is sent, if anything: a header that tells the length of the payload, and the payload. *)
Lemma send_bytes_frame wq type k idx id vec bs :
  send_bytes wq type k idx id vec = inr bs ->
  exists hdr, bs = msg_bytes hdr ++ concat vec /\ msg_ok hdr /\ data_len hdr = Z.of_nat (length (concat vec))
    /\ magic hdr = PMNET_MSG_MAGIC /\ msg_num hdr = u32 id /\ key hdr = u32 k /\ index hdr = u32 idx /\ msg_type hdr = u16 type.
Proof.
  unfold send_bytes. destruct wq; [|done]. cbn [negb]. destruct (_ =? 0)%nat; [done|].
  destruct (Z.ltb_spec PMNET_MAX_PAYLOAD_BYTES (Z.of_nat (length (concat vec)))) as [|Hl]; [done|].
  set (hdr := set_msg_num _ _). intros E. exists hdr. assert (bs = msg_bytes hdr ++ concat vec) as -> by congruence.
  split; [done|]. split; [apply init_msg_ok|]. unfold hdr. cbn [set_msg_num pmnet_init_msg data_len magic msg_num key index msg_type].
  split; [|done].
  unfold PMNET_MAX_PAYLOAD_BYTES in Hl. apply wrap_small. lia.
Qed.

Lemma hand_of_bytes h rest :
  0 <= protocol_version h < 2 ^ 64 -> 0 <= connector_id h < 2 ^ 64 -> 0 <= pmhb_heartbeat_timeout_ms h < 2 ^ 32 ->
  0 <= pmnet_idle_timeout_ms h < 2 ^ 32 -> 0 <= pmnet_keepalive_delay_ms h < 2 ^ 32 -> 0 <= pmnet_reconnect_delay_ms h < 2 ^ 32 ->
  hand_of (hand_bytes h ++ rest) = h.
Proof.
  intros H1 H2 H3 H4 H5 H6. destruct h as [m1 m2 m3 m4 m5 m6].
  change (hand_of (hand_bytes (MkHand m1 m2 m3 m4 m5 m6) ++ rest)) with
    (MkHand (be_word (be_bytes 8 m1)) (be_word (be_bytes 8 m2)) (be_word (be_bytes 4 m3)) (be_word (be_bytes 4 m4))
       (be_word (be_bytes 4 m5)) (be_word (be_bytes 4 m6))).
  by rewrite !be_word_bytes.
Qed.

(** Two clients of the same configuration accept each other. *)
Lemma handshake_accepted cl rest :
  0 <= cl_idle_timeout_ms cl < 2 ^ 32 -> 0 <= cl_keepalive_delay_ms cl < 2 ^ 32 ->
  hand_accepted cl (hand_of (hand_bytes (pmnet_initialize_handshake cl) ++ rest)) = true.
Proof.
  intros Hi Hk. pose proof (wrap_bound 32 (cl_reconnect_delay_ms cl)).
  rewrite hand_of_bytes; cbn [pmnet_initialize_handshake protocol_version connector_id pmhb_heartbeat_timeout_ms
    pmnet_idle_timeout_ms pmnet_keepalive_delay_ms pmnet_reconnect_delay_ms]; rewrite ?(wrap_small 32) by done;
    try (unfold PMNET_PROTOCOL_VERSION; lia).
  unfold hand_accepted. cbn. rewrite !(wrap_small 32) by done. by rewrite !Z.eqb_refl.
Qed.

(** ** Pages *)

Lemma splice_nil page : splice page 0 [] = page.
Proof. done. Qed.

Lemma splice_start page bs : splice page 0 bs = bs ++ drop (length bs) page.
Proof. done. Qed.

Lemma splice_app page a b : splice (splice page 0 a) (length a) b = splice page 0 (a ++ b).
Proof.
  rewrite !splice_start. unfold splice. rewrite take_app_length, length_app, <- drop_drop, drop_app_length, drop_drop.
  by rewrite <- app_assoc.
Qed.

Lemma length_splice page off bs : (off + length bs <= length page)%nat -> length (splice page off bs) = length page.
Proof. intros Hl. unfold splice. rewrite !length_app, length_take, length_drop. lia. Qed.

(** ** Frames

    A header and its payload; what reading a whole one does. *)

Record frame : Type := MkFrame { f_hdr : pmnet_msg; f_payload : list Z }.
Definition frame_bytes (f : frame) : list Z := msg_bytes (f_hdr f) ++ f_payload f.
Record frame_ok (f : frame) : Prop := {
  fo_hdr : msg_ok (f_hdr f);
  fo_len : data_len (f_hdr f) = Z.of_nat (length (f_payload f));
  fo_page : (length (f_payload f) <= PAGE_SIZE)%nat;
}.

(** [k] bytes of a frame are read. *)
Definition partial (f : frame) (k : nat) (rx : rx_state) : rx_state :=
  MkRx (sc_handshake_ok rx) (splice (sc_page rx) 0 (take k (msg_bytes (f_hdr f)))) (k `min` 28)
    (splice (sc_page_data rx) 0 (take (k - 28) (f_payload f))) (k - 28).

(** Between two frames. *)
Record rx_ready (rx : rx_state) : Prop := {
  rr_ok : sc_handshake_ok rx = true;
  rr_off : sc_page_off rx = 0%nat /\ sc_page_data_off rx = 0%nat;
  rr_page : length (sc_page rx) = PAGE_SIZE /\ length (sc_page_data rx) = PAGE_SIZE;
}.

#[local] Opaque msg_bytes.

Lemma partial_start f rx : rx_ready rx -> partial f 0 rx = rx.
Proof. intros [A [B C] _]. destruct rx as [hs pg off d doff]. cbn in *. unfold partial. cbn. by subst. Qed.

Lemma partial_header f k n rx :
  (k + n <= 28)%nat -> partial f (k + n) rx =
  set_header (splice (sc_page (partial f k rx)) k (take n (drop k (msg_bytes (f_hdr f))))) (k + n) (partial f k rx).
Proof.
  intros Hk. unfold partial, set_header. cbn [sc_handshake_ok sc_page sc_page_off sc_page_data sc_page_data_off].
  replace (k + n - 28)%nat with 0%nat by lia. replace (k - 28)%nat with 0%nat by lia. replace ((k + n) `min` 28)%nat with (k + n)%nat by lia.
  f_equal. rewrite <- take_take_drop. set (a := take k (msg_bytes (f_hdr f))).
  assert (length a = k) as Ha by (unfold a; rewrite length_take, length_msg_bytes; lia). by rewrite <- splice_app, Ha.
Qed.

Lemma partial_payload f k n rx :
  (28 <= k)%nat -> (k - 28 + n <= length (f_payload f))%nat -> partial f (k + n) rx =
  set_payload (splice (sc_page_data (partial f k rx)) (k - 28) (take n (drop (k - 28) (f_payload f)))) (k - 28 + n) (partial f k rx).
Proof.
  intros Hk Hn. unfold partial, set_payload. cbn [sc_handshake_ok sc_page sc_page_off sc_page_data sc_page_data_off].
  replace (k + n - 28)%nat with (k - 28 + n)%nat by lia. replace ((k + n) `min` 28)%nat with (k `min` 28)%nat by lia.
  rewrite !(take_ge (msg_bytes (f_hdr f))) by (rewrite length_msg_bytes; lia). f_equal.
  rewrite <- take_take_drop. set (a := take (k - 28) (f_payload f)).
  assert (length a = (k - 28)%nat) as Ha by (unfold a; rewrite length_take; lia). by rewrite <- splice_app, Ha.
Qed.

Section Frames.
Context {S : Type} `{SocketSpec S} (cluster : pmnm_cluster) (kmalloc sendpage : pmnet_msg -> bool).

(** A frame is read, and handed over with success. *)
Definition deliver (p : Z) (net : pmnet) (f : frame) : option pmnet :=
  net ← update_rx net p (partial f (length (frame_bytes f)));
  '(net, r) ← pmnet_process_message kmalloc sendpage net p (f_hdr f);
  if (r : Z) =? 0 then update_rx net p reset_rx else None.

Definition at_frame (net : pmnet) (p : Z) (sc : sock_container) (f : frame) (k : nat) : pmnet := set_sc net p (set_rx (partial f k (sc_rx sc)) sc).

Lemma at_frame_lookup net p sc f k : scs (at_frame net p sc f k) !! p = Some (set_rx (partial f k (sc_rx sc)) sc).
Proof. unfold at_frame, set_sc. cbn [scs]. by rewrite lookup_insert_eq. Qed.

Lemma at_frame_update net p sc f k g :
  update_rx (at_frame net p sc f k) p g = Some (set_sc net p (set_rx (g (partial f k (sc_rx sc))) sc)).
Proof.
  unfold update_rx. rewrite at_frame_lookup. cbn [mbind option_bind]. unfold at_frame, set_sc. cbn [scs nodes nsws]. rewrite insert_insert_eq. done.
Qed.

Lemma length_frame f : length (frame_bytes f) = (28 + length (f_payload f))%nat.
Proof. unfold frame_bytes. by rewrite length_app, length_msg_bytes. Qed.

(** The header that is in the page once 28 bytes are read. *)
Lemma partial_hdr f k rx : frame_ok f -> (28 <= k)%nat -> msg_of (sc_page (partial f k rx)) = f_hdr f.
Proof.
  intros Hf Hk. unfold partial. cbn [sc_page]. rewrite take_ge by (rewrite length_msg_bytes; lia). rewrite splice_start.
  apply msg_of_bytes, Hf.
Qed.

Lemma partial_lengths f k rx :
  frame_ok f -> rx_ready rx -> length (sc_page (partial f k rx)) = PAGE_SIZE /\ length (sc_page_data (partial f k rx)) = PAGE_SIZE.
Proof.
  intros [_ _ Hp] [_ _ [H1 H2]]. unfold partial. cbn [sc_page sc_page_data].
  rewrite !length_splice by (rewrite ?length_take, ?length_msg_bytes, ?H1, ?H2; unfold PAGE_SIZE in *; lia). done.
Qed.

(** Some bytes are read into a page. *)
Lemma recv_into s page off len bs rest :
  connected s -> (0 < len <= length bs)%nat -> pending s = bs ++ rest -> (off + len <= length page)%nat ->
  exists s' n, connected s' /\ (0 < n <= len)%nat /\ pending s' = drop n bs ++ rest
    /\ pmnet_recv_tcp_msg s page off len = Some (s', Z.of_nat n, splice page off (take n bs)).
Proof.
  intros Hc Hl Hp Hoff. unfold pmnet_recv_tcp_msg. destruct (sock_recvmsg s len) as [[s' ret] got] eqn:E.
  destruct (recv_some s len s' ret got Hc) as (Hc' & n & Hn & Hn' & -> & -> & Hp'); [lia| |done|].
  { rewrite Hp. destruct bs; [cbn in Hl; lia|done]. }
  rewrite Hp in *. rewrite take_app_le by lia. rewrite drop_app_le in Hp' by lia.
  exists s', n. split_and!; [done|lia|lia|done|]. unfold overwrite. rewrite decide_True by (rewrite length_take; lia). done.
Qed.

Context (net : pmnet) (p : Z) (sc : sock_container) (f : frame) (net' : pmnet) (rest : list Z).
Context (Hsc : scs net !! p = Some sc) (Hready : rx_ready (sc_rx sc)) (Hf : frame_ok f) (Hnet' : deliver p net f = Some net').

#[local] Abbreviation len := (length (frame_bytes f)).

(** After [k] bytes: more of them are read, or the frame is complete and handed over. *)
Inductive progress (k : nat) : option (pmnet * S * Z) -> Prop :=
  | More s k' ret : connected s -> (k < k' < len)%nat -> 0 < ret -> pending s = drop k' (frame_bytes f) ++ rest ->
      progress k (Some (at_frame net p sc f k', s, ret))
  | Whole s : connected s -> pending s = rest -> progress k (Some (net', s, 1)).

Lemma finish_frame (s : S) :
  ('(net1, r) ← pmnet_process_message kmalloc sendpage (at_frame net p sc f len) p (f_hdr f);
   net1 ← update_rx net1 p reset_rx; Some (net1, s, if (r : Z) =? 0 then 1 else r)) = Some (net', s, 1).
Proof.
  unfold deliver, update_rx in Hnet'. rewrite Hsc in Hnet'. cbn [mbind option_bind] in Hnet'. fold (at_frame net p sc f len) in Hnet'.
  inv_bind Hnet' x E. destruct x as [net1 r]. rewrite E. cbn [mbind option_bind]. destruct (r =? 0); [|done].
  unfold update_rx. rewrite Hnet'. done.
Qed.

Lemma drop_frame_header k : (k <= 28)%nat -> drop k (frame_bytes f) = drop k (msg_bytes (f_hdr f)) ++ f_payload f.
Proof. intros Hk. unfold frame_bytes. by rewrite drop_app_le by (rewrite length_msg_bytes; lia). Qed.

Lemma drop_frame_payload k : (28 <= k)%nat -> drop k (frame_bytes f) = drop (k - 28) (f_payload f).
Proof. intros Hk. unfold frame_bytes. by rewrite drop_app_ge, length_msg_bytes by (rewrite length_msg_bytes; lia). Qed.

Lemma payload_progress k0 k s ret :
  (k0 <= k)%nat -> (28 <= k <= len)%nat -> connected s -> pending s = drop k (frame_bytes f) ++ rest ->
  progress k0 (advance_payload kmalloc sendpage (at_frame net p sc f k) s p ret).
Proof.
  intros Hk0 Hk Hc Hp. unfold advance_payload. rewrite at_frame_lookup. cbn [mbind option_bind set_rx sc_rx].
  rewrite partial_hdr by (done || lia). rewrite (fo_len f Hf), Nat2Z.id.
  change (sc_page_data_off (partial f k (sc_rx sc))) with (k - 28)%nat. rewrite length_frame in Hk.
  destruct (Nat.ltb_spec (k - 28) (length (f_payload f))) as [Hlt|Hge]; cbn [mbind option_bind].
  - destruct (recv_into s (sc_page_data (partial f k (sc_rx sc))) (k - 28) (length (f_payload f) - (k - 28)) (drop (k - 28) (f_payload f)) rest)
      as (s' & n & Hc' & Hn & Hp' & E); [done|rewrite length_drop; lia|by rewrite <- drop_frame_payload by lia| |].
    { destruct (partial_lengths f k (sc_rx sc)) as [_ ->]; [done..|]. pose proof (fo_page f Hf). lia. }
    rewrite E. cbn [mbind option_bind]. rewrite at_frame_update. cbn [mbind option_bind]. rewrite Nat2Z.id.
    rewrite <- partial_payload by lia. fold (at_frame net p sc f (k + n)). destruct (Z.leb_spec (Z.of_nat n) 0); [lia|].
    rewrite at_frame_lookup. cbn [mbind option_bind set_rx sc_rx partial sc_page_data_off].
    rewrite drop_drop in Hp'. replace (k - 28 + n)%nat with (k + n - 28)%nat in Hp' by lia. rewrite <- drop_frame_payload in Hp' by lia.
    destruct (Nat.eqb_spec (k + n - 28) (length (f_payload f))) as [He|Hne].
    + assert (k + n = len)%nat as Hl by (rewrite length_frame; lia). rewrite Hl in *. rewrite finish_frame. apply Whole; [done|].
      by rewrite drop_all in Hp'.
    + apply More; [done|rewrite length_frame; lia|lia|done].
  - rewrite at_frame_lookup. cbn [mbind option_bind set_rx sc_rx partial sc_page_data_off].
    assert (k = len)%nat as -> by (rewrite length_frame; lia). rewrite length_frame at 1.
    replace (28 + length (f_payload f) - 28)%nat with (length (f_payload f)) by lia. rewrite Nat.eqb_refl, finish_frame.
    apply Whole; [done|]. by rewrite drop_all in Hp.
Qed.

Lemma advance_progress k s :
  (k < len)%nat -> connected s -> pending s = drop k (frame_bytes f) ++ rest ->
  progress k (pmnet_advance_rx cluster kmalloc sendpage (at_frame net p sc f k) s p).
Proof.
  intros Hk Hc Hp. unfold pmnet_advance_rx. rewrite at_frame_lookup. cbn [mbind option_bind set_rx sc_rx].
  change (sc_handshake_ok (partial f k (sc_rx sc))) with (sc_handshake_ok (sc_rx sc)). rewrite (rr_ok _ Hready). cbn [negb].
  change (sc_page_off (partial f k (sc_rx sc))) with (k `min` 28)%nat. change sizeof_pmnet_msg with 28%nat.
  destruct (Nat.ltb_spec (k `min` 28) 28) as [Hlt|Hge]; [|apply payload_progress; [done|lia|done..]].
  replace (k `min` 28)%nat with k by lia.
  destruct (recv_into s (sc_page (partial f k (sc_rx sc))) k (28 - k) (drop k (msg_bytes (f_hdr f))) (f_payload f ++ rest))
    as (s' & n & Hc' & Hn & Hp' & E); [done|rewrite length_drop, length_msg_bytes; lia| | |].
  { rewrite Hp, drop_frame_header by lia. by rewrite <- app_assoc. }
  { destruct (partial_lengths f k (sc_rx sc)) as [-> _]; [done..|]. unfold PAGE_SIZE. lia. }
  rewrite E. cbn [mbind option_bind]. rewrite at_frame_update. cbn [mbind option_bind]. rewrite Nat2Z.id.
  rewrite <- partial_header by lia. fold (at_frame net p sc f (k + n)).
  rewrite app_assoc, drop_drop, <- drop_frame_header in Hp' by lia.
  set (pg := splice _ k _).
  assert ((0 <? Z.of_nat n) && (k + n =? 28)%nat && (PMNET_MAX_PAYLOAD_BYTES <? data_len (msg_of pg)) = false) as ->.
  { destruct (Nat.eqb_spec (k + n) 28) as [He|]; [|by rewrite andb_false_r].
    pose proof (partial_header f k n (sc_rx sc) ltac:(lia)) as Hh. apply (f_equal sc_page) in Hh. cbn [set_header sc_page] in Hh.
    fold pg in Hh. rewrite <- Hh, partial_hdr by (done || lia). rewrite (fo_len f Hf). pose proof (fo_page f Hf).
    unfold PMNET_MAX_PAYLOAD_BYTES, PAGE_SIZE in *. destruct (Z.ltb_spec (8192 - 28) (Z.of_nat (length (f_payload f)))); [lia|]. by rewrite andb_false_r. }
  destruct (Z.leb_spec (Z.of_nat n) 0); [lia|]. destruct (Nat.ltb_spec (k + n) 28).
  - apply More; [done|rewrite length_frame; lia|lia|done].
  - apply payload_progress; [lia|rewrite length_frame; lia|done..].
Qed.

End Frames.

(** ** What happens to a container

    Only reading writes its pages, and its node never changes: every other operation keeps or
    frees a container.  [g] is such a part of it. *)

Section Kept.
Context {A : Type} (g : sock_container -> A).
Context (Hkref : forall k sc, g (set_kref k sc) = g sc) (Hqueued : forall ws sc, g (set_queued ws sc) = g sc).

Definition kept (net net' : pmnet) : Prop :=
  forall p sc', scs net' !! p = Some sc' -> exists sc, scs net !! p = Some sc /\ g sc = g sc'.

#[local] Instance kept_preorder : PreOrder kept.
Proof.
  split; [intros net p sc E; by exists sc|]. intros net1 net2 net3 H1 H2 p sc3 E3. destruct (H2 p sc3 E3) as (sc2 & E2 & R2).
  destruct (H1 p sc2 E2) as (sc1 & E1 & R1). exists sc1. split; [done|congruence].
Qed.

Lemma set_sc_kept net p sc sc' : scs net !! p = Some sc -> g sc' = g sc -> kept net (set_sc net p sc').
Proof.
  intros E R q sc1. cbn [set_sc scs]. destruct (decide (p = q)) as [->|Hne].
  - rewrite lookup_insert_eq. intros [= <-]. exists sc. done.
  - rewrite lookup_insert_ne by done. intros Eq. by exists sc1.
Qed.

Lemma same_scs_kept net net' : scs net' = scs net -> kept net net'.
Proof. intros E p sc. rewrite E. intros Ep. by exists sc. Qed.

Lemma sc_get_kept net p net' : sc_get net p = Some net' -> kept net net'.
Proof. intros E. inv_bind E sc0 Es. simplify_eq. eapply set_sc_kept; [exact Es|apply Hkref]. Qed.

Lemma sc_put_kept net p net' : sc_put net p = Some net' -> kept net net'.
Proof.
  intros E. inv_bind E sc0 Es. simplify_eq. destruct (sc_kref sc0 =? 1); [|eapply set_sc_kept; [exact Es|apply Hkref]].
  intros q sc1. cbn [sc_kref_release free_sc scs]. rewrite lookup_delete_Some. intros [_ Eq]. by exists sc1.
Qed.

Lemma queue_work_kept net p w net' : pmnet_sc_queue_work net p w = Some net' -> kept net net'.
Proof.
  intros E. inv_bind E net1 E1. inv_bind E sc0 Es. etransitivity; [by eapply sc_get_kept|].
  case_bool_decide; [by eapply sc_put_kept|]. simplify_eq. eapply set_sc_kept; [exact Es|apply Hqueued].
Qed.

Lemma complete_scs net n w page sys st net' : complete_nsw_locked net n w page sys st = Some net' -> scs net' = scs net.
Proof. intros E. inv_bind E nn En. case_bool_decide; [|by simplify_eq]. inv_bind E nsw Ew. by simplify_eq. Qed.

Lemma complete_kept net n w page sys st net' : complete_nsw_locked net n w page sys st = Some net' -> kept net net'.
Proof. intros E. by eapply same_scs_kept, complete_scs. Qed.

Lemma complete_nodes_kept net n net' : pmnet_complete_nodes_nsw net n = Some net' -> kept net net'.
Proof.
  intros E. inv_bind E nn En. clear En. revert net E. induction (nn_status_list nn) as [|w ws IH]; intros net; cbn [foldM]; [by intros [= <-]|].
  intros E. inv_bind E net1 E1. etransitivity; [by eapply complete_kept|by apply IH].
Qed.

Lemma set_nn_state_kept net n sc valid err net' : pmnet_set_nn_state net n sc valid err = Some net' -> kept net net'.
Proof.
  intros E. inv_bind E nn En. cbv zeta in E. destruct (match sc with Some _ => _ | None => false end); [done|].
  inv_bind E net1 E1. inv_bind E net2 E2. assert (kept net net1) as K1.
  { destruct (_ && negb valid); [|simplify_eq; by apply same_scs_kept]. etransitivity; [|by eapply complete_nodes_kept]. by apply same_scs_kept. }
  assert (kept net1 net2) as K2 by (destruct (nn_sc nn), sc; solve [simplify_eq; reflexivity | by eapply sc_get_kept]).
  etransitivity; [exact K1|]. etransitivity; [exact K2|].
  destruct (nn_sc nn) as [q|]; [|by simplify_eq]. case_bool_decide; [by simplify_eq|]. inv_bind E net3 E3.
  etransitivity; [by eapply queue_work_kept|by eapply sc_put_kept].
Qed.

Lemma ensure_shutdown_kept net n p err net' : pmnet_ensure_shutdown net n p err = Some net' -> kept net net'.
Proof. intros E. inv_bind E nn En. case_bool_decide; [by eapply set_nn_state_kept|by simplify_eq]. Qed.

Lemma handshake_valid_kept net n p net' : handshake_valid net n p = Some net' -> kept net net'.
Proof.
  intros E. inv_bind E nn En. case_bool_decide; [|by simplify_eq]. inv_bind E net1 E1. inv_bind E1 nn1 En1. simplify_eq.
  etransitivity; [|by eapply set_nn_state_kept]. by apply same_scs_kept.
Qed.

Lemma complete_one_kept net n id page sys st net' :
  (nn ← pmnet_nn_from_num net n;
   match find_nsw nn None id with Some w => complete_nsw_locked net n w page sys st | None => Some net end) = Some net' -> kept net net'.
Proof. intros E. inv_bind E nn En. destruct (find_nsw nn None id); [by eapply complete_kept|by simplify_eq]. Qed.

Lemma process_kept kmalloc sendpage net p hdr net' r : pmnet_process_message kmalloc sendpage net p hdr = Some (net', r) -> kept net net'.
Proof.
  intros E. inv_bind E sc0 Es. cbv zeta in E.
  repeat case_match; try (simplify_eq; reflexivity); inv_bind E net1 E1; simplify_eq; try reflexivity;
    (by eapply ensure_shutdown_kept) || (by eapply complete_one_kept).
Qed.

End Kept.

Section Stream.
Context {S : Type} `{SocketSpec S} (cluster : pmnm_cluster) (kmalloc sendpage : pmnet_msg -> bool).

#[local] Abbreviation deliver := (deliver kmalloc sendpage).

(** A frame that is handed over leaves the container ready for the next. *)
Lemma deliver_ready p net f net' sc :
  scs net !! p = Some sc -> rx_ready (sc_rx sc) -> frame_ok f -> deliver p net f = Some net' ->
  exists sc', scs net' !! p = Some sc' /\ rx_ready (sc_rx sc').
Proof.
  intros Hsc Hr Hf E. inv_bind E net1 E1. inv_bind E y E2. destruct y as [net2 r]. destruct (r =? 0); [|done].
  unfold update_rx in E1. rewrite Hsc in E1. cbn [mbind option_bind] in E1. assert (net1 = at_frame net p sc f (length (frame_bytes f))) as -> by (unfold at_frame; congruence).
  inv_bind E sc2 Es2. destruct (process_kept sc_rx (fun _ _ => eq_refl) (fun _ _ => eq_refl) _ _ _ _ _ _ _ E2 p sc2 Es2) as (sc1 & Es1 & R).
  rewrite at_frame_lookup in Es1. assert (sc_rx sc2 = partial f (length (frame_bytes f)) (sc_rx sc)) as R2 by (rewrite <- R; by simplify_eq).
  destruct (partial_lengths f (length (frame_bytes f)) (sc_rx sc) Hf Hr) as [L1 L2].
  assert (net' = set_sc net2 p (set_rx (reset_rx (sc_rx sc2)) sc2)) as -> by congruence.
  exists (set_rx (reset_rx (sc_rx sc2)) sc2). cbn [set_sc scs]. rewrite lookup_insert_eq. split; [done|]. cbn [set_rx sc_rx].
  rewrite R2. split; [apply Hr|done|done].
Qed.

(** The loop reads a frame to its end. *)
Lemma rx_loop_frame p net sc f net' rest fuel k s :
  scs net !! p = Some sc -> rx_ready (sc_rx sc) -> frame_ok f -> deliver p net f = Some net' ->
  (k < length (frame_bytes f))%nat -> connected s -> pending s = drop k (frame_bytes f) ++ rest -> (length (pending s) < fuel)%nat ->
  exists s' fuel', connected s' /\ pending s' = rest /\ (length rest < fuel')%nat
    /\ rx_loop cluster kmalloc sendpage fuel (at_frame net p sc f k) s p = rx_loop cluster kmalloc sendpage fuel' net' s' p.
Proof.
  intros Hsc Hr Hf Hd. revert k s. induction fuel as [|fuel IH]; intros k s Hk Hc Hp Hfuel; [lia|].
  pose proof (advance_progress cluster kmalloc sendpage net p sc f net' rest Hsc Hr Hf Hd k s Hk Hc Hp) as Hpr.
  cbn [rx_loop]. rewrite Hp, length_app, length_drop in Hfuel.
  remember (pmnet_advance_rx _ _ _ _ _ _) as o eqn:Eo. destruct Hpr as [s' k' ret Hc' Hk' Hret Hp'|s' Hc' Hp']; cbn [mbind option_bind].
  - rewrite (proj2 (Z.ltb_lt _ _)) by done. apply IH; [lia|done..|]. rewrite Hp', length_app, length_drop. lia.
  - exists s', fuel. split_and!; [done..|lia|done].
Qed.

(** Nothing arrives: the loop stops. *)
Lemma rx_loop_empty p net sc fuel s :
  scs net !! p = Some sc -> rx_ready (sc_rx sc) -> connected s -> pending s = [] ->
  exists s', connected s' /\ pending s' = []
    /\ rx_loop cluster kmalloc sendpage (Datatypes.S fuel) net s p = Some (set_sc net p (set_rx (sc_rx sc) sc), s', - EAGAIN).
Proof.
  intros Hsc [Hok [Ho1 Ho2] [L1 L2]] Hc Hp. cbn [rx_loop]. unfold pmnet_advance_rx. rewrite Hsc. cbn [mbind option_bind]. rewrite Hok, Ho1. cbn [negb].
  change (0 <? sizeof_pmnet_msg)%nat with true. cbn [negb]. unfold pmnet_recv_tcp_msg.
  destruct (sock_recvmsg s (sizeof_pmnet_msg - 0)) as [[s' ret] bs] eqn:E.
  destruct (recv_none s (sizeof_pmnet_msg - 0) s' ret bs Hc ltac:(unfold sizeof_pmnet_msg; lia) Hp E) as (Hc' & -> & -> & Hp'). exists s'. split_and!; [done..|].
  unfold overwrite.
  rewrite decide_True by (cbn [length]; lia). rewrite splice_nil. cbn [mbind option_bind]. unfold update_rx. rewrite Hsc. cbn [mbind option_bind].
  change (Z.to_nat (- EAGAIN)) with 0%nat. change (0 <? - EAGAIN) with false. cbn [andb]. change (- EAGAIN <=? 0) with true. cbn [mbind option_bind].
  change (0 <? - EAGAIN) with false. cbn iota. do 4 f_equal. unfold set_header. cbn. destruct (sc_rx sc). cbn in *. by subst.
Qed.

Lemma set_sc_same net p sc : scs net !! p = Some sc -> set_sc net p (set_rx (sc_rx sc) sc) = net.
Proof. intros Hsc. unfold set_sc. replace (set_rx (sc_rx sc) sc) with sc by by destruct sc. rewrite insert_id by done. by destruct net. Qed.

(** The messages that are handed over are those that were sent, in their order, however the
    stream is cut; a byte of fuel for every byte is enough. *)
Lemma rx_loop_messages p msgs : forall net sc net' fuel s,
  scs net !! p = Some sc -> rx_ready (sc_rx sc) -> Forall frame_ok msgs -> foldM (deliver p) msgs net = Some net' ->
  connected s -> pending s = concat (map frame_bytes msgs) -> (length (pending s) < fuel)%nat ->
  exists s', connected s' /\ pending s' = [] /\ rx_loop cluster kmalloc sendpage fuel net s p = Some (net', s', - EAGAIN).
Proof.
  induction msgs as [|f msgs IH]; intros net sc net' fuel s Hsc Hr Hfs Hd Hc Hp Hfuel; cbn [foldM map concat] in *.
  - injection Hd as <-. destruct fuel as [|fuel]; [lia|]. destruct (rx_loop_empty p net sc fuel s Hsc Hr Hc Hp) as (s' & Hc' & Hp' & ->).
    exists s'. by rewrite set_sc_same.
  - inv_bind Hd net1 Hd1. apply Forall_cons in Hfs as [Hf Hfs]. destruct (deliver_ready p net f net1 sc Hsc Hr Hf Hd1) as (sc1 & Hsc1 & Hr1).
    assert (at_frame net p sc f 0 = net) as E0 by (unfold at_frame; by rewrite partial_start, set_sc_same).
    destruct (rx_loop_frame p net sc f net1 (concat (map frame_bytes msgs)) fuel 0 s) as (s1 & fuel1 & Hc1 & Hp1 & Hl1 & E);
      [done..|rewrite length_frame; lia|done|done|done|].
    rewrite E0 in E. rewrite E. apply (IH net1 sc1); [done..|by rewrite Hp1].
Qed.

End Stream.

(** ** Replies with pages *)

(** Frame [f] answers request [w] of node [n] with a page. *)
Record page_reply (net : pmnet) (n : nat) (w : nat) (f : frame) : Prop := {
  pr_ok : frame_ok f;
  pr_kind : magic (f_hdr f) = PMNET_MSG_MAGIC /\ msg_type (f_hdr f) = PMNET_MSG_SENDPAGE;
  pr_page : length (f_payload f) = PAGE_SIZE;
  pr_waits : pmnet_nsw_completed net n w = Some false;
  pr_num : exists nsw, nsws net !! w = Some nsw /\ ns_id nsw = msg_num (f_hdr f);
}.

(** What the request then has. *)
Definition answered (f : frame) : pmnet_status_wait :=
  MkNsw (sys_status (f_hdr f)) (s32 (status (f_hdr f))) (msg_num (f_hdr f)) (Some (f_payload f)).

Lemma partial_whole f rx : rx_ready rx -> length (f_payload f) = PAGE_SIZE -> sc_page_data (partial f (length (frame_bytes f)) rx) = f_payload f.
Proof.
  intros [_ _ [_ L]] Hl. unfold partial. cbn [sc_page_data]. rewrite length_frame.
  replace (28 + length (f_payload f) - 28)%nat with (length (f_payload f)) by lia.
  rewrite firstn_all, splice_start, drop_ge by (rewrite Hl, L; lia). by rewrite app_nil_r.
Qed.

Lemma deliver_page kmalloc sendpage net p sc w f :
  (forall m, kmalloc m = true) -> scs net !! p = Some sc -> rx_ready (sc_rx sc) -> nodes_wait net -> page_reply net (sc_node sc) w f ->
  exists net' sc', deliver kmalloc sendpage p net f = Some net' /\ scs net' !! p = Some sc' /\ sc_node sc' = sc_node sc /\ nodes_wait net'
    /\ nsws net' = <[w := answered f]> (nsws net) /\ pmnet_nsw_completed net' (sc_node sc) w = Some true
    /\ forall j m, j <> w -> pmnet_nsw_completed net' m j = pmnet_nsw_completed net m j.
Proof.
  intros Hk Hsc Hr Hw [Hf [Hm Ht] Hl Hc (nsw & Hnsw & Hid)]. apply completed_spec in Hc as (nn & Hn & Hb).
  destruct (bool_decide_reflect (w ∈ nn_status_list nn)) as [Hin|]; [|done]. destruct (Hw _ nn Hn) as [_ W2 W3].
  assert (nn_status_idr nn !! msg_num (f_hdr f) = Some w) as Hidr by (apply W2; eauto). pose proof (W3 _ _ Hidr) as Hb'.
  set (net1 := at_frame net p sc f (length (frame_bytes f))).
  destruct (complete_others net1 (sc_node sc) nn w nsw (Some (f_payload f)) (sys_status (f_hdr f)) (s32 (status (f_hdr f))) Hn Hin Hnsw)
    as (net2 & Hcomp & Hns & Hno & Hdone & Hoth).
  assert (scs net1 !! p = Some (set_rx (partial f (length (frame_bytes f)) (sc_rx sc)) sc)) as Hsc1 by apply at_frame_lookup.
  assert (pmnet_process_message kmalloc sendpage net1 p (f_hdr f) = Some (net2, 0)) as Hproc.
  { unfold pmnet_process_message. rewrite Hsc1. cbn [mbind option_bind set_rx sc_rx sc_node]. rewrite Hm, Ht.
    cbn [Z.eqb Pos.eqb PMNET_MSG_MAGIC PMNET_MSG_STATUS_MAGIC PMNET_MSG_KEEP_REQ_MAGIC PMNET_MSG_KEEP_RESP_MAGIC PMNET_MSG_SENDPAGE].
    rewrite Hk, partial_whole by done. cbn [negb]. rewrite decide_True by done. unfold pmnet_complete_nsw_with_page, pmnet_nn_from_num.
    change (nodes net1) with (nodes net). rewrite Hn. cbn [mbind option_bind find_nsw]. rewrite (proj2 (Z.ltb_ge INT_MAX _)) by lia. rewrite Hidr.
    change (pmnet_complete_nsw_locked_with_page net1 (sc_node sc) w (f_payload f)) with (complete_nsw_locked net1 (sc_node sc) w (Some (f_payload f))).
    by rewrite Hcomp. }
  rewrite <- (complete_scs _ _ _ _ _ _ _ Hcomp) in Hsc1.
  assert (update_rx net p (partial f (length (frame_bytes f))) = Some net1) as Hup by (unfold update_rx; by rewrite Hsc).
  unfold deliver. rewrite Hup. cbn [mbind option_bind]. rewrite Hproc. cbn [mbind option_bind]. change (0 =? 0) with true. unfold update_rx. rewrite Hsc1. cbn iota. cbn [mbind option_bind]. eexists _, _.
  split_and!; [reflexivity|apply lookup_insert_eq|done| |cbn [set_sc nsws]; rewrite Hns; unfold answered; by rewrite Hid|exact Hdone|exact Hoth].
  assert (nodes_wait net2) as Hw2.
  { eapply narrows_nodes_wait, (complete_narrows (own := fun _ => True) net1); [|exact Hcomp]. by eapply narrows_nodes_wait, (narrows_sc (own := fun _ => True)). }
  by eapply narrows_nodes_wait, (narrows_sc (own := fun _ => True) net2).
Qed.

(** A run of replies, each to a request of its own. *)
Lemma deliver_pages kmalloc sendpage p n (Hk : forall m, kmalloc m = true) rs : forall net sc,
  scs net !! p = Some sc -> rx_ready (sc_rx sc) -> sc_node sc = n -> nodes_wait net ->
  NoDup rs.*1 -> Forall (fun r => page_reply net n (fst r) (snd r)) rs ->
  exists net', foldM (deliver kmalloc sendpage p) rs.*2 net = Some net'
    /\ (forall w f, (w, f) ∈ rs -> pmnet_nsw_completed net' n w = Some true /\ nsws net' !! w = Some (answered f))
    /\ forall j, j ∉ rs.*1 -> nsws net' !! j = nsws net !! j /\ forall m, pmnet_nsw_completed net' m j = pmnet_nsw_completed net m j.
Proof.
  induction rs as [|[w f] rs IH]; intros net sc Hsc Hr Hn Hw Hnd Hrs.
  { exists net. split_and!; [done|set_solver|done]. }
  apply Forall_cons in Hrs as [Hrep Hrs]. cbn [fst snd] in Hrep. rewrite fmap_cons in Hnd. apply NoDup_cons in Hnd as [Hw0 Hnd]. cbn [fst] in Hw0.
  rewrite <- Hn in Hrep. destruct (deliver_page kmalloc sendpage net p sc w f Hk Hsc Hr Hw Hrep) as (net1 & sc1 & Hd & Hsc1 & Hn1 & Hw1 & Hns & Hdone & Hoth).
  destruct (deliver_ready kmalloc sendpage p net f net1 sc Hsc Hr (pr_ok _ _ _ _ Hrep) Hd) as (sc1' & Hsc1' & Hr1).
  assert (sc1' = sc1) as -> by congruence.
  destruct (IH net1 sc1) as (net' & Hf & Hall & Hrest); [done..|congruence|done|done| |].
  { apply Forall_forall. intros [v g] Hin. pose proof (proj1 (Forall_forall _ _) Hrs (v, g) Hin) as Hpr. destruct Hpr as [A B C D (nsw & E & F)]. cbn [fst snd] in *. assert (v <> w) as Hne.
    { intros ->. apply Hw0. apply list_elem_of_fmap. by exists (w, g). }
    split; [done..|by rewrite Hoth|]. exists nsw. by rewrite Hns, lookup_insert_ne. }
  exists net'. cbn [fmap list_fmap foldM fst snd]. rewrite Hd. split_and!; [done| |].
  - intros v g [[= -> ->]|Hin]%elem_of_cons; [|by apply Hall]. destruct (Hrest w Hw0) as [-> ->]. rewrite Hns, lookup_insert_eq. split; [by rewrite <- Hn|done].
  - intros j [Hj1 Hj2]%not_elem_of_cons. destruct (Hrest j Hj2) as [-> Hc].
    rewrite Hns, lookup_insert_ne by done. split; [done|]. intros m. by rewrite Hc, Hoth.
Qed.

(** C12: Replies with pages arrive over a connection in pieces of any size.  One run of the loop of
    [pmnet_rx_until_empty] reads all of them and ends; every request that one of them answers
    has been completed, with the page that was sent to it, and nothing else has changed for
    the other requests. *)
Theorem pmnet_pages_reach_requests {S} `{SocketSpec S} cluster kmalloc sendpage net p sc rs (s : S) :
  scs net !! p = Some sc -> rx_ready (sc_rx sc) -> nodes_wait net -> (forall m, kmalloc m = true) ->
  NoDup rs.*1 -> Forall (fun r => page_reply net (sc_node sc) (fst r) (snd r)) rs ->
  connected s -> pending s = concat (map frame_bytes rs.*2) ->
  exists net' s', rx_loop cluster kmalloc sendpage (Datatypes.S (length (pending s))) net s p = Some (net', s', - EAGAIN) /\ pending s' = []
    /\ (forall w f, (w, f) ∈ rs -> pmnet_nsw_completed net' (sc_node sc) w = Some true /\ nsws net' !! w = Some (answered f))
    /\ forall j, j ∉ rs.*1 -> nsws net' !! j = nsws net !! j /\ forall m, pmnet_nsw_completed net' m j = pmnet_nsw_completed net m j.
Proof.
  intros Hsc Hr Hw Hk Hnd Hrs Hc Hp.
  destruct (deliver_pages kmalloc sendpage p (sc_node sc) Hk rs net sc Hsc Hr eq_refl Hw Hnd Hrs) as (net' & Hd & Hall & Hrest).
  destruct (rx_loop_messages cluster kmalloc sendpage p rs.*2 net sc net' (Datatypes.S (length (pending s))) s) as (s' & _ & Hp' & E); [done..| |done|done|done|lia|].
  { apply Forall_fmap. eapply Forall_impl; [exact Hrs|]. intros r Hr'. apply Hr'. }
  by exists net', s'.
Qed.

(** ** The reader never crashes on headers that fit

    [PmNode] leaves open what a thread that reads does to the node.  The reader of the code
    is one of these threads, and it returns: its container lives, its node and its requests
    are there, and the bytes fit the two pages as long as no header announces more than one
    page. *)

(** A read returns at most what was asked for, and counts it; an error has no bytes. *)
Class SocketBound (S : Type) `{Socket S} : Prop :=
  recv_bound : forall s n s' ret bs, sock_recvmsg s n = (s', ret, bs) -> (length bs <= n)%nat /\ length bs = Z.to_nat ret.

Section Reader.
Context {S : Type} `{SocketBound S} (cluster : pmnm_cluster) (kmalloc sendpage : pmnet_msg -> bool).

(** The node of a container stays the same while it is read. *)
Lemma rx_action_node n p net net' sc :
  rx_action n p net (Some net') -> scs net' !! p = Some sc -> exists sc0, scs net !! p = Some sc0 /\ sc_node sc0 = sc_node sc.
Proof.
  intros Ha. assert (kept sc_node net net') as K; [|by apply K]. remember (Some net') as o eqn:E.
  destruct Ha as [net id sys st|net id sys st page|net|net err|net sc0 rx Hsc0].
  - by eapply (complete_one_kept _ net n id None sys st).
  - by eapply (complete_one_kept _ net n id (Some page) sys st).
  - by eapply handshake_valid_kept.
  - by eapply ensure_shutdown_kept.
  - injection E as <-. by eapply set_sc_kept.
Qed.

Lemma recv_fits s page off len :
  (off + len <= length page)%nat -> exists s' ret bs, sock_recvmsg s len = (s', ret, bs)
    /\ pmnet_recv_tcp_msg s page off len = Some (s', ret, splice page off bs) /\ length (splice page off bs) = length page.
Proof.
  intros Hl. unfold pmnet_recv_tcp_msg. destruct (sock_recvmsg s len) as [[s' ret] bs] eqn:E. destruct (recv_bound _ _ _ _ _ E) as [Hb _].
  exists s', ret, bs. split; [done|]. unfold overwrite. rewrite decide_True by lia. split; [done|]. apply length_splice. lia.
Qed.

(** Both pages are there. *)
Definition pages_ok (rx : rx_state) : Prop := length (sc_page rx) = PAGE_SIZE /\ length (sc_page_data rx) = PAGE_SIZE.

(** The header in the page, or the one that the next read completes, announces at most a page. *)
Definition header_fits (s : S) (rx : rx_state) : Prop :=
  let page := if (sc_page_off rx <? sizeof_pmnet_msg)%nat
              then splice (sc_page rx) (sc_page_off rx) (sock_recvmsg s (sizeof_pmnet_msg - sc_page_off rx)).2
              else sc_page rx in
  data_len (msg_of page) <= Z.of_nat PAGE_SIZE.

Section Run.
Context (idr_alloc : gmap Z nat -> Z) (k : nat) (st0 : state) (i : nat) (p : Z) (n : nat).
Context (Hst0 : reachable idr_alloc k st0) (Hi : threads st0 !! i = Some (Reading p)).

(** Steps of the reader led from [st0] to [net], where its container has the state [rx]. *)
Definition reads_to (net : pmnet) (rx : rx_state) : Prop :=
  later idr_alloc st0 (MkState net (threads st0)) /\ exists sc, scs net !! p = Some sc /\ sc_node sc = n /\ sc_rx sc = rx.

Lemma act_total net rx o :
  reads_to net rx -> rx_action n p net o ->
  exists net' rx', o = Some net' /\ reads_to net' rx' /\ (kept sc_rx net net' -> rx' = rx).
Proof.
  intros (Hl & sc & Hsc & Hn & Hrx) Ha. pose proof (later_reachable _ _ _ _ Hst0 Hl) as Hreach.
  assert (exists net', o = Some net') as [net' ->].
  { pose proof (reachable_inv _ _ _ Hreach) as Hinv. destruct (rx_moves net n p o) as (net' & -> & _); [apply Hinv| |done|eauto].
    rewrite <- Hn. by apply (ok_node _ (i_ok _ Hinv) p). }
  assert (later idr_alloc st0 (MkState net' (threads st0))) as Hl'.
  { eapply rtc_r; [exact Hl|]. replace (threads st0) with (<[i := Reading p]> (threads st0)) at 2 by by apply list_insert_id.
    apply (step_thread _ (MkState net (threads st0)) i (Reading p) (Some net') (Reading p)); [done|]. apply (read_some _ _ _ _ sc); [done|]. by rewrite Hn. }
  assert (is_Some (scs net' !! p)) as [sc' Hsc'].
  { apply rest_live, (holds_live (MkState net' (threads st0)) i (Reading p)); [|done|cbn; by rewrite Z.eqb_refl].
    eapply reachable_inv, later_reachable; [exact Hst0|exact Hl']. }
  destruct (rx_action_node n p net net' sc' Ha Hsc') as (sc1 & Hsc1 & Hn'). exists net', (sc_rx sc'). split_and!; [done|split; [done|]|].
  - exists sc'. split_and!; [done|congruence|done].
  - intros K. destruct (K p sc' Hsc') as (sc2 & Hsc2 & E). congruence.
Qed.

Lemma update_total net rx g : reads_to net rx -> exists net', update_rx net p g = Some net' /\ reads_to net' (g rx).
Proof.
  intros Hr. pose proof Hr as (_ & sc & Hsc & _ & Hrx). unfold update_rx. rewrite Hsc. cbn [mbind option_bind]. eexists. split; [done|].
  destruct (act_total net rx _ Hr (rx_bytes n p net sc (g (sc_rx sc)) Hsc)) as (net' & rx' & [= <-] & Hr' & _).
  destruct Hr' as (Hl & sc' & Hsc' & Hn & Hrx'). split; [done|]. exists sc'. split_and!; [done|done|]. cbn [set_sc scs] in Hsc'.
  rewrite lookup_insert_eq in Hsc'. injection Hsc' as <-. cbn. by rewrite Hrx.
Qed.

(** The other actions leave the pages alone. *)
Lemma act_same net rx o :
  reads_to net rx -> rx_action n p net o -> (forall net', o = Some net' -> kept sc_rx net net') -> exists net', o = Some net' /\ reads_to net' rx.
Proof. intros Hr Ha Hk. destruct (act_total net rx o Hr Ha) as (net' & rx' & -> & Hr' & E). exists net'. split; [done|]. by rewrite <- E by auto. Qed.

Lemma complete_total net rx id sys st :
  reads_to net rx -> exists net', pmnet_complete_nsw net n None id sys st = Some net' /\ reads_to net' rx.
Proof.
  intros Hr. apply (act_same net rx _ Hr); [apply rx_status|]. intros net'. by apply (complete_one_kept _ net n id None sys st).
Qed.

Lemma complete_page_total net rx page id sys st :
  reads_to net rx -> exists net', pmnet_complete_nsw_with_page net n None page id sys st = Some net' /\ reads_to net' rx.
Proof.
  intros Hr. apply (act_same net rx _ Hr); [apply rx_page|]. intros net'. by apply (complete_one_kept _ net n id (Some page) sys st).
Qed.

Lemma shutdown_total net rx err : reads_to net rx -> exists net', pmnet_ensure_shutdown net n p err = Some net' /\ reads_to net' rx.
Proof. intros Hr. apply (act_same net rx _ Hr); [apply rx_shutdown|]. intros net'. by apply ensure_shutdown_kept. Qed.

Lemma process_total net rx hdr :
  reads_to net rx -> length (sc_page_data rx) = PAGE_SIZE ->
  exists net' r, pmnet_process_message kmalloc sendpage net p hdr = Some (net', r) /\ reads_to net' rx.
Proof.
  intros Hr Hlen. pose proof Hr as (_ & sc & Hsc & Hn & Hrx). unfold pmnet_process_message. rewrite Hsc. cbn [mbind option_bind]. rewrite Hn, Hrx.
  assert (exists net', (if sendpage hdr then Some net else pmnet_ensure_shutdown net n p 0) = Some net' /\ reads_to net' rx) as (net1 & E1 & R1)
    by (destruct (sendpage hdr); [by exists net|by apply shutdown_total]). rewrite E1.
  destruct (complete_total net rx (msg_num hdr) (sys_status hdr) (s32 (status hdr)) Hr) as (net2 & E2 & R2). rewrite E2.
  destruct (complete_total net rx (msg_num hdr) (sys_status hdr) (-1) Hr) as (net3 & E3 & R3). rewrite E3.
  destruct (complete_page_total net rx (sc_page_data rx) (msg_num hdr) (sys_status hdr) (s32 (status hdr)) Hr) as (net4 & E4 & R4). rewrite E4.
  rewrite decide_True by done. cbn [mbind option_bind]. repeat case_match; eauto.
Qed.

Lemma check_handshake_total net rx :
  reads_to net rx -> pages_ok rx -> sc_page_off rx = sizeof_pmnet_handshake ->
  exists net' rx', pmnet_check_handshake cluster net p = Some net' /\ reads_to net' rx' /\ pages_ok rx'.
Proof.
  intros Hr Hp Hoff. pose proof Hr as (_ & sc & Hsc & Hn & Hrx). unfold pmnet_check_handshake. rewrite Hsc. cbn [mbind option_bind]. rewrite Hn, Hrx.
  destruct (hand_accepted _ _); [|destruct (shutdown_total net rx (- ENOTCONN) Hr) as (net' & ? & ?); eauto].
  destruct (update_total net rx (fun rx => MkRx true (sc_page rx) (sc_page_off rx) (sc_page_data rx) (sc_page_data_off rx)) Hr) as (net1 & E1 & R1).
  rewrite E1. cbn [mbind option_bind]. destruct (act_same net1 _ _ R1 (rx_handshake n p net1)) as (net2 & E2 & R2); [intros net'; by apply handshake_valid_kept|].
  rewrite E2. cbn [mbind option_bind]. match goal with |- context [update_rx net2 p ?g] => destruct (update_total net2 _ g R2) as (net3 & E3 & R3) end.
  rewrite E3. eexists _, _. split_and!; [done|exact R3|]. cbn [sc_page sc_page_off sc_page_data]. rewrite Hoff, Nat.sub_diag. exact Hp.
Qed.

Lemma handshake_total net s rx :
  reads_to net rx -> pages_ok rx ->
  exists net' s' ret rx', advance_handshake cluster net s p = Some (net', s', ret) /\ reads_to net' rx' /\ pages_ok rx'.
Proof.
  intros Hr Hp. pose proof Hr as (_ & sc & Hsc & Hn & Hrx). unfold advance_handshake. rewrite Hsc. cbn [mbind option_bind]. rewrite Hrx.
  match goal with |- context [mbind _ ?o] => assert (exists net1 s1 ret rx1, o = Some (net1, s1, ret) /\ reads_to net1 rx1 /\ pages_ok rx1)
    as (net1 & s1 & ret & rx1 & E1 & R1 & P1) end.
  { destruct (Nat.ltb_spec (sc_page_off rx) sizeof_pmnet_handshake) as [Hlt|]; [|by eexists _, _, _, _].
    destruct (recv_fits s (sc_page rx) (sc_page_off rx) (sizeof_pmnet_handshake - sc_page_off rx)) as (s' & ret & bs & _ & E & El).
    { rewrite (proj1 Hp). unfold sizeof_pmnet_handshake, PAGE_SIZE in *. lia. }
    rewrite E. cbn [mbind option_bind]. destruct (update_total net rx (set_header (splice (sc_page rx) (sc_page_off rx) bs) (sc_page_off rx + Z.to_nat ret)) Hr)
      as (net1 & E1 & R1). rewrite E1. eexists _, _, _, _. split_and!; [done|exact R1|]. split; [cbn; rewrite El|]; apply Hp. }
  rewrite E1. cbn [mbind option_bind]. pose proof R1 as (_ & sc1 & Hsc1 & _ & Hrx1). rewrite Hsc1. cbn [mbind option_bind]. rewrite Hrx1.
  destruct (Nat.eqb_spec (sc_page_off rx1) sizeof_pmnet_handshake) as [Ho|]; [|by eexists _, _, _, _].
  destruct (check_handshake_total net1 rx1 R1 P1 Ho) as (net2 & rx2 & E2 & R2 & P2). rewrite E2. cbn [mbind option_bind].
  pose proof R2 as (_ & sc2 & Hsc2 & _ & _). rewrite Hsc2. cbn [mbind option_bind]. by eexists _, _, _, _.
Qed.

Lemma payload_total net s ret rx :
  reads_to net rx -> pages_ok rx -> data_len (msg_of (sc_page rx)) <= Z.of_nat PAGE_SIZE ->
  exists net' s' ret' rx', advance_payload kmalloc sendpage net s p ret = Some (net', s', ret') /\ reads_to net' rx' /\ pages_ok rx'.
Proof.
  intros Hr Hp Hd. pose proof Hr as (_ & sc & Hsc & Hn & Hrx). unfold advance_payload. rewrite Hsc. cbn [mbind option_bind]. rewrite Hrx.
  match goal with |- context [mbind _ ?o] => assert (exists net1 s1 ret1 stop rx1, o = Some (net1, s1, ret1, stop) /\ reads_to net1 rx1 /\ pages_ok rx1)
    as (net1 & s1 & ret1 & stop & rx1 & E1 & R1 & P1) end.
  { destruct (Nat.ltb_spec (sc_page_data_off rx) (Z.to_nat (data_len (msg_of (sc_page rx))))) as [Hlt|]; [|by eexists _, _, _, _, _].
    destruct (recv_fits s (sc_page_data rx) (sc_page_data_off rx) (Z.to_nat (data_len (msg_of (sc_page rx))) - sc_page_data_off rx)) as (s' & r & bs & _ & E & El).
    { rewrite (proj2 Hp). lia. }
    rewrite E. cbn [mbind option_bind]. destruct (update_total net rx (set_payload (splice (sc_page_data rx) (sc_page_data_off rx) bs) (sc_page_data_off rx + Z.to_nat r)) Hr)
      as (net1 & E1 & R1). rewrite E1. eexists _, _, _, _, _. split_and!; [done|exact R1|]. split; [|cbn; rewrite El]; apply Hp. }
  rewrite E1. cbn [mbind option_bind]. destruct stop; [by eexists _, _, _, _|]. pose proof R1 as (_ & sc1 & Hsc1 & _ & Hrx1). rewrite Hsc1. cbn [mbind option_bind].
  destruct (_ =? _)%nat; [|by exists net1, s1, ret1, rx1]. destruct (process_total net1 rx1 (msg_of (sc_page rx)) R1 (proj2 P1)) as (net2 & r & E2 & R2). rewrite E2.
  cbn [mbind option_bind]. destruct (update_total net2 rx1 reset_rx R2) as (net3 & E3 & R3). rewrite E3. by eexists _, _, _, _.
Qed.

Lemma advance_total net s rx :
  reads_to net rx -> pages_ok rx -> header_fits s rx ->
  exists net' s' ret rx', pmnet_advance_rx cluster kmalloc sendpage net s p = Some (net', s', ret) /\ reads_to net' rx' /\ pages_ok rx'.
Proof.
  intros Hr Hp Hf. pose proof Hr as (_ & sc & Hsc & Hn & Hrx). unfold pmnet_advance_rx. rewrite Hsc. cbn [mbind option_bind]. rewrite Hrx.
  destruct (negb _); [by apply (handshake_total net s rx)|]. unfold header_fits in Hf.
  destruct (Nat.ltb_spec (sc_page_off rx) sizeof_pmnet_msg) as [Hlt|]; [|by apply (payload_total net s 0 rx)].
  destruct (recv_fits s (sc_page rx) (sc_page_off rx) (sizeof_pmnet_msg - sc_page_off rx)) as (s' & ret & bs & Es & E & El).
  { rewrite (proj1 Hp). unfold sizeof_pmnet_msg, PAGE_SIZE in *. lia. }
  rewrite E. cbn [mbind option_bind]. rewrite Es in Hf. cbn [snd] in Hf.
  destruct (update_total net rx (set_header (splice (sc_page rx) (sc_page_off rx) bs) (sc_page_off rx + Z.to_nat ret)) Hr) as (net1 & E1 & R1).
  rewrite E1. cbn [mbind option_bind]. assert (pages_ok (set_header (splice (sc_page rx) (sc_page_off rx) bs) (sc_page_off rx + Z.to_nat ret) rx)) as P1
    by (split; [cbn; rewrite El|]; apply Hp).
  destruct (_ <=? 0); [by eexists _, _, _, _|]. destruct (_ <? _)%nat; [by eexists _, _, _, _|]. by eapply payload_total.
Qed.

End Run.


End Reader.

(** ** A socket *)

(** The segments that are still to arrive; a read returns bytes of one of them. *)
Fixpoint recv_segment (segs : list (list Z)) (n : nat) : list (list Z) * Z * list Z :=
  match segs with
  | [] => ([], - EAGAIN, [])
  | [] :: segs => recv_segment segs n
  | seg :: segs => (drop n seg :: segs, Z.of_nat (length (take n seg)), take n seg)
  end.
#[export] Instance segments : Socket (list (list Z)) := { sock_recvmsg := recv_segment; pending := @concat Z; connected _ := True }.

Lemma recv_segment_some n segs : (0 < n)%nat -> concat segs <> [] ->
  exists k segs', (0 < k <= n)%nat /\ (k <= length (concat segs))%nat /\ concat segs' = drop k (concat segs)
    /\ recv_segment segs n = (segs', Z.of_nat k, take k (concat segs)).
Proof.
  intros Hn. induction segs as [|seg segs IH]; intros Hne; [done|]. destruct seg as [|b seg]; [by apply IH|].
  set (l := b :: seg). assert (0 < length l)%nat as Hl by (cbn; lia). exists (n `min` length l)%nat, (drop n l :: segs).
  change (concat (l :: segs)) with (l ++ concat segs). rewrite length_app. split_and!; [lia|lia|lia| |].
  - change (concat (drop n l :: segs)) with (drop n l ++ concat segs). rewrite drop_app_le by lia. f_equal. destruct (decide (n <= length l)%nat).
    + by rewrite Nat.min_l.
    + rewrite Nat.min_r, !drop_ge by lia. done.
  - rewrite take_app_le by lia. change (recv_segment (l :: segs) n) with (drop n l :: segs, Z.of_nat (length (take n l)), take n l).
    rewrite length_take. f_equal. destruct (decide (n <= length l)%nat); [by rewrite Nat.min_l|]. rewrite Nat.min_r, !take_ge by lia. done.
Qed.

#[export] Instance segments_spec : SocketSpec (list (list Z)).
Proof.
  split; cbn [sock_recvmsg pending connected segments].
  - intros s n s' ret bs _ Hn Hne E. destruct (recv_segment_some n s Hn Hne) as (k & segs' & H1 & H2 & H3 & H4).
    rewrite H4 in E. injection E as <- <- <-. split; [done|]. exists k. by rewrite H3.
  - intros s n s' ret bs _ Hn. induction s as [|seg s IH]; intros He E; [cbn in E; by injection E as <- <- <-|].
    apply app_nil in He as [-> He]. by apply IH.
Qed.

#[export] Instance segments_bound : SocketBound (list (list Z)).
Proof.
  intros s n. induction s as [|seg s IH]; intros s' ret bs E; [cbn in E; injection E as <- <- <-; split; [cbn; lia|done]|]. destruct seg as [|b seg]; [by eapply IH|].
  injection E as <- <- <-. rewrite Nat2Z.id. split; [|done]. rewrite length_take. lia.
Qed.

(** ** Runs *)

Module RxDemo.

Definition page (b : Z) : list Z := repeat b PAGE_SIZE.
(** Two requests wait, of numbers 0 and 1. *)
Definition net0 : pmnet :=
  MkNet [MkNode (Some 1) true 0 0 {[ 0 := 5%nat; 1 := 6%nat ]} [5%nat; 6%nat]]
    {[ 1 := MkSc 3 0 true [] (MkRx true (page 0) 0 (page 0) 0) ]}
    {[ 5%nat := MkNsw 0 0 0 None; 6%nat := MkNsw 0 0 1 None ]}.
Definition reply (num b : Z) : frame :=
  MkFrame (MkMsg PMNET_MSG_MAGIC 4096 PMNET_MSG_SENDPAGE 0 0 0 7 num 3) (page b).
(** They are answered in the other order. *)
Definition replies : list (nat * frame) := [(6%nat, reply 1 17); (5%nat, reply 0 34)].
Definition stream : list Z := concat (map frame_bytes replies.*2).
(** A cut in a header, one in a page, one that takes the end of a page and a part of the next header. *)
Definition cut : list (list Z) := [take 10 stream; take 100 (drop 10 stream); []; take 4020 (drop 110 stream); drop 4130 stream].

Lemma cut_pending : pending cut = stream.
Proof. vm_compute. reflexivity. Qed.

Lemma replies_ok : Forall (fun r => page_reply net0 0 (fst r) (snd r)) replies.
Proof.
  assert (forall w num b, pmnet_nsw_completed net0 0 w = Some false -> 0 <= num < 2 ^ 32 ->
    (exists nsw, nsws net0 !! w = Some nsw /\ ns_id nsw = num) -> page_reply net0 0 w (reply num b)) as Hall.
  { intros w num b Hc Hb Hn. split; [|done|apply repeat_length|done|done].
    split; [unfold msg_ok; cbn; unfold PMNET_MSG_MAGIC, PMNET_MSG_SENDPAGE; lia|..]; cbn [reply f_hdr f_payload data_len]; unfold page; by rewrite repeat_length. }
  repeat apply Forall_cons_2; [apply Hall; [by vm_compute|lia|]..|constructor]; eexists; split; by vm_compute.
Qed.

Lemma net0_waits : nodes_wait net0.
Proof.
  intros n nn Hn. destruct n; [|done]. injection Hn as <-. split; cbn [nn_status_list nn_status_idr].
  - repeat constructor; set_solver.
  - intros id w. rewrite lookup_insert_Some, lookup_singleton_Some. split.
    + intros [[<- <-]|(_ & <- & <-)]; (split; [set_solver|eexists; split; by vm_compute]).
    + intros [Hw (nsw & Hnsw & <-)]. apply elem_of_cons in Hw as [-> | ->%list_elem_of_singleton].
      * vm_compute in Hnsw. injection Hnsw as <-. by left.
      * vm_compute in Hnsw. injection Hnsw as <-. by right.
  - intros id w. rewrite lookup_insert_Some, lookup_singleton_Some. unfold INT_MAX. intros [[<- _]|(_ & <- & _)]; lia.
Qed.

End RxDemo.

Lemma pmnet_pages_reach_requests_witness :
  exists net' s', rx_loop init_pmnm_cluster (fun _ => true) (fun _ => true) (Datatypes.S (length (pending RxDemo.cut))) RxDemo.net0 RxDemo.cut 1
      = Some (net', s', - EAGAIN) /\ pending s' = []
    /\ (forall w f, (w, f) ∈ RxDemo.replies -> pmnet_nsw_completed net' 0 w = Some true /\ nsws net' !! w = Some (answered f))
    /\ forall j, j ∉ RxDemo.replies.*1 -> nsws net' !! j = nsws RxDemo.net0 !! j
         /\ forall m, pmnet_nsw_completed net' m j = pmnet_nsw_completed RxDemo.net0 m j.
Proof.
  apply (pmnet_pages_reach_requests init_pmnm_cluster (fun _ => true) (fun _ => true) RxDemo.net0 1
    (MkSc 3 0 true [] (MkRx true (RxDemo.page 0) 0 (RxDemo.page 0) 0)) RxDemo.replies RxDemo.cut);
    [done|split; [done|done|split; apply repeat_length]|apply RxDemo.net0_waits|done|vm_compute; repeat constructor; set_solver
    |apply RxDemo.replies_ok|done|apply RxDemo.cut_pending].
Defined.

(** A length that passes the check, of a payload that does not fit the page. *)
Example long_payload_overflows :
  let hdr := MkMsg PMNET_MSG_MAGIC 5000 PMNET_MSG_SENDPAGE 0 0 0 7 0 3 in
  data_len hdr <= PMNET_MAX_PAYLOAD_BYTES
  /\ rx_loop init_pmnm_cluster (fun _ => true) (fun _ => true) 9 RxDemo.net0 [msg_bytes hdr; repeat 1 5000] 1 = None.
Proof. split; [by vm_compute|]. vm_compute. reflexivity. Qed.

Module ShakeDemo.
Import PmDemo.

(** The connection is made; a container with two pages [pg] is read for the first time. *)
Definition t1 (pg : list Z) := after (init_state 0) 0 (ConnNew 0 1) (Some (sc_alloc (net (init_state 0)) 1 0 pg (Some pg))).
Definition t2 pg := after (t1 pg) 0 (ConnReg 0 1) (pmnet_register_callbacks (net (t1 pg)) 1).
Definition t3 pg := after (t2 pg) 0 (ConnSet 0 1) (pmnet_set_nn_state (net (t2 pg)) 0 (Some 1) false 0).
Definition t4 pg := after (t3 pg) 0 (WorkPut 1) (Some (net (t3 pg))).
Definition t5 pg := after (t4 pg) 0 Idle (sc_put (net (t4 pg)) 1).
Definition t6 pg := MkState (default (net (t5 pg)) (pmnet_sc_queue_work (net (t5 pg)) 1 RxWork)) (threads (t5 pg)).
Definition t7 pg := start_work (t6 pg) 1 RxWork 0.

Lemma t7_runs pg : reachable lowest 0 (t7 pg).
Proof.
  apply (work_runs 0 (t6 pg) 1 RxWork 0); [|by vm_compute|by vm_compute|done].
  apply (reach_step _ _ (t5 pg)); [|apply step_outside; by apply (callback (t5 pg) 1 (sc_of (net (t5 pg)) 1) RxWork); vm_compute].
  apply (run_step 0 (t4 pg) 0 (WorkPut 1)); [|done|apply work_put|by vm_compute].
  apply (run_step 0 (t3 pg) 0 (ConnSet 0 1)); [|done|apply conn_ok|by vm_compute].
  apply (run_step 0 (t2 pg) 0 (ConnReg 0 1)); [|done|apply conn_state|by vm_compute].
  apply (run_step 0 (t1 pg) 0 (ConnNew 0 1)); [|done|apply conn_register|by vm_compute].
  apply (run_step 0 (init_state 0) 0 (ConnStart 0)); [apply reach_init|done|by apply conn_alloc|by vm_compute].
Qed.

(** What [t7] is, and what it becomes when the handshake of the server has come. *)
Definition at_read (rx : rx_state) (valid : bool) : pmnet :=
  MkNet [MkNode (Some 1) valid 0 0 ∅ []; static_node] {[ 1 := MkSc 3 0 true [] rx ]} ∅.

Lemma t7_is pg : t7 pg = MkState (at_read (MkRx false pg 0 pg 0) false) [Reading 1].
Proof. vm_compute. reflexivity. Qed.

Definition hello : list Z := hand_bytes (pmnet_initialize_handshake init_pmnm_cluster).

End ShakeDemo.

