(* ===== verification/Client.v ===== *)
(** * The client of the server (client/rdpma.c) and the cleancache backend (client/julee.c)

    A put finds the queue of its processor, adds the key to the client's Bloom
    filter and sends the page; in the two-sided build four pages go together.
    A get asks the filter, writes the key and the address of the page to the
    server and waits for the reply.  Every call holds the lock of its queue
    while a request is under way, so a run is a sequence of calls; what the
    network does to a call is the argument [events].

    The operations are translated for the three builds of the put and the two
    of the get.  The theorems are about the two-sided build, whose client and
    server are composed with the table behind them. *)

From S2P Require Import Prelude PairDefs HashFun CountingBloom ClientBloom LinearProbing KV Wire Server.

(** ** Results

    A call returns, stops the kernel ([BUG_ON], a null pointer), never returns,
    or does something C leaves undefined. *)
Inductive outcome (A : Type) :=
| Ret (a : A)
| Bug
| Hang
| Undefined.
Arguments Ret {A}.
Arguments Bug {A}.
Arguments Hang {A}.
Arguments Undefined {A}.

#[export] Instance outcome_ret : MRet outcome := fun A => Ret.
#[export] Instance outcome_bind : MBind outcome := fun A B f m =>
  match m with
  | Ret a => f a
  | Bug => Bug
  | Hang => Hang
  | Undefined => Undefined
  end.

Definition defined {A} (o : option A) : outcome A := match o with Some a => Ret a | None => Undefined end.
Definition bug_on {A} (o : option A) : outcome A := match o with Some a => Ret a | None => Bug end.

Lemma bind_Ret {A B} (m : outcome A) (f : A -> outcome B) b :
  (m ≫= f) = Ret b <-> exists a, m = Ret a /\ f a = Ret b.
Proof.
  split; [|by intros (a & -> & Hf)]. destruct m as [a| | |]; try done. intros Hf. by exists a.
Qed.

Lemma defined_Ret {A} (o : option A) a : defined o = Ret a <-> o = Some a.
Proof. destruct o; cbn; split; congruence. Qed.

Lemma bug_on_Ret {A} (o : option A) a : bug_on o = Ret a <-> o = Some a.
Proof. destruct o; cbn; split; congruence. Qed.

(** ** State *)

Record rdma_queue : Type := MkQueue {
  buffer : list (list Z);     (** [char buffer[PAGE_SIZE * BATCH_SIZE]], by pages *)
  keys : list Z;
  nr_buffered : Z;
  global_lock : bool;
  recv_wrs : nat;             (** receives posted *)
  recv_cq : list Z;           (** replies that have not been polled, oldest first *)
}.

Record client : Type := MkClient {
  filter : bloom_filter;
  queues : list rdma_queue;
  cmem : memory;              (** by DMA address *)
}.

Record system (T : Type) : Type := MkSystem {
  clients : gmap Z client;
  srv : server T;
}.
Arguments MkSystem {T}.
Arguments clients {T}.
Arguments srv {T}.

(** What happens to one call: the allocation of the metadata; the two DMA
    mappings, and whether their addresses are not zero; the request reaches the
    server (for the one-sided calls, [ib_post_send] accepts it); the server sees
    its reply complete; the reply reaches the client; the two polls of the client
    report no error, and the poll for the page in the build that sends it last;
    [ib_post_recv] accepts the next receive. *)
Record events : Type := MkEvents {
  ev_memory : bool;
  ev_map_page : bool;
  ev_addr_page : bool;
  ev_map_meta : bool;
  ev_addr_meta : bool;
  ev_delivered : bool;
  ev_sent : bool;
  ev_replied : bool;
  ev_send : bool;
  ev_recv : bool;
  ev_page : bool;
  ev_post : bool;
}.
Definition fine : events := MkEvents true true true true true true true true true true true true.

Definition ENOMEM : Z := 12.

Definition set_lock (b : bool) (q : rdma_queue) : rdma_queue :=
  MkQueue (buffer q) (keys q) (nr_buffered q) b (recv_wrs q) (recv_cq q).
Definition set_nr (n : Z) (q : rdma_queue) : rdma_queue :=
  MkQueue (buffer q) (keys q) n (global_lock q) (recv_wrs q) (recv_cq q).
Definition set_batch (b : list (list Z)) (k : list Z) (q : rdma_queue) : rdma_queue :=
  MkQueue b k (nr_buffered q) (global_lock q) (recv_wrs q) (recv_cq q).
Definition set_cq (n : nat) (l : list Z) (q : rdma_queue) : rdma_queue :=
  MkQueue (buffer q) (keys q) (nr_buffered q) (global_lock q) n l.

(** [post_recv] *)
Definition client_post_recv (q : rdma_queue) : rdma_queue := set_cq (S (recv_wrs q)) (recv_cq q) q.

(** [julee_rdma_init_queue], and the receives the module posts when it is loaded *)
Definition init_queue : rdma_queue :=
  MkQueue (replicate (Z.to_nat Cli.BATCH_SIZE) (replicate (Z.to_nat Cli.PAGE_SIZE) 0))
    (replicate (Z.to_nat Cli.BATCH_SIZE) 0) 0 false 0 [].
Definition init_client (numqueues : Z) (f : bloom_filter) (m : memory) : client :=
  MkClient f (replicate (Z.to_nat numqueues) (Nat.iter 100 client_post_recv init_queue)) m.

(** [rdpma_metadata] *)
Definition meta_bytes (key batch raddr : Z) : list Z := le_bytes 8 key ++ le_bytes 8 batch ++ le_bytes 8 raddr.

Section Operations.
Context {T : Type} `{IHash T} `{Verbs} (cfg : config) (pb : put_build) (gb : get_build) (numqueues : Z).

Definition set_srv (sys : system T) (st : server T) : system T := MkSystem (clients sys) st.
Definition set_client (sys : system T) (cid : Z) (cl : client) : system T :=
  MkSystem (<[cid := cl]> (clients sys)) (srv sys).
Definition set_filter (cl : client) (f : bloom_filter) : client := MkClient f (queues cl) (cmem cl).
Definition set_cmem (cl : client) (m : memory) : client := MkClient (filter cl) (queues cl) m.
Definition set_queue (cl : client) (qid : Z) (q : rdma_queue) : client :=
  MkClient (filter cl) (<[Z.to_nat qid := q]> (queues cl)) (cmem cl).

Definition get_client (sys : system T) (cid : Z) : outcome client := defined (clients sys !! cid).
Definition get_queue (sys : system T) (cid qid : Z) : outcome rdma_queue :=
  cl ← get_client sys cid; defined (queues cl !! Z.to_nat qid).
Definition on_queue (sys : system T) (cid qid : Z) (f : rdma_queue -> rdma_queue) : outcome (system T) :=
  cl ← get_client sys cid;
  q ← defined (queues cl !! Z.to_nat qid);
  Ret (set_client sys cid (set_queue cl qid (f q))).
Definition on_memory (sys : system T) (cid : Z) (f : memory -> memory) : outcome (system T) :=
  cl ← get_client sys cid; Ret (set_client sys cid (set_cmem cl (f (cmem cl)))).
Definition on_server (sys : system T) (f : memory -> memory) : system T :=
  set_srv sys (set_mem (srv sys) (f (smem (srv sys)))).

(** [spin_lock], which waits for ever when the lock is never released *)
Definition spin_lock (sys : system T) (cid qid : Z) : outcome (system T) :=
  q ← get_queue sys cid qid;
  if global_lock q then Hang else on_queue sys cid qid (set_lock true).
Definition spin_unlock (sys : system T) (cid qid : Z) : outcome (system T) :=
  on_queue sys cid qid (set_lock false).

(** The reply of the server: its data, and a completion in the receive queue. *)
Definition reply (sys : system T) (cid qid : Z) (s : send) : outcome (system T) :=
  let complete imm q :=
    match recv_wrs q with
    | O => Hang
    | S n => Ret (set_cq n (recv_cq q ++ [imm]) q)
    end in
  let go sys imm :=
    q ← get_queue sys cid qid;
    q ← complete imm q;
    on_queue sys cid qid (fun _ => q) in
  match s with
  | SendImm imm => go sys imm
  | SendData addr data imm => sys ← on_memory sys cid (fun m => rdma_write m addr data); go sys imm
  end.

(** The server takes a completion. *)
Definition serve (ev : events) (sys : system T) (cid qid : Z) (wc : completion) : outcome (system T) :=
  '(st, s) ← defined (server_recv cfg pb gb (ev_sent ev) (srv sys) cid qid wc);
  let sys := set_srv sys st in
  match s with
  | Some s => if ev_replied ev then reply sys cid qid s else Ret sys
  | None => Ret sys
  end.

(** A message with immediate data takes a receive of the server. *)
Definition consume (sys : system T) (cid qid : Z) : outcome (system T * Z) :=
  match take_recv (srv sys) cid qid with
  | Some (a, st) => Ret (set_srv sys st, a)
  | None => Hang
  end.

(** [IB_WR_RDMA_WRITE_WITH_IMM] *)
Definition write_with_imm (ev : events) (sys : system T) (cid qid addr : Z) (bs : list Z) (imm : Z)
  : outcome (system T) :=
  let sys := on_server sys (fun m => rdma_write m addr bs) in
  '(sys, _) ← consume sys cid qid;
  serve ev sys cid qid (WC_RECV_RDMA_WITH_IMM imm).

(** [IB_WR_SEND_WITH_IMM]; a receive without a buffer is too short for it. *)
Definition send_with_imm (ev : events) (sys : system T) (cid qid : Z) (bs : list Z) (imm : Z)
  : outcome (system T) :=
  '(sys, a) ← consume sys cid qid;
  if a =? 0 then Undefined
  else
    let sys := on_server sys (fun m => rdma_write m a bs) in
    serve ev sys cid qid (WC_RECV a imm).

(** The loop that polls the receive queue. *)
Definition poll_recv (sys : system T) (cid qid : Z) : outcome (system T * Z) :=
  q ← get_queue sys cid qid;
  match recv_cq q with
  | [] => Hang
  | imm :: l => sys ← on_queue sys cid qid (set_cq (recv_wrs q) l); Ret (sys, imm)
  end.

Definition servermr (cid : Z) : Z := local_mm cfg cid.

(** [ret = post_recv(q); BUG_ON(ret)] *)
Definition repost (ev : events) (sys : system T) (cid qid : Z) : outcome (system T) :=
  if ev_post ev then on_queue sys cid qid client_post_recv else Bug.

(** *** [rdpma_put] with [TWOSIDED] and [CBLOOMFILTER] *)

Definition put_out (ev : events) (sys : system T) (cid qid : Z) : outcome (system T * Z) :=
  sys ← on_queue sys cid qid (set_nr 0);
  sys ← spin_unlock sys cid qid;
  sys ← repost ev sys cid qid;
  Ret (sys, 0).

(** The keys go to the entry of the queue, the pages to the oldest receive. *)
Definition send_batch (ev : events) (sys : system T) (cid queue_id batch : Z) : outcome (system T) :=
  q ← get_queue sys cid queue_id;
  let imm := htonl (Cli.bit_mask batch 0 (msg_code MSG_WRITE) (tx_code TX_WRITE_BEGIN) queue_id) in
  let raddr := servermr cid + Cli.GET_OFFSET_FROM_BASE queue_id 0 in
  let sys := on_server sys (fun m => rdma_write m raddr (concat (le_bytes 8 <$> keys q))) in
  send_with_imm ev sys cid queue_id (concat (buffer q)) imm.

(** The page goes to the batch of the queue, which is sent when it is full. *)
Definition put_batch (ev : events) (sys : system T) (cid queue_id : Z) (page : list Z) (key batch : Z)
  : outcome (system T * Z) :=
  sys ← spin_lock sys cid queue_id;
  q ← get_queue sys cid queue_id;
  let buf_id := nr_buffered q in
  sys ← on_queue sys cid queue_id (set_nr (s32 (buf_id + 1)));
  if Cli.BATCH_SIZE <=? buf_id then Bug
  else
    b ← defined (store (buffer q) (Z.to_nat buf_id) page);
    k ← defined (store (keys q) (Z.to_nat buf_id) key);
    sys ← on_queue sys cid queue_id (set_batch b k);
    if buf_id <? Cli.BATCH_SIZE - 1 then
      sys ← spin_unlock sys cid queue_id; Ret (sys, 0)
    else if negb (ev_memory ev) then Ret (sys, - ENOMEM)
    else if negb (ev_map_page ev) then Ret (sys, - ENOMEM)
    else if negb (ev_addr_page ev) then Bug
    else if negb (ev_map_meta ev) then Ret (sys, - ENOMEM)
    else if negb (ev_addr_meta ev) then Bug
    else
      sys ← (if ev_delivered ev then send_batch ev sys cid queue_id batch else Ret sys);
      if negb (ev_send ev) then put_out ev sys cid queue_id
      else if negb (ev_recv ev) then Ret (sys, -1)
      else
        '(sys, _) ← poll_recv sys cid queue_id;
        put_out ev sys cid queue_id.

Definition rdpma_put_twosided (ev : events) (sys : system T) (cid cpuid : Z) (page : list Z) (key batch : Z)
  : outcome (system T * Z) :=
  queue_id ← bug_on (Cli.rdpma_get_queue_id numqueues cpuid Cli.QP_WRITE_SYNC);
  cl ← get_client sys cid;
  f ← defined (bloom_filter_add (filter cl) (key_bytes key));
  let sys := set_client sys cid (set_filter cl f) in
  put_batch ev sys cid queue_id page key batch.

(** *** [rdpma_put] with [BIGMRPUT]: the server names the page first

    The result of [post_recv] is not tested. *)

Definition bigmr_out (ev : events) (sys : system T) (cid qid ret : Z) : outcome (system T * Z) :=
  sys ← spin_unlock sys cid qid;
  sys ← (if ev_post ev then on_queue sys cid qid client_post_recv else Ret sys);
  Ret (sys, ret).

Definition rdpma_put_bigmr (ev : events) (sys : system T) (cid cpuid : Z) (page : list Z) (key batch : Z)
  : outcome (system T * Z) :=
  queue_id ← bug_on (Cli.rdpma_get_queue_id numqueues cpuid Cli.QP_WRITE_SYNC);
  msg_id ← bug_on (Cli.message_id numqueues cpuid);
  let imm := htonl (Cli.bit_mask batch msg_id (msg_code MSG_WRITE) (tx_code TX_WRITE_BEGIN) queue_id) in
  if negb (ev_memory ev) then Bug
  else if negb (ev_map_page ev) then Ret (sys, - ENOMEM)
  else if negb (ev_addr_page ev) then Bug
  else if negb (ev_map_meta ev) then Ret (sys, - ENOMEM)
  else if negb (ev_addr_meta ev) then Bug
  else
    let raddr := servermr cid + Cli.GET_OFFSET_FROM_BASE queue_id msg_id in
    sys ← spin_lock sys cid queue_id;
    sys ← (if ev_delivered ev
           then write_with_imm ev sys cid queue_id raddr (take 16 (meta_bytes key batch 0)) imm
           else Ret sys);
    if negb (ev_send ev) then bigmr_out ev sys cid queue_id (-1)
    else if negb (ev_recv ev) then Ret (sys, 1)
    else
      '(sys, _) ← poll_recv sys cid queue_id;
      cl ← get_client sys cid;
      let dma_addr := read64 (cmem cl) (Cli.GET_REMOTE_ADDRESS_BASE (clientmr cfg cid) queue_id msg_id) in
      if ev_page ev
      then bigmr_out ev (on_server sys (fun m => rdma_write m dma_addr page)) cid queue_id 0
      else bigmr_out ev sys cid queue_id (-1).

(** *** [rdpma_put] with [NORMALPUT]: page and key go to the entry of the request *)

Definition normal_put_out (ev : events) (sys : system T) (cid qid : Z) : outcome (system T * Z) :=
  sys ← spin_unlock sys cid qid;
  sys ← repost ev sys cid qid;
  Ret (sys, 0).

Definition rdpma_put_normal (ev : events) (sys : system T) (cid cpuid : Z) (page : list Z) (key batch : Z)
  : outcome (system T * Z) :=
  queue_id ← bug_on (Cli.rdpma_get_queue_id numqueues cpuid Cli.QP_WRITE_SYNC);
  msg_id ← bug_on (Cli.message_id numqueues cpuid);
  let imm := htonl (Cli.bit_mask batch msg_id (msg_code MSG_WRITE) (tx_code TX_WRITE_BEGIN) queue_id) in
  if negb (ev_memory ev) then Bug
  else if negb (ev_map_page ev) then Ret (sys, - ENOMEM)
  else if negb (ev_addr_page ev) then Bug
  else if negb (ev_map_meta ev) then Ret (sys, - ENOMEM)
  else if negb (ev_addr_meta ev) then Bug
  else
    let raddr := servermr cid + Cli.GET_OFFSET_FROM_BASE queue_id msg_id in
    let paddr := servermr cid + Cli.GET_OFFSET_FROM_BASE_TO_PAGE queue_id msg_id in
    sys ← spin_lock sys cid queue_id;
    sys ← (if ev_delivered ev
           then write_with_imm ev (on_server sys (fun m => rdma_write m paddr page)) cid queue_id raddr
                  (take 16 (meta_bytes key batch 0)) imm
           else Ret sys);
    if negb (ev_send ev) then normal_put_out ev sys cid queue_id
    else if negb (ev_recv ev) then Ret (sys, 1)
    else
      '(sys, _) ← poll_recv sys cid queue_id;
      normal_put_out ev sys cid queue_id.

(** *** [rdpma_get] with [BIGMRGET] or [TWOSIDED], and [CBLOOMFILTER]

    [dma] is the address of the page. *)

Definition get_out (ev : events) (sys : system T) (cid qid tx_state : Z) : outcome (system T * Z) :=
  sys ← spin_unlock sys cid qid;
  sys ← repost ev sys cid qid;
  Ret (sys, if tx_state =? tx_code TX_READ_ABORTED then -1 else 0).

(** The request, once a filter has admitted the key. *)
Definition get_admitted (ev : events) (sys : system T) (cid queue_id msg_id dma key batch : Z) : outcome (system T * Z) :=
  let imm := htonl (Cli.bit_mask batch msg_id (msg_code MSG_READ) (tx_code TX_READ_BEGIN) queue_id) in
  if negb (ev_map_page ev) then Ret (sys, - ENOMEM)
  else if negb (ev_addr_page ev) then Bug
  else if negb (ev_memory ev) then Ret (sys, - ENOMEM)
  else if negb (ev_map_meta ev) then Ret (sys, - ENOMEM)
  else if negb (ev_addr_meta ev) then Bug
  else
    let raddr := servermr cid + Cli.GET_OFFSET_FROM_BASE queue_id msg_id in
    sys ← spin_lock sys cid queue_id;
    sys ← (if ev_delivered ev
           then write_with_imm ev sys cid queue_id raddr (meta_bytes key batch dma) imm
           else Ret sys);
    if negb (ev_send ev) then get_out ev sys cid queue_id 0
    else if negb (ev_recv ev) then get_out ev sys cid queue_id 0
    else
      '(sys, imm) ← poll_recv sys cid queue_id;
      get_out ev sys cid queue_id (f_state (Cli.bit_unmask (ntohl imm))).

Definition rdpma_get (ev : events) (sys : system T) (cid cpuid dma key batch : Z) : outcome (system T * Z) :=
  queue_id ← bug_on (Cli.rdpma_get_queue_id numqueues cpuid Cli.QP_READ_SYNC);
  msg_id ← bug_on (Cli.message_id numqueues cpuid);
  cl ← get_client sys cid;
  isIn ← defined (bloom_filter_check (filter cl) (key_bytes key));
  if negb isIn then Ret (sys, -1)
  else get_admitted ev sys cid queue_id msg_id dma key batch.

(** *** [rdpma_get] with [NORMALGET]: the server copies the page into the entry *)

Definition normal_out (ev : events) (sys : system T) (cid qid : Z) : outcome (system T * Z) :=
  sys ← repost ev sys cid qid;
  Ret (sys, 0).

Definition rdpma_get_normal (ev : events) (sys : system T) (cid cpuid dma key batch : Z)
  : outcome (system T * Z) :=
  queue_id ← bug_on (Cli.rdpma_get_queue_id numqueues cpuid Cli.QP_READ_SYNC);
  let imm := htonl (Cli.bit_mask batch 0 (msg_code MSG_READ) (tx_code TX_READ_BEGIN) queue_id) in
  let addr := Cli.GET_LOCAL_META_REGION (clientmr cfg cid) queue_id 0 in
  sys ← on_memory sys cid (fun m => write64 (write64 (write64 m addr key) (addr + 8) addr) (addr + 16) batch);
  if negb (ev_map_page ev) then Ret (sys, -1)
  else if negb (ev_addr_page ev) then Bug
  else
    let raddr := servermr cid + Cli.GET_OFFSET_FROM_BASE queue_id 0 in
    cl ← get_client sys cid;
    sys ← (if ev_delivered ev
           then write_with_imm ev sys cid queue_id raddr (read (cmem cl) addr (Z.to_nat Cli.METADATA_SIZE)) imm
           else Ret sys);
    if negb (ev_send ev) then normal_out ev sys cid queue_id
    else if negb (ev_recv ev) then normal_out ev sys cid queue_id
    else
      '(sys, imm) ← poll_recv sys cid queue_id;
      if f_state (Cli.bit_unmask (ntohl imm)) =? tx_code TX_READ_ABORTED then normal_out ev sys cid queue_id
      else if ev_page ev then
        let paddr := servermr cid + Cli.GET_OFFSET_FROM_BASE_TO_ADDR queue_id 0 in
        let data := read (smem (srv sys)) paddr (Z.to_nat (Cli.PAGE_SIZE * batch)) in
        sys ← on_memory sys cid (fun m => rdma_write m dma data);
        normal_out ev sys cid queue_id
      else normal_out ev sys cid queue_id.

(** *** The one-sided operations

    The client chooses the place [roffset] itself; the queue is drained before
    the call returns, so [pending] is zero whenever one starts.  A completion with
    an error is only logged. *)

Definition rdpma_put_onesided (ev : events) (sys : system T) (cid cpuid : Z) (page : list Z) (roffset : Z)
  : outcome (system T * Z) :=
  _ ← bug_on (Cli.rdpma_get_queue_id numqueues cpuid Cli.QP_WRITE_SYNC);
  if negb (ev_map_page ev) then Ret (sys, - ENOMEM)
  else if negb (ev_addr_page ev) then Bug
  else if negb (ev_delivered ev) then Bug
  else if ev_page ev then Ret (on_server sys (fun m => rdma_write m (servermr cid + roffset) page), 0)
  else Ret (sys, 0).

Definition rdpma_get_onesided (ev : events) (sys : system T) (cid cpuid dma roffset : Z)
  : outcome (system T * Z) :=
  _ ← bug_on (Cli.rdpma_get_queue_id numqueues cpuid Cli.QP_READ_SYNC);
  if negb (ev_map_page ev) then Ret (sys, - ENOMEM)
  else if negb (ev_addr_page ev) then Bug
  else if negb (ev_delivered ev) then Bug
  else if ev_page ev then
    let data := read (smem (srv sys)) (servermr cid + roffset) (Z.to_nat Cli.PAGE_SIZE) in
    sys ← on_memory sys cid (fun m => rdma_write m dma data);
    Ret (sys, 0)
  else Ret (sys, 0).

End Operations.

(** ** The cleancache backend (client/julee.c)

    Compiled without [julee_HASHTABLE] and [julee_FLUSH]. *)

(** [tmem_oid], a view of [cleancache_filekey] *)
Record tmem_oid : Type := MkOid { oid0 : Z; oid1 : Z; oid2 : Z }.

Record julee : Type := MkJulee { onesided : bool; put_cnt : Z; get_cnt : Z; pool_ids : Z }.

Section Cleancache.
Context {T : Type} `{IHash T} `{Verbs} (cfg : config) (numqueues : Z).

(** [tmp->roffset] of an uninitialised pointer in the one-sided build *)
Definition julee_cleancache_put_page (ev : events) (j : julee) (sys : system T) (cid cpuid pool_id : Z)
    (key : tmem_oid) (index : Z) (page : list Z) : outcome (julee * system T) :=
  let longkey := get_longkey (oid0 key) index in
  '(sys, _) ← (if onesided j then Undefined
               else rdpma_put_twosided cfg NOPUT BIGMRGET numqueues ev sys cid cpuid page longkey 1);
  Ret (MkJulee (onesided j) (put_cnt j + 1) (get_cnt j) (pool_ids j), sys).

Definition julee_cleancache_get_page (ev : events) (j : julee) (sys : system T) (cid cpuid pool_id : Z)
    (key : tmem_oid) (index dma : Z) : outcome (julee * system T * Z) :=
  let longkey := get_longkey (oid0 key) index in
  '(sys, ret) ← (if onesided j then rdpma_get_onesided cfg numqueues ev sys cid cpuid dma 0
                 else rdpma_get cfg NOPUT BIGMRGET numqueues ev sys cid cpuid dma longkey 1);
  let j := MkJulee (onesided j) (put_cnt j) (get_cnt j + 1) (pool_ids j) in
  if ret =? -1 then Ret (j, sys, -1) else Ret (j, sys, 0).

Definition julee_cleancache_flush_page (j : julee) (sys : system T) (pool_id : Z) (key : tmem_oid) (index : Z)
  : julee * system T := (j, sys).
Definition julee_cleancache_flush_inode (j : julee) (sys : system T) (pool_id : Z) (key : tmem_oid)
  : julee * system T := (j, sys).
Definition julee_cleancache_flush_fs (j : julee) (sys : system T) (pool_id : Z) : julee * system T := (j, sys).

(** A new pool number for every file system. *)
Definition julee_cleancache_init_fs (j : julee) : julee * Z :=
  let n := s32 (pool_ids j + 1) in
  (MkJulee (onesided j) (put_cnt j) (get_cnt j) n, n).

End Cleancache.
