(* ===== verification/System.v ===== *)
(** * Clients and server together (client/rdpma.c, client/julee.c, server/rdma_svr.cpp)

    The two-sided build with a table that answers only values it was given
    ([IHashPairs]) and a network that moves bytes ([Verbs]).  A run is a
    sequence of puts and gets of several clients; [runs] collects the pages that
    were put.  The main theorem: a get that reports success leaves in the page
    bytes that were put under the same key. *)

From S2P Require Import Prelude PairDefs HashFun CountingBloom ClientBloom LinearProbing KV Wire Server Client.

(** Take a chain of binds apart. *)
Ltac step H x E := apply bind_Ret in H as (x & E & H).

Section Frames.
Context {T : Type} `{IHash T} `{Verbs}.

(** A queue of a client. *)
Definition view (sys : system T) (cid : Z) (i : nat) : option rdma_queue :=
  cl ← clients sys !! cid; queues cl !! i.
Definition cmem_of (sys : system T) (cid : Z) : option memory := cmem <$> clients sys !! cid.

(** [sys'] is [sys] but for one queue, which [f] changes. *)
Record changes (sys sys' : system T) (cid : Z) (i : nat) (q q' : rdma_queue) : Prop := {
  ch_old : view sys cid i = Some q;
  ch_new : view sys' cid i = Some q';
  ch_other : forall c j, (c, j) <> (cid, i) -> view sys' c j = view sys c j;
  ch_srv : srv sys' = srv sys;
  ch_mem : forall c, cmem_of sys' c = cmem_of sys c;
}.

(** The queues are the same. *)
Definition same_queues (sys sys' : system T) : Prop := forall c j, view sys' c j = view sys c j.

Lemma get_queue_Ret (sys : system T) cid qid q :
  get_queue sys cid qid = Ret q <-> view sys cid (Z.to_nat qid) = Some q.
Proof.
  unfold get_queue, get_client, view. destruct (clients sys !! cid) as [cl|]; cbn [defined mbind outcome_bind option_bind].
  - apply defined_Ret.
  - done.
Qed.

Lemma on_queue_changes (sys sys' : system T) cid qid f :
  on_queue sys cid qid f = Ret sys' ->
  exists q, changes sys sys' cid (Z.to_nat qid) q (f q).
Proof.
  intros Hon. unfold on_queue, get_client in Hon. step Hon cl Hcl. step Hon q Hq.
  apply defined_Ret in Hcl, Hq. injection Hon as <-. exists q.
  pose proof (lookup_lt_Some _ _ _ Hq) as Hlt. unfold set_client, set_queue.
  split; unfold view, cmem_of; cbn [clients srv].
  - by rewrite Hcl.
  - rewrite lookup_insert_eq. cbn [mbind option_bind queues]. by rewrite list_lookup_insert_eq.
  - intros c j Hne. destruct (decide (c = cid)) as [->|Hc].
    + rewrite lookup_insert_eq, Hcl. cbn [mbind option_bind queues].
      rewrite list_lookup_insert_ne; [done|]. congruence.
    + by rewrite lookup_insert_ne.
  - done.
  - intros c. destruct (decide (c = cid)) as [->|Hc].
    + by rewrite lookup_insert_eq, Hcl.
    + by rewrite lookup_insert_ne.
Qed.

Lemma repost_Ret ev (sys sys' : system T) cid qid : repost ev sys cid qid = Ret sys' -> on_queue sys cid qid client_post_recv = Ret sys'.
Proof. unfold repost. by destruct (ev_post ev). Qed.

Lemma changes_trans sys1 sys2 sys3 cid i q1 q2 q2' q3 :
  changes sys1 sys2 cid i q1 q2 -> changes sys2 sys3 cid i q2' q3 -> changes sys1 sys3 cid i q1 q3 /\ q2' = q2.
Proof.
  intros [A1 A2 A3 A4 A5] [B1 B2 B3 B4 B5]. split; [|congruence]. split; try congruence.
  intros c j Hne. rewrite B3, A3; done.
Qed.

Lemma set_filter_same (sys : system T) cid cl f :
  clients sys !! cid = Some cl ->
  same_queues sys (set_client sys cid (set_filter cl f))
  /\ forall c, cmem_of (set_client sys cid (set_filter cl f)) c = cmem_of sys c.
Proof.
  intros Hcl. split; [intros c j|intros c]; unfold view, cmem_of, set_client; cbn [clients];
    (destruct (decide (c = cid)) as [->|Hne];
     [by rewrite lookup_insert_eq, Hcl|by rewrite lookup_insert_ne by done]).
Qed.

Lemma on_memory_same (sys sys' : system T) cid f :
  on_memory sys cid f = Ret sys' ->
  same_queues sys sys' /\ srv sys' = srv sys
  /\ exists m, cmem_of sys cid = Some m /\ cmem_of sys' cid = Some (f m).
Proof.
  intros Hon. unfold on_memory, get_client in Hon. step Hon cl Hcl. apply defined_Ret in Hcl.
  injection Hon as <-. split_and!.
  - intros c j. unfold view, set_client. cbn [clients].
    destruct (decide (c = cid)) as [->|Hne]; [by rewrite lookup_insert_eq, Hcl|by rewrite lookup_insert_ne].
  - done.
  - exists (cmem cl). unfold cmem_of, set_client. cbn [clients]. by rewrite lookup_insert_eq, Hcl.
Qed.

Lemma srv_on_server (sys : system T) f : srv (on_server sys f) = set_mem (srv sys) (f (smem (srv sys))).
Proof. done. Qed.
Lemma srv_set_srv (sys : system T) st : srv (set_srv sys st) = st.
Proof. done. Qed.

Lemma serve_Ret cfg pb gb ev (sys sys' : system T) cid qid wc :
  serve cfg pb gb ev sys cid qid wc = Ret sys' ->
  exists st s, server_recv cfg pb gb (ev_sent ev) (srv sys) cid qid wc = Some (st, s)
  /\ match s with
     | Some s => if ev_replied ev then reply (set_srv sys st) cid qid s else Ret (set_srv sys st)
     | None => Ret (set_srv sys st)
     end = Ret sys'.
Proof.
  intros Hs. unfold serve in Hs. step Hs r Hr. apply defined_Ret in Hr. destruct r as [st s]. by exists st, s.
Qed.

Lemma write_with_imm_Ret cfg pb gb ev (sys sys' : system T) cid qid addr bs imm :
  write_with_imm cfg pb gb ev sys cid qid addr bs imm = Ret sys' ->
  exists a st1 st s, take_recv (set_mem (srv sys) (rdma_write (smem (srv sys)) addr bs)) cid qid = Some (a, st1)
  /\ server_recv cfg pb gb (ev_sent ev) st1 cid qid (WC_RECV_RDMA_WITH_IMM imm) = Some (st, s)
  /\ match s with
     | Some s => if ev_replied ev then reply (set_srv sys st) cid qid s else Ret (set_srv sys st)
     | None => Ret (set_srv sys st)
     end = Ret sys'.
Proof.
  intros Hw. unfold write_with_imm, consume in Hw. step Hw r Hr. rewrite srv_on_server in Hr.
  destruct (take_recv _ cid qid) as [[a st1]|] eqn:Ht; [|done]. injection Hr as <-.
  apply serve_Ret in Hw as (st & s & Hr & Hw). exists a, st1, st, s. by split_and!.
Qed.

(** A lock is taken when it was free. *)
Lemma spin_lock_changes (sys sys' : system T) cid qid :
  spin_lock sys cid qid = Ret sys' ->
  exists q, changes sys sys' cid (Z.to_nat qid) q (set_lock true q) /\ global_lock q = false.
Proof.
  intros Hl. unfold spin_lock in Hl. step Hl q Hq. destruct (global_lock q) eqn:Hg; [done|].
  apply get_queue_Ret in Hq. apply on_queue_changes in Hl as (q' & Hch). exists q'.
  split; [done|]. pose proof (ch_old _ _ _ _ _ _ Hch). congruence.
Qed.

(** The reply arrives: one more completion, and the data in memory. *)
Lemma reply_changes (sys sys' : system T) cid qid s :
  reply sys cid qid s = Ret sys' ->
  exists q n, view sys cid (Z.to_nat qid) = Some q
  /\ view sys' cid (Z.to_nat qid) =
       Some (set_cq n (recv_cq q ++ [match s with SendImm imm | SendData _ _ imm => imm end]) q)
  /\ (forall c j, (c, j) <> (cid, Z.to_nat qid) -> view sys' c j = view sys c j)
  /\ srv sys' = srv sys
  /\ match s with
     | SendImm _ => cmem_of sys' cid = cmem_of sys cid
     | SendData a bs _ => exists m, cmem_of sys cid = Some m /\ cmem_of sys' cid = Some (rdma_write m a bs)
     end.
Proof.
  intros Hr. unfold reply in Hr. cbv zeta in Hr. destruct s as [imm|a bs imm].
  - step Hr q Hq. step Hr q' Hq'. apply get_queue_Ret in Hq. destruct (recv_wrs q) as [|n]; [done|].
    injection Hq' as <-. apply on_queue_changes in Hr as (q' & [A1 A2 A3 A4 A5]).
    assert (q' = q) as -> by congruence. exists q, n. auto.
  - step Hr sys1 Hm. apply on_memory_same in Hm as (Hs & Hsrv & m & Hm & Hm').
    step Hr q Hq. step Hr q' Hq'. apply get_queue_Ret in Hq. destruct (recv_wrs q) as [|n]; [done|].
    injection Hq' as <-. apply on_queue_changes in Hr as (q' & [A1 A2 A3 A4 A5]).
    assert (q' = q) as -> by congruence. exists q, n. rewrite <- (Hs cid).
    split_and!; try done; [|congruence|].
    + intros c j Hne. by rewrite A3.
    + exists m. by rewrite A5.
Qed.

End Frames.

Lemma take_recv_skv {T} (st st' : server T) cid qid a : take_recv st cid qid = Some (a, st') -> skv st' = skv st.
Proof. unfold take_recv. intros Ht. repeat case_match; simplify_option_eq; done. Qed.

Lemma batch_keys_of m a ks :
  length ks = 4%nat -> Forall (fun k => 0 <= k < 2 ^ 64) ks ->
  (forall x b, concat (le_bytes 8 <$> ks) !! x = Some b -> m (a + Z.of_nat x) = b) ->
  batch_keys m a = ks.
Proof.
  intros Hl Hks Hm. apply list_eq_same_length with 4%nat; [done|by unfold batch_keys|].
  intros i x y Hi Hx Hy. unfold batch_keys in Hx. change (Z.to_nat Svr.BATCH_SIZE) with 4%nat in Hx.
  rewrite list_lookup_fmap, lookup_seq_lt in Hx by done. injection Hx as <-. cbn [Nat.add].
  unfold read64. change 8 with (Z.of_nat 8) at 1.
  rewrite (read_chunk m a 8 (le_bytes 8 <$> ks) i (le_bytes 8 y)).
  - apply le_word_bytes. by apply (Forall_lookup_1 _ _ _ _ Hks Hy).
  - done.
  - apply Forall_fmap, Forall_true. intros k. apply le_bytes_length.
  - by rewrite list_lookup_fmap, Hy.
Qed.

Section Safety.
Context {T : Type} `{IHashPairs T} `{Verbs} (cfg : config).
Hypothesis Hcfg : config_ok cfg.

(** ** The invariant *)

(** The pages a queue has collected were put. *)
Record batch_inv (hist : list (Key_t * page)) (q : rdma_queue) : Prop := {
  bi_buffer : length (buffer q) = 4%nat;
  bi_keys : length (keys q) = 4%nat;
  bi_pages : Forall (fun p => length p = 4096%nat) (buffer q);
  bi_nr : 0 <= nr_buffered q <= 4;
  bi_full : nr_buffered q = 4 -> global_lock q = true;
  bi_put : forall n k p, Z.of_nat n < nr_buffered q -> keys q !! n = Some k -> buffer q !! n = Some p ->
    valid_key k /\ (k, p) ∈ hist;
}.

Definition system_inv (hist : list (Key_t * page)) (sys : system T) : Prop :=
  server_inv cfg hist (srv sys) /\ forall c j q, view sys c j = Some q -> batch_inv hist q.

(** No reply is left over on a queue for reads, and no page is in it. *)
Definition idle (q : rdma_queue) : Prop := recv_cq q = [] /\ nr_buffered q = 0.
Definition quiet (sys : system T) : Prop :=
  forall c j q, view sys c j = Some q -> (j < 4)%nat -> idle q.

Lemma inv_mono hist hist' sys : hist ⊆ hist' -> system_inv hist sys -> system_inv hist' sys.
Proof.
  intros Hsub [Hs Hq]. split; [by apply (sv_mono cfg hist)|]. intros c j q Hv.
  destruct (Hq c j q Hv) as [B1 B2 B3 B4 B5 B6]. split; try done. intros n k p Hn Hk Hp.
  destruct (B6 n k p Hn Hk Hp). auto.
Qed.

Lemma inv_changes hist sys sys' cid i q q' :
  system_inv hist sys -> changes sys sys' cid i q q' -> (batch_inv hist q -> batch_inv hist q') ->
  system_inv hist sys'.
Proof.
  intros [Hs Hq] [A1 A2 A3 A4 A5] Hqq. split; [by rewrite A4|]. intros c j q0 Hv.
  destruct (decide ((c, j) = (cid, i))) as [[= -> ->]|Hne].
  - assert (q0 = q') as -> by congruence. by apply Hqq, (Hq cid i).
  - rewrite A3 in Hv by done. by apply (Hq c j).
Qed.

Lemma quiet_changes sys sys' cid i q q' :
  quiet sys -> changes sys sys' cid i q q' -> (4 <= i)%nat \/ (idle q -> idle q') -> quiet sys'.
Proof.
  intros Hq [A1 A2 A3 A4 A5] Hi c j q0 Hv Hj. destruct (decide ((c, j) = (cid, i))) as [[= -> ->]|Hne].
  - destruct Hi as [Hi|Hi]; [lia|]. assert (q0 = q') as -> by congruence. by apply Hi, (Hq cid i).
  - rewrite A3 in Hv by done. by apply (Hq c j).
Qed.

Lemma inv_same hist sys sys' :
  system_inv hist sys -> same_queues sys sys' -> server_inv cfg hist (srv sys') -> system_inv hist sys'.
Proof. intros [_ Hq] Hs Hsrv. split; [done|]. intros c j q Hv. rewrite Hs in Hv. by apply (Hq c j). Qed.

Lemma quiet_same sys sys' : quiet sys -> same_queues sys sys' -> quiet sys'.
Proof. intros Hq Hs c j q Hv. rewrite Hs in Hv. by apply (Hq c j). Qed.

(** A reply changes nothing but the completions. *)
Lemma inv_reply hist sys sys' cid qid s :
  system_inv hist sys -> reply sys cid qid s = Ret sys' -> system_inv hist sys'.
Proof.
  intros [Hs Hq] Hr. apply reply_changes in Hr as (q & n & Hv & Hv' & Ho & Hsrv & _).
  split; [by rewrite Hsrv|]. intros c j q0 Hv0.
  destruct (decide ((c, j) = (cid, Z.to_nat qid))) as [[= -> ->]|Hne].
  - rewrite Hv' in Hv0. injection Hv0 as <-. by destruct (Hq _ _ _ Hv).
  - rewrite Ho in Hv0 by done. by apply (Hq c j).
Qed.

Lemma quiet_reply sys sys' cid qid s :
  quiet sys -> 4 <= qid -> reply sys cid qid s = Ret sys' -> quiet sys'.
Proof.
  intros Hq Hqid Hr. apply reply_changes in Hr as (q & n & Hv & Hv' & Ho & _ & _). intros c j q0 Hv0 Hj.
  rewrite Ho in Hv0; [by apply (Hq c j)|]. intros [= -> ->]. lia.
Qed.

(** The server has handled a message and has kept its invariant. *)
Lemma serve_inv pb gb ev hist sys sys' cid qid wc :
  system_inv hist sys ->
  (forall st s, server_recv cfg pb gb (ev_sent ev) (srv sys) cid qid wc = Some (st, s) -> server_inv cfg hist st) ->
  serve cfg pb gb ev sys cid qid wc = Ret sys' ->
  system_inv hist sys' /\ (quiet sys -> 4 <= qid -> quiet sys').
Proof.
  intros Hinv Hst Hs. apply serve_Ret in Hs as (st & s & Hr & Hs).
  assert (Hsame : same_queues sys (set_srv sys st)) by done.
  assert (Hinv1 : system_inv hist (set_srv sys st)).
  { apply (inv_same hist sys); [done..|]. by apply (Hst st s). }
  destruct s as [s|]; [|by injection Hs as <-]. destruct (ev_replied ev); [|by injection Hs as <-].
  split; [by apply (inv_reply _ _ _ _ _ _ Hinv1 Hs)|]. intros Hq Hqid.
  by apply (quiet_reply _ _ _ _ _ (quiet_same _ _ Hq Hsame) Hqid Hs).
Qed.

(** ** A batch is sent *)

Lemma request_unmask batch msg type tx qid :
  0 <= batch < 16 -> 0 <= msg < 4096 -> 0 <= qid < 256 ->
  Svr.bit_unmask (ntohl (htonl (Cli.bit_mask batch msg (msg_code type) (tx_code tx) qid)))
  = MkFields batch msg (msg_code type) (tx_code tx) qid.
Proof.
  intros Hb Hm Hq. apply (unmask_wire (MkFields batch msg (msg_code type) (tx_code tx) qid)).
  unfold fields_ok. cbn [f_num f_msg f_type f_state f_qid]. destruct type, tx; cbn [msg_code tx_code]; lia.
Qed.

Lemma reply_unmask msg type tx qid :
  0 <= msg < 4096 -> 0 <= qid < 256 ->
  f_state (Cli.bit_unmask (ntohl (htonl (Svr.bit_mask 0 msg (msg_code type) (tx_code tx) qid)))) = tx_code tx.
Proof.
  intros Hm Hq. change Cli.bit_unmask with Svr.bit_unmask. change Svr.bit_mask with Cli.bit_mask.
  by rewrite request_unmask.
Qed.

Lemma batch_length (ps : list (list Z)) :
  length ps = 4%nat -> Forall (fun p => length p = 4096%nat) ps -> Z.of_nat (length (concat ps)) = 16384.
Proof.
  intros Hps Hpl. rewrite (concat_length_const 4096) by done. rewrite Hps. reflexivity.
Qed.

(** The keys and the pages are where the handler looks for them. *)
Lemma batch_arrives m ks ps raddr j :
  global_mr cfg + BUFFER_SIZE cfg <= raddr -> 0 <= j -> j + 4 <= page_limit cfg ->
  length ks = 4%nat -> length ps = 4%nat ->
  Forall (fun k => 0 <= k < 2 ^ 64) ks -> Forall (fun p => length p = 4096%nat) ps ->
  let m' := rdma_write (rdma_write m raddr (concat (le_bytes 8 <$> ks))) (page_at cfg j) (concat ps) in
  batch_keys m' raddr = ks
  /\ forall i p, ps !! i = Some p -> read m' (page_at cfg (j + Z.of_nat i)) 4096 = p.
Proof.
  intros Hr Hj Hjl Hks Hps Hk64 Hpl. cbv zeta.
  destruct (page_at_eq cfg Hcfg (j + 3)) as [_ He]; [lia|].
  destruct (page_at_eq cfg Hcfg j) as [Hpj _]; [lia|].
  pose proof (batch_length ps Hps Hpl) as Hlen. split.
  - apply batch_keys_of; [done..|]. intros x b Hx. rewrite rdma_write_outside by lia. by apply rdma_write_inside.
  - intros i p Hp. apply lookup_lt_Some in Hp as Hi. destruct (page_at_eq cfg Hcfg (j + Z.of_nat i)) as [-> _]; [lia|].
    replace (global_mr cfg + 528384 + 4096 * (j + Z.of_nat i)) with (page_at cfg j + Z.of_nat 4096 * Z.of_nat i)
      by (rewrite Hpj; lia).
    apply read_chunk with ps; [|done|done]. intros x b Hx. by apply rdma_write_inside.
Qed.

Lemma batch_handled pb gb sent hist st j cid qid batch st' s :
  server_inv cfg hist st -> fresh cfg st j -> 0 <= j -> j + 4 <= page_offset st ->
  page_offset st + 4 <= page_limit cfg -> 0 <= batch < 16 -> 0 <= qid < 256 ->
  (forall i key, batch_keys (smem st) (Svr.GET_LOCAL_META_REGION (local_mm cfg cid) qid 0) !! i = Some key ->
     valid_key key /\ (key, read (smem st) (page_at cfg (j + Z.of_nat i)) 4096) ∈ hist) ->
  server_recv cfg pb gb sent st cid qid
    (WC_RECV (page_at cfg j) (htonl (Cli.bit_mask batch 0 (msg_code MSG_WRITE) (tx_code TX_WRITE_BEGIN) qid)))
    = Some (st', s) ->
  server_inv cfg hist st'.
Proof.
  intros Hs Hf Hj Hjo Hroom Hb Hq Hkeys Hr. pose proof (sv_offset _ _ _ Hs). unfold server_recv in Hr.
  destruct (Z.eqb_spec (page_at cfg j) 0) as [Hz|_]; [by apply (page_at_pos cfg Hcfg) in Hz; [|lia]|].
  rewrite request_unmask in Hr by lia. cbn [f_qid f_msg] in Hr.
  apply bind_Some in Hr as ([st1 s1] & Hp & Hr). injection Hr as -> _.
  assert (Hs' : server_inv cfg hist (count_put Svr.BATCH_SIZE st)) by (by destruct Hs).
  by destruct (sv_twosided cfg Hcfg _ _ _ _ _ j _ _ _ Hs' Hf Hj Hjo Hroom Hkeys Hp).
Qed.

(** A full batch is in the memory of the server when it handles the message. *)
Lemma send_batch_Ret pb gb ev hist sys sys' cid qid batch q :
  system_inv hist sys -> view sys cid (Z.to_nat qid) = Some q -> nr_buffered q = 4 -> 0 <= cid -> 0 <= qid ->
  send_batch cfg pb gb ev sys cid qid batch = Ret sys' ->
  exists j st, server_inv cfg hist st /\ fresh cfg st j /\ 0 <= j /\ j + 4 <= page_offset st
    /\ page_offset st = page_offset (srv sys) /\ skv st = skv (srv sys)
    /\ batch_keys (smem st) (Svr.GET_LOCAL_META_REGION (local_mm cfg cid) qid 0) = keys q
    /\ (forall i p, buffer q !! i = Some p -> read (smem st) (page_at cfg (j + Z.of_nat i)) 4096 = p)
    /\ serve cfg pb gb ev (set_srv sys st) cid qid
         (WC_RECV (page_at cfg j) (htonl (Cli.bit_mask batch 0 (msg_code MSG_WRITE) (tx_code TX_WRITE_BEGIN) qid))) = Ret sys'.
Proof.
  intros [Hs Hq] Hv Hnr Hcid Hqid Hsend. pose proof (Hq _ _ _ Hv) as [B1 B2 B3 _ _ B6].
  unfold send_batch in Hsend. step Hsend q' Hq'. apply get_queue_Ret in Hq'.
  assert (q' = q) as -> by congruence. clear Hq'. unfold send_with_imm, consume in Hsend.
  step Hsend r Hr. destruct (take_recv _ cid qid) as [[a st]|] eqn:Ht; [|done]. injection Hr as <-.
  destruct (Z.eqb_spec a 0) as [|Ha]; [done|].
  set (raddr := servermr cfg cid + Cli.GET_OFFSET_FROM_BASE qid 0) in *.
  assert (Hraddr : global_mr cfg + BUFFER_SIZE cfg <= raddr).
  { unfold raddr, servermr, local_mm, Cli.GET_OFFSET_FROM_BASE. change Svr.LOCAL_META_REGION_SIZE with 528384.
    change (Cli.NUM_ENTRY * Cli.ENTRY_SIZE) with 16512. lia. }
  set (st0 := set_mem (srv sys) (rdma_write (smem (srv sys)) raddr (concat (le_bytes 8 <$> keys q)))).
  change (take_recv st0 cid qid = Some (a, st)) in Ht.
  pose proof (sv_meta_write cfg Hcfg _ _ raddr (concat (le_bytes 8 <$> keys q)) Hs Hraddr) as Hs0. fold st0 in Hs0.
  destruct (sv_take cfg Hcfg _ _ _ _ _ _ Hs0 Ht) as (Hs1 & Hoff & Hfresh).
  destruct (take_recv_head cfg _ _ _ _ _ _ Hs0 Ht) as [?|(j & -> & Hj & Hjo)]; [done|].
  specialize (Hfresh j eq_refl Hj Hjo). rewrite <- Hoff in Hjo.
  pose proof (sv_receive cfg Hcfg _ _ j (concat (buffer q)) Hs1 Hfresh Hj Hjo (batch_length _ B1 B3)) as Hs2.
  assert (Forall (fun k => 0 <= k < 2 ^ 64) (keys q)) as Hk64.
  { apply Forall_lookup_2. intros n k' Hk'. apply lookup_lt_Some in Hk' as Hn. destruct (lookup_lt_is_Some_2 (buffer q) n) as [p' Hp']; [lia|].
    apply (B6 n k' p'); [lia|done|done]. }
  pose proof (sv_offset _ _ _ Hs1).
  destruct (batch_arrives (smem (srv sys)) (keys q) (buffer q) raddr j) as [Hks Hps]; try done; [lia|].
  change (rdma_write (smem (srv sys)) raddr (concat (le_bytes 8 <$> keys q))) with (smem st0) in Hks, Hps.
  rewrite <- (take_recv_smem _ _ _ _ _ Ht) in Hks, Hps.
  exists j, (set_mem st (rdma_write (smem st) (page_at cfg j) (concat (buffer q)))). split_and!; try done.
  - exact (take_recv_skv _ _ _ _ _ Ht).
  - etrans; [|exact Hks]. f_equal.
    unfold raddr, servermr, Svr.GET_LOCAL_META_REGION, Cli.GET_OFFSET_FROM_BASE. symmetry. apply Z.add_assoc.
Qed.

Lemma send_batch_inv pb gb ev hist sys sys' cid qid batch q :
  system_inv hist sys -> view sys cid (Z.to_nat qid) = Some q -> nr_buffered q = 4 ->
  0 <= cid -> 4 <= qid < 8 -> 0 <= batch < 16 -> page_offset (srv sys) + 4 <= page_limit cfg ->
  send_batch cfg pb gb ev sys cid qid batch = Ret sys' ->
  system_inv hist sys' /\ (quiet sys -> quiet sys').
Proof.
  intros Hinv Hv Hnr Hcid Hqid Hbatch Hroom Hsend. pose proof (proj2 Hinv _ _ _ Hv) as [B1 B2 _ _ _ B6].
  destruct (send_batch_Ret _ _ _ _ _ _ _ _ _ _ Hinv Hv Hnr Hcid ltac:(lia) Hsend)
    as (j & st & Hs & Hfresh & Hj & Hjo & Hoff & _ & Hks & Hps & Hsv).
  assert (Hinv2 : system_inv hist (set_srv sys st)) by (by apply (inv_same hist sys)).
  apply (serve_inv _ _ _ hist) in Hsv as [Hinv' Hquiet]; [|exact Hinv2|].
  - split; [done|]. intros Hqs. apply Hquiet; [|lia]. by apply (quiet_same sys).
  - intros st' s'. apply (batch_handled _ _ _ hist st j); try done; [rewrite Hoff; exact Hroom|lia|].
    rewrite Hks. intros i k Hk. apply lookup_lt_Some in Hk as Hi. destruct (lookup_lt_is_Some_2 (buffer q) i) as [p Hp]; [lia|].
    rewrite (Hps i p Hp). apply (B6 i); [lia|done|done].
Qed.

(** ** A put *)

Lemma batch_store hist q b k page key :
  batch_inv hist q -> nr_buffered q < 4 -> length page = 4096%nat -> valid_key key ->
  store (buffer q) (Z.to_nat (nr_buffered q)) page = Some b ->
  store (keys q) (Z.to_nat (nr_buffered q)) key = Some k ->
  batch_inv ((key, page) :: hist) (set_batch b k (set_nr (s32 (nr_buffered q + 1)) (set_lock true q))).
Proof.
  intros [B1 B2 B3 B4 B5 B6] Hnr Hpage Hkey Hb Hk.
  apply store_inv in Hb as [Hlb ->]. apply store_inv in Hk as [Hlk ->]. rewrite s32_small by lia.
  split; cbn [buffer keys nr_buffered global_lock set_batch set_nr set_lock]; try done.
  - by rewrite length_insert.
  - by rewrite length_insert.
  - by apply Forall_insert.
  - lia.
  - intros n k' p' Hn Hk' Hp'. apply list_lookup_insert_Some in Hk' as [(<- & <- & _)|[Hne Hk']].
    + rewrite list_lookup_insert_eq in Hp' by done. injection Hp' as <-. split; [done|left].
    + rewrite list_lookup_insert_ne in Hp' by done. destruct (B6 n k' p') as [Hv Hin]; [lia|done..|].
      split; [done|by right].
Qed.

(** Back to an empty batch. *)
Lemma put_out_inv ev hist sys sys' cid qid r :
  system_inv hist sys -> quiet sys -> 4 <= qid -> put_out ev sys cid qid = Ret (sys', r) ->
  system_inv hist sys' /\ quiet sys'.
Proof.
  intros Hinv Hq Hqid Hout. unfold put_out, spin_unlock in Hout.
  step Hout s1 H1'. step Hout s2 H2'. step Hout s3 H3'. injection Hout as -> _.
  apply repost_Ret in H3'. apply on_queue_changes in H1' as (q1 & C1), H2' as (q2 & C2), H3' as (q3 & C3).
  destruct (changes_trans _ _ _ _ _ _ _ _ _ C1 C2) as [C12 ->].
  destruct (changes_trans _ _ _ _ _ _ _ _ _ C12 C3) as [C ->].
  split; [|apply (quiet_changes _ _ _ _ _ _ Hq C); left; lia].
  apply (inv_changes _ _ _ _ _ _ _ Hinv C). intros [B1 B2 B3 B4 B5 B6].
  split; cbn [buffer keys nr_buffered global_lock set_cq client_post_recv set_lock set_nr]; try done. lia.
Qed.

Lemma write_queue_id cpuid qid :
  0 <= cpuid -> Cli.rdpma_get_queue_id 8 cpuid Cli.QP_WRITE_SYNC = Some qid -> 4 <= qid < 8.
Proof.
  intros Hc. unfold Cli.rdpma_get_queue_id. rewrite urem_pos by done. cbn [mbind option_bind].
  intros [= <-]. change (8 / 2) with 4. pose proof (Z.mod_pos_bound cpuid 4 ltac:(lia)). lia.
Qed.

(** The page is in the buffer: what [rdpma_put] has done before it returns or sends. *)
Lemma buffered_changes (sys sys1 sys2 sys3 : system T) cid qid q b k n :
  spin_lock sys cid qid = Ret sys1 -> get_queue sys1 cid qid = Ret q ->
  on_queue sys1 cid qid (set_nr n) = Ret sys2 -> on_queue sys2 cid qid (set_batch b k) = Ret sys3 ->
  exists q0, q = set_lock true q0 /\ changes sys sys3 cid (Z.to_nat qid) q0 (set_batch b k (set_nr n q)).
Proof.
  intros Hl Hq H2' H3'. apply get_queue_Ret in Hq.
  apply spin_lock_changes in Hl as (q0 & C1 & _). apply on_queue_changes in H2' as (q1 & C2), H3' as (q2 & C3).
  pose proof (ch_new _ _ _ _ _ _ C1) as Hq1. assert (q = set_lock true q0) as -> by congruence.
  destruct (changes_trans _ _ _ _ _ _ _ _ _ C1 C2) as [C12 ->].
  destruct (changes_trans _ _ _ _ _ _ _ _ _ C12 C3) as [C ->]. by exists q0.
Qed.

Lemma put_buffered hist sys sys1 sys2 sys3 cid qid q b k page key :
  system_inv hist sys -> quiet sys -> 4 <= qid -> length page = 4096%nat -> valid_key key ->
  spin_lock sys cid qid = Ret sys1 -> get_queue sys1 cid qid = Ret q -> nr_buffered q < 4 ->
  on_queue sys1 cid qid (set_nr (s32 (nr_buffered q + 1))) = Ret sys2 ->
  store (buffer q) (Z.to_nat (nr_buffered q)) page = Some b ->
  store (keys q) (Z.to_nat (nr_buffered q)) key = Some k ->
  on_queue sys2 cid qid (set_batch b k) = Ret sys3 ->
  system_inv ((key, page) :: hist) sys3 /\ quiet sys3 /\ srv sys3 = srv sys
  /\ exists q3, view sys3 cid (Z.to_nat qid) = Some q3 /\ nr_buffered q3 = nr_buffered q + 1.
Proof.
  intros Hinv Hqu Hqid Hpage Hkey Hl Hq Hnr H2' Hb Hk H3'.
  destruct (buffered_changes _ _ _ _ _ _ _ _ _ _ Hl Hq H2' H3') as (q0 & -> & C).
  assert (Hinv' := inv_mono hist ((key, page) :: hist) sys ltac:(intros x Hx; by right) Hinv).
  pose proof (proj2 Hinv _ _ _ (ch_old _ _ _ _ _ _ C)) as Hb0. split_and!.
  - apply (inv_changes _ _ _ _ _ _ _ Hinv' C). intros _. exact (batch_store hist q0 b k page key Hb0 Hnr Hpage Hkey Hb Hk).
  - apply (quiet_changes _ _ _ _ _ _ Hqu C). left. lia.
  - apply (ch_srv _ _ _ _ _ _ C).
  - eexists. split; [apply (ch_new _ _ _ _ _ _ C)|].
    cbn [nr_buffered set_batch set_nr set_lock]. destruct Hb0 as [_ _ _ B4 _ _].
    cbn [nr_buffered set_lock] in Hnr. rewrite s32_small by lia. done.
Qed.

(** The part of [rdpma_put] that sends. *)
Lemma put_sent pb gb ev hist sys sys' cid qid batch q r :
  system_inv hist sys -> quiet sys -> view sys cid (Z.to_nat qid) = Some q -> nr_buffered q = 4 ->
  0 <= cid -> 4 <= qid < 8 -> 0 <= batch < 16 -> page_offset (srv sys) + 4 <= page_limit cfg ->
  (sys ← (if ev_delivered ev then send_batch cfg pb gb ev sys cid qid batch else Ret sys);
   if negb (ev_send ev) then put_out ev sys cid qid
   else if negb (ev_recv ev) then Ret (sys, -1)
   else '(sys, _) ← poll_recv sys cid qid; put_out ev sys cid qid) = Ret (sys', r) ->
  system_inv hist sys' /\ quiet sys'.
Proof.
  intros Hinv Hqu Hv Hnr Hcid Hqid Hbatch Hroom Hp. step Hp sys1 Hs.
  assert (Hinv1 : system_inv hist sys1 /\ quiet sys1).
  { destruct (ev_delivered ev); [|by injection Hs as <-].
    apply (send_batch_inv _ _ _ hist _ _ _ _ _ q) in Hs as [? ?]; auto. }
  destruct Hinv1 as [Hinv1 Hqu1]. clear Hs. destruct (ev_send ev); cbn [negb] in Hp.
  2: by apply (put_out_inv _ _ _ _ _ _ _ Hinv1 Hqu1 (proj1 Hqid) Hp).
  destruct (ev_recv ev); cbn [negb] in Hp; [|by injection Hp as <- _].
  step Hp r1 Hpoll. destruct r1 as [sys2 imm]. unfold poll_recv in Hpoll. step Hpoll q1 Hq1.
  destruct (recv_cq q1) as [|imm0 l] eqn:Hcq; [done|]. step Hpoll sys3 Hon. injection Hpoll as -> _.
  apply on_queue_changes in Hon as (q2 & C). refine (put_out_inv _ _ _ _ _ _ _ _ _ (proj1 Hqid) Hp).
  - apply (inv_changes _ _ _ _ _ _ _ Hinv1 C). by intros [].
  - apply (quiet_changes _ _ _ _ _ _ Hqu1 C). left. lia.
Qed.

Lemma put_batch_inv pb gb ev hist sys sys' cid qid page key batch r :
  system_inv hist sys -> quiet sys -> 0 <= cid -> 4 <= qid < 8 -> 0 <= batch < 16 ->
  length page = 4096%nat -> valid_key key -> page_offset (srv sys) + 4 <= page_limit cfg ->
  put_batch cfg pb gb ev sys cid qid page key batch = Ret (sys', r) ->
  system_inv ((key, page) :: hist) sys' /\ quiet sys'.
Proof.
  intros Hinv0 Hqu0 Hcid Hqid Hbatch Hpage Hkey Hroom Hput. unfold put_batch in Hput.
  step Hput sys1 H1'. step Hput q Hq. step Hput sys2 H2'.
  change Cli.BATCH_SIZE with 4 in Hput. destruct (Z.leb_spec 4 (nr_buffered q)) as [|Hnr]; [done|].
  step Hput b Hb. apply defined_Ret in Hb. step Hput k Hk. apply defined_Ret in Hk. step Hput sys3 H3'.
  destruct (put_buffered hist sys sys1 sys2 sys3 cid qid q b k page key) as (Hinv3 & Hqu3 & Hsrv & q3 & Hq3 & Hn3);
    try done; [lia|].
  destruct (Z.ltb_spec (nr_buffered q) (4 - 1)) as [Hlt|Hge].
  { step Hput sys4 H4'. injection Hput as <- _. apply on_queue_changes in H4' as (q4 & C).
    assert (q4 = q3) as -> by (pose proof (ch_old _ _ _ _ _ _ C); congruence).
    split; [|apply (quiet_changes _ _ _ _ _ _ Hqu3 C); left; lia].
    apply (inv_changes _ _ _ _ _ _ _ Hinv3 C). intros [B1 B2 B3 B4 B5 B6]. split; try done.
    cbn [nr_buffered set_lock]. lia. }
  destruct (ev_memory ev); cbn [negb] in Hput; [|by injection Hput as <- _].
  destruct (ev_map_page ev); cbn [negb] in Hput; [|by injection Hput as <- _].
  destruct (ev_addr_page ev); cbn [negb] in Hput; [|done].
  destruct (ev_map_meta ev); cbn [negb] in Hput; [|by injection Hput as <- _].
  destruct (ev_addr_meta ev); cbn [negb] in Hput; [|done].
  apply (put_sent pb gb ev ((key, page) :: hist) _ _ _ _ _ q3) in Hput; try done; [lia|]. by rewrite Hsrv.
Qed.

Lemma put_inv pb gb ev hist sys sys' cid cpuid page key batch r :
  system_inv hist sys -> quiet sys -> 0 <= cid -> 0 <= cpuid -> 0 <= batch < 16 ->
  length page = 4096%nat -> valid_key key -> page_offset (srv sys) + 4 <= page_limit cfg ->
  rdpma_put_twosided cfg pb gb 8 ev sys cid cpuid page key batch = Ret (sys', r) ->
  system_inv ((key, page) :: hist) sys' /\ quiet sys'.
Proof.
  intros Hinv Hqu Hcid Hcpu Hbatch Hpage Hkey Hroom Hput. unfold rdpma_put_twosided in Hput.
  step Hput qid Hqid. apply bug_on_Ret in Hqid. apply write_queue_id in Hqid; [|done].
  step Hput cl Hcl. apply defined_Ret in Hcl. step Hput f Hf. cbv zeta in Hput.
  destruct (set_filter_same sys cid cl f Hcl) as [Hsame _].
  refine (put_batch_inv _ _ _ hist (set_client sys cid (set_filter cl f)) _ _ _ _ _ _ _ _ _ Hcid Hqid Hbatch Hpage Hkey Hroom Hput).
  - by apply (inv_same hist sys); [|..|apply Hinv].
  - by apply (quiet_same sys).
Qed.

(** ** A get *)

Lemma read_queue_id cpuid qid :
  0 <= cpuid -> Cli.rdpma_get_queue_id 8 cpuid Cli.QP_READ_SYNC = Some qid -> 0 <= qid < 4.
Proof.
  intros Hc. unfold Cli.rdpma_get_queue_id. rewrite urem_pos by done. cbn [mbind option_bind].
  intros [= <-]. change (8 / 2) with 4. apply Z.mod_pos_bound. lia.
Qed.

(** The metadata is where the handler looks for it. *)
Lemma meta_arrives m cid qid mid key batch dma :
  0 <= key < 2 ^ 64 -> 0 <= dma < 2 ^ 64 ->
  let m' := rdma_write m (servermr cfg cid + Cli.GET_OFFSET_FROM_BASE qid mid) (meta_bytes key batch dma) in
  read64 m' (Svr.GET_LOCAL_META_REGION (local_mm cfg cid) qid mid) = key
  /\ read64 m' (Svr.GET_REMOTE_ADDRESS_BASE (local_mm cfg cid) qid mid) = dma.
Proof.
  intros Hk Hd. cbv zeta.
  replace (Svr.GET_LOCAL_META_REGION (local_mm cfg cid) qid mid)
    with (servermr cfg cid + Cli.GET_OFFSET_FROM_BASE qid mid + Z.of_nat 8 * Z.of_nat 0)
    by (unfold servermr, Svr.GET_LOCAL_META_REGION, Cli.GET_OFFSET_FROM_BASE;
        change Svr.NUM_ENTRY with Cli.NUM_ENTRY; change Svr.ENTRY_SIZE with Cli.ENTRY_SIZE; lia).
  replace (Svr.GET_REMOTE_ADDRESS_BASE (local_mm cfg cid) qid mid)
    with (servermr cfg cid + Cli.GET_OFFSET_FROM_BASE qid mid + Z.of_nat 8 * Z.of_nat 2)
    by (unfold servermr, Svr.GET_REMOTE_ADDRESS_BASE, Cli.GET_OFFSET_FROM_BASE;
        change Svr.NUM_ENTRY with Cli.NUM_ENTRY; change Svr.ENTRY_SIZE with Cli.ENTRY_SIZE; lia).
  set (a := servermr cfg cid + _). set (ls := [le_bytes 8 key; le_bytes 8 batch; le_bytes 8 dma]).
  replace (meta_bytes key batch dma) with (concat ls) by (unfold ls; cbn [concat]; by rewrite app_nil_r).
  assert (Hls : Forall (fun l => length l = 8%nat) ls) by (repeat constructor; apply le_bytes_length).
  unfold read64.
  rewrite (read_chunk _ a 8 ls 0 (le_bytes 8 key)), (read_chunk _ a 8 ls 2 (le_bytes 8 dma));
    try done; try (intros x b Hx; by apply rdma_write_inside).
  split; by apply le_word_bytes.
Qed.

Definition aborted (mid qid : Z) : Z :=
  htonl (Svr.bit_mask 0 mid (msg_code MSG_READ_REPLY) (tx_code TX_READ_ABORTED) qid).
Definition committed (mid qid : Z) : Z :=
  htonl (Svr.bit_mask 0 mid (msg_code MSG_READ_REPLY) (tx_code TX_READ_COMMITTED) qid).

(** What the server answers to a get: no, or a page that was put. *)
Definition answer (hist : list (Key_t * page)) (key dma mid qid : Z) (s : send) : Prop :=
  s = SendImm (aborted mid qid)
  \/ exists p, (key, p) ∈ hist /\ length p = 4096%nat /\ s = SendData dma p (committed mid qid).

Lemma server_recv_read pb sent st cid qid mid batch :
  0 <= batch < 16 -> 0 <= mid < 4096 -> 0 <= qid < 256 ->
  server_recv cfg pb BIGMRGET sent st cid qid
    (WC_RECV_RDMA_WITH_IMM (htonl (Cli.bit_mask batch mid (msg_code MSG_READ) (tx_code TX_READ_BEGIN) qid)))
  = ('(st, s) ← process_read_odp cfg (count_get (post_recv st cid qid)) cid qid mid; Some (st, Some s)).
Proof.
  intros Hb Hm Hq. unfold server_recv. rewrite request_unmask by done. reflexivity.
Qed.

Lemma read_handled pb sent hist st st' s key dma cid qid mid batch :
  server_inv cfg hist st -> valid_key key ->
  read64 (smem st) (Svr.GET_LOCAL_META_REGION (local_mm cfg cid) qid mid) = key ->
  read64 (smem st) (Svr.GET_REMOTE_ADDRESS_BASE (local_mm cfg cid) qid mid) = dma ->
  0 <= batch < 16 -> 0 <= mid < 4096 -> 0 <= qid < 256 ->
  server_recv cfg pb BIGMRGET sent st cid qid
    (WC_RECV_RDMA_WITH_IMM (htonl (Cli.bit_mask batch mid (msg_code MSG_READ) (tx_code TX_READ_BEGIN) qid)))
    = Some (st', s) ->
  server_inv cfg hist st' /\ exists s0, s = Some s0 /\ answer hist key dma mid qid s0.
Proof.
  intros Hs Hk Hkey Hdma Hb Hm Hq Hr. rewrite server_recv_read in Hr by done.
  apply bind_Some in Hr as ([st1 s1] & Hp & Hr). injection Hr as -> <-.
  assert (Hs' : server_inv cfg hist (count_get (post_recv st cid qid))).
  { pose proof (sv_post_recv cfg Hcfg hist st cid qid Hs) as Hpr. by destruct Hpr. }
  subst key dma. destruct (sv_read_odp cfg hist _ _ _ _ _ _ Hs' Hk Hp) as (Hinv & _ & Hans).
  split; [exact Hinv|]. exists s1. split; [reflexivity|].
  cbn [smem count_get post_recv post set_recvs] in Hans.
  destruct Hans as [-> | (p & Hp1 & Hp2 & ->)].
  - left. reflexivity.
  - right. exists p. split; [exact Hp1|]. split; [exact Hp2|]. reflexivity.
Qed.

Definition imm_of (s : send) : Z := match s with SendImm imm | SendData _ _ imm => imm end.

(** A get as the server sees it. *)
Lemma get_served pb sent hist st st1 st' a s cid qid mid key batch dma :
  server_inv cfg hist st -> valid_key key -> 0 <= dma < 2 ^ 64 -> 0 <= cid ->
  0 <= batch < 16 -> 0 <= mid < 4096 -> 0 <= qid < 256 ->
  take_recv (set_mem st (rdma_write (smem st) (servermr cfg cid + Cli.GET_OFFSET_FROM_BASE qid mid)
    (meta_bytes key batch dma))) cid qid = Some (a, st1) ->
  server_recv cfg pb BIGMRGET sent st1 cid qid
    (WC_RECV_RDMA_WITH_IMM (htonl (Cli.bit_mask batch mid (msg_code MSG_READ) (tx_code TX_READ_BEGIN) qid)))
    = Some (st', s) ->
  server_inv cfg hist st' /\ exists s0, s = Some s0 /\ answer hist key dma mid qid s0.
Proof.
  intros Hs Hkey Hdma Hcid Hb Hm Hqid Ht.
  assert (Hraddr : global_mr cfg + BUFFER_SIZE cfg <= servermr cfg cid + Cli.GET_OFFSET_FROM_BASE qid mid).
  { unfold servermr, local_mm, Cli.GET_OFFSET_FROM_BASE. change Svr.LOCAL_META_REGION_SIZE with 528384.
    change (Cli.NUM_ENTRY * Cli.ENTRY_SIZE) with 16512. change Cli.ENTRY_SIZE with 4128. lia. }
  pose proof (sv_meta_write cfg Hcfg _ _ _ (meta_bytes key batch dma) Hs Hraddr) as Hs0.
  destruct (sv_take cfg Hcfg _ _ _ _ _ _ Hs0 Ht) as (Hs1 & _ & _).
  destruct (meta_arrives (smem st) cid qid mid key batch dma (proj1 Hkey) Hdma) as [Hk Hd].
  apply take_recv_smem in Ht. apply read_handled; try done; rewrite Ht; [exact Hk|exact Hd].
Qed.

(** The request of a get and its reply. *)
Lemma get_request pb ev hist sys sys' cid qid mid key batch dma :
  system_inv hist sys -> valid_key key -> 0 <= dma < 2 ^ 64 -> 0 <= cid ->
  0 <= batch < 16 -> 0 <= mid < 4096 -> 0 <= qid < 256 ->
  write_with_imm cfg pb BIGMRGET ev sys cid qid (servermr cfg cid + Cli.GET_OFFSET_FROM_BASE qid mid)
    (meta_bytes key batch dma)
    (htonl (Cli.bit_mask batch mid (msg_code MSG_READ) (tx_code TX_READ_BEGIN) qid)) = Ret sys' ->
  system_inv hist sys'
  /\ (forall c j, (c, j) <> (cid, Z.to_nat qid) -> view sys' c j = view sys c j)
  /\ (ev_replied ev = false -> same_queues sys sys')
  /\ (ev_replied ev = true -> exists q n s,
        view sys cid (Z.to_nat qid) = Some q /\ answer hist key dma mid qid s
        /\ view sys' cid (Z.to_nat qid) = Some (set_cq n (recv_cq q ++ [imm_of s]) q)
        /\ forall a p imm, s = SendData a p imm -> exists m, cmem_of sys' cid = Some (rdma_write m a p)).
Proof.
  intros [Hs Hq] Hkey Hdma Hcid Hb Hm Hqid Hw. apply write_with_imm_Ret in Hw as (a & st1 & st' & s & Ht & Hr & Hw).
  destruct (get_served _ _ _ _ _ _ _ _ _ _ _ _ _ _ Hs Hkey Hdma Hcid Hb Hm Hqid Ht Hr) as (Hs' & s0 & -> & Hans).
  clear Ht Hr. set (sys1 := set_srv _ st') in Hw.
  assert (Hsame : same_queues sys sys1) by done.
  assert (Hinv1 : system_inv hist sys1) by (split; [exact Hs'|exact Hq]). clearbody sys1.
  destruct (ev_replied ev); [|injection Hw as <-; by split_and!].
  split; [exact (inv_reply _ _ _ _ _ _ Hinv1 Hw)|].
  apply reply_changes in Hw as (q & n & Hv & Hv' & Ho & _ & Hmem). rewrite Hsame in Hv.
  split; [intros c j Hne; rewrite Ho by done; apply Hsame|]. split; [done|].
  intros _. exists q, n, s0. split; [exact Hv|]. split; [exact Hans|].
  split; [exact Hv'|]. intros b p imm ->. destruct Hmem as (m & _ & Hm'). by exists m.
Qed.

(** The lock is released and a receive posted. *)
Lemma get_out_inv ev hist sys sys' cid qid tx r q :
  system_inv hist sys -> view sys cid (Z.to_nat qid) = Some q -> nr_buffered q = 0 ->
  get_out ev sys cid qid tx = Ret (sys', r) ->
  system_inv hist sys' /\ (quiet sys -> quiet sys') /\ r = (if tx =? tx_code TX_READ_ABORTED then -1 else 0)
  /\ forall c, cmem_of sys' c = cmem_of sys c.
Proof.
  intros Hinv Hv Hnr Hout. unfold get_out, spin_unlock in Hout. step Hout s1 H1'. step Hout s2 H2'.
  injection Hout as -> <-. apply repost_Ret in H2'. apply on_queue_changes in H1' as (q1 & C1), H2' as (q2 & C2).
  destruct (changes_trans _ _ _ _ _ _ _ _ _ C1 C2) as [C ->].
  assert (q1 = q) as -> by (pose proof (ch_old _ _ _ _ _ _ C); congruence). split_and!.
  - apply (inv_changes _ _ _ _ _ _ _ Hinv C).
    intros [B1 B2 B3 B4 B5 B6]. split; try done. cbn [nr_buffered client_post_recv set_cq set_lock]. lia.
  - intros Hq. apply (quiet_changes _ _ _ _ _ _ Hq C). by right.
  - done.
  - apply (ch_mem _ _ _ _ _ _ C).
Qed.

(** What the call may go through without leaving a reply behind. *)
Definition settled (ev : events) : Prop :=
  ev_delivered ev = true -> ev_replied ev = true -> ev_send ev = true /\ ev_recv ev = true.

(** The result of a get after its request, for a reply that was polled. *)
Lemma get_polled ev hist sys sys' cid qid key dma mid q n s r :
  system_inv hist sys -> (forall c j q, (c, j) <> (cid, Z.to_nat qid) -> view sys c j = Some q -> (j < 4)%nat -> idle q) ->
  0 <= qid < 256 -> 0 <= mid < 4096 -> idle q -> answer hist key dma mid qid s ->
  view sys cid (Z.to_nat qid) = Some (set_cq n (recv_cq q ++ [imm_of s]) q) ->
  (forall a p imm, s = SendData a p imm -> exists m, cmem_of sys cid = Some (rdma_write m a p)) ->
  ('(sys, imm) ← poll_recv sys cid qid;
   get_out ev sys cid qid (f_state (Cli.bit_unmask (ntohl imm)))) = Ret (sys', r) ->
  system_inv hist sys' /\ quiet sys'
  /\ (r = 0 -> exists p m, (key, p) ∈ hist /\ cmem_of sys' cid = Some m /\ read m dma 4096 = p).
Proof.
  intros Hinv Hoth Hqid Hmid [Hcq Hnr] Hans Hv Hmem Hg. step Hg r1 Hpoll. destruct r1 as [sys1 imm].
  unfold poll_recv in Hpoll. step Hpoll q1 Hq1. apply get_queue_Ret in Hq1.
  assert (q1 = set_cq n (recv_cq q ++ [imm_of s]) q) as -> by congruence. rewrite Hcq in *.
  cbn [recv_cq set_cq app recv_wrs] in Hpoll. step Hpoll sys2 Hon. injection Hpoll as <- <-.
  apply on_queue_changes in Hon as (q2 & C). assert (Hq2 := ch_old _ _ _ _ _ _ C).
  rewrite Hv in Hq2. injection Hq2 as <-.
  assert (Hinv1 : system_inv hist sys2) by (apply (inv_changes _ _ _ _ _ _ _ Hinv C); by intros []).
  destruct (get_out_inv _ _ _ _ _ _ _ _ _ Hinv1 (ch_new _ _ _ _ _ _ C) Hnr Hg) as (Hinv' & Hquiet & Hr & Hcm).
  split; [done|]. split.
  - apply Hquiet. intros c j q0 Hv0 Hj. destruct (decide ((c, j) = (cid, Z.to_nat qid))) as [[= -> ->]|Hne].
    + rewrite (ch_new _ _ _ _ _ _ C) in Hv0. by injection Hv0 as <-.
    + rewrite (ch_other _ _ _ _ _ _ C) in Hv0 by done. by apply (Hoth c j).
  - intros ->. destruct Hans as [-> | (p & Hp & Hlen & ->)]; cbn [imm_of] in Hr.
    + unfold aborted in Hr. by rewrite reply_unmask in Hr.
    + destruct (Hmem _ _ _ eq_refl) as (m & Hm). exists p, (rdma_write m dma p).
      rewrite Hcm, (ch_mem _ _ _ _ _ _ C). split_and!; [done..|]. rewrite <- Hlen. apply read_of_list.
      intros i b Hi. by apply rdma_write_inside.
Qed.

(** The two polls of a get when no reply has come. *)
Lemma get_unanswered ev hist sys sys' cid qid q r :
  system_inv hist sys -> quiet sys -> 0 <= qid < 4 -> view sys cid (Z.to_nat qid) = Some q ->
  (if negb (ev_send ev) then get_out ev sys cid qid 0
   else if negb (ev_recv ev) then get_out ev sys cid qid 0
   else '(sys, imm) ← poll_recv sys cid qid;
        get_out ev sys cid qid (f_state (Cli.bit_unmask (ntohl imm)))) = Ret (sys', r) ->
  system_inv hist sys' /\ quiet sys' /\ (ev_send ev = true -> ev_recv ev = false).
Proof.
  intros Hinv Hq Hqid Hv Hg. destruct (Hq _ _ _ Hv ltac:(lia)) as [Hcq Hnr].
  destruct (ev_send ev), (ev_recv ev); cbn [negb] in Hg.
  1: { step Hg r1 Hpoll. unfold poll_recv in Hpoll. step Hpoll q1 Hq1. apply get_queue_Ret in Hq1.
       assert (q1 = q) as -> by congruence. by rewrite Hcq in Hpoll. }
  all: destruct (get_out_inv _ _ _ _ _ _ _ _ _ Hinv Hv Hnr Hg) as (Hinv' & Hquiet & _ & _); auto.
Qed.

Lemma get_admitted_inv pb ev hist sys sys' cid qid mid dma key batch r :
  system_inv hist sys -> quiet sys -> settled ev -> 0 <= cid -> 0 <= qid < 4 -> 0 <= mid < 4096 -> 0 <= batch < 16 ->
  0 <= dma < 2 ^ 64 -> valid_key key ->
  get_admitted cfg pb BIGMRGET ev sys cid qid mid dma key batch = Ret (sys', r) ->
  system_inv hist sys' /\ quiet sys'
  /\ (ev_send ev = true -> ev_recv ev = true -> r = 0 ->
      exists p m, (key, p) ∈ hist /\ cmem_of sys' cid = Some m /\ read m dma 4096 = p).
Proof.
  intros Hinv Hqu Hset Hcid Hqid Hmid Hbatch Hdma Hkey Hget. unfold get_admitted in Hget. cbv zeta in Hget.
  destruct (ev_map_page ev); cbn [negb] in Hget; [|by injection Hget as <- <-].
  destruct (ev_addr_page ev); cbn [negb] in Hget; [|done].
  destruct (ev_memory ev); cbn [negb] in Hget; [|by injection Hget as <- <-].
  destruct (ev_map_meta ev); cbn [negb] in Hget; [|by injection Hget as <- <-].
  destruct (ev_addr_meta ev); cbn [negb] in Hget; [|done].
  cbv zeta in Hget. step Hget sys1 Hl. apply spin_lock_changes in Hl as (q & C & _).
  assert (Hinv1 : system_inv hist sys1) by (apply (inv_changes _ _ _ _ _ _ _ Hinv C); by intros []).
  assert (Hqu1 : quiet sys1) by (apply (quiet_changes _ _ _ _ _ _ Hqu C); by right).
  pose proof (ch_new _ _ _ _ _ _ C) as Hv1. step Hget sys2 Hw. unfold settled in Hset.
  destruct (ev_delivered ev).
  2: { injection Hw as <-. destruct (get_unanswered _ _ _ _ _ _ _ _ Hinv1 Hqu1 Hqid Hv1 Hget) as (? & ? & Hr).
       split_and!; [done..|]. intros Hs Hrv. rewrite Hr in Hrv; done. }
  apply (get_request _ _ hist) in Hw as (Hinv2 & Ho & Hno & Hyes); try (done || lia).
  destruct (ev_replied ev).
  2: { specialize (Hno eq_refl). assert (Hqu2 : quiet sys2) by (by apply (quiet_same sys1)).
       rewrite <- Hno in Hv1. destruct (get_unanswered _ _ _ _ _ _ _ _ Hinv2 Hqu2 Hqid Hv1 Hget) as (? & ? & Hr).
       split_and!; [done..|]. intros Hs Hrv. rewrite Hr in Hrv; done. }
  destruct (Hset eq_refl eq_refl) as [Hsend Hrecv]. rewrite Hsend, Hrecv in Hget. cbn [negb] in Hget.
  destruct (Hyes eq_refl) as (q1 & n & s & Hq1 & Hans & Hq2 & Hmem).
  assert (Hidle : idle q1) by (apply (Hqu1 _ _ _ Hq1); lia).
  destruct (get_polled _ _ _ _ _ _ _ _ _ _ _ _ _ Hinv2 ltac:(intros c j q0 Hne Hv0; rewrite Ho in Hv0 by done; by apply (Hqu1 c j))
    ltac:(lia) Hmid Hidle Hans Hq2 Hmem Hget) as (? & ? & Hp). split_and!; auto.
Qed.

Lemma get_inv pb ev hist sys sys' cid cpuid dma key batch r :
  system_inv hist sys -> quiet sys -> settled ev -> 0 <= cid -> 0 <= cpuid < 16384 -> 0 <= batch < 16 ->
  0 <= dma < 2 ^ 64 -> valid_key key ->
  rdpma_get cfg pb BIGMRGET 8 ev sys cid cpuid dma key batch = Ret (sys', r) ->
  system_inv hist sys' /\ quiet sys'
  /\ (ev_send ev = true -> ev_recv ev = true -> r = 0 ->
      exists p m, (key, p) ∈ hist /\ cmem_of sys' cid = Some m /\ read m dma 4096 = p).
Proof.
  intros Hinv Hqu Hset Hcid Hcpu Hbatch Hdma Hkey Hget. unfold rdpma_get in Hget.
  step Hget qid Hqid. apply bug_on_Ret in Hqid. apply read_queue_id in Hqid; [|lia].
  step Hget mid Hmid. apply bug_on_Ret in Hmid. injection Hmid as <-. change (8 / 2) with 4 in Hget.
  assert (0 <= cpuid / 4 < 4096) as Hmid by (split; [apply Z.div_pos|apply Z.div_lt_upper_bound]; lia).
  step Hget cl Hcl. step Hget isIn Hin. destruct isIn; cbn [negb] in Hget; [|by injection Hget as <- <-].
  by apply (get_admitted_inv _ _ _ _ _ _ _ _ _ _ _ _ Hinv Hqu Hset Hcid Hqid Hmid Hbatch Hdma Hkey Hget).
Qed.

(** ** Runs *)

(** A server that has accepted [n] clients, with an empty table. *)
Record started (n : nat) (sys : system T) : Prop := {
  st_server : exists m kv, ihp_wf (hash kv) /\ (forall k v, valid_key k -> ~ ihp_holds (hash kv) k v)
    /\ 3200 * Z.of_nat n <= page_limit cfg /\ accept_clients cfg n (new_server m kv) = Some (srv sys);
  st_clients : forall c cl, clients sys !! c = Some cl -> exists f m, cl = init_client 8 f m;
}.

(** Puts with any faults, and gets that leave no reply behind, of any client in
    any order; [room] is the bound of the buffer, which the server does not check. *)
Inductive runs : list (Key_t * page) -> system T -> Prop :=
| runs_start n sys : started n sys -> runs [] sys
| runs_put hist sys sys' ev cid cpuid p key r :
    runs hist sys -> 0 <= cid -> 0 <= cpuid < 16 -> length p = 4096%nat -> valid_key key ->
    page_offset (srv sys) + 4 <= page_limit cfg ->
    rdpma_put_twosided cfg NOPUT BIGMRGET 8 ev sys cid cpuid p key 1 = Ret (sys', r) ->
    runs ((key, p) :: hist) sys'
| runs_get hist sys sys' ev cid cpuid dma key r :
    runs hist sys -> 0 <= cid -> 0 <= cpuid < 16 -> 0 <= dma < 2 ^ 64 -> valid_key key -> settled ev ->
    rdpma_get cfg NOPUT BIGMRGET 8 ev sys cid cpuid dma key 1 = Ret (sys', r) ->
    runs hist sys'.

Lemma iter_post n q : exists k, Nat.iter n client_post_recv q = set_cq k (recv_cq q) q.
Proof.
  induction n as [|n (k & IH)].
  - exists (recv_wrs q). by destruct q.
  - exists (S k). change (client_post_recv (Nat.iter n client_post_recv q) = set_cq (S k) (recv_cq q) q).
    by rewrite IH.
Qed.

Lemma init_view cl f m j q :
  cl = init_client 8 f m -> queues cl !! j = Some q ->
  batch_inv [] q /\ idle q.
Proof.
  intros -> Hq. unfold init_client in Hq. cbn [queues] in Hq. apply lookup_replicate in Hq as [-> _].
  destruct (iter_post 100 init_queue) as (k & ->). unfold init_queue.
  change (Z.to_nat Cli.BATCH_SIZE) with 4%nat. change (Z.to_nat Cli.PAGE_SIZE) with 4096%nat.
  split; [|done].
  split; cbn [buffer keys nr_buffered global_lock set_cq]; try (apply length_replicate || done || lia).
  apply Forall_replicate, length_replicate.
Qed.

Lemma one_page : 0 <= 1 < 16.
Proof. lia. Qed.
Lemma few_cpus c : 0 <= c < 16 -> 0 <= c < 16384.
Proof. lia. Qed.

Lemma runs_inv hist sys : runs hist sys -> system_inv hist sys /\ quiet sys.
Proof.
  induction 1 as [n sys Hst|hist sys sys' ev cid cpuid p key r _ [IH1 IH2] Hcid Hcpu Hp Hk Hroom Hput
                 |hist sys sys' ev cid cpuid dma key r _ [IH1 IH2] Hcid Hcpu Hdma Hk Hset Hget].
  - destruct Hst as [(m & kv & Hwf & Hnone & Hl & Hacc) Hcl]. split.
    + split.
      * assert (Hl0 : 0 <= page_limit cfg) by lia.
        apply (sv_accept cfg Hcfg _ _ _ _ (sv_new cfg m kv Hwf Hnone Hl0) Hl Hacc).
      * intros c j q Hv. apply bind_Some in Hv as (cl & Hc & Hq). destruct (Hcl c cl Hc) as (f & m' & He).
        by apply (init_view cl f m' j).
    + intros c j q Hv _. apply bind_Some in Hv as (cl & Hc & Hq). destruct (Hcl c cl Hc) as (f & m' & He).
      by apply (init_view cl f m' j).
  - exact (put_inv _ _ _ _ _ _ _ _ _ _ _ _ IH1 IH2 Hcid (proj1 Hcpu) one_page Hp Hk Hroom Hput).
  - destruct (get_inv _ _ _ _ _ _ _ _ _ _ _ IH1 IH2 Hset Hcid (few_cpus _ Hcpu) one_page Hdma Hk Hget) as (? & ? & _).
    done.
Qed.

(** C1: in any run of puts and gets of the clients, with any allocation, mapping or
    network failure of the puts, a get that polls both completions and returns 0
    leaves in the page the bytes of a page that was put earlier under the same key:
    the server never answers with a page of another key, with a page that a later
    message overwrote, or with bytes of its metadata. *)
Theorem get_returns_put hist sys sys' ev cid cpuid dma key :
  runs hist sys -> 0 <= cid -> 0 <= cpuid < 16 -> 0 <= dma < 2 ^ 64 -> valid_key key -> settled ev ->
  ev_send ev = true -> ev_recv ev = true ->
  rdpma_get cfg NOPUT BIGMRGET 8 ev sys cid cpuid dma key 1 = Ret (sys', 0) ->
  exists p m, (key, p) ∈ hist /\ cmem_of sys' cid = Some m /\ read m dma 4096 = p.
Proof.
  intros Hrun Hcid Hcpu Hdma Hk Hset Hs Hr Hget. destruct (runs_inv _ _ Hrun) as [Hinv Hqu].
  destruct (get_inv _ _ _ _ _ _ _ _ _ _ _ Hinv Hqu Hset Hcid (few_cpus _ Hcpu) one_page Hdma Hk Hget) as (_ & _ & Hp).
  by apply Hp.
Qed.

End Safety.

(** ** Calls that return *)

Section Forward.
Context {T : Type} `{IHash T} `{Verbs} (cfg : config).

Definition filter_of (sys : system T) (cid : Z) : option bloom_filter := filter <$> clients sys !! cid.

Lemma on_queue_forward (sys : system T) cid qid f q :
  view sys cid (Z.to_nat qid) = Some q ->
  exists sys', on_queue sys cid qid f = Ret sys' /\ changes sys sys' cid (Z.to_nat qid) q (f q)
    /\ filter_of sys' cid = filter_of sys cid.
Proof.
  intros Hv. pose proof Hv as Hv0. unfold view in Hv. inv_bind Hv cl Hcl.
  assert (exists sys', on_queue sys cid qid f = Ret sys' /\ filter_of sys' cid = filter_of sys cid) as (sys' & Hon & Hf).
  { unfold on_queue, get_client. rewrite Hcl. cbn [defined mbind outcome_bind]. rewrite Hv. cbn [defined mbind outcome_bind].
    eexists. split; [done|]. unfold filter_of. cbn [set_client clients]. by rewrite lookup_insert_eq, Hcl. }
  destruct (on_queue_changes _ _ _ _ _ Hon) as (q' & Hch). pose proof (ch_old _ _ _ _ _ _ Hch) as Hq. rewrite Hv0 in Hq. injection Hq as <-.
  by exists sys'.
Qed.

Lemma get_queue_forward (sys : system T) cid qid q :
  view sys cid (Z.to_nat qid) = Some q -> get_queue sys cid qid = Ret q.
Proof. intros Hv. unfold view in Hv. inv_bind Hv cl Hcl. unfold get_queue, get_client. rewrite Hcl. cbn [defined mbind outcome_bind]. by rewrite Hv. Qed.

Lemma spin_lock_forward (sys : system T) cid qid q :
  view sys cid (Z.to_nat qid) = Some q -> global_lock q = false ->
  exists sys', spin_lock sys cid qid = Ret sys' /\ changes sys sys' cid (Z.to_nat qid) q (set_lock true q)
    /\ filter_of sys' cid = filter_of sys cid.
Proof.
  intros Hv Hl. unfold spin_lock. rewrite (get_queue_forward _ _ _ _ Hv). cbn [mbind outcome_bind]. rewrite Hl.
  by apply on_queue_forward.
Qed.

Lemma reply_forward (sys : system T) cid qid s q n :
  view sys cid (Z.to_nat qid) = Some q -> recv_wrs q = S n -> exists sys', reply sys cid qid s = Ret sys'.
Proof.
  intros Hv Hn. unfold reply. cbv zeta.
  assert (forall (sys : system T) imm, view sys cid (Z.to_nat qid) = Some q -> exists sys', (q ← get_queue sys cid qid;
    q ← match recv_wrs q with O => Hang | S n => Ret (set_cq n (recv_cq q ++ [imm]) q) end; on_queue sys cid qid (fun _ => q)) = Ret sys') as Hgo.
  { intros sys0 imm Hv0. rewrite (get_queue_forward _ _ _ _ Hv0). cbn [mbind outcome_bind]. rewrite Hn. cbn [mbind outcome_bind].
    destruct (on_queue_forward sys0 cid qid (fun _ => set_cq n (recv_cq q ++ [imm]) q) q Hv0) as (sys' & Hon & _). by exists sys'. }
  destruct s as [imm|a data imm]; [by apply Hgo|].
  unfold view in Hv. inv_bind Hv cl Hcl. unfold on_memory, get_client. rewrite Hcl. cbn [defined mbind outcome_bind]. apply Hgo.
  unfold view, set_client. cbn [clients]. rewrite lookup_insert_eq. done.
Qed.

(** The client polls the reply, releases the lock and posts a receive. *)
Lemma poll_forward (sys : system T) cid qid q imm :
  view sys cid (Z.to_nat qid) = Some q -> recv_cq q = [imm] ->
  exists sys', ('(sys, imm) ← poll_recv sys cid qid; get_out fine sys cid qid (f_state (Cli.bit_unmask (ntohl imm))))
    = Ret (sys', if f_state (Cli.bit_unmask (ntohl imm)) =? tx_code TX_READ_ABORTED then -1 else 0).
Proof.
  intros Hv Hcq. unfold poll_recv, get_out, spin_unlock, repost. cbn [fine ev_post]. rewrite (get_queue_forward _ _ _ _ Hv). cbn [mbind outcome_bind]. rewrite Hcq.
  destruct (on_queue_forward sys cid qid (set_cq (recv_wrs q) []) _ Hv) as (s1 & -> & C1 & _). cbn [mbind outcome_bind].
  destruct (on_queue_forward s1 cid qid (set_lock false) _ (ch_new _ _ _ _ _ _ C1)) as (s2 & -> & C2 & _). cbn [mbind outcome_bind].
  destruct (on_queue_forward s2 cid qid client_post_recv _ (ch_new _ _ _ _ _ _ C2)) as (s3 & -> & _). cbn [mbind outcome_bind]. by exists s3.
Qed.

(** A get that a filter admits, of a key with a value in the table: both sides have a receive
    posted and nothing fails. *)
Lemma get_admitted_hits pb (sys : system T) cid qid mid dma key v q n a l :
  0 <= qid < 4 -> 0 <= mid < 4096 -> 0 <= dma < 2 ^ 64 -> 0 <= key < 2 ^ 64 ->
  view sys cid (Z.to_nat qid) = Some q -> global_lock q = false -> recv_wrs q = S n -> recv_cq q = [] ->
  recvs (srv sys) !! (cid, qid) = Some (a :: l) -> ih_Get (hash (skv (srv sys))) key = Some v -> v <> 0 ->
  exists sys', get_admitted cfg pb BIGMRGET fine sys cid qid mid dma key 1 = Ret (sys', 0).
Proof.
  intros Hqid Hmid Hdma Hkey Hv Hl Hn Hcq Hrecv Hget Hne. unfold get_admitted.
  cbn [negb fine ev_map_page ev_addr_page ev_memory ev_map_meta ev_addr_meta ev_delivered ev_send ev_recv].
  destruct (spin_lock_forward sys cid qid q Hv Hl) as (s1 & -> & C1 & _). cbn [mbind outcome_bind].
  unfold write_with_imm, consume, take_recv. cbn [srv on_server set_srv recvs set_mem]. rewrite (ch_srv _ _ _ _ _ _ C1), Hrecv.
  cbn [mbind outcome_bind]. unfold serve. rewrite server_recv_read by lia. unfold process_read_odp.
  cbn [smem skv set_kv set_recvs set_mem srv set_srv on_server count_get post_recv post].
  destruct (meta_arrives cfg (smem (srv sys)) cid qid mid key 1 dma Hkey Hdma) as [Ek Ed]. rewrite Ek, Ed.
  unfold KV.Get. rewrite Hget. cbn [mbind option_bind defined outcome_bind]. destruct (Z.eqb_spec v 0) as [|_]; [done|].
  cbn [mbind option_bind defined outcome_bind fine ev_replied].
  match goal with |- context [reply ?s cid qid ?d] => set (s2 := s); set (ans := d) end.
  destruct (reply_forward s2 cid qid ans _ n (ch_new _ _ _ _ _ _ C1) Hn) as (s3 & Hr). rewrite Hr. cbn [mbind outcome_bind].
  apply reply_changes in Hr as (q3 & n3 & Hq3 & Hv3 & _). change (view s2 cid) with (view s1 cid) in Hq3.
  rewrite (ch_new _ _ _ _ _ _ C1) in Hq3. injection Hq3 as <-.
  cbn [recv_cq set_cq set_lock] in Hv3. rewrite Hcq in Hv3. cbn [app] in Hv3.
  destruct (poll_forward s3 cid qid _ _ Hv3 eq_refl) as (s4 & Hp). rewrite Hp.
  exists s4. unfold ans. by rewrite reply_unmask by lia.
Qed.

(** The same of [rdpma_get], with the filter of the client. *)
Lemma get_hits pb (sys : system T) cid f cpuid dma key v q n a l :
  filter_of sys cid = Some f -> bloom_filter_check f (key_bytes key) = Some true ->
  0 <= cpuid < 16 -> 0 <= dma < 2 ^ 64 -> 0 <= key < 2 ^ 64 ->
  view sys cid (Z.to_nat (cpuid mod 4)) = Some q -> global_lock q = false -> recv_wrs q = S n -> recv_cq q = [] ->
  recvs (srv sys) !! (cid, cpuid mod 4) = Some (a :: l) -> ih_Get (hash (skv (srv sys))) key = Some v -> v <> 0 ->
  exists sys', rdpma_get cfg pb BIGMRGET 8 fine sys cid cpuid dma key 1 = Ret (sys', 0).
Proof.
  intros Hf Hc Hcpu Hdma Hkey Hv Hl Hn Hcq Hrecv Hget Hne. unfold filter_of in Hf.
  destruct (clients sys !! cid) as [cl|] eqn:Hcl; [|done]. injection Hf as <-.
  unfold rdpma_get, Cli.rdpma_get_queue_id. rewrite urem_pos by done. cbn [mbind option_bind bug_on outcome_bind].
  unfold Cli.message_id. change (8 / 2) with 4. cbn [Z.eqb bug_on mbind outcome_bind].
  unfold get_client. rewrite Hcl. cbn [defined mbind outcome_bind]. rewrite Hc. cbn [defined mbind outcome_bind negb].
  apply (get_admitted_hits pb sys cid (cpuid mod 4) (cpuid / 4) dma key v q n a l); try done.
  - apply Z.mod_pos_bound. lia.
  - split; [apply Z.div_pos|apply Z.div_lt_upper_bound]; lia.
Qed.

End Forward.

(** ** A run

    One client, a table of one cluster, and the buffer of 10 GB of the server. *)

Module Demo.

#[local] Existing Instance machine_verbs.
#[local] Existing Instance plain_hash.

Definition cfg : config := MkConfig (2 ^ 20) (10 * 2 ^ 30) (fun c => 2 ^ 40 * (c + 1)).
Definition table : LinearProbingHash := new_table (fun _ => 0) 16.
Definition kv : KV LinearProbingHash := MkKV table None ∅ 0 0 0.
Definition server0 : server LinearProbingHash := new_server (fun _ => 0) kv.
Definition server1 : server LinearProbingHash := default server0 (accept_clients cfg 1 server0).
Definition client0 : client := init_client 8 (bloom_filter_new [0] 2 64) (fun _ => 0).
Definition start : system LinearProbingHash := MkSystem {[ 0 := client0 ]} server1.

Definition page_of (b : Z) : page := replicate 4096 b.

Definition put (ev : events) (sys : system LinearProbingHash) (key b : Z) :=
  rdpma_put_twosided cfg NOPUT BIGMRGET 8 ev sys 0 0 (page_of b) key 1.
Definition get (ev : events) (sys : system LinearProbingHash) (key : Z) :=
  rdpma_get cfg NOPUT BIGMRGET 8 ev sys 0 0 65536 key 1.

Definition result {A} (o : outcome (A * Z)) : option Z := match o with Ret (_, r) => Some r | _ => None end.
Definition after (o : outcome (system LinearProbingHash * Z)) : system LinearProbingHash :=
  match o with Ret (sys, _) => sys | _ => start end.
(** The first bytes of the page of a get. *)
Definition page_read (o : outcome (system LinearProbingHash * Z)) : list Z :=
  match cmem_of (after o) 0 with Some m => read m 65536 3 | None => [] end.

Lemma result_Ret o r : result o = Some r -> o = Ret (after o, r).
Proof. destruct o as [[sys r']| | |]; [|done..]. by intros [= ->]. Qed.

Lemma cfg_ok : config_ok cfg.
Proof. split; vm_compute; done. Qed.

Lemma table_ok : ihp_wf table /\ forall k v, valid_key k -> ~ ihp_holds table k v.
Proof.
  split.
  - destruct (new_table_rep (fun _ => 0) 1) as (cs & Hr & _); [lia..|]. by exists cs.
  - intros k v (_ & Hk & _) Hh. apply list_elem_of_lookup in Hh as (i & Hi). vm_compute in Hi.
    do 16 (destruct i as [|i]; [by injection Hi as <- _|]). done.
Qed.

Lemma start_started : started cfg 1 start.
Proof.
  split.
  - exists (fun _ => 0), kv. destruct table_ok as [Hwf Hnone].
    split; [exact Hwf|]. split; [exact Hnone|]. split; [by vm_compute|].
    assert (Hs : bool_decide (is_Some (accept_clients cfg 1 server0)) = true) by (vm_compute; reflexivity).
    apply bool_decide_eq_true in Hs as [st Hst]. change (accept_clients cfg 1 server0 = Some server1).
    unfold server1. by rewrite Hst.
  - intros c cl Hc. unfold start in Hc. cbn [clients] in Hc. apply lookup_singleton_Some in Hc as [_ <-]. eexists _, _. reflexivity.
Qed.
Lemma start_runs : runs cfg [] start.
Proof. apply (runs_start cfg 1), start_started. Qed.

Lemma put_runs hist sys k b :
  runs cfg hist sys -> valid_key k -> page_offset (srv sys) + 4 <= page_limit cfg ->
  result (put fine sys k b) = Some 0 -> runs cfg ((k, page_of b) :: hist) (after (put fine sys k b)).
Proof.
  intros Hrun Hk Hroom Hr. apply (runs_put cfg hist sys _ fine 0 0 (page_of b) k 0);
    [exact Hrun|lia|lia|apply length_replicate|exact Hk|exact Hroom|].
  apply result_Ret, Hr.
Qed.

Definition put4 (sys : system LinearProbingHash) (k b : Z) : system LinearProbingHash :=
  let sys := after (put fine sys k b) in
  let sys := after (put fine sys (k + 1) (b + 1)) in
  let sys := after (put fine sys (k + 2) (b + 2)) in
  after (put fine sys (k + 3) (b + 3)).

Definition sys4 : system LinearProbingHash := put4 start 11 1.
Definition hist4 : list (Key_t * page) :=
  [(14, page_of 4); (13, page_of 3); (12, page_of 2); (11, page_of 1)].

Lemma sys4_runs : runs cfg hist4 sys4.
Proof.
  unfold sys4, put4, hist4. cbv zeta.
  repeat (apply put_runs; [|by vm_compute; split_and!|by vm_compute|by vm_compute]).
  apply start_runs.
Qed.

End Demo.

(** The page of key 12 comes back. *)
Lemma get_returns_put_witness :
  exists p m, (12, p) ∈ Demo.hist4
    /\ cmem_of (Demo.after (Demo.get fine Demo.sys4 12)) 0 = Some m /\ read m 65536 4096 = p.
Proof.
  apply (@get_returns_put _ _ (@LinearProbing_pairs plain_hash) machine_verbs Demo.cfg Demo.cfg_ok Demo.hist4 Demo.sys4 _ fine 0 0 65536 12);
    [apply Demo.sys4_runs|lia|lia|lia|by vm_compute; split_and!|done|done|done|].
  apply Demo.result_Ret. vm_cast_no_check (eq_refl (Some 0)).
Defined.

