(* ===== verification/FilterInv.v ===== *)
(** * What the counting filter of the server has counted

    The server counts a key when it inserts it, and it inserts the keys of a
    batch when the batch arrives.  So at every point of a run the keys that the
    filter counts and the keys that still wait in the buffers of the clients are,
    each as often as it occurs, keys that were put.  With that a bound on the
    keys put is a bound on the counters, and the counters are exact. *)

From S2P Require Import Prelude PairDefs HashFun CountingBloom ClientBloom KV Wire Server Client System.

(** The keys of a batch that the server has not seen; a full batch is on its way, or lost. *)
Definition pending (q : rdma_queue) : list Z :=
  if nr_buffered q <? 4 then take (Z.to_nat (nr_buffered q)) (keys q) else [].

Definition keys_put (hist : list (Key_t * page)) : gmultiset Z := list_to_set_disj hist.*1.
Lemma keys_put_cons key p hist : keys_put ((key, p) :: hist) = {[+ key +]} ⊎ keys_put hist.
Proof. done. Qed.

Section Waiting.
Context {T : Type} `{Verbs}.

Definition waits (sys : system T) (pl : Z * nat) : gmultiset Z := list_to_set_disj (from_option pending [] (view sys pl.1 pl.2)).

(** The keys that wait in some queues. *)
Fixpoint waiting (sys : system T) (pls : list (Z * nat)) : gmultiset Z :=
  match pls with [] => ∅ | pl :: pls => waits sys pl ⊎ waiting sys pls end.

Definition same_waits (sys sys' : system T) : Prop := forall pl, waits sys' pl = waits sys pl.

Lemma waiting_ext sys sys' pls : (forall pl, pl ∈ pls -> waits sys' pl = waits sys pl) -> waiting sys' pls = waiting sys pls.
Proof.
  induction pls as [|pl pls IH]; intros Hs; [done|]. cbn [waiting]. rewrite (Hs pl), IH; [done| |by left].
  intros pl' Hp. apply Hs. by right.
Qed.

(** One queue aside. *)
Lemma waiting_split sys sys' pls pl :
  NoDup pls -> (forall pl', pl' <> pl -> waits sys' pl' = waits sys pl') ->
  exists rest, NoDup (pl :: rest) /\ waiting sys' pls ⊆ waits sys' pl ⊎ waiting sys rest.
Proof.
  intros Hnd Hs. destruct (decide (pl ∈ pls)) as [Hin|Hout].
  - apply list_elem_of_split in Hin as (l1 & l2 & ->). exists (l1 ++ l2).
    assert (l1 ++ pl :: l2 ≡ₚ pl :: l1 ++ l2) as Hp by (by rewrite Permutation_middle).
    rewrite Hp in Hnd. split; [done|]. apply NoDup_cons in Hnd as [Hni _].
    rewrite <- (waiting_ext sys sys' (l1 ++ l2)) by (intros p Hpi; apply Hs; intros ->; done).
    clear. induction l1 as [|p l1 IH]; cbn [app waiting]; [done|multiset_solver].
  - exists pls. split; [by apply NoDup_cons|]. rewrite (waiting_ext sys sys' pls); [multiset_solver|].
    intros p Hp. apply Hs. by intros ->.
Qed.

Lemma same_waits_trans sys1 sys2 sys3 : same_waits sys1 sys2 -> same_waits sys2 sys3 -> same_waits sys1 sys3.
Proof. intros A B pl. by rewrite B, A. Qed.

Lemma same_waits_queues sys sys' : same_queues sys sys' -> same_waits sys sys'.
Proof. intros Hs [c j]. unfold waits. cbn [fst snd]. by rewrite Hs. Qed.

Lemma waits_view sys c j q : view sys c j = Some q -> waits sys (c, j) = list_to_set_disj (pending q).
Proof. unfold waits. cbn [fst snd]. by intros ->. Qed.

Lemma changes_waits (sys sys' : system T) cid i q q' pl :
  changes sys sys' cid i q q' -> pl <> (cid, i) -> waits sys' pl = waits sys pl.
Proof. intros C Hne. destruct pl as [c j]. unfold waits. cbn [fst snd]. by rewrite (ch_other _ _ _ _ _ _ C). Qed.

Lemma changes_same_waits (sys sys' : system T) cid i q q' :
  changes sys sys' cid i q q' -> pending q' = pending q -> same_waits sys sys'.
Proof.
  intros C Hp pl. destruct (decide (pl = (cid, i))) as [->|Hne]; [|by eapply changes_waits].
  by rewrite (waits_view _ _ _ _ (ch_new _ _ _ _ _ _ C)), (waits_view _ _ _ _ (ch_old _ _ _ _ _ _ C)), Hp.
Qed.

Lemma reply_same_waits (sys sys' : system T) cid qid s : reply sys cid qid s = Ret sys' -> same_waits sys sys' /\ srv sys' = srv sys.
Proof.
  intros Hr. apply reply_changes in Hr as (q & n & Hv & Hv' & Ho & Hsrv & _). split; [|done].
  intros [c j]. destruct (decide ((c, j) = (cid, Z.to_nat qid))) as [[= -> ->]|Hne].
  - by rewrite (waits_view _ _ _ _ Hv), (waits_view _ _ _ _ Hv').
  - unfold waits. cbn [fst snd]. by rewrite Ho.
Qed.

End Waiting.

Section Counted.
Context {T : Type} `{IHash T} `{!IHashSpec T} (nb : Z) (nh : nat).

(** The filter counts the keys [M], with those the table stores among them; they and the keys
    that wait in any queues were put. *)
Definition counted (hist : list (Key_t * page)) (sys : system T) : Prop :=
  exists b M, kv_inv nb nh (skv (srv sys)) b M /\ forall pls, NoDup pls -> M ⊎ waiting sys pls ⊆ keys_put hist.

(** No counter can pass its last value. *)
Definition few_keys (hist : list (Key_t * page)) : Prop := forall i, 0 <= i < nb -> cnt nb nh (keys_put hist) i <= 255.

Lemma few_keys_tail kp hist : few_keys (kp :: hist) -> few_keys hist.
Proof. intros Hf i Hi. etrans; [|apply (Hf i Hi)]. apply cnt_mono. destruct kp. rewrite keys_put_cons. multiset_solver. Qed.

Lemma kv_inv_ext (kv kv' : KV T) b M : hash kv' = hash kv -> bf kv' = bf kv -> kv_inv nb nh kv b M -> kv_inv nb nh kv' b M.
Proof. intros Hh Hb [I1 I2 I3 I4 I5 I6]. split; by rewrite ?Hh, ?Hb. Qed.

(** The server has changed nothing but the words that the filter is packed into. *)
Lemma counted_kv hist sys sys' :
  counted hist sys -> same_waits sys sys' ->
  (forall b M, kv_inv nb nh (skv (srv sys)) b M -> exists b', kv_inv nb nh (skv (srv sys')) b' M) -> counted hist sys'.
Proof.
  intros (b & M & Hkv & Hsub) Hw Hstep. destruct (Hstep b M Hkv) as [b' Hkv']. exists b', M. split; [done|].
  intros pls Hnd. rewrite (waiting_ext sys sys' pls) by auto. by apply Hsub.
Qed.

Lemma counted_same hist sys sys' :
  counted hist sys -> same_waits sys sys' -> hash (skv (srv sys')) = hash (skv (srv sys)) -> bf (skv (srv sys')) = bf (skv (srv sys)) ->
  counted hist sys'.
Proof. intros Hc Hw Hh Hb. apply (counted_kv hist sys); [done..|]. intros b M Hkv. exists b. by apply (kv_inv_ext (skv (srv sys))). Qed.

(** A key is put into one queue; what leaves the queue is counted. *)
Lemma counted_put hist sys sys' pl key p :
  counted hist sys -> (forall pl', pl' <> pl -> waits sys' pl' = waits sys pl') ->
  (forall b M, kv_inv nb nh (skv (srv sys)) b M -> M ⊎ waits sys pl ⊎ {[+ key +]} ⊆ keys_put ((key, p) :: hist) ->
     exists b' M', kv_inv nb nh (skv (srv sys')) b' M' /\ M' ⊎ waits sys' pl ⊆ M ⊎ waits sys pl ⊎ {[+ key +]}) ->
  counted ((key, p) :: hist) sys'.
Proof.
  intros (b & M & Hkv & Hsub) Hw Hstep.
  destruct (Hstep b M Hkv) as (b' & M' & Hkv' & Hsub').
  { pose proof (Hsub [pl] (NoDup_singleton pl)) as Hs. cbn [waiting] in Hs. rewrite keys_put_cons. multiset_solver. }
  exists b', M'. split; [done|]. intros pls Hnd. destruct (waiting_split sys sys' pls pl Hnd Hw) as (rest & Hnd' & Hrest).
  pose proof (Hsub (pl :: rest) Hnd') as Hs. cbn [waiting] in Hs. rewrite keys_put_cons. multiset_solver.
Qed.

(** The keys of a batch are inserted one by one. *)
Lemma insert_pages_counted target ks n : forall i kv kv' b M,
  (i + n = length ks)%nat -> Forall valid_key ks -> kv_inv nb nh kv b M ->
  (forall j, 0 <= j < nb -> cnt nb nh (M ⊎ list_to_set_disj (drop i ks)) j <= 255) ->
  foldM (insert_page target ks) (seq i n) kv = Some kv' ->
  exists b' M', kv_inv nb nh kv' b' M' /\ M' ⊆ M ⊎ list_to_set_disj (drop i ks).
Proof.
  induction n as [|n IH]; intros i kv kv' b M Hi Hks Hkv Hmax Hf; cbn [seq foldM] in Hf.
  { injection Hf as <-. exists b, M. split; [done|multiset_solver]. }
  apply bind_Some in Hf as (kv1 & Hins & Hf). unfold insert_page in Hins. apply bind_Some in Hins as (k & Hk & Hins).
  apply bind_Some in Hins as ([kv2 done2] & Hins & Hins'). injection Hins' as ->.
  rewrite (drop_S _ k _ Hk) in Hmax |- *. cbn [list_to_set_disj] in Hmax |- *.
  destruct (ih_Insert (hash kv) k (u64 (target + Svr.PAGE_SIZE * Z.of_nat i))) as [[t d]|] eqn:E;
    [|unfold KV.Insert in Hins; by rewrite E in Hins].
  destruct (kv_inv_Insert nb nh kv b M k _ t d Hkv (Forall_lookup_1 _ _ _ _ Hks Hk) E) as (kv3 & b3 & M3 & Hins3 & _ & Hkv3 & Hsub3).
  { intros j Hj. etrans; [|apply (Hmax j Hj)]. apply cnt_mono. multiset_solver. }
  rewrite Hins in Hins3. injection Hins3 as <- _.
  destruct (IH (S i) kv1 kv' b3 M3) as (b' & M' & Hkv' & Hsub'); [lia|done|done| |done|].
  { intros j Hj. etrans; [|apply (Hmax j Hj)]. apply cnt_mono. multiset_solver. }
  exists b', M'. split; [done|multiset_solver].
Qed.

Lemma full_batch_keys hist q : batch_inv hist q -> nr_buffered q = 4 -> Forall valid_key (keys q).
Proof.
  intros [B1 B2 _ _ _ B6] Hnr. apply Forall_lookup_2. intros n k Hk. apply lookup_lt_Some in Hk as Hn.
  destruct (lookup_lt_is_Some_2 (buffer q) n) as [p Hp]; [lia|]. apply (B6 n k p); [lia|done|done].
Qed.

(** The last page of a batch was put: the batch is lost, or its keys are counted. *)
Lemma counted_batch hist sys sys' pl ks key p :
  counted hist sys -> few_keys ((key, p) :: hist) -> (forall pl', pl' <> pl -> waits sys' pl' = waits sys pl') ->
  waits sys pl = list_to_set_disj ks -> waits sys' pl = ∅ -> Forall valid_key (ks ++ [key]) -> length (ks ++ [key]) = 4%nat ->
  skv (srv sys') = skv (srv sys)
  \/ (exists target, foldM (insert_page target (ks ++ [key])) (seq 0 4) (skv (srv sys)) = Some (skv (srv sys'))) ->
  counted ((key, p) :: hist) sys'.
Proof.
  intros Hc Hfew Hoth Hw Hempty Hks Hlen Hkv'. apply (counted_put hist sys _ pl); [done..|].
  intros b M Hkv Hsub. rewrite Hempty, Hw in *.
  assert (M ⊎ list_to_set_disj (ks ++ [key]) = M ⊎ list_to_set_disj ks ⊎ {[+ key +]}) as E
    by (rewrite list_to_set_disj_app; cbn [list_to_set_disj]; multiset_solver).
  destruct Hkv' as [-> | [target Hf]]; [exists b, M; split; [done|multiset_solver]|].
  destruct (insert_pages_counted target (ks ++ [key]) 4 0 (skv (srv sys)) (skv (srv sys')) b M) as (b' & M' & Hkv' & Hsub');
    [by rewrite Hlen|done|done| |done|].
  - intros j Hj. etrans; [|apply (Hfew j Hj)]. apply cnt_mono. rewrite drop_0, E. exact Hsub.
  - exists b', M'. split; [done|]. rewrite drop_0, E in Hsub'. multiset_solver.
Qed.

End Counted.

Section Steps.
Context {T : Type} `{IHash T} `{!IHashSpec T} `{!IHashPairs T} `{Verbs} (cfg : config).
Hypothesis Hcfg : config_ok cfg.
Context (nb : Z) (nh : nat).
#[local] Abbreviation counted := (counted nb nh).
#[local] Abbreviation few_keys := (few_keys nb nh).

(** ** A put *)

(** The page enters the batch; a full batch is no longer waiting. *)
Lemma pending_store hist q b k key :
  batch_inv hist q -> nr_buffered q < 4 -> store (keys q) (Z.to_nat (nr_buffered q)) key = Some k ->
  let q' := set_batch b k (set_nr (s32 (nr_buffered q + 1)) (set_lock true q)) in
  (nr_buffered q < 3 -> pending q' = pending q ++ [key]) /\ (nr_buffered q = 3 -> pending q' = [] /\ k = pending q ++ [key]).
Proof.
  intros [B1 B2 B3 B4 B5 B6] Hnr Hk. apply store_inv in Hk as [Hlk ->]. cbv zeta. unfold pending.
  rewrite s32_small by lia. cbn [nr_buffered keys set_batch set_nr set_lock].
  destruct (Z.ltb_spec (nr_buffered q) 4); [|lia].
  assert (take (S (Z.to_nat (nr_buffered q))) (<[Z.to_nat (nr_buffered q):=key]> (keys q)) = take (Z.to_nat (nr_buffered q)) (keys q) ++ [key]) as Ht.
  { rewrite (take_S_r _ _ key) by (by apply list_lookup_insert_eq). by rewrite take_insert_ge. }
  split.
  - intros Hlt. destruct (Z.ltb_spec (nr_buffered q + 1) 4); [|lia]. by rewrite <- Ht, Z2Nat.inj_add, Nat.add_1_r by lia.
  - intros Heq. rewrite Heq in *. split; [done|]. change (Z.to_nat 3) with 3%nat in *. rewrite <- Ht. symmetry. apply take_ge. rewrite length_insert. lia.
Qed.

Lemma put_out_waits ev (sys sys' : system T) cid qid r :
  put_out ev sys cid qid = Ret (sys', r) ->
  (forall pl, pl <> (cid, Z.to_nat qid) -> waits sys' pl = waits sys pl) /\ waits sys' (cid, Z.to_nat qid) = ∅ /\ srv sys' = srv sys.
Proof.
  intros Hout. unfold put_out, spin_unlock in Hout. step Hout s1 H1'. step Hout s2 H2'. step Hout s3 H3'. injection Hout as -> _.
  apply repost_Ret in H3'. apply on_queue_changes in H1' as (q1 & C1), H2' as (q2 & C2), H3' as (q3 & C3).
  destruct (changes_trans _ _ _ _ _ _ _ _ _ C1 C2) as [C12 ->].
  destruct (changes_trans _ _ _ _ _ _ _ _ _ C12 C3) as [C ->].
  split; [intros pl; by apply (changes_waits _ _ _ _ _ _ _ C)|]. split; [|apply (ch_srv _ _ _ _ _ _ C)].
  by rewrite (waits_view _ _ _ _ (ch_new _ _ _ _ _ _ C)).
Qed.

Lemma poll_recv_waits (sys sys' : system T) cid qid imm : poll_recv sys cid qid = Ret (sys', imm) -> same_waits sys sys' /\ srv sys' = srv sys.
Proof.
  intros Hpoll. unfold poll_recv in Hpoll. step Hpoll q1 Hq1. destruct (recv_cq q1) as [|imm0 l]; [done|]. step Hpoll sys3 Hon.
  injection Hpoll as -> _. apply on_queue_changes in Hon as (q2 & C). split; [|apply (ch_srv _ _ _ _ _ _ C)].
  by apply (changes_same_waits _ _ _ _ _ _ C).
Qed.

(** The server inserts the keys of the batch that was sent. *)
Lemma send_batch_keys pb gb ev hist sys sys' cid qid batch q :
  system_inv cfg hist sys -> view sys cid (Z.to_nat qid) = Some q -> nr_buffered q = 4 ->
  0 <= cid -> 4 <= qid < 8 -> 0 <= batch < 16 -> page_offset (srv sys) + 4 <= page_limit cfg ->
  send_batch cfg pb gb ev sys cid qid batch = Ret sys' ->
  same_waits sys sys' /\ exists target, foldM (insert_page target (keys q)) (seq 0 4) (skv (srv sys)) = Some (skv (srv sys')).
Proof.
  intros Hinv Hv Hnr Hcid Hqid Hbatch Hroom Hsend.
  destruct (send_batch_Ret cfg Hcfg _ _ _ _ _ _ _ _ _ _ Hinv Hv Hnr Hcid ltac:(lia) Hsend)
    as (j & st & Hs & _ & Hj & Hjo & Hoff & Hkv & Hks & _ & Hsv).
  apply serve_Ret in Hsv as (st' & s & Hr & Hsv). rewrite srv_set_srv in Hr. unfold server_recv in Hr.
  destruct (Z.eqb_spec (page_at cfg j) 0) as [Hz|_]; [by apply (page_at_pos cfg Hcfg) in Hz; [|lia]|].
  rewrite request_unmask in Hr by lia. cbn [f_qid f_msg] in Hr.
  apply bind_Some in Hr as ([st1 s1] & Hp & Hr). injection Hr as -> <-.
  unfold process_write_twosided in Hp. cbn [smem skv count_put] in Hp. rewrite Hks, Hkv in Hp.
  apply bind_Some in Hp as (kv & Hf & Hp).
  assert (skv st' = kv) as Hskv by (destruct (ev_sent ev); by injection Hp as <- _).
  assert (same_waits sys sys' /\ srv sys' = st') as [Hw Hst].
  { destruct (ev_replied ev); [|by injection Hsv as <-]. apply reply_same_waits in Hsv as [Hw Hst]. by split. }
  split; [exact Hw|]. exists (page_at cfg j). rewrite Hst, Hskv. exact Hf.
Qed.

(** What the sending part of a put leaves in the queue, and in the table. *)
Lemma put_sent_counted pb gb ev hist sys sys' cid qid batch q r :
  system_inv cfg hist sys -> view sys cid (Z.to_nat qid) = Some q -> nr_buffered q = 4 ->
  0 <= cid -> 4 <= qid < 8 -> 0 <= batch < 16 -> page_offset (srv sys) + 4 <= page_limit cfg ->
  (sys ← (if ev_delivered ev then send_batch cfg pb gb ev sys cid qid batch else Ret sys);
   if negb (ev_send ev) then put_out ev sys cid qid
   else if negb (ev_recv ev) then Ret (sys, -1)
   else '(sys, _) ← poll_recv sys cid qid; put_out ev sys cid qid) = Ret (sys', r) ->
  (forall pl, pl <> (cid, Z.to_nat qid) -> waits sys' pl = waits sys pl) /\ waits sys' (cid, Z.to_nat qid) = ∅
  /\ (skv (srv sys') = skv (srv sys)
      \/ exists target, foldM (insert_page target (keys q)) (seq 0 4) (skv (srv sys)) = Some (skv (srv sys'))).
Proof.
  intros Hinv Hv Hnr Hcid Hqid Hbatch Hroom Hp. step Hp sys1 Hs.
  assert (same_waits sys sys1 /\ (skv (srv sys1) = skv (srv sys)
    \/ exists target, foldM (insert_page target (keys q)) (seq 0 4) (skv (srv sys)) = Some (skv (srv sys1)))) as [Hw Hkv].
  { destruct (ev_delivered ev); [|injection Hs as <-; split; [done|by left]].
    destruct (send_batch_keys _ _ _ _ _ _ _ _ _ _ Hinv Hv Hnr Hcid Hqid Hbatch Hroom Hs). auto. }
  assert (waits sys (cid, Z.to_nat qid) = ∅) as Hw0 by (rewrite (waits_view _ _ _ _ Hv); unfold pending; by rewrite Hnr).
  assert (forall sys2, same_waits sys1 sys2 -> srv sys2 = srv sys1 -> put_out ev sys2 cid qid = Ret (sys', r) ->
    (forall pl, pl <> (cid, Z.to_nat qid) -> waits sys' pl = waits sys pl) /\ waits sys' (cid, Z.to_nat qid) = ∅ /\ srv sys' = srv sys1) as Hout.
  { intros sys2 Hw2 Hs2 Ho. apply put_out_waits in Ho as (Ho & He & Hsrv). split; [|split; [done|congruence]].
    intros pl Hne. by rewrite Ho, Hw2, Hw. }
  destruct (ev_send ev); cbn [negb] in Hp; [destruct (ev_recv ev); cbn [negb] in Hp|].
  - step Hp r1 Hpoll. destruct r1 as [sys2 imm]. apply poll_recv_waits in Hpoll as [Hw2 Hs2].
    destruct (Hout sys2 Hw2 Hs2 Hp) as (? & ? & ->). auto.
  - injection Hp as <- _. split; [intros pl _; apply Hw|]. by rewrite Hw.
  - destruct (Hout sys1 (fun _ => eq_refl) eq_refl Hp) as (? & ? & ->). auto.
Qed.

Lemma put_batch_counted pb gb ev hist sys sys' cid qid page key batch r :
  system_inv cfg hist sys -> quiet sys -> counted hist sys -> 0 <= cid -> 4 <= qid < 8 -> 0 <= batch < 16 ->
  length page = 4096%nat -> valid_key key -> page_offset (srv sys) + 4 <= page_limit cfg -> few_keys ((key, page) :: hist) ->
  put_batch cfg pb gb ev sys cid qid page key batch = Ret (sys', r) ->
  counted ((key, page) :: hist) sys'.
Proof.
  intros Hinv0 Hqu0 Hc Hcid Hqid Hbatch Hpage Hkey Hroom Hfew Hput. unfold put_batch in Hput.
  step Hput sys1 H1'. step Hput q Hq. step Hput sys2 H2'.
  change Cli.BATCH_SIZE with 4 in Hput. destruct (Z.leb_spec 4 (nr_buffered q)) as [|Hnr]; [done|].
  step Hput b Hb. apply defined_Ret in Hb. step Hput k Hk. apply defined_Ret in Hk. step Hput sys3 H3'.
  destruct (put_buffered cfg hist sys sys1 sys2 sys3 cid qid q b k page key) as (Hinv3 & _ & Hsrv & _); try done; [lia|].
  destruct (buffered_changes _ _ _ _ _ _ _ _ _ _ H1' Hq H2' H3') as (q0 & -> & C). cbn [nr_buffered keys set_lock] in *.
  pose proof (proj2 Hinv0 _ _ _ (ch_old _ _ _ _ _ _ C)) as Hb0.
  destruct (pending_store hist q0 b k key Hb0 Hnr Hk) as [Hlt3 Heq3]. pose proof (ch_new _ _ _ _ _ _ C) as Hv3.
  assert (Hoth : forall pl, pl <> (cid, Z.to_nat qid) -> waits sys3 pl = waits sys pl) by (intros pl; by apply (changes_waits _ _ _ _ _ _ _ C)).
  assert (Hw0 : waits sys (cid, Z.to_nat qid) = list_to_set_disj (pending q0)) by (apply waits_view, (ch_old _ _ _ _ _ _ C)).
  destruct (Z.ltb_spec (nr_buffered q0) (4 - 1)) as [Hlt|Hge].
  { step Hput sys4 H4'. injection Hput as <- _. apply on_queue_changes in H4' as (q4 & C4).
    pose proof (changes_same_waits _ _ _ _ _ _ C4 eq_refl) as Hw4.
    apply (counted_put nb nh hist sys _ (cid, Z.to_nat qid)); [done|intros pl Hne; by rewrite Hw4, Hoth|].
    intros bb M Hkv _. exists bb, M. rewrite (ch_srv _ _ _ _ _ _ C4), Hsrv. split; [done|].
    rewrite Hw4, (waits_view _ _ _ _ Hv3), Hlt3, list_to_set_disj_app, Hw0 by lia. multiset_solver. }
  destruct (Heq3 ltac:(destruct Hb0; lia)) as [Hp3 ->].
  assert (Hempty : waits sys3 (cid, Z.to_nat qid) = ∅) by (by rewrite (waits_view _ _ _ _ Hv3), Hp3).
  set (q3 := set_batch _ _ _) in Hv3. assert (Hn3 : nr_buffered q3 = 4) by (cbn; rewrite s32_small by (destruct Hb0; lia); destruct Hb0; lia).
  pose proof (proj2 Hinv3 _ _ _ Hv3) as Hb3. pose proof (full_batch_keys _ _ Hb3 Hn3) as Hvalid.
  assert (Hfull : forall sys', (forall pl, pl <> (cid, Z.to_nat qid) -> waits sys' pl = waits sys3 pl) -> waits sys' (cid, Z.to_nat qid) = ∅ ->
    skv (srv sys') = skv (srv sys3)
    \/ (exists target, foldM (insert_page target (keys q3)) (seq 0 4) (skv (srv sys3)) = Some (skv (srv sys'))) ->
    counted ((key, page) :: hist) sys').
  { intros sys4 Ho He Hkv. rewrite Hsrv in Hkv.
    apply (counted_batch nb nh hist sys sys4 (cid, Z.to_nat qid) (pending q0) key page Hc Hfew); [|done|done|exact Hvalid|exact (bi_keys _ _ Hb3)|exact Hkv].
    intros pl Hne. by rewrite Ho, Hoth. }
  destruct (ev_memory ev); cbn [negb] in Hput; [|injection Hput as <- _; by apply Hfull; [..|left]].
  destruct (ev_map_page ev); cbn [negb] in Hput; [|injection Hput as <- _; by apply Hfull; [..|left]].
  destruct (ev_addr_page ev); cbn [negb] in Hput; [|done].
  destruct (ev_map_meta ev); cbn [negb] in Hput; [|injection Hput as <- _; by apply Hfull; [..|left]].
  destruct (ev_addr_meta ev); cbn [negb] in Hput; [|done].
  rewrite <- Hsrv in Hroom.
  destruct (put_sent_counted _ _ _ _ _ _ _ _ _ _ _ Hinv3 Hv3 Hn3 Hcid Hqid Hbatch Hroom Hput) as (Ho & He & Hkv). by apply Hfull.
Qed.

Lemma put_counted pb gb ev hist sys sys' cid cpuid page key batch r :
  system_inv cfg hist sys -> quiet sys -> counted hist sys -> 0 <= cid -> 0 <= cpuid -> 0 <= batch < 16 ->
  length page = 4096%nat -> valid_key key -> page_offset (srv sys) + 4 <= page_limit cfg -> few_keys ((key, page) :: hist) ->
  rdpma_put_twosided cfg pb gb 8 ev sys cid cpuid page key batch = Ret (sys', r) ->
  counted ((key, page) :: hist) sys'.
Proof.
  intros Hinv Hqu Hc Hcid Hcpu Hbatch Hpage Hkey Hroom Hfew Hput. unfold rdpma_put_twosided in Hput.
  step Hput qid Hqid. apply bug_on_Ret in Hqid. apply write_queue_id in Hqid; [|done].
  step Hput cl Hcl. apply defined_Ret in Hcl. step Hput f Hf. cbv zeta in Hput.
  destruct (set_filter_same sys cid cl f Hcl) as [Hsame _].
  refine (put_batch_counted _ _ _ hist (set_client sys cid (set_filter cl f)) _ _ _ _ _ _ _ _ _ _ Hcid Hqid Hbatch Hpage Hkey Hroom Hfew Hput).
  - by apply (inv_same cfg hist sys); [|..|apply Hinv].
  - by apply (quiet_same sys).
  - apply (counted_same nb nh hist sys); [done|by apply same_waits_queues|done..].
Qed.

(** ** A get *)

Lemma get_out_waits ev (sys sys' : system T) cid qid tx r :
  get_out ev sys cid qid tx = Ret (sys', r) -> same_waits sys sys' /\ srv sys' = srv sys.
Proof.
  intros Hout. unfold get_out, spin_unlock in Hout. step Hout s1 H1'. step Hout s2 H2'. injection Hout as -> _.
  apply repost_Ret in H2'. apply on_queue_changes in H1' as (q1 & C1), H2' as (q2 & C2). destruct (changes_trans _ _ _ _ _ _ _ _ _ C1 C2) as [C ->].
  split; [|apply (ch_srv _ _ _ _ _ _ C)]. by apply (changes_same_waits _ _ _ _ _ _ C).
Qed.

(** The server looks a key up, which counts nothing in the filter. *)
Lemma read_request_counted pb ev hist sys sys' cid qid mid addr bs batch :
  0 <= batch < 16 -> 0 <= mid < 4096 -> 0 <= qid < 256 -> counted hist sys ->
  write_with_imm cfg pb BIGMRGET ev sys cid qid addr bs
    (htonl (Cli.bit_mask batch mid (msg_code MSG_READ) (tx_code TX_READ_BEGIN) qid)) = Ret sys' ->
  counted hist sys'.
Proof.
  intros Hb Hm Hq Hc Hw. apply write_with_imm_Ret in Hw as (a & st1 & st' & s & Ht & Hr & Hw).
  apply take_recv_skv in Ht. rewrite server_recv_read in Hr by done. apply bind_Some in Hr as ([st2 s2] & Hr & Hs). injection Hs as -> <-.
  unfold process_read_odp in Hr. cbn [skv count_get post_recv post set_recvs] in Hr. rewrite Ht in Hr. cbn [skv set_mem] in Hr.
  apply bind_Some in Hr as ([kv v] & Hg & Hr). unfold KV.Get in Hg. apply bind_Some in Hg as (v' & _ & Hg). injection Hg as <- _.
  assert (hash (skv st') = hash (skv (srv sys)) /\ bf (skv st') = bf (skv (srv sys))) as [Hh Hbf]
    by (destruct (v =? 0); by injection Hr as <- _).
  assert (same_waits sys sys' /\ srv sys' = st') as [Hsw Hst].
  { destruct (ev_replied ev); [|by injection Hw as <-]. by apply reply_same_waits in Hw. }
  apply (counted_same nb nh hist sys); [done|done|by rewrite Hst..].
Qed.

Lemma get_admitted_counted pb ev hist sys sys' cid qid mid dma key batch r :
  0 <= batch < 16 -> 0 <= mid < 4096 -> 0 <= qid < 256 -> counted hist sys ->
  get_admitted cfg pb BIGMRGET ev sys cid qid mid dma key batch = Ret (sys', r) -> counted hist sys'.
Proof.
  intros Hb Hm Hq Hc Hget. unfold get_admitted in Hget. cbv zeta in Hget.
  destruct (ev_map_page ev); cbn [negb] in Hget; [|by injection Hget as <- _].
  destruct (ev_addr_page ev); cbn [negb] in Hget; [|done].
  destruct (ev_memory ev); cbn [negb] in Hget; [|by injection Hget as <- _].
  destruct (ev_map_meta ev); cbn [negb] in Hget; [|by injection Hget as <- _].
  destruct (ev_addr_meta ev); cbn [negb] in Hget; [|done].
  step Hget sys1 Hl. apply spin_lock_changes in Hl as (q & C & _).
  assert (counted hist sys1) as Hc1.
  { apply (counted_same nb nh hist sys); [done|by apply (changes_same_waits _ _ _ _ _ _ C)|by rewrite (ch_srv _ _ _ _ _ _ C)..]. }
  step Hget sys2 Hw. assert (counted hist sys2) as Hc2.
  { destruct (ev_delivered ev); [|by injection Hw as <-]. by apply (read_request_counted _ _ _ _ _ _ _ _ _ _ _ Hb Hm Hq Hc1 Hw). }
  assert (forall sys3 tx, counted hist sys3 -> get_out ev sys3 cid qid tx = Ret (sys', r) -> counted hist sys') as Hout.
  { intros sys3 tx Hc3 Ho. apply get_out_waits in Ho as [Hsw Hs]. apply (counted_same nb nh hist sys3); [done|done|by rewrite Hs..]. }
  destruct (ev_send ev); cbn [negb] in Hget; [destruct (ev_recv ev); cbn [negb] in Hget|]; [|by eapply Hout..].
  step Hget r1 Hpoll. destruct r1 as [sys3 imm]. apply poll_recv_waits in Hpoll as [Hsw Hs].
  eapply Hout; [|exact Hget]. apply (counted_same nb nh hist sys2); [done|done|by rewrite Hs..].
Qed.

Lemma get_counted pb ev hist sys sys' cid cpuid dma key batch r :
  0 <= cpuid < 16384 -> 0 <= batch < 16 -> counted hist sys ->
  rdpma_get cfg pb BIGMRGET 8 ev sys cid cpuid dma key batch = Ret (sys', r) -> counted hist sys'.
Proof.
  intros Hcpu Hbatch Hc Hget. unfold rdpma_get in Hget.
  step Hget qid Hqid. apply bug_on_Ret in Hqid. apply read_queue_id in Hqid; [|lia].
  step Hget mid Hmid. apply bug_on_Ret in Hmid. injection Hmid as <-. change (8 / 2) with 4 in Hget.
  assert (0 <= cpuid / 4 < 4096) as Hmid by (split; [apply Z.div_pos|apply Z.div_lt_upper_bound]; lia).
  step Hget cl Hcl. step Hget isIn Hin. destruct isIn; cbn [negb] in Hget; [|by injection Hget as <- _].
  assert (0 <= qid < 256) as Hq by lia. by apply (get_admitted_counted _ _ _ _ _ _ _ _ _ _ _ _ Hbatch Hmid Hq Hc Hget).
Qed.

End Steps.

(** ** The start *)

Section Start.
Context {T : Type} `{IHash T} `{!IHashSpec T} `{!IHashPairs T} `{Verbs} (cfg : config) (nb : Z) (nh : nat).

(** The table stores nothing and the filter is new. *)
Record filter_started (n : nat) (sys : system T) : Prop := {
  fs_started : started cfg n sys;
  fs_size : 0 < nb <= 2 ^ 31;
  fs_table : ih_wf (hash (skv (srv sys))) /\ ih_stored (hash (skv (srv sys))) = ∅;
  fs_filter : bf (skv (srv sys)) = Some (new_filter nh nb);
}.

Lemma filter_started_kv n sys : filter_started n sys -> kv_inv nb nh (skv (srv sys)) (new_filter nh nb) ∅.
Proof.
  intros [_ Hsize [Hwf Hst] Hbf]. split; [done|done|by apply new_filter_wf|done|by apply new_filter_counts|by rewrite Hst].
Qed.

Lemma filter_started_counted n sys : filter_started n sys -> counted nb nh [] sys.
Proof.
  intros Hf. exists (new_filter nh nb), ∅. split; [by apply (filter_started_kv n)|]. intros pls _.
  assert (forall pl, waits sys pl = ∅) as Hw.
  { intros [c j]. unfold waits. cbn [fst snd]. unfold view. destruct (clients sys !! c) as [cl|] eqn:Hcl; [|done].
    destruct (st_clients _ _ _ (fs_started _ _ Hf) c cl Hcl) as (f & m & ->). cbn [mbind option_bind].
    destruct (queues (init_client 8 f m) !! j) as [q|] eqn:Hq; [|done]. cbn [from_option].
    apply list_elem_of_lookup_2 in Hq. unfold init_client in Hq. cbn [queues] in Hq. apply elem_of_replicate in Hq as [-> _]. done. }
  induction pls as [|pl pls IH]; [done|]. cbn [waiting]. rewrite Hw. multiset_solver.
Qed.

End Start.
