(* ===== verification/FilterSync.v ===== *)
(** * The filter that the server sends (server/rdma_svr.cpp: [send_bf], [rdpma_bf_sender])

    A thread of the server packs the counting filter into bits and writes them
    over the filter of a client, every ten seconds and without the client.  The
    client asks its filter before every get, so what the thread writes decides
    which gets reach the server.

    The theorems: a round leaves the client with a filter that answers as the
    server's, so that a page the server stores is found again; it keeps what was
    proved of the runs of the system; it also takes back what the client had
    added for pages that still wait in its buffer; and after one failed round
    there is never another. *)

From S2P Require Import Prelude PairDefs HashFun CountingBloom ClientBloom LinearProbing KV Wire Server Client System FilterInv.

(** ** The sender *)

(** The loop that polls the completions: an error, no completion ever, or one with its status. *)
Inductive poll := PollError | PollNever | Polled (success : bool).

(** What happens to one round: whether [ibv_post_send] accepts the request, what is polled, and
    whether the words have arrived when the call returns.  The completion need not be that of the
    request: the queue is also that of the reads of the client, and the set-up leaves a completion
    in it. *)
Record round : Type := MkRound { rd_posted : bool; rd_poll : poll; rd_arrived : bool }.
Definition good_round : round := MkRound true (Polled true) true.

(** The system, the clients whose queue 0 is locked by the thread, and the count of rounds. *)
Record shared (T : Type) : Type := MkShared { net : system T; held : gset Z; bfsendcnt : Z }.
Arguments MkShared {T}.
Arguments net {T}.
Arguments held {T}.
Arguments bfsendcnt {T}.

Section Sender.
Context {T : Type}.

Definition set_bf (b : CountingBloomFilter) (kv : KV T) : KV T :=
  MkKV (hash kv) (Some b) (extents kv) (deletecnt kv) (kv_putcnt kv) (kv_getcnt kv).

(** [numLongs] words are written over the memory of the client's filter; its region has no room
    for more than the filter. *)
Definition fits (words : list Z) (f : bloom_filter) : bool := (length words <=? length (bitmap f))%nat.
Definition overwrite (words : list Z) (f : bloom_filter) : bloom_filter := set_bitmap f (words ++ drop (length words) (bitmap f)).

(** The lock is not released when the poll fails or the completion is an error. *)
Definition send_bf (rd : round) (s : shared T) (cid : Z) : outcome (shared T) :=
  b ← defined (bf (skv (srv (net s))));
  cl ← get_client (net s) cid;
  let words := m_boolbitarray b in
  if bool_decide (cid ∈ held s) then Hang
  else
    let cl' := if rd_posted rd && fits words (filter cl) && rd_arrived rd then set_filter cl (overwrite words (filter cl)) else cl in
    let sys := set_client (net s) cid cl' in
    match rd_poll rd with
    | PollError | Polled false => Ret (MkShared sys (held s ∪ {[ cid ]}) (bfsendcnt s))
    | PollNever => Hang
    | Polled true => Ret (MkShared sys (held s) (s32 (bfsendcnt s + 1)))
    end.

(** One round of the loop of [rdpma_bf_sender]. *)
Definition rdpma_bf_sender (rd : round) (s : shared T) (cid : Z) : outcome (shared T) :=
  match bf (skv (srv (net s))) with
  | None => Ret s
  | Some b =>
      b ← defined (ToOrdinaryBloomFilter b);
      send_bf rd (MkShared (set_srv (net s) (set_kv (srv (net s)) (set_bf b (skv (srv (net s)))))) (held s) (bfsendcnt s)) cid
  end.

End Sender.

(** ** What a round does *)

Section Rounds.
Context {T : Type} `{IHashSpec T} `{Verbs} (nb : Z) (nh : nat).

(** The filter of a client is made as the server's. *)
Record same_shape (sys : system T) (cid : Z) (cl : client) : Prop := {
  ss_client : clients sys !! cid = Some cl;
  ss_wf : cf_wf (filter cl);
  ss_size : bitmap_size (filter cl) = nb /\ nr_hash (filter cl) = nh;
}.

(** The server packs its filter, which changes nothing that it relies on. *)
Lemma kv_inv_packed (kv : KV T) b bits M :
  kv_inv nb nh kv b M -> length bits = Z.to_nat (m_numLongs b) -> kv_inv nb nh (set_bf (set_boolbitarray b bits) kv) (set_boolbitarray b bits) M.
Proof. intros [I1 I2 I3 I4 I5 I6] Hl. split; [done|done| |done|done|done]. by destruct I3. Qed.

(** The words fill the filter of the client, which then answers as the server's. *)
Lemma packed (s : shared T) cid cl b M :
  kv_inv nb nh (skv (srv (net s))) b M -> same_shape (net s) cid cl ->
  exists bits, ToOrdinaryBloomFilter b = Some (set_boolbitarray b bits) /\ length bits = length (bitmap (filter cl))
    /\ (forall k, bloom_filter_check (set_bitmap (filter cl) bits) (key_bytes k) = Query b k)
    /\ kv_inv nb nh (set_bf (set_boolbitarray b bits) (skv (srv (net s)))) (set_boolbitarray b bits) M.
Proof.
  intros Hkv [S1 S2 [S3 S4]]. pose proof Hkv as [I1 I2 I3 [I4 I5] I6 I7].
  destruct (packed_filter b (filter cl) I3 (counts_bytes b M I3 I6) S2) as (bits & E & Hl & Hq); [congruence..|].
  exists bits. split; [done|]. split; [done|]. split; [done|]. apply kv_inv_packed; [done|].
  by rewrite Hl, (cf_words _ S2), S3, <- I4, (wf_longs _ I3).
Qed.

(** The system after a round: [d] says whether the words arrived. *)
Definition after_round (s : shared T) (cid : Z) (cl : client) (b : CountingBloomFilter) (d : bool) : system T :=
  set_client (set_srv (net s) (set_kv (srv (net s)) (set_bf b (skv (srv (net s)))))) cid
    (if d then set_filter cl (set_bitmap (filter cl) (m_boolbitarray b)) else cl).

Lemma round_effect (rd : round) (s : shared T) cid cl b bits :
  bf (skv (srv (net s))) = Some b -> ToOrdinaryBloomFilter b = Some (set_boolbitarray b bits) ->
  clients (net s) !! cid = Some cl -> length bits = length (bitmap (filter cl)) ->
  rdpma_bf_sender rd s cid =
    if bool_decide (cid ∈ held s) then Hang
    else
      let sys := after_round s cid cl (set_boolbitarray b bits) (rd_posted rd && rd_arrived rd) in
      match rd_poll rd with
      | PollError | Polled false => Ret (MkShared sys (held s ∪ {[ cid ]}) (bfsendcnt s))
      | PollNever => Hang
      | Polled true => Ret (MkShared sys (held s) (s32 (bfsendcnt s + 1)))
      end.
Proof.
  intros I2 E S1 Hl. unfold rdpma_bf_sender. rewrite I2, E. cbn [defined mbind outcome_bind]. unfold send_bf, get_client.
  cbn [net held bfsendcnt set_srv srv skv set_kv set_bf bf defined mbind outcome_bind clients]. rewrite S1. cbn [defined mbind outcome_bind].
  destruct (bool_decide _); [done|]. destruct rd as [[] [| |[]] []]; cbn [rd_posted rd_poll rd_arrived andb m_boolbitarray set_boolbitarray]; try done;
    unfold fits, overwrite, after_round; cbn [m_boolbitarray set_boolbitarray]; rewrite Hl, Nat.leb_refl, ?drop_ge, ?app_nil_r by lia; done.
Qed.

Lemma good_round_effect (s : shared T) cid cl b M :
  kv_inv nb nh (skv (srv (net s))) b M -> same_shape (net s) cid cl -> cid ∉ held s ->
  exists bits, (forall k, bloom_filter_check (set_bitmap (filter cl) bits) (key_bytes k) = Query b k)
    /\ kv_inv nb nh (set_bf (set_boolbitarray b bits) (skv (srv (net s)))) (set_boolbitarray b bits) M
    /\ rdpma_bf_sender good_round s cid =
       Ret (MkShared (after_round s cid cl (set_boolbitarray b bits) true) (held s) (s32 (bfsendcnt s + 1))).
Proof.
  intros Hkv Hss Hheld. destruct (packed s cid cl b M Hkv Hss) as (bits & E & Hl & Hq & Hkv'). exists bits. split; [done|]. split; [done|].
  rewrite (round_effect good_round s cid cl b bits (inv_bf _ _ _ _ _ Hkv) E (ss_client _ _ _ Hss) Hl). by rewrite bool_decide_false.
Qed.

(** After a round the filter of the client answers every key as the counting filter of the
    server does; so no key that the table stores is held back. *)
Theorem sync_admits_stored (s : shared T) cid cl b M :
  kv_inv nb nh (skv (srv (net s))) b M -> same_shape (net s) cid cl -> cid ∉ held s ->
  exists s' cl' b', rdpma_bf_sender good_round s cid = Ret s' /\ clients (net s') !! cid = Some cl'
    /\ kv_inv nb nh (skv (srv (net s'))) b' M
    /\ (forall k, bloom_filter_check (filter cl') (key_bytes k) = Query b k)
    /\ (forall k, k ∈ ih_stored (hash (skv (srv (net s)))) -> bloom_filter_check (filter cl') (key_bytes k) = Some true).
Proof.
  intros Hkv Hss Hheld. destruct (good_round_effect s cid cl b M Hkv Hss Hheld) as (bits & Hq & Hkv' & ->).
  eexists _, _, _. split; [done|]. split; [apply lookup_insert_eq|]. split; [exact Hkv'|]. split; [exact Hq|].
  intros k Hk. cbn [filter set_filter]. rewrite Hq. destruct Hkv as [_ _ I3 _ I6 I7].
  apply (Query_exact b M I3 I6). eapply gmultiset_elem_of_subseteq; [exact Hk|exact I7].
Qed.

(** A put that does not fill the batch: the page waits in the buffer, the filter of the client
    has the key, and the server has seen nothing. *)
Lemma buffered_put cfg pb gb ev (sys : system T) cid cl cpuid q page key batch :
  same_shape sys cid cl -> view sys cid (Z.to_nat (cpuid mod 4 + 4)) = Some q ->
  global_lock q = false -> 0 <= nr_buffered q < 3 -> length (buffer q) = 4%nat -> length (keys q) = 4%nat ->
  exists sys1 q1 f1, rdpma_put_twosided cfg pb gb 8 ev sys cid cpuid page key batch = Ret (sys1, 0)
    /\ srv sys1 = srv sys /\ filter_of sys1 cid = Some f1 /\ cf_wf f1 /\ bitmap_size f1 = nb /\ nr_hash f1 = nh
    /\ bloom_filter_check f1 (key_bytes key) = Some true
    /\ view sys1 cid (Z.to_nat (cpuid mod 4 + 4)) = Some q1
    /\ keys q1 !! Z.to_nat (nr_buffered q) = Some key /\ buffer q1 !! Z.to_nat (nr_buffered q) = Some page
    /\ nr_buffered q1 = nr_buffered q + 1.
Proof.
  intros [S1 S2 [S3 S4]] Hv Hl Hn Hb Hk. unfold rdpma_put_twosided, put_batch.
  unfold Cli.rdpma_get_queue_id. rewrite urem_pos by done. cbn [mbind option_bind bug_on outcome_bind].
  change (8 / 2) with 4. set (qid := cpuid mod 4 + 4) in *. unfold get_client at 1. rewrite S1. cbn [defined mbind outcome_bind].
  unfold bloom_filter_add. destruct (add_loop_ok key (seq 0 (nr_hash (filter cl))) (filter cl) S2) as (bits & -> & Hlen & _ & Hset).
  cbn [defined mbind outcome_bind]. set (f1 := set_bitmap (filter cl) bits).
  assert (cf_wf f1) as Hwf1 by (destruct S2; split; simpl; congruence).
  destruct (set_filter_same sys cid cl f1 S1) as [Hq1 _]. set (sysA := set_client sys cid (set_filter cl f1)) in *.
  assert (filter_of sysA cid = Some f1) as HfA by (unfold filter_of, sysA; cbn [set_client clients]; by rewrite lookup_insert_eq).
  destruct (spin_lock_forward sysA cid qid q) as (sysB & -> & HB & HfB); [by rewrite Hq1|done|]. cbn [mbind outcome_bind].
  rewrite (get_queue_forward sysB cid qid _ (ch_new _ _ _ _ _ _ HB)). cbn [mbind outcome_bind nr_buffered set_lock buffer keys].
  destruct (on_queue_forward sysB cid qid (set_nr (s32 (nr_buffered q + 1))) _ (ch_new _ _ _ _ _ _ HB)) as (sysC & -> & HC & HfC).
  cbn [mbind outcome_bind]. change Cli.BATCH_SIZE with 4. destruct (Z.leb_spec 4 (nr_buffered q)); [lia|].
  rewrite !store_Some by lia. cbn [defined mbind outcome_bind].
  destruct (on_queue_forward sysC cid qid (set_batch (<[Z.to_nat (nr_buffered q) := page]> (buffer q)) (<[Z.to_nat (nr_buffered q) := key]> (keys q)))
    _ (ch_new _ _ _ _ _ _ HC)) as (sysD & -> & HD & HfD).
  cbn [mbind outcome_bind]. destruct (Z.ltb_spec (nr_buffered q) (4 - 1)); [|lia]. unfold spin_unlock.
  destruct (on_queue_forward sysD cid qid (set_lock false) _ (ch_new _ _ _ _ _ _ HD)) as (sysE & -> & HE & HfE).
  cbn [mbind outcome_bind]. eexists sysE, _, f1. split; [done|].
  split; [by rewrite (ch_srv _ _ _ _ _ _ HE), (ch_srv _ _ _ _ _ _ HD), (ch_srv _ _ _ _ _ _ HC), (ch_srv _ _ _ _ _ _ HB)|].
  split; [congruence|]. split; [done|]. split; [done|]. split; [done|]. split; [by apply check_loop_set|].
  split; [apply (ch_new _ _ _ _ _ _ HE)|]. cbn [keys buffer nr_buffered set_lock set_batch set_nr].
  split; [apply list_lookup_insert_eq; lia|]. split; [apply list_lookup_insert_eq; lia|]. apply s32_small. lia.
Qed.

(** A filter that does not have the key ends a get before any message. *)
Lemma get_denied cfg pb gb ev (sys : system T) cid f cpuid dma key batch :
  filter_of sys cid = Some f -> bloom_filter_check f (key_bytes key) = Some false ->
  rdpma_get cfg pb gb 8 ev sys cid cpuid dma key batch = Ret (sys, -1).
Proof.
  unfold filter_of. intros Hf Hc. destruct (clients sys !! cid) as [cl|] eqn:Hcl; [|done]. injection Hf as <-.
  unfold rdpma_get, get_admitted, Cli.rdpma_get_queue_id. rewrite urem_pos by done. cbn [mbind option_bind bug_on outcome_bind].
  unfold Cli.message_id. cbn [bug_on mbind outcome_bind]. unfold get_client. rewrite Hcl. cbn [defined mbind outcome_bind].
  by rewrite Hc.
Qed.

(** C38: A page of a key that the filter of the server denies, which was put and still waits in the
    buffer of its queue, is in the filter of the client only.  The next round of the server takes it back: the put returned 0 and the client
    would have asked for the page, and after the round every get of it is a miss, without a
    message to the server. *)
Theorem sync_hides_buffered_put cfg pb gb ev (s : shared T) cid cl b M cpuid q page key batch :
  kv_inv nb nh (skv (srv (net s))) b M -> same_shape (net s) cid cl -> cid ∉ held s ->
  view (net s) cid (Z.to_nat (cpuid mod 4 + 4)) = Some q -> global_lock q = false -> 0 <= nr_buffered q < 3 ->
  length (buffer q) = 4%nat -> length (keys q) = 4%nat -> Query b key = Some false ->
  exists sys1 f1 s2, rdpma_put_twosided cfg pb gb 8 ev (net s) cid cpuid page key batch = Ret (sys1, 0)
    /\ filter_of sys1 cid = Some f1 /\ bloom_filter_check f1 (key_bytes key) = Some true
    /\ rdpma_bf_sender good_round (MkShared sys1 (held s) (bfsendcnt s)) cid = Ret s2
    /\ forall ev' cpuid' dma batch', rdpma_get cfg pb gb 8 ev' (net s2) cid cpuid' dma key batch' = Ret (net s2, -1).
Proof.
  intros Hkv Hss Hheld Hv Hl Hn Hb Hk Hno.
  destruct (buffered_put cfg pb gb ev (net s) cid cl cpuid q page key batch Hss Hv Hl Hn Hb Hk)
    as (sys1 & q1 & f1 & Hput & Hsrv & Hf1 & Hwf & Hnb & Hnh & Hc & _).
  unfold filter_of in Hf1. destruct (clients sys1 !! cid) as [cl1|] eqn:Hcl1; [|done]. injection Hf1 as <-.
  destruct (good_round_effect (MkShared sys1 (held s) (bfsendcnt s)) cid cl1 b M) as (bits & Hq & _ & Hrd);
    [by rewrite <- Hsrv in Hkv|by split|done|].
  exists sys1, (filter cl1). eexists. split; [done|]. split; [unfold filter_of; by rewrite Hcl1|]. split; [done|].
  split; [exact Hrd|]. intros. eapply get_denied; [|by rewrite <- Hno, <- Hq].
  unfold filter_of. unfold after_round. cbn [net set_client clients]. by rewrite lookup_insert_eq.
Qed.

(** A round whose poll or whose write fails leaves the lock of queue 0 taken: the thread hangs
    in the next round, and the filter of the client is never brought up to date again. *)
Theorem failed_round_is_the_last (rd : round) (s : shared T) cid cl b M :
  kv_inv nb nh (skv (srv (net s))) b M -> same_shape (net s) cid cl -> cid ∉ held s ->
  rd_poll rd = PollError \/ rd_poll rd = Polled false ->
  exists s', rdpma_bf_sender rd s cid = Ret s' /\ bfsendcnt s' = bfsendcnt s
    /\ forall rd', rdpma_bf_sender rd' s' cid = Hang.
Proof.
  intros Hkv Hss Hheld Hbad. destruct (packed s cid cl b M Hkv Hss) as (bits & E & Hl & Hq & Hkv').
  rewrite (round_effect rd s cid cl b bits (inv_bf _ _ _ _ _ Hkv) E (ss_client _ _ _ Hss) Hl).
  set (d := rd_posted rd && rd_arrived rd). set (s1 := MkShared (after_round s cid cl (set_boolbitarray b bits) d) (held s ∪ {[ cid ]}) (bfsendcnt s)).
  rewrite bool_decide_false by done. exists s1. split; [by destruct Hbad as [-> | ->]|]. split; [done|]. intros rd'.
  assert (same_shape (net s1) cid (if d then set_filter cl (set_bitmap (filter cl) bits) else cl)) as Hss1.
  { destruct Hss as [S1 S2 S3]. unfold s1, after_round. split; [apply lookup_insert_eq|destruct d..]; [|done|done|done].
    destruct S2. split; cbn [filter set_filter bitmap set_bitmap bitmap_size]; congruence. }
  destruct (packed s1 cid _ _ M Hkv' Hss1) as (bits1 & E1 & Hl1 & _).
  rewrite (round_effect rd' s1 cid _ _ bits1 (inv_bf _ _ _ _ _ Hkv') E1 (ss_client _ _ _ Hss1) Hl1).
  rewrite bool_decide_true; [done|]. cbn [held s1]. set_solver.
Qed.

End Rounds.

(** ** Runs with rounds of the sender *)

Section Synced.
Context {T : Type} `{IHash T} `{!IHashSpec T} `{!IHashPairs T} `{Verbs} (cfg : config).
Hypothesis Hcfg : config_ok cfg.
Context (nb : Z) (nh : nat).

(** The puts and gets of [runs], rounds of the sender, with any failure, and words of a round
    that arrive after it. *)
Inductive synced_runs : list (Key_t * page) -> shared T -> Prop :=
| synced_start n sys : filter_started cfg nb nh n sys -> synced_runs [] (MkShared sys ∅ 0)
| synced_put hist s sys' ev cid cpuid p key r :
    synced_runs hist s -> 0 <= cid -> 0 <= cpuid < 16 -> length p = 4096%nat -> valid_key key ->
    page_offset (srv (net s)) + 4 <= page_limit cfg ->
    rdpma_put_twosided cfg NOPUT BIGMRGET 8 ev (net s) cid cpuid p key 1 = Ret (sys', r) ->
    synced_runs ((key, p) :: hist) (MkShared sys' (held s) (bfsendcnt s))
| synced_get hist s sys' ev cid cpuid dma key r :
    synced_runs hist s -> 0 <= cid -> 0 <= cpuid < 16 -> 0 <= dma < 2 ^ 64 -> valid_key key -> settled ev ->
    rdpma_get cfg NOPUT BIGMRGET 8 ev (net s) cid cpuid dma key 1 = Ret (sys', r) ->
    synced_runs hist (MkShared sys' (held s) (bfsendcnt s))
| synced_round hist s s' rd cid :
    synced_runs hist s -> rdpma_bf_sender rd s cid = Ret s' -> synced_runs hist s'
| synced_late hist s cid cl words :
    synced_runs hist s -> clients (net s) !! cid = Some cl -> fits words (filter cl) = true ->
    synced_runs hist (MkShared (set_client (net s) cid (set_filter cl (overwrite words (filter cl)))) (held s) (bfsendcnt s)).

(** A round changes the filters, and nothing that the table or the queues hold. *)
Lemma round_frame rd (s s' : shared T) cid :
  rdpma_bf_sender rd s cid = Ret s' ->
  same_queues (net s) (net s') /\ exists kv, srv (net s') = set_kv (srv (net s)) kv
    /\ (kv = skv (srv (net s)) \/ exists b b', bf (skv (srv (net s))) = Some b /\ ToOrdinaryBloomFilter b = Some b' /\ kv = set_bf b' (skv (srv (net s)))).
Proof.
  unfold rdpma_bf_sender. destruct (bf _) as [b0|] eqn:Hb; [|intros [= <-]; split; [done|]; exists (skv (srv (net s))); split; [by destruct (srv (net s))|by left]].
  intros Hr. step Hr b Eb. apply defined_Ret in Eb. unfold send_bf in Hr. step Hr b1 Eb1. step Hr cl Hcl. apply defined_Ret in Eb1, Hcl.
  cbn [net set_srv srv skv set_kv set_bf bf] in Eb1. injection Eb1 as <-. cbn [net set_srv clients] in Hcl.
  destruct (bool_decide _); [done|]. cbv zeta in Hr.
  set (cl' := if _ && _ then _ else cl) in Hr.
  set (sys1 := set_client _ cid cl') in Hr.
  assert (same_queues (net s) sys1 /\ srv sys1 = set_kv (srv (net s)) (set_bf b (skv (srv (net s))))) as [Hq Hsv].
  { split; [|done]. intros c j. unfold view, sys1, set_client. cbn [clients net set_srv].
    destruct (decide (c = cid)) as [->|Hne]; [|by rewrite lookup_insert_ne]. rewrite lookup_insert_eq, Hcl. cbn [mbind option_bind].
    unfold cl'. by destruct (_ && _). }
  clearbody sys1. repeat case_match; try done; injection Hr as <-; (split; [exact Hq|]; eexists; split; [exact Hsv|right; by exists b0, b]).
Qed.

Lemma synced_inv hist s : synced_runs hist s -> system_inv cfg hist (net s) /\ quiet (net s).
Proof.
  induction 1 as [n sys Hst|hist s sys' ev cid cpuid p key r _ [IH1 IH2] Hcid Hcpu Hp Hk Hroom Hput
                 |hist s sys' ev cid cpuid dma key r _ [IH1 IH2] Hcid Hcpu Hdma Hk Hset Hget|hist s s' rd cid _ [IH1 IH2] Hrd
                 |hist s cid cl words _ [IH1 IH2] Hcl _].
  - exact (runs_inv cfg Hcfg _ _ (runs_start cfg n sys (fs_started _ _ _ _ _ Hst))).
  - exact (put_inv cfg Hcfg _ _ _ _ _ _ _ _ _ _ _ _ IH1 IH2 Hcid (proj1 Hcpu) one_page Hp Hk Hroom Hput).
  - destruct (get_inv cfg Hcfg _ _ _ _ _ _ _ _ _ _ _ IH1 IH2 Hset Hcid (few_cpus _ Hcpu) one_page Hdma Hk Hget) as (? & ? & _). done.
  - apply round_frame in Hrd as (Hq & kv & Hsrv & Hkv). split; [|by apply (quiet_same (net s))].
    apply (inv_same cfg hist (net s)); [done|done|]. rewrite Hsrv. destruct IH1 as [Hsv _].
    assert (hash kv = hash (skv (srv (net s)))) as Hh by (by destruct Hkv as [-> | (? & ? & _ & _ & ->)]).
    apply sv_set_kv; [done|rewrite Hh; apply (sv_wf _ _ _ Hsv)|rewrite Hh; apply (sv_held _ _ _ Hsv)].
  - destruct (set_filter_same (net s) cid cl (overwrite words (filter cl)) Hcl) as [Hq _].
    split; [|by apply (quiet_same (net s))]. apply (inv_same cfg hist (net s)); [done|done|apply IH1].
Qed.

(** In a run of few keys the counters of the server are exact. *)
Lemma synced_counted hist s : synced_runs hist s -> few_keys nb nh hist -> counted nb nh hist (net s).
Proof.
  intros Hrun. induction Hrun as [n sys Hst|hist s sys' ev cid cpuid p key r Hrun IH Hcid Hcpu Hp Hk Hroom Hput
                 |hist s sys' ev cid cpuid dma key r Hrun IH Hcid Hcpu Hdma Hk Hset Hget|hist s s' rd cid Hrun IH Hrd
                 |hist s cid cl words Hrun IH Hcl _]; intros Hfew.
  - by apply (filter_started_counted cfg nb nh n).
  - destruct (synced_inv _ _ Hrun) as [Hinv Hqu]. specialize (IH (few_keys_tail nb nh _ hist Hfew)).
    by apply (put_counted cfg Hcfg nb nh _ _ _ _ _ _ _ _ _ _ _ _ Hinv Hqu IH Hcid (proj1 Hcpu) one_page Hp Hk Hroom Hfew Hput).
  - by apply (get_counted cfg nb nh _ _ _ _ _ _ _ _ _ _ _ (few_cpus _ Hcpu) one_page (IH Hfew) Hget).
  - apply round_frame in Hrd as (Hq & kv & Hsrv & Hkv).
    apply (counted_kv nb nh hist (net s)); [by apply IH|by apply same_waits_queues|]. rewrite Hsrv. cbn [skv set_kv].
    intros b M Hi. destruct Hkv as [-> | (b0 & b' & Hb & Hto & ->)]; [by exists b|].
    rewrite (inv_bf _ _ _ _ _ Hi) in Hb. injection Hb as <-. destruct (ToOrdinary_spec b (inv_filter _ _ _ _ _ Hi)) as (bits & E & Hl & _).
    rewrite Hto in E. injection E as ->. eexists. by apply kv_inv_packed.
  - destruct (set_filter_same (net s) cid cl (overwrite words (filter cl)) Hcl) as [Hq _].
    apply (counted_same nb nh hist (net s)); [by apply IH|by apply same_waits_queues|done..].
Qed.


End Synced.

(** ** A run

    The system of [Demo], with a filter of two hashes on 64 bits on both sides. *)

Module SyncDemo.

#[local] Existing Instance machine_verbs.
#[local] Existing Instance plain_hash.
#[local] Abbreviation LP := LinearProbingHash.

Definition kv : KV LP := new_KV Demo.table (Some (new_filter 2 64)).
Definition server0 : server LP := new_server (fun _ => 0) kv.
Definition start : system LP := MkSystem {[ 0 := Demo.client0 ]} (default server0 (accept_clients Demo.cfg 1 server0)).

Lemma start_kv : skv (srv start) = kv.
Proof. vm_compute. reflexivity. Qed.

Lemma synced_start_started : filter_started Demo.cfg 64 2 1 start.
Proof.
  destruct Demo.table_ok as [Hwf Hnone]. split; [split|done| |by rewrite start_kv].
  - exists (fun _ => 0), kv. split; [exact Hwf|]. split; [exact Hnone|]. split; [by vm_compute|].
    assert (Hs : bool_decide (is_Some (accept_clients Demo.cfg 1 server0)) = true) by (vm_compute; reflexivity).
    apply bool_decide_eq_true in Hs as [st Hst]. unfold start. cbn [srv]. fold server0. by rewrite Hst.
  - intros c cl Hc. unfold start in Hc. cbn [clients] in Hc. apply lookup_singleton_Some in Hc as [_ <-]. eexists _, _. reflexivity.
  - rewrite start_kv. split; [exact Hwf|vm_compute; reflexivity].
Qed.

Definition idle_state : shared LP := MkShared start ∅ 0.

Lemma kv_start : kv_inv 64 2 (skv (srv start)) (new_filter 2 64) ∅.
Proof. exact (filter_started_kv Demo.cfg 64 2 1 start synced_start_started). Qed.

Lemma put_synced hist sys k b :
  synced_runs Demo.cfg 64 2 hist (MkShared sys ∅ 0) -> valid_key k -> page_offset (srv sys) + 4 <= page_limit Demo.cfg ->
  Demo.result (Demo.put fine sys k b) = Some 0 ->
  synced_runs Demo.cfg 64 2 ((k, Demo.page_of b) :: hist) (MkShared (Demo.after (Demo.put fine sys k b)) ∅ 0).
Proof.
  intros Hrun Hk Hroom Hr. apply (synced_put Demo.cfg 64 2 hist (MkShared sys ∅ 0) _ fine 0 0 (Demo.page_of b) k 0);
    [exact Hrun|lia|lia|apply length_replicate|exact Hk|exact Hroom|].
  apply Demo.result_Ret, Hr.
Qed.

(** Four puts fill a batch. *)
Definition full_state : shared LP := MkShared (Demo.put4 start 11 1) ∅ 0.

Lemma full_runs : synced_runs Demo.cfg 64 2 Demo.hist4 full_state.
Proof.
  unfold full_state, Demo.put4, Demo.hist4. cbv zeta.
  do 4 (apply put_synced; [|by vm_compute; split_and!|by vm_compute|by vm_compute]).
  apply (synced_start Demo.cfg 64 2 1), synced_start_started.
Qed.

Lemma few_keys4 : few_keys 64 2 Demo.hist4.
Proof. intros i _. etrans; [apply cnt_le_size|]. vm_compute. discriminate. Qed.

Lemma full_kv : exists b M, kv_inv 64 2 (skv (srv (net full_state))) b M.
Proof. destruct (synced_counted Demo.cfg Demo.cfg_ok 64 2 _ _ full_runs few_keys4) as (b & M & Hkv & _). by exists b, M. Qed.

(** The queue and the filter of a client. *)
Definition queue_of (s : shared LP) (i : nat) : rdma_queue := default (init_queue) (view (net s) 0 i).
Definition client_of (s : shared LP) : client := default Demo.client0 (clients (net s) !! 0).

Definition present {A} (o : option A) : bool := match o with Some _ => true | None => false end.
Lemma present_default {A} (d : A) o : present o = true -> o = Some (default d o).
Proof. by destruct o. Qed.

Lemma shape s :
  present (clients (net s) !! 0) = true ->
  (bitmap_size (filter (client_of s)), nr_hash (filter (client_of s)), length (bitmap (filter (client_of s)))) = (64, 2%nat, 1%nat) ->
  same_shape 64 2 (net s) 0 (client_of s).
Proof.
  intros Hp [= Hs Hn Hl]. split; [by apply present_default|split|done].
  - rewrite Hs. done.
  - rewrite Hs, Hl. done.
Qed.

Lemma start_shape : same_shape 64 2 (net idle_state) 0 (client_of idle_state).
Proof. apply shape; vm_compute; reflexivity. Qed.
Lemma full_shape : same_shape 64 2 (net full_state) 0 (client_of full_state).
Proof. apply shape; vm_compute; reflexivity. Qed.

(** The queue 0 has receives posted at both ends. *)
Definition server_recvs : list Z := default [] (recvs (srv (net full_state)) !! (0, 0)).
Lemma full_ready :
  view (net full_state) 0 0 = Some (queue_of full_state 0) /\ global_lock (queue_of full_state 0) = false
  /\ recv_wrs (queue_of full_state 0) = 100%nat /\ recvs (srv (net full_state)) !! (0, 0) = Some (0 :: tl server_recvs)
  /\ ih_Get (hash (skv (srv (net full_state)))) 12 = Some 1581056.
Proof.
  split; [apply present_default; vm_compute; reflexivity|]. split; [vm_compute; reflexivity|]. split; [vm_compute; reflexivity|].
  split; [|vm_compute; reflexivity]. unfold server_recvs.
  assert (present (recvs (srv (net full_state)) !! (0, 0)) && (hd 1 (default [] (recvs (srv (net full_state)) !! (0, 0))) =? 0) = true) as E
    by (vm_compute; reflexivity).
  destruct (recvs (srv (net full_state)) !! (0, 0)) as [[|a l]|]; [discriminate E| |discriminate E].
  apply Z.eqb_eq in E. simpl in E. by rewrite E.
Qed.

End SyncDemo.

Section Witnesses.
#[local] Existing Instance machine_verbs.
#[local] Existing Instance plain_hash.
Import SyncDemo.

Lemma sync_admits_stored_witness :
  exists s' cl', rdpma_bf_sender good_round full_state 0 = Ret s' /\ clients (net s') !! 0 = Some cl'
    /\ forall k, k ∈ ih_stored (hash (skv (srv (net full_state)))) -> bloom_filter_check (filter cl') (key_bytes k) = Some true.
Proof.
  destruct full_kv as (b & M & Hkv).
  destruct (sync_admits_stored 64 2 full_state 0 (client_of full_state) b M Hkv full_shape) as (s' & cl' & b' & H1 & H2 & _ & _ & H5).
  - apply not_elem_of_empty.
  - exists s', cl'. split; [exact H1|]. split; [exact H2|exact H5].
Defined.


Lemma failed_round_is_the_last_witness :
  exists s', rdpma_bf_sender (MkRound true (Polled false) false) idle_state 0 = Ret s' /\ rdpma_bf_sender good_round s' 0 = Hang.
Proof.
  destruct (failed_round_is_the_last 64 2 (MkRound true (Polled false) false) idle_state 0 (client_of idle_state) (new_filter 2 64) ∅
    kv_start start_shape) as (s' & H1 & _ & H3).
  - apply not_elem_of_empty.
  - right. reflexivity.
  - exists s'. split; [exact H1|apply H3].
Defined.

Lemma sync_hides_buffered_put_witness :
  exists sys1 s2, rdpma_put_twosided Demo.cfg NOPUT BIGMRGET 8 fine (net idle_state) 0 0 (Demo.page_of 1) 11 1 = Ret (sys1, 0)
    /\ rdpma_bf_sender good_round (MkShared sys1 ∅ 0) 0 = Ret s2
    /\ rdpma_get Demo.cfg NOPUT BIGMRGET 8 fine (net s2) 0 0 65536 11 1 = Ret (net s2, -1).
Proof.
  destruct (sync_hides_buffered_put 64 2 Demo.cfg NOPUT BIGMRGET fine idle_state 0 (client_of idle_state) (new_filter 2 64) ∅ 0
    (queue_of idle_state 4) (Demo.page_of 1) 11 1 kv_start start_shape) as (sys1 & f1 & s2 & H1 & _ & _ & H4 & H5).
  - apply not_elem_of_empty.
  - apply present_default. vm_compute. reflexivity.
  - vm_compute. reflexivity.
  - vm_compute. split; [discriminate|reflexivity].
  - vm_compute. reflexivity.
  - vm_compute. reflexivity.
  - vm_compute. reflexivity.
  - exists sys1, s2. split; [exact H1|]. split; [exact H4|apply H5].
Defined.

End Witnesses.
