(* ===== verification/Setup.v ===== *)
(** * How the server starts (server/rdma_svr.cpp: [alloc_control], the connection events, [main])

    The server has the queues of four clients.  [main] waits for the queues one after the
    other, posts their receives, and then handles events until one is not a connection.  A
    request for a connection is given the next queue in the order of the requests; which
    client it comes from is not looked at.

    The theorems: whatever events come, the requests are given the queues in their order,
    none twice; when the clients connect one after the other, the server is in the state
    that the runs of the system start from; and a completion is left in the first queue of
    every client. *)

From S2P Require Import Prelude PairDefs HashFun LinearProbing KV Wire Server Client System.

(** ** State *)

Inductive queue_state := INIT | CONNECTED.

(** [qp] tells whether the queue pair exists, [send_cq] counts the completions of sends that were
    not polled, [mr_recvs] the receives for the memory regions of the client. *)
Record queue : Type := MkQ { qstate : queue_state; qp : bool; send_cq : nat; mr_recvs : nat }.

Inductive thread := Poller (c i : nat) | Indicator | BfSender (c : nat).

(** [contexts] has the queue that each connection was given, in their order; [devs] the clients
    with a device; the queues are those of [gctrl[c]->queues[i]]. *)
Record setup (T : Type) : Type := MkSetup {
  client_ctr : nat;
  queue_ctr : nat;
  contexts : list (nat * nat);
  devs : gset nat;
  table : gmap (nat * nat) queue;
  threads : list thread;
  state : server T;
}.
Arguments MkSetup {T}.
Arguments client_ctr {T}.
Arguments queue_ctr {T}.
Arguments contexts {T}.
Arguments devs {T}.
Arguments table {T}.
Arguments threads {T}.
Arguments state {T}.

Definition NUM_CLIENT : nat := Z.to_nat Svr.NUM_CLIENT.
Definition NUM_QUEUES : nat := Z.to_nat Svr.NUM_QUEUES.

(** The events of the connection manager, with the number of their connection. *)
Inductive event := ConnectRequest | Established (id : nat) | Disconnected (id : nat) | Unknown.

(** ** Operations

    [cbloom] tells whether [CBLOOMFILTER] is defined, [sent] whether the regions reached a client.
    A failed test of [TEST_Z] ends the program. *)

Section Operations.
Context {T : Type} `{IHash T} (cfg : config) (cbloom : bool) (sent : nat -> bool).

Definition set_table (t : gmap (nat * nat) queue) (s : setup T) : setup T :=
  MkSetup (client_ctr s) (queue_ctr s) (contexts s) (devs s) t (threads s) (state s).
Definition set_state (st : server T) (s : setup T) : setup T :=
  MkSetup (client_ctr s) (queue_ctr s) (contexts s) (devs s) (table s) (threads s) st.
Definition add_threads (l : list thread) (s : setup T) : setup T :=
  MkSetup (client_ctr s) (queue_ctr s) (contexts s) (devs s) (table s) (threads s ++ l) (state s).

Definition places : list (nat * nat) :=
  c ← seq 0 NUM_CLIENT; i ← seq 0 NUM_QUEUES; [(c, i)].
Definition new_queue : queue := MkQ INIT false 0 0.
Definition alloc_control (m : memory) (kv : KV T) : setup T :=
  MkSetup 0 0 [] ∅ (list_to_map (map (fun p => (p, new_queue)) places)) [] (new_server m kv).

(** [get_device] and [create_qp] for the queue, and the thread that polls it. *)
Definition on_connect_request (s : setup T) : outcome (setup T) :=
  let c := client_ctr s in
  let i := queue_ctr s in
  q ← defined (table s !! (c, i));
  let last := bool_decide (i = NUM_QUEUES - 1)%nat in
  match qstate q with
  | INIT =>
      Ret (MkSetup (if last then S c else c) (if last then 0%nat else S i) (contexts s ++ [(c, i)]) (devs s ∪ {[ c ]})
             (<[(c, i) := MkQ INIT true (send_cq q) (mr_recvs q)]> (table s)) (threads s ++ [Poller c i]) (state s))
  | CONNECTED => Bug
  end.

(** On the first queue of a client the two regions are sent and receives for those of the client
    are posted. *)
Definition on_connection (s : setup T) (p : nat * nat) : outcome (setup T) :=
  q ← defined (table s !! p);
  match qstate q with
  | INIT =>
      let q' := if bool_decide (p.2 = 0%nat) then MkQ CONNECTED (qp q) (send_cq q + 2) (mr_recvs q + if cbloom then 2 else 1)
                else MkQ CONNECTED (qp q) (send_cq q) (mr_recvs q) in
      Ret (set_table (<[p := q']> (table s)) s)
  | CONNECTED => Bug
  end.

Definition on_disconnect (s : setup T) (p : nat * nat) : outcome (setup T) :=
  q ← defined (table s !! p);
  match qstate q with
  | INIT => Ret s
  | CONNECTED => Ret (set_table (<[p := MkQ INIT false (send_cq q) (mr_recvs q)]> (table s)) s)
  end.

Definition on_event (s : setup T) (e : event) : outcome (setup T * Z) :=
  match e with
  | ConnectRequest => s ← on_connect_request s; Ret (s, 0)
  | Established id => p ← defined (contexts s !! id); s ← on_connection s p; Ret (s, 0)
  | Disconnected id => p ← defined (contexts s !! id); s ← on_disconnect s p; Ret (s, 1)
  | Unknown => Ret (s, 1)
  end.

(** The loop of [main] that waits for a queue; it ends when there are no more events. *)
Fixpoint wait_queue (p : nat * nat) (es : list event) (s : setup T) : outcome (setup T * list event) :=
  match es with
  | [] => Ret (s, [])
  | e :: es =>
      '(s, r) ← on_event s e;
      q ← defined (table s !! p);
      if negb (r =? 0) || match qstate q with CONNECTED => true | INIT => false end then Ret (s, es)
      else wait_queue p es s
  end.

(** One queue: its connection, and its receives. *)
Definition connect_queue (p : nat * nat) (s : setup T) (es : list event) : outcome (setup T * list event) :=
  '(s, es) ← wait_queue p es s;
  q ← defined (table s !! p);
  if negb (qp q) then Undefined
  else st ← defined (prepost cfg (state s) (Z.of_nat p.1) (Z.of_nat p.2)); Ret (set_state st s, es).

Fixpoint connect_queues (c : nat) (l : list nat) (s : setup T) (es : list event) : outcome (setup T * list event) :=
  match l with
  | [] => Ret (s, es)
  | i :: l => '(s, es) ← connect_queue (c, i) s es; connect_queues c l s es
  end.

(** One completion of the first queue is polled; [None] ends [main]. *)
Definition poll_regions (c : nat) (s : setup T) : outcome (option (setup T)) :=
  q ← defined (table s !! (c, 0%nat));
  if negb (qp q) then Undefined
  else match send_cq q with
       | O => Hang
       | S n =>
           let s := set_table (<[(c, 0%nat) := MkQ (qstate q) (qp q) n (mr_recvs q)]> (table s)) s in
           if sent c then
             Ret (Some (add_threads ((if bool_decide (c = 0%nat) then [Indicator] else []) ++ (if cbloom then [BfSender c] else [])) s))
           else Ret None
       end.

Fixpoint connect_clients (cs : list nat) (s : setup T) (es : list event) : outcome (option (setup T * list event)) :=
  match cs with
  | [] => Ret (Some (s, es))
  | c :: cs =>
      '(s, es) ← connect_queues c (seq 0 NUM_QUEUES) s es;
      r ← poll_regions c s;
      match r with None => Ret None | Some s => connect_clients cs s es end
  end.

(** The events after the set-up. *)
Fixpoint handle (es : list event) (s : setup T) : outcome (setup T * list event) :=
  match es with
  | [] => Ret (s, [])
  | e :: es => '(s, r) ← on_event s e; if negb (r =? 0) then Ret (s, es) else handle es s
  end.

Definition main (m : memory) (kv : KV T) (es : list event) : outcome (option (setup T * list event)) :=
  r ← connect_clients (seq 0 NUM_CLIENT) (alloc_control m kv) es;
  match r with None => Ret None | Some (s, es) => '(s, es) ← handle es s; Ret (Some (s, es)) end.

End Operations.

(** ** The queues are given in their order *)

Section Numbers.
Context {T : Type} `{IHash T} (cfg : config) (cbloom : bool) (sent : nat -> bool).

Definition place (k : nat) : nat * nat := (k / NUM_QUEUES, k mod NUM_QUEUES)%nat.

Record numbered (s : setup T) : Prop := {
  nb_place : place (length (contexts s)) = (client_ctr s, queue_ctr s);
  nb_contexts : forall k p, contexts s !! k = Some p -> p = place k;
}.

Lemma place_next k c i :
  place k = (c, i) -> place (S k) = if bool_decide (i = NUM_QUEUES - 1)%nat then (S c, 0%nat) else (c, S i).
Proof.
  unfold place. change NUM_QUEUES with 8%nat. intros [= Hc Hi].
  pose proof (Nat.div_mod_eq k 8). pose proof (Nat.mod_upper_bound k 8 ltac:(lia)).
  destruct (bool_decide_reflect (i = 8 - 1)%nat) as [Hl|Hl]; f_equal.
  - symmetry. apply (Nat.div_unique (S k) 8 (S c) 0); lia.
  - symmetry. apply (Nat.mod_unique (S k) 8 (S c) 0); lia.
  - symmetry. apply (Nat.div_unique (S k) 8 c (S i)); lia.
  - symmetry. apply (Nat.mod_unique (S k) 8 c (S i)); lia.
Qed.

Lemma place_inj k l : place k = place l -> k = l.
Proof.
  unfold place. change NUM_QUEUES with 8%nat. intros [= Hd Hm].
  pose proof (Nat.div_mod_eq k 8). pose proof (Nat.div_mod_eq l 8). lia.
Qed.

(** Only the counters and the contexts matter. *)
Lemma numbered_same (s s' : setup T) :
  numbered s -> client_ctr s' = client_ctr s -> queue_ctr s' = queue_ctr s -> contexts s' = contexts s -> numbered s'.
Proof. intros [N1 N2] E1 E2 E3. split; rewrite E3; [by rewrite E1, E2|done]. Qed.

Lemma on_event_numbered (s s' : setup T) e r : numbered s -> on_event cbloom s e = Ret (s', r) -> numbered s'.
Proof.
  intros Hn He. destruct e as [|id|id|]; cbn [on_event] in He.
  - step He s1 H1. injection He as <- <-. unfold on_connect_request in H1. step H1 q Hq. destruct (qstate q); [|done].
    injection H1 as <-. destruct Hn as [N1 N2]. split; cbn [contexts client_ctr queue_ctr].
    + rewrite length_app. cbn [length]. rewrite Nat.add_1_r, (place_next _ _ _ N1).
      by destruct (bool_decide _).
    + intros k p [Hk|[Hk Hp]]%lookup_app_Some; [by apply N2|]. apply list_lookup_singleton_Some in Hp as [Hz <-].
      rewrite <- N1. f_equal. lia.
  - step He p Hp. step He s1 H1. injection He as <- <-. unfold on_connection in H1. step H1 q Hq. destruct (qstate q); [|done].
    injection H1 as <-. by apply (numbered_same s).
  - step He p Hp. step He s1 H1. injection He as <- <-. unfold on_disconnect in H1. step H1 q Hq.
    destruct (qstate q); injection H1 as <-; [done|]. by apply (numbered_same s).
  - by injection He as <- <-.
Qed.

Lemma wait_queue_numbered p es : forall (s s' : setup T) es', numbered s -> wait_queue cbloom p es s = Ret (s', es') -> numbered s'.
Proof.
  induction es as [|e es IH]; intros s s' es' Hn Hw; cbn [wait_queue] in Hw; [by injection Hw as <- <-|].
  step Hw r Hr. destruct r as [s1 r]. step Hw q Hq. apply on_event_numbered in Hr; [|done].
  destruct (_ || _); [by injection Hw as <- <-|]. by apply (IH s1 s' es').
Qed.

Lemma handle_numbered es : forall (s s' : setup T) es', numbered s -> handle cbloom es s = Ret (s', es') -> numbered s'.
Proof.
  induction es as [|e es IH]; intros s s' es' Hn Hw; cbn [handle] in Hw; [by injection Hw as <- <-|].
  step Hw r Hr. destruct r as [s1 r]. apply on_event_numbered in Hr; [|done].
  destruct (negb _); [by injection Hw as <- <-|]. by apply (IH s1 s' es').
Qed.

Lemma connect_queues_numbered c l : forall (s s' : setup T) es es', numbered s -> connect_queues cfg cbloom c l s es = Ret (s', es') -> numbered s'.
Proof.
  induction l as [|i l IH]; intros s s' es es' Hn Hw; cbn [connect_queues] in Hw; [by injection Hw as <- <-|].
  step Hw r Hr. destruct r as [s1 es1]. apply (IH s1 s' es1 es'); [|done]. unfold connect_queue in Hr. step Hr r2 Hw2. destruct r2 as [s2 es2].
  apply wait_queue_numbered in Hw2; [|done]. step Hr q Hq. destruct (negb _); [done|]. step Hr st Hst. injection Hr as <- <-. by apply (numbered_same s2).
Qed.

Lemma connect_clients_numbered l : forall (s s' : setup T) es es',
  numbered s -> connect_clients cfg cbloom sent l s es = Ret (Some (s', es')) -> numbered s'.
Proof.
  induction l as [|c l IH]; intros s s' es es' Hn Hw; cbn [connect_clients] in Hw; [by injection Hw as <- <-|].
  step Hw r Hr. destruct r as [s1 es1]. apply connect_queues_numbered in Hr; [|done]. step Hw r2 Hp.
  unfold poll_regions in Hp. step Hp q Hq. destruct (negb _); [done|]. destruct (send_cq q) as [|n]; [done|]. destruct (sent c); injection Hp as <-; [|done].
  apply (IH _ _ _ _) in Hw; [done|]. by apply (numbered_same s1).
Qed.

(** Whatever events come, and from whichever clients, the k-th request for a connection is given
    queue [k mod 8] of client [k / 8], and no queue is given twice. *)
Theorem requests_numbered m (kv : KV T) es s es' :
  main cfg cbloom sent m kv es = Ret (Some (s, es')) ->
  (forall k p, contexts s !! k = Some p -> p = place k) /\ NoDup (contexts s).
Proof.
  intros Hm. unfold main in Hm. step Hm r Hr. destruct r as [[s1 es1]|]; [|done]. step Hm r2 H2. destruct r2 as [s2 es2]. injection Hm as -> ->.
  assert (numbered s) as [_ Hp].
  { apply handle_numbered in H2; [done|]. apply connect_clients_numbered in Hr; [done|]. split; [done|]. by intros k p Hk. }
  split; [done|]. apply NoDup_alt. intros k l p Hk Hl. apply place_inj. by rewrite <- (Hp _ _ Hk), <- (Hp _ _ Hl).
Qed.

End Numbers.

(** ** Clients that connect one after the other *)

Section Accepts.
Context {T : Type} `{IHashPairs T} (cfg : config) (cbloom : bool) (sent : nat -> bool).
Hypothesis Hsent : forall c, sent c = true.

(** A queue that is connected, when the regions of [p] clients have been polled. *)
Definition joined (c i p : nat) : queue :=
  if (i =? 0)%nat then MkQ CONNECTED true (if (c <? p)%nat then 1 else 2) (if cbloom then 2 else 1) else MkQ CONNECTED true 0 0.

(** [k] queues are connected. *)
Record progress (k p : nat) (s : setup T) : Prop := {
  pg_numbered : numbered s;
  pg_length : length (contexts s) = k;
  pg_table : forall c i, (c < 4)%nat -> (i < 8)%nat -> table s !! (c, i) = Some (if (8 * c + i <? k)%nat then joined c i p else new_queue);
}.

(** The events of the connections from number [k] on. *)
Definition connects (k n : nat) : list event := concat (map (fun k => [ConnectRequest; Established k]) (seq k n)).

Lemma connects_S k n es : connects k (S n) ++ es = ConnectRequest :: Established k :: connects (S k) n ++ es.
Proof. done. Qed.
Lemma connects_app k n1 n2 : connects k (n1 + n2) = connects k n1 ++ connects (k + n1) n2.
Proof. unfold connects. by rewrite seq_app, map_app, concat_app. Qed.

Lemma progress_start m (kv : KV T) : progress 0 0 (alloc_control m kv).
Proof.
  split; [split; [done|by intros k p Hk]|done|]. intros c i Hc Hi.
  do 4 (destruct c as [|c]; [do 8 (destruct i as [|i]; [done|]); lia|]). lia.
Qed.

Lemma place_lt c i : (i < 8)%nat -> place (8 * c + i) = (c, i).
Proof.
  intros Hi. unfold place. change NUM_QUEUES with 8%nat. f_equal; symmetry.
  - apply (Nat.div_unique _ 8 c i); lia.
  - apply (Nat.mod_unique _ 8 c i); lia.
Qed.

Lemma connect_one c i p s es st' :
  (c < 4)%nat -> (i < 8)%nat -> (p <= c)%nat -> progress (8 * c + i) p s ->
  prepost cfg (state s) (Z.of_nat c) (Z.of_nat i) = Some st' ->
  exists s', connect_queue cfg cbloom (c, i) s (ConnectRequest :: Established (8 * c + i) :: es) = Ret (s', es)
    /\ progress (8 * c + S i) p s' /\ state s' = st'.
Proof.
  intros Hc Hi Hp [Hn Hl Ht] Hpre. pose proof (nb_place _ Hn) as Hpl. rewrite Hl, place_lt in Hpl by done. injection Hpl as Hcc Hqc.
  set (s1 := MkSetup (if bool_decide (i = NUM_QUEUES - 1)%nat then S c else c) (if bool_decide (i = NUM_QUEUES - 1)%nat then 0%nat else S i)
    (contexts s ++ [(c, i)]) (devs s ∪ {[c]}) (<[(c, i) := MkQ INIT true 0 0]> (table s)) (threads s ++ [Poller c i]) (state s)).
  set (s2 := set_table (<[(c, i) := joined c i p]> (table s1)) s1).
  assert (table s !! (c, i) = Some new_queue) as Hq.
  { rewrite Ht by done. by rewrite (proj2 (Nat.ltb_ge (8 * c + i) (8 * c + i))) by lia. }
  assert (on_event cbloom s ConnectRequest = Ret (s1, 0)) as E1.
  { cbn [on_event]. unfold on_connect_request. rewrite <- Hcc, <- Hqc, Hq. done. }
  assert (table s1 !! (c, i) = Some (MkQ INIT true 0 0)) as T1 by apply lookup_insert_eq.
  assert (on_event cbloom s1 (Established (8 * c + i)) = Ret (s2, 0)) as E2.
  { cbn [on_event]. assert (contexts s1 !! (8 * c + i)%nat = Some (c, i)) as -> by (by apply list_lookup_middle).
    cbn [defined mbind outcome_bind]. unfold on_connection. rewrite T1. cbn [defined mbind outcome_bind qstate qp send_cq mr_recvs snd].
    unfold s2, joined. rewrite (proj2 (Nat.ltb_ge c p)) by lia. destruct i; done. }
  assert (table s2 !! (c, i) = Some (joined c i p)) as T2 by apply lookup_insert_eq.
  assert (qstate (joined c i p) = CONNECTED /\ qp (joined c i p) = true) as [J1 J2] by (unfold joined; by destruct i).
  exists (set_state st' s2). split.
  { unfold connect_queue. cbn [wait_queue]. rewrite E1. cbn [mbind outcome_bind]. rewrite T1. cbn [defined mbind outcome_bind qstate Z.eqb negb orb].
    rewrite E2. cbn [mbind outcome_bind]. rewrite T2. cbn [defined mbind outcome_bind]. rewrite J1. cbn [Z.eqb negb orb mbind outcome_bind].
    rewrite T2. cbn [defined mbind outcome_bind fst snd]. rewrite J2. cbn [negb]. change (state s2) with (state s). by rewrite Hpre. }
  split; [|done]. split.
  - apply (numbered_same s2); [|done..]. eapply (on_event_numbered cbloom s1); [|exact E2]. eapply (on_event_numbered cbloom s); [done|exact E1].
  - cbn [set_state set_table s2 s1 contexts]. rewrite length_app, Hl. cbn [length]. lia.
  - intros c' i' Hc' Hi'. cbn [set_state set_table s2 s1 table]. destruct (decide ((c', i') = (c, i))) as [[= -> ->]|Hne].
    + rewrite lookup_insert_eq. by rewrite (proj2 (Nat.ltb_lt (8 * c + i) (8 * c + S i))) by lia.
    + rewrite !lookup_insert_ne by congruence. rewrite Ht by done. assert (8 * c' + i' <> 8 * c + i)%nat by (intros ?; apply Hne; f_equal; lia).
      destruct (Nat.ltb_spec (8 * c' + i') (8 * c + i)), (Nat.ltb_spec (8 * c' + i') (8 * c + S i)); done || lia.
Qed.

(** All queues of a client. *)
Lemma connect_rest c p n : forall i s es st',
  (c < 4)%nat -> (i + n = 8)%nat -> (p <= c)%nat -> progress (8 * c + i) p s ->
  foldM (fun st i => prepost cfg st (Z.of_nat c) (Z.of_nat i)) (seq i n) (state s) = Some st' ->
  exists s', connect_queues cfg cbloom c (seq i n) s (connects (8 * c + i) n ++ es) = Ret (s', es)
    /\ progress (8 * c + 8) p s' /\ state s' = st'.
Proof.
  induction n as [|n IH]; intros i s es st' Hc Hin Hp Hpg Hf; cbn [seq foldM connect_queues] in *.
  { injection Hf as <-. exists s. assert (i = 8)%nat as -> by lia. done. }
  inv_bind Hf st1 H1. rewrite connects_S.
  destruct (connect_one c i p s (connects (S (8 * c + i)) n ++ es) st1 Hc ltac:(lia) Hp Hpg H1) as (s1 & E1 & Hpg1 & Hst1). rewrite E1. cbn [mbind outcome_bind].
  rewrite <- Hst1 in Hf. replace (S (8 * c + i)) with (8 * c + S i)%nat by lia.
  by apply IH; [|lia|..].
Qed.

Lemma poll_one c s :
  (c < 4)%nat -> progress (8 * c + 8) c s ->
  exists s', poll_regions cbloom sent c s = Ret (Some s') /\ progress (8 * S c) (S c) s' /\ state s' = state s.
Proof.
  intros Hc [Hn Hl Ht]. unfold poll_regions. rewrite Ht by lia. rewrite (proj2 (Nat.ltb_lt (8 * c + 0) (8 * c + 8))) by lia.
  cbn [defined mbind outcome_bind joined Nat.eqb qp negb send_cq]. rewrite Nat.ltb_irrefl, Hsent. eexists. split; [done|]. split; [|done]. split.
  - by apply (numbered_same s).
  - cbn. lia.
  - intros c' i' Hc' Hi'. cbn [add_threads set_table table qstate qp mr_recvs].
    destruct (decide ((c, 0%nat) = (c', i'))) as [[= <- <-]|Hne].
    + rewrite lookup_insert_eq. rewrite (proj2 (Nat.ltb_lt (8 * c + 0) (8 * S c))) by lia. unfold joined. cbn [Nat.eqb].
      by rewrite (proj2 (Nat.ltb_lt c (S c))) by lia.
    + rewrite lookup_insert_ne by done. rewrite Ht by done. replace (8 * S c)%nat with (8 * c + 8)%nat by lia.
      destruct (8 * c' + i' <? 8 * c + 8)%nat; [|done]. f_equal. unfold joined. destruct (Nat.eqb_spec i' 0) as [->|]; [|done].
      assert (c' <> c) by congruence. destruct (Nat.ltb_spec c' c), (Nat.ltb_spec c' (S c)); done || lia.
Qed.

Lemma eight : NUM_QUEUES = 8%nat.
Proof. done. Qed.

#[local] Strategy expand [accept_client NUM_QUEUES].
Lemma accept_client_eq (st : server T) c :
  accept_client cfg st c = foldM (fun st i => prepost cfg st (Z.of_nat c) (Z.of_nat i)) (seq 0 NUM_QUEUES) st.
Proof. reflexivity. Qed.
#[local] Strategy transparent [accept_client NUM_QUEUES].
Lemma foldM_step {A S} (f : S -> A -> option S) x l s s' : foldM f (x :: l) s = Some s' -> exists s1, f s x = Some s1 /\ foldM f l s1 = Some s'.
Proof. intros Hf. apply bind_Some in Hf. done. Qed.

(** One client, and the others. *)
Lemma connect_client c cs s es st' :
  (c < 4)%nat -> progress (8 * c) c s -> accept_client cfg (state s) c = Some st' ->
  exists s', connect_clients cfg cbloom sent (c :: cs) s (connects (8 * c) 8 ++ es) = connect_clients cfg cbloom sent cs s' es
    /\ progress (8 * S c) (S c) s' /\ state s' = st'.
Proof.
  intros Hc Hpg Hacc. cbn [connect_clients]. rewrite <- (Nat.add_0_r (8 * c)) in Hpg.
  rewrite accept_client_eq, eight in Hacc.
  destruct (connect_rest c c 8 0 s es st' Hc eq_refl (le_n c) Hpg Hacc) as (s1 & E1 & Hpg1 & Hst1).
  rewrite Nat.add_0_r in E1. rewrite eight, E1. cbn [mbind outcome_bind].
  destruct (poll_one c s1 Hc Hpg1) as (s2 & E2 & Hpg2 & Hst2). rewrite E2. cbn [mbind outcome_bind].
  exists s2. split; [done|]. split; [done|]. by rewrite Hst2.
Qed.

Lemma connect_all n : forall c s es st',
  (c + n = 4)%nat -> progress (8 * c) c s -> foldM (accept_client cfg) (seq c n) (state s) = Some st' ->
  exists s', connect_clients cfg cbloom sent (seq c n) s (connects (8 * c) (8 * n) ++ es) = Ret (Some (s', es))
    /\ progress (8 * 4) 4 s' /\ state s' = st'.
Proof.
  induction n as [|n IH]; intros c s es st' Hcn Hpg Hf.
  { injection Hf as <-. exists s. assert (c = 4)%nat as -> by lia. split; [done|]. by split. }
  rewrite <- cons_seq in Hf |- *. apply foldM_step in Hf as (st1 & H1 & Hf). rewrite Nat.mul_succ_r, Nat.add_comm, connects_app, <- app_assoc.
  destruct (connect_client c (seq (S c) n) s (connects (8 * c + 8) (8 * n) ++ es) st1 ltac:(lia) Hpg H1) as (s1 & E1 & Hpg1 & Hst1).
  rewrite E1, <- Nat.mul_succ_r. apply IH; [lia|done|]. by rewrite Hst1.
Qed.

Lemma foldM_total {A S} (f : S -> A -> option S) : (forall s x, exists s', f s x = Some s') -> forall l s, exists s', foldM f l s = Some s'.
Proof.
  intros Hf l. induction l as [|x l IH]; intros s; cbn [foldM]; [by exists s|]. destruct (Hf s x) as (s1 & ->). apply IH.
Qed.

Lemma accept_total n (st : server T) : exists st', accept_clients cfg n st = Some st'.
Proof.
  unfold accept_clients. apply foldM_total. intros st1 c. unfold accept_client. apply foldM_total. intros st2 i.
  unfold prepost. apply foldM_total. intros st3 j. unfold prepost_one. case_match; by eexists.
Qed.

Lemma accept_clients_eq n (st : server T) : accept_clients cfg n st = foldM (accept_client cfg) (seq 0 n) st.
Proof. reflexivity. Qed.
Lemma state_alloc m (kv : KV T) : state (alloc_control m kv) = new_server m kv.
Proof. reflexivity. Qed.
Lemma main_connected m (kv : KV T) es s :
  connect_clients cfg cbloom sent (seq 0 4) (alloc_control m kv) es = Ret (Some (s, [])) -> main cfg cbloom sent m kv es = Ret (Some (s, [])).
Proof. intros E. unfold main. change NUM_CLIENT with 4%nat. by rewrite E. Qed.

(** C7: When four clients connect one after the other, [main] accepts them all, and the server is then
    in a state that the runs of the system start from; every queue is connected, and one of the two
    completions of the first queue of each client is never polled. *)
Theorem setup_starts_system m (kv : KV T) cls :
  ihp_wf (hash kv) -> (forall k v, valid_key k -> ~ ihp_holds (hash kv) k v) -> 3200 * 4 <= page_limit cfg ->
  (forall c cl, cls !! c = Some cl -> exists f m, cl = init_client 8 f m) ->
  exists s, main cfg cbloom sent m kv (connects 0 32) = Ret (Some (s, []))
    /\ started cfg 4 (MkSystem cls (state s))
    /\ forall c i, (c < 4)%nat -> (i < 8)%nat -> exists q, table s !! (c, i) = Some q
         /\ qstate q = CONNECTED /\ qp q = true /\ send_cq q = (if (i =? 0)%nat then 1 else 0)%nat.
Proof.
  intros Hwf Hnone Hroom Hcls. destruct (accept_total 4 (new_server m kv)) as (st & Hacc).
  pose proof Hacc as Hf. rewrite accept_clients_eq, <- state_alloc in Hf.
  destruct (connect_all 4 0 (alloc_control m kv) [] st eq_refl (progress_start m kv) Hf) as (s & E & [Hn Hl Ht] & Hst).
  rewrite app_nil_r in E. exists s. split; [exact (main_connected m kv _ s E)|].
  split.
  - split; [|done]. exists m, kv. cbn [srv]. rewrite Hst. split; [exact Hwf|]. split; [exact Hnone|]. split; [lia|exact Hacc].
  - clear Hf Hacc E Hst. intros c i Hc Hi. rewrite Ht by done. rewrite (proj2 (Nat.ltb_lt (8 * c + i) (8 * 4))) by lia. eexists. split; [done|].
    unfold joined. rewrite (proj2 (Nat.ltb_lt c 4)) by lia. by destruct (i =? 0)%nat.
Qed.

End Accepts.

(** ** Runs of [main] *)

Section Examples.
#[local] Existing Instance machine_verbs.
#[local] Existing Instance plain_hash.

Lemma setup_starts_system_witness :
  exists s, main Demo.cfg true (fun _ => true) (fun _ => 0) Demo.kv (connects 0 32) = Ret (Some (s, []))
    /\ started Demo.cfg 4 (MkSystem {[ 0 := Demo.client0 ]} (state s)).
Proof.
  destruct (setup_starts_system Demo.cfg true (fun _ => true) (fun _ => eq_refl) (fun _ => 0) Demo.kv {[ 0 := Demo.client0 ]}) as (s & H1 & H2 & _).
  - exact (proj1 Demo.table_ok).
  - exact (proj2 Demo.table_ok).
  - by vm_compute.
  - intros c cl Hc. apply lookup_singleton_Some in Hc as [_ <-]. eexists _, _. reflexivity.
  - exists s. split; [exact H1|exact H2].
Defined.

(** Two clients that connect at the same time: the second queue of the first client is given
    the third place of the first client, and the first queue of the second its second place. *)
Example clients_mixed :
  (r ← main Demo.cfg true (fun _ => true) (fun _ => 0) Demo.kv (ConnectRequest :: ConnectRequest :: Established 0 :: connects 2 30 ++ [Established 1]);
   Ret (match r with Some (s, _) => take 3 (contexts s) | None => [] end)) = Ret [(0%nat, 0%nat); (0%nat, 1%nat); (0%nat, 2%nat)].
Proof. vm_compute. reflexivity. Qed.

Definition returns {A B} (o : outcome (option (A * list B))) : bool := match o with Ret (Some (_, [])) => true | _ => false end.
Lemma returns_Ret {A B} (o : outcome (option (A * list B))) : returns o = true -> exists s, o = Ret (Some (s, [])).
Proof. destruct o as [[[s [|]]|]| | |]; try discriminate. by exists s. Qed.

Lemma requests_numbered_witness :
  exists s, main Demo.cfg true (fun _ => true) (fun _ => 0) Demo.kv (connects 0 32) = Ret (Some (s, [])) /\ NoDup (contexts s).
Proof.
  destruct (returns_Ret (main Demo.cfg true (fun _ => true) (fun _ => 0) Demo.kv (connects 0 32))) as (s & Hs); [vm_compute; reflexivity|].
  exists s. split; [exact Hs|]. apply (requests_numbered Demo.cfg true (fun _ => true) (fun _ => 0) Demo.kv (connects 0 32) s [] Hs).
Defined.

End Examples.
