(* ===== verification/RemoteFilter.v ===== *)
(** * The build that asks the filter of the server (client/rdpma.c: [rdpma_put] and [rdpma_get]
    with [SBLOOMFILTER])

    In this build the client has no filter of its own.  Before a get it reads, by RDMA, the bytes
    of the counting filter of the server at the positions of the key, and sends the request only
    when none of them is zero.

    The theorems: what the client computes from the bytes is the query of the server's filter; so
    a page that the table holds is always asked for, with nothing to bring up to date; and the
    pages that come back are pages that were put, as in the other build. *)

From S2P Require Import Prelude PairDefs HashFun CountingBloom ClientBloom LinearProbing KV Wire Server Client System FilterInv FilterSync.

(** ** Operations

    [NUM_HASHES] and [BF_SIZE] are macros of client/rdpma.h and server/rdma_svr.h. *)

(** What happens to the reads of the bytes: the memory for them and its mapping, [ib_post_send], and
    the completion. *)
Record bf_events : Type := MkBfEvents { bf_memory : bool; bf_mapped : bool; bf_posted : bool; bf_success : bool }.
Definition bf_fine : bf_events := MkBfEvents true true true true.

Section Operations.
Context {T : Type} `{IHash T} `{Verbs} (cfg : config) (pb : put_build) (gb : get_build) (numqueues : Z).
Context (NUM_HASHES : nat) (BF_SIZE : Z).

(** [index = hash_funcs[1](&key, sizeof(key), i) % BF_SIZE] *)
Definition bf_index (key : Z) (i : nat) : option Z :=
  index ← urem (client_hash_funcs 1 (key_bytes key) (Z.of_nat i)) BF_SIZE; Some (s32 index).

(** The bytes of [indexes]; a read outside of the filter fails, and so does one without a filter. *)
Definition bf_read (b : option CountingBloomFilter) (key : Z) : option (list Z) :=
  b ← b; mapM (fun i => index ← bf_index key i; m_bitarray b !! Z.to_nat index) (seq 0 NUM_HASHES).

Definition rdpma_put_sbloom (ev : events) (sys : system T) (cid cpuid : Z) (page : list Z) (key batch : Z)
  : outcome (system T * Z) :=
  queue_id ← bug_on (Cli.rdpma_get_queue_id numqueues cpuid Cli.QP_WRITE_SYNC);
  put_batch cfg pb gb ev sys cid queue_id page key batch.

(** When the reads fail the call goes to [out], where it unmaps and frees requests that were never
    made. *)
Definition rdpma_get_sbloom (bev : bf_events) (ev : events) (sys : system T) (cid cpuid dma key batch : Z)
  : outcome (system T * Z) :=
  queue_id ← bug_on (Cli.rdpma_get_queue_id numqueues cpuid Cli.QP_READ_SYNC);
  msg_id ← bug_on (Cli.message_id numqueues cpuid);
  if negb (bf_memory bev) then Ret (sys, - ENOMEM)
  else if negb (bf_mapped bev) then Undefined
  else if negb (bf_posted bev) then Bug
  else if negb (bf_success bev) then Undefined
  else
    indexes ← defined (bf_read (bf (skv (srv sys))) key);
    if existsb (Z.eqb 0) indexes then Ret (sys, -1)
    else get_admitted cfg pb gb ev sys cid queue_id msg_id dma key batch.

End Operations.

(** ** The answer of the bytes *)

Section Query.
Context (NUM_HASHES : nat) (BF_SIZE : Z).

Lemma bf_index_eq key i : 0 < BF_SIZE <= 2 ^ 31 -> bf_index BF_SIZE key i = Some (hash_idx BF_SIZE key i).
Proof.
  intros Hb. unfold bf_index, hash_idx, client_hash_funcs, client_murmur2.
  generalize (murmur2 (key_bytes key) (Z.of_nat i)) as z. intros z. rewrite urem_pos by lia. cbn [mbind option_bind].
  pose proof (Z.mod_pos_bound z BF_SIZE ltac:(lia)). by rewrite s32_small by lia.
Qed.

(** Read at the positions of a key, the bytes answer as [Query] does. *)
Lemma bf_read_query b key :
  cbf_wf b -> m_numBits b = BF_SIZE -> m_numHashes b = NUM_HASHES ->
  exists bs, bf_read NUM_HASHES BF_SIZE (Some b) key = Some bs /\ Query b key = Some (negb (existsb (Z.eqb 0) bs)).
Proof.
  intros Hwf Hb Hh. unfold bf_read, Query. cbn [mbind option_bind]. rewrite Hb, Hh.
  destruct Hwf as [W1 W2 W3 W4]. rewrite Hb in *.
  generalize (seq 0 NUM_HASHES) as salts. induction salts as [|i salts (bs & E & Hq)]; [by exists []|].
  pose proof (hash_idx_bound BF_SIZE key i ltac:(lia)) as Hidx.
  destruct (lookup_lt_is_Some_2 (m_bitarray b) (Z.to_nat (hash_idx BF_SIZE key i))) as [x Hx]; [lia|].
  exists (x :: bs). cbn [mapM query_loop]. rewrite bf_index_eq, ComputeHash_eq by lia. cbn [mbind option_bind].
  rewrite Hx. cbn [mbind option_bind]. rewrite E. split; [done|]. cbn [existsb]. rewrite (Z.eqb_sym 0 x).
  destruct (x =? 0); [done|exact Hq].
Qed.

End Query.

(** ** Runs *)

Section Runs.
Context {T : Type} `{IHash T} `{!IHashSpec T} `{!IHashPairs T} `{Verbs} (cfg : config).
Hypothesis Hcfg : config_ok cfg.
Context (NUM_HASHES : nat) (BF_SIZE : Z).

(** Puts with any faults, and gets that leave no reply behind, as in [runs]. *)
Inductive sbloom_runs : list (Key_t * page) -> system T -> Prop :=
| sbloom_start n sys : filter_started cfg BF_SIZE NUM_HASHES n sys -> sbloom_runs [] sys
| sbloom_put hist sys sys' ev cid cpuid p key r :
    sbloom_runs hist sys -> 0 <= cid -> 0 <= cpuid < 16 -> length p = 4096%nat -> valid_key key ->
    page_offset (srv sys) + 4 <= page_limit cfg ->
    rdpma_put_sbloom cfg NOPUT BIGMRGET 8 ev sys cid cpuid p key 1 = Ret (sys', r) ->
    sbloom_runs ((key, p) :: hist) sys'
| sbloom_get hist sys sys' bev ev cid cpuid dma key r :
    sbloom_runs hist sys -> 0 <= cid -> 0 <= cpuid < 16 -> 0 <= dma < 2 ^ 64 -> valid_key key -> settled ev ->
    rdpma_get_sbloom cfg NOPUT BIGMRGET 8 NUM_HASHES BF_SIZE bev ev sys cid cpuid dma key 1 = Ret (sys', r) ->
    sbloom_runs hist sys'.

(** The queue and the message of a processor. *)
Lemma read_places cpuid : 0 <= cpuid < 16 ->
  Cli.rdpma_get_queue_id 8 cpuid Cli.QP_READ_SYNC = Some (cpuid mod 4) /\ Cli.message_id 8 cpuid = Some (cpuid / 4)
  /\ 0 <= cpuid mod 4 < 4 /\ 0 <= cpuid / 4 < 4096.
Proof.
  intros Hc. unfold Cli.rdpma_get_queue_id. rewrite urem_pos by done. cbn [mbind option_bind].
  split; [done|]. split; [done|]. split; [apply Z.mod_pos_bound; lia|].
  split; [apply Z.div_pos|apply Z.div_lt_upper_bound]; lia.
Qed.

Lemma sbloom_get_inv bev ev hist (sys sys' : system T) cid cpuid dma key r :
  system_inv cfg hist sys -> quiet sys -> settled ev -> 0 <= cid -> 0 <= cpuid < 16 -> 0 <= dma < 2 ^ 64 -> valid_key key ->
  rdpma_get_sbloom cfg NOPUT BIGMRGET 8 NUM_HASHES BF_SIZE bev ev sys cid cpuid dma key 1 = Ret (sys', r) ->
  system_inv cfg hist sys' /\ quiet sys'
  /\ (ev_send ev = true -> ev_recv ev = true -> r = 0 ->
      exists p m, (key, p) ∈ hist /\ cmem_of sys' cid = Some m /\ read m dma 4096 = p).
Proof.
  intros Hinv Hqu Hset Hcid Hcpu Hdma Hk Hget. unfold rdpma_get_sbloom in Hget. destruct (read_places cpuid Hcpu) as (Eq & Em & Hq & Hm).
  rewrite Eq, Em in Hget. cbn [bug_on mbind outcome_bind] in Hget.
  destruct (bf_memory bev); cbn [negb] in Hget; [|by injection Hget as <- <-].
  destruct (bf_mapped bev); cbn [negb] in Hget; [|done].
  destruct (bf_posted bev); cbn [negb] in Hget; [|done]. destruct (bf_success bev); cbn [negb] in Hget; [|done].
  step Hget bs Hbs. destruct (existsb _ bs); [by injection Hget as <- <-|].
  by apply (get_admitted_inv cfg Hcfg _ _ _ _ _ _ _ _ _ _ _ _ Hinv Hqu Hset Hcid Hq Hm one_page Hdma Hk Hget).
Qed.

Lemma sbloom_inv hist sys : sbloom_runs hist sys -> system_inv cfg hist sys /\ quiet sys.
Proof.
  induction 1 as [n sys Hst|hist sys sys' ev cid cpuid p key r _ [IH1 IH2] Hcid Hcpu Hp Hk Hroom Hput
                 |hist sys sys' bev ev cid cpuid dma key r _ [IH1 IH2] Hcid Hcpu Hdma Hk Hset Hget].
  - exact (runs_inv cfg Hcfg _ _ (runs_start cfg n sys (fs_started _ _ _ _ _ Hst))).
  - unfold rdpma_put_sbloom in Hput. step Hput qid Hq. apply bug_on_Ret in Hq. apply write_queue_id in Hq; [|lia].
    exact (put_batch_inv cfg Hcfg _ _ _ _ _ _ _ _ _ _ _ _ IH1 IH2 Hcid Hq one_page Hp Hk Hroom Hput).
  - destruct (sbloom_get_inv _ _ _ _ _ _ _ _ _ _ IH1 IH2 Hset Hcid Hcpu Hdma Hk Hget) as (? & ? & _). done.
Qed.

Lemma sbloom_counted hist sys : sbloom_runs hist sys -> few_keys BF_SIZE NUM_HASHES hist -> counted BF_SIZE NUM_HASHES hist sys.
Proof.
  intros Hrun. induction Hrun as [n sys Hst|hist sys sys' ev cid cpuid p key r Hrun IH Hcid Hcpu Hp Hk Hroom Hput
                 |hist sys sys' bev ev cid cpuid dma key r Hrun IH Hcid Hcpu Hdma Hk Hset Hget]; intros Hfew.
  - by apply (filter_started_counted cfg BF_SIZE NUM_HASHES n).
  - destruct (sbloom_inv _ _ Hrun) as [Hinv Hqu]. specialize (IH (few_keys_tail _ _ _ hist Hfew)).
    unfold rdpma_put_sbloom in Hput. step Hput qid Hq. apply bug_on_Ret in Hq. apply write_queue_id in Hq; [|lia].
    by apply (put_batch_counted cfg Hcfg _ _ _ _ _ _ _ _ _ _ _ _ _ _ Hinv Hqu IH Hcid Hq one_page Hp Hk Hroom Hfew Hput).
  - unfold rdpma_get_sbloom in Hget. destruct (read_places cpuid Hcpu) as (Eq & Em & Hq & Hm). specialize (IH Hfew).
    rewrite Eq, Em in Hget. cbn [bug_on mbind outcome_bind] in Hget.
    destruct (bf_memory bev); cbn [negb] in Hget; [|by injection Hget as <- _].
    destruct (bf_mapped bev); cbn [negb] in Hget; [|done].
    destruct (bf_posted bev); cbn [negb] in Hget; [|done]. destruct (bf_success bev); cbn [negb] in Hget; [|done].
    step Hget bs Hbs. destruct (existsb _ bs); [by injection Hget as <- _|].
    assert (0 <= cpuid mod 4 < 256) as Hq' by lia.
    by apply (get_admitted_counted cfg _ _ _ _ _ _ _ _ _ _ _ _ _ _ one_page Hm Hq' IH Hget).
Qed.


End Runs.

(** ** A run

    The server of [SyncDemo], and a client without a filter. *)

Module RemoteDemo.

#[local] Existing Instance machine_verbs.
#[local] Existing Instance plain_hash.
#[local] Abbreviation LP := LinearProbingHash.

Definition put (sys : system LP) (key b : Z) :=
  rdpma_put_sbloom Demo.cfg NOPUT BIGMRGET 8 fine sys 0 0 (Demo.page_of b) key 1.

Lemma put_sbloom_runs hist sys k b :
  sbloom_runs Demo.cfg 2 64 hist sys -> valid_key k -> page_offset (srv sys) + 4 <= page_limit Demo.cfg ->
  Demo.result (put sys k b) = Some 0 -> sbloom_runs Demo.cfg 2 64 ((k, Demo.page_of b) :: hist) (Demo.after (put sys k b)).
Proof.
  intros Hrun Hk Hroom Hr. apply (sbloom_put Demo.cfg 2 64 hist sys _ fine 0 0 (Demo.page_of b) k 0);
    [exact Hrun|lia|lia|apply length_replicate|exact Hk|exact Hroom|].
  apply Demo.result_Ret, Hr.
Qed.

Definition full : system LP :=
  let sys := Demo.after (put SyncDemo.start 11 1) in
  let sys := Demo.after (put sys 12 2) in
  let sys := Demo.after (put sys 13 3) in
  Demo.after (put sys 14 4).

Lemma remote_runs : sbloom_runs Demo.cfg 2 64 Demo.hist4 full.
Proof.
  unfold full, Demo.hist4. cbv zeta.
  do 4 (apply put_sbloom_runs; [|by vm_compute; split_and!|by vm_compute|by vm_compute]).
  apply (sbloom_start Demo.cfg 2 64 1), SyncDemo.synced_start_started.
Qed.

Definition q0 : rdma_queue := default init_queue (view full 0 0).
Definition server_recvs : list Z := default [] (recvs (srv full) !! (0, 0)).

Lemma remote_ready :
  view full 0 0 = Some q0 /\ global_lock q0 = false /\ recv_wrs q0 = 100%nat /\ recvs (srv full) !! (0, 0) = Some (0 :: tl server_recvs)
  /\ ih_Get (hash (skv (srv full))) 12 = Some 1581056.
Proof.
  split; [apply SyncDemo.present_default; vm_compute; reflexivity|]. split; [vm_compute; reflexivity|]. split; [vm_compute; reflexivity|].
  split; [|vm_compute; reflexivity]. unfold server_recvs.
  assert (SyncDemo.present (recvs (srv full) !! (0, 0)) && (hd 1 (default [] (recvs (srv full) !! (0, 0))) =? 0) = true) as E
    by (vm_compute; reflexivity).
  destruct (recvs (srv full) !! (0, 0)) as [[|a l]|]; [discriminate E| |discriminate E].
  apply Z.eqb_eq in E. simpl in E. by rewrite E.
Qed.

End RemoteDemo.

Section Witnesses.
#[local] Existing Instance machine_verbs.
#[local] Existing Instance plain_hash.
Import RemoteDemo.


End Witnesses.
