(* ===== verification/SwapDriver.v ===== *)
(** * The swap driver (client/juleeswap.c)

    A backend of frontswap over [rdpma_put] and [rdpma_get] of the build of
    client/rdpma.c: [TWOSIDED] and [CBLOOMFILTER].  The kernel names a page by its
    swap area [type] and its offset in it; the driver passes on the offset alone.
    The theorems say which pages a load may return, and that a store may report
    success while the page is still in the buffer of the client. *)

From S2P Require Import Prelude PairDefs HashFun ClientBloom LinearProbing KV Wire Server Client System.

Section Driver.
Context {T : Type} `{IHash T} `{Verbs} (cfg : config) (numqueues : Z).

Definition ckswap_store (ev : events) (sys : system T) (cid cpuid type pageid : Z) (page : list Z)
  : outcome (system T * Z) :=
  '(sys, ret) ← rdpma_put_twosided cfg NOPUT BIGMRGET numqueues ev sys cid cpuid page pageid 1;
  if negb (ret =? 0) then Ret (sys, -1) else Ret (sys, 0).

(** [dma] is the address of the page. *)
Definition ckswap_load (ev : events) (sys : system T) (cid cpuid type pageid dma : Z) : outcome (system T * Z) :=
  '(sys, ret) ← rdpma_get cfg NOPUT BIGMRGET numqueues ev sys cid cpuid dma pageid 1;
  if negb (ret =? 0) then Ret (sys, -1) else Ret (sys, 0).

Definition ckswap_invalidate_page (sys : system T) (type offset : Z) : system T := sys.
Definition ckswap_invalidate_area (sys : system T) (type : Z) : system T := sys.
Definition ckswap_init (sys : system T) (type : Z) : system T := sys.

End Driver.

Section Runs.
Context {T : Type} `{IHashPairs T} `{Verbs} (cfg : config) (Hcfg : config_ok cfg).

(** Stores with any faults, loads that leave no reply behind, and invalidations,
    of any area; the history has area, offset and page of the stores. *)
Inductive swap_runs : list (Z * Z * page) -> system T -> Prop :=
| swap_start n sys : started cfg n sys -> swap_runs [] sys
| swap_store hist sys sys' ev cid cpuid type off p r :
    swap_runs hist sys -> 0 <= cid -> 0 <= cpuid < 16 -> length p = 4096%nat -> valid_key off ->
    page_offset (srv sys) + 4 <= page_limit cfg ->
    ckswap_store cfg 8 ev sys cid cpuid type off p = Ret (sys', r) ->
    swap_runs ((type, off, p) :: hist) sys'
| swap_load hist sys sys' ev cid cpuid type off dma r :
    swap_runs hist sys -> 0 <= cid -> 0 <= cpuid < 16 -> 0 <= dma < 2 ^ 64 -> valid_key off -> settled ev ->
    ckswap_load cfg 8 ev sys cid cpuid type off dma = Ret (sys', r) ->
    swap_runs hist sys'
| swap_invalidate hist sys type off :
    swap_runs hist sys -> swap_runs hist (ckswap_invalidate_page sys type off)
| swap_invalidate_area hist sys type :
    swap_runs hist sys -> swap_runs hist (ckswap_invalidate_area sys type).

(** What the server is told of a history: offsets and pages. *)
Definition wire (x : Z * Z * page) : Key_t * page := (x.1.2, x.2).

Lemma store_Ret ev (sys sys' : system T) cid cpuid type off p r :
  ckswap_store cfg 8 ev sys cid cpuid type off p = Ret (sys', r) ->
  exists r', rdpma_put_twosided cfg NOPUT BIGMRGET 8 ev sys cid cpuid p off 1 = Ret (sys', r') /\ (r = 0 <-> r' = 0).
Proof.
  intros Hs. unfold ckswap_store in Hs. step Hs x Hx. destruct x as [s r']. exists r'.
  destruct (Z.eqb_spec r' 0); cbn [negb] in Hs; injection Hs as <- <-; split; done || lia.
Qed.

Lemma load_Ret ev (sys sys' : system T) cid cpuid type off dma r :
  ckswap_load cfg 8 ev sys cid cpuid type off dma = Ret (sys', r) ->
  exists r', rdpma_get cfg NOPUT BIGMRGET 8 ev sys cid cpuid dma off 1 = Ret (sys', r') /\ (r = 0 <-> r' = 0).
Proof.
  intros Hs. unfold ckswap_load in Hs. step Hs x Hx. destruct x as [s r']. exists r'.
  destruct (Z.eqb_spec r' 0); cbn [negb] in Hs; injection Hs as <- <-; split; done || lia.
Qed.

(** A run of the driver is a run of the client under it. *)
Lemma swap_runs_runs hist sys : swap_runs hist sys -> runs cfg (wire <$> hist) sys.
Proof.
  induction 1 as [n sys Hst|hist sys sys' ev cid cpuid type off p r _ IH Hcid Hcpu Hp Hk Hroom Hs
    |hist sys sys' ev cid cpuid type off dma r _ IH Hcid Hcpu Hdma Hk Hset Hl|hist sys type off _ IH|hist sys type _ IH].
  - by apply (runs_start cfg n).
  - destruct (store_Ret _ _ _ _ _ _ _ _ _ Hs) as (r' & Hput & _).
    exact (runs_put cfg _ sys sys' ev cid cpuid p off r' IH Hcid Hcpu Hp Hk Hroom Hput).
  - destruct (load_Ret _ _ _ _ _ _ _ _ _ Hl) as (r' & Hget & _).
    exact (runs_get cfg _ sys sys' ev cid cpuid dma off r' IH Hcid Hcpu Hdma Hk Hset Hget).
  - exact IH.
  - exact IH.
Qed.

(** In every run, a load that polls both completions and returns 0 leaves in the
    page the bytes of a page that was stored at this offset, of this area if no
    other area stored there. *)
Theorem swap_load_returns_stored hist sys sys' ev cid cpuid type off dma :
  swap_runs hist sys -> 0 <= cid -> 0 <= cpuid < 16 -> 0 <= dma < 2 ^ 64 -> valid_key off -> settled ev ->
  ev_send ev = true -> ev_recv ev = true ->
  ckswap_load cfg 8 ev sys cid cpuid type off dma = Ret (sys', 0) ->
  exists area p m, (area, off, p) ∈ hist /\ cmem_of sys' cid = Some m /\ read m dma 4096 = p
    /\ ((forall a q, (a, off, q) ∈ hist -> a = type) -> area = type).
Proof.
  intros Hrun Hcid Hcpu Hdma Hk Hset Hs Hr Hl. destruct (load_Ret _ _ _ _ _ _ _ _ _ Hl) as (r' & Hget & Hr0).
  destruct (runs_inv cfg Hcfg _ _ (swap_runs_runs _ _ Hrun)) as [Hinv Hqu].
  destruct (get_inv cfg Hcfg _ _ _ _ _ _ _ _ _ _ _ Hinv Hqu Hset Hcid (few_cpus _ Hcpu) one_page Hdma Hk Hget)
    as (_ & _ & Hp).
  destruct (Hp Hs Hr (proj1 Hr0 eq_refl)) as (p & m & Hin & Hm & Hread).
  apply list_elem_of_fmap in Hin as ([[area off'] p'] & [= -> ->] & Hin).
  exists area, p', m. split_and!; [done|done|done|]. intros Hone. exact (Hone _ _ Hin).
Qed.

(** A store whose queue has room for more pages of a batch reports success and
    sends nothing: the server is as it was, and the page is only in the buffer. *)
Theorem swap_store_unsent ev (sys sys' : system T) cid cpuid type off p r qid q :
  Cli.rdpma_get_queue_id 8 cpuid Cli.QP_WRITE_SYNC = Some qid -> view sys cid (Z.to_nat qid) = Some q ->
  0 <= nr_buffered q < Cli.BATCH_SIZE - 1 ->
  ckswap_store cfg 8 ev sys cid cpuid type off p = Ret (sys', r) -> r = 0 /\ srv sys' = srv sys.
Proof.
  intros Hq Hv Hn Hs. destruct (store_Ret _ _ _ _ _ _ _ _ _ Hs) as (r' & Hput & Hr0).
  unfold rdpma_put_twosided, put_batch in Hput. rewrite Hq in Hput. cbn [bug_on mbind outcome_bind] in Hput.
  step Hput cl Hcl. apply defined_Ret in Hcl. step Hput f Hf. destruct (set_filter_same sys cid cl f Hcl) as [Hsame _].
  step Hput sys1 Hl. apply spin_lock_changes in Hl as (q0 & C1 & _).
  pose proof (ch_old _ _ _ _ _ _ C1) as Hq0. rewrite Hsame, Hv in Hq0. injection Hq0 as <-.
  step Hput q1 Hq1. apply get_queue_Ret in Hq1. rewrite (ch_new _ _ _ _ _ _ C1) in Hq1. injection Hq1 as <-.
  cbn [nr_buffered set_lock] in Hput. step Hput sys2 H2'. apply on_queue_changes in H2' as (q2 & C2).
  destruct (Z.leb_spec Cli.BATCH_SIZE (nr_buffered q)); [done|]. step Hput b Hb. step Hput k Hk. step Hput sys3 H3'.
  apply on_queue_changes in H3' as (q3 & C3). destruct (Z.ltb_spec (nr_buffered q) (Cli.BATCH_SIZE - 1)); [|lia].
  step Hput sys4 H4'. apply on_queue_changes in H4' as (q4 & C4). injection Hput as -> <-.
  split; [by apply Hr0|].
  by rewrite (ch_srv _ _ _ _ _ _ C4), (ch_srv _ _ _ _ _ _ C3), (ch_srv _ _ _ _ _ _ C2), (ch_srv _ _ _ _ _ _ C1).
Qed.

End Runs.

(** ** A run *)

Module SwapDemo.
Import Demo.

#[local] Existing Instance machine_verbs.
#[local] Existing Instance plain_hash.

Definition store_page (sys : system LinearProbingHash) (type off b : Z) :=
  ckswap_store cfg 8 fine sys 0 0 type off (page_of b).
Definition load_page (sys : system LinearProbingHash) (type off : Z) := ckswap_load cfg 8 fine sys 0 0 type off 65536.
Definition stores (l : list (Z * Z * Z)) (sys : system LinearProbingHash) : system LinearProbingHash :=
  foldl (fun sys '(type, off, b) => after (store_page sys type off b)) sys l.

(** Four pages of area 0, one batch. *)
Definition four : system LinearProbingHash := stores [(0, 11, 1); (0, 12, 2); (0, 13, 3); (0, 14, 4)] start.
Definition hist_four : list (Z * Z * page) :=
  [(0, 14, page_of 4); (0, 13, page_of 3); (0, 12, page_of 2); (0, 11, page_of 1)].

Lemma store_runs hist sys type off b :
  swap_runs cfg hist sys -> valid_key off -> page_offset (srv sys) + 4 <= page_limit cfg ->
  result (store_page sys type off b) = Some 0 ->
  swap_runs cfg ((type, off, page_of b) :: hist) (after (store_page sys type off b)).
Proof.
  intros Hrun Hk Hroom Hr. apply (swap_store cfg hist sys _ fine 0 0 type off (page_of b) 0);
    [exact Hrun|lia|lia|apply length_replicate|exact Hk|exact Hroom|].
  apply result_Ret, Hr.
Qed.

Lemma start_swap : swap_runs cfg [] start.
Proof. apply (swap_start cfg 1). apply start_started. Qed.

Lemma four_runs : swap_runs cfg hist_four four.
Proof.
  unfold four, stores, hist_four. cbn [foldl].
  repeat (apply store_runs; [|by vm_compute; split_and!|by vm_compute|by vm_compute]).
  apply start_swap.
Qed.

(** A page that was stored with success cannot be loaded while its batch is not full. *)
Example stored_page_lost :
  result (store_page start 0 11 1) = Some 0 /\ result (load_page (after (store_page start 0 11 1)) 0 11) = Some (-1).
Proof. by vm_compute. Qed.

(** Area 1, which nothing was stored in, has the page of area 0. *)
Example areas_share_pages :
  result (load_page four 1 11) = Some 0 /\ page_read (load_page four 1 11) = [1; 1; 1].
Proof. by vm_compute. Qed.

(** With the linear table, a page that is invalidated and stored again has its old bytes. *)
Example stored_again_is_old :
  let sys := stores [(0, 11, 5); (0, 12, 6); (0, 13, 7); (0, 14, 8)] (ckswap_invalidate_page four 0 11) in
  result (load_page sys 0 11) = Some 0 /\ page_read (load_page sys 0 11) = [1; 1; 1].
Proof. by vm_compute. Qed.

End SwapDemo.

Lemma swap_load_returns_stored_witness :
  exists area p m, (area, 12, p) ∈ SwapDemo.hist_four
    /\ cmem_of (Demo.after (SwapDemo.load_page SwapDemo.four 0 12)) 0 = Some m /\ read m 65536 4096 = p
    /\ ((forall a q, (a, 12, q) ∈ SwapDemo.hist_four -> a = 0) -> area = 0).
Proof.
  apply (@swap_load_returns_stored _ _ (@LinearProbing_pairs plain_hash) machine_verbs Demo.cfg Demo.cfg_ok
    SwapDemo.hist_four SwapDemo.four _ fine 0 0 0 12 65536);
    [apply SwapDemo.four_runs|lia|lia|lia|by vm_compute; split_and!|done|done|done|].
  apply Demo.result_Ret. vm_cast_no_check (eq_refl (Some 0)).
Defined.

Lemma swap_store_unsent_witness :
  0 = 0 /\ srv (Demo.after (SwapDemo.store_page Demo.start 0 11 1)) = srv Demo.start.
Proof.
  apply (@swap_store_unsent _ (@LinearProbing_IHash plain_hash) machine_verbs Demo.cfg fine Demo.start _ 0 0 0 11
    (Demo.page_of 1) 0 4 (Nat.iter 100 client_post_recv init_queue)); [done|by vm_compute|by vm_compute|].
  apply Demo.result_Ret. vm_cast_no_check (eq_refl (Some 0)).
Defined.
