(* ===== verification/Faults.v ===== *)
(** * What the client does when something fails (client/rdpma.c, client/julee.c)

    The error paths of the puts and the gets: which of them keep the lock of the
    queue, which results they report, and what the cleancache backend makes of
    them.  The theorems are stated for every state of the system; the examples
    at the end are runs of one client. *)

From S2P Require Import Prelude PairDefs HashFun CountingBloom ClientBloom LinearProbing KV Wire Server Client System.

Section Faults.
Context {T : Type} `{IHash T} `{Verbs} (cfg : config) (pb : put_build) (gb : get_build).

(** ** Locks *)

Definition locked (sys : system T) (cid : Z) (i : nat) : Prop :=
  exists q, view sys cid i = Some q /\ global_lock q = true.

Lemma locked_changes sys sys' cid i q q' :
  changes sys sys' cid i q q' -> global_lock q' = global_lock q -> locked sys cid i -> locked sys' cid i.
Proof.
  intros C Hl (q0 & Hv & Hq). exists q'. split; [apply (ch_new _ _ _ _ _ _ C)|].
  rewrite (ch_old _ _ _ _ _ _ C) in Hv. congruence.
Qed.

Lemma locked_hangs sys cid qid x : locked sys cid (Z.to_nat qid) -> spin_lock sys cid qid <> Ret x.
Proof.
  intros (q & Hv & Hq) Hl. apply spin_lock_changes in Hl as (q' & C & Hf).
  rewrite (ch_old _ _ _ _ _ _ C) in Hv. congruence.
Qed.

Lemma locked_serve ev sys sys' cid qid wc i :
  serve cfg pb gb ev sys cid qid wc = Ret sys' -> locked sys cid i -> locked sys' cid i.
Proof.
  intros Hs (q & Hv & Hl). apply serve_Ret in Hs as (st & s & _ & Hs).
  destruct s as [s|]; [|by injection Hs as <-; exists q].
  destruct (ev_replied ev); [|by injection Hs as <-; exists q].
  apply reply_changes in Hs as (q' & n & Hv' & Hv'' & Ho & _).
  destruct (decide (i = Z.to_nat qid)) as [->|Hne].
  - eexists. split; [exact Hv''|]. change (view sys cid (Z.to_nat qid) = Some q') in Hv'.
    cbn [global_lock set_cq]. congruence.
  - exists q. split; [|done]. rewrite Ho by congruence. exact Hv.
Qed.

Lemma locked_send_batch ev sys sys' cid qid batch i :
  send_batch cfg pb gb ev sys cid qid batch = Ret sys' -> locked sys cid i -> locked sys' cid i.
Proof.
  intros Hs Hl. unfold send_batch in Hs. step Hs q Hq. unfold send_with_imm, consume in Hs. step Hs r Hr.
  destruct (take_recv _ cid qid) as [[a st]|]; [|done]. injection Hr as <-.
  destruct (a =? 0); [done|]. apply (locked_serve _ _ _ _ _ _ i) in Hs; [done|].
  destruct Hl as (q' & Hv & Hg). by exists q'.
Qed.

(** What a put has done when it reports an error: it holds the lock. *)
Lemma put_error_locked ev sys sys' cid cpuid qid p key batch r :
  Cli.rdpma_get_queue_id 8 cpuid Cli.QP_WRITE_SYNC = Some qid ->
  rdpma_put_twosided cfg pb gb 8 ev sys cid cpuid p key batch = Ret (sys', r) -> r <> 0 ->
  locked sys' cid (Z.to_nat qid).
Proof.
  intros Hqid Hput Hr. unfold rdpma_put_twosided, put_batch in Hput. rewrite Hqid in Hput. cbn [bug_on mbind outcome_bind] in Hput.
  step Hput cl Hcl. step Hput f Hf. step Hput sys1 Hl. step Hput q Hq. step Hput sys2 H2'.
  destruct (Cli.BATCH_SIZE <=? nr_buffered q); [done|]. step Hput b Hb. step Hput k Hk. step Hput sys3 H3'.
  apply spin_lock_changes in Hl as (q0 & C1 & _). apply on_queue_changes in H2' as (q1 & C2), H3' as (q2 & C3).
  assert (Hl3 : locked sys3 cid (Z.to_nat qid)).
  { apply (locked_changes _ _ _ _ _ _ C3); [done|]. apply (locked_changes _ _ _ _ _ _ C2); [done|].
    eexists. split; [apply (ch_new _ _ _ _ _ _ C1)|done]. }
  destruct (nr_buffered q <? Cli.BATCH_SIZE - 1); [step Hput sys4 H4'; by injection Hput as _ <-|].
  destruct (ev_memory ev); cbn [negb] in Hput; [|by injection Hput as <- _].
  destruct (ev_map_page ev); cbn [negb] in Hput; [|by injection Hput as <- _]. destruct (ev_addr_page ev); cbn [negb] in Hput; [|done].
  destruct (ev_map_meta ev); cbn [negb] in Hput; [|by injection Hput as <- _]. destruct (ev_addr_meta ev); cbn [negb] in Hput; [|done].
  step Hput sys4 Hs.
  assert (Hout : forall sys, put_out ev sys cid qid = Ret (sys', r) -> False).
  { intros s Ho. unfold put_out in Ho. step Ho s1 O1. step Ho s2 O2. step Ho s3 O3. by injection Ho as _ <-. }
  destruct (ev_send ev); cbn [negb] in Hput; [|by apply Hout in Hput].
  destruct (ev_recv ev); cbn [negb] in Hput.
  - step Hput r1 Hp. destruct r1. by apply Hout in Hput.
  - injection Hput as <- _. destruct (ev_delivered ev); [|by injection Hs as <-].
    by apply (locked_send_batch _ _ _ _ _ _ _ Hs).
Qed.

(** *** A lock that is never released

    Whatever is called later, on this queue or on others, by this client or by others. *)
Inductive later : system T -> system T -> Prop :=
| later_refl sys : later sys sys
| later_put sys sys1 sys2 ev cid cpuid p key batch r :
    later sys sys1 -> rdpma_put_twosided cfg pb gb 8 ev sys1 cid cpuid p key batch = Ret (sys2, r) -> later sys sys2
| later_get sys sys1 sys2 ev cid cpuid dma key batch r :
    later sys sys1 -> rdpma_get cfg pb gb 8 ev sys1 cid cpuid dma key batch = Ret (sys2, r) -> later sys sys2.

(** The queue of the writes of a processor. *)
Definition write_queue (cpuid : Z) : Z := cpuid mod 4 + 4.

Lemma write_queue_eq cpuid : Cli.rdpma_get_queue_id 8 cpuid Cli.QP_WRITE_SYNC = Some (write_queue cpuid).
Proof. unfold Cli.rdpma_get_queue_id. by rewrite urem_pos. Qed.

Lemma read_queue_eq cpuid : Cli.rdpma_get_queue_id 8 cpuid Cli.QP_READ_SYNC = Some (cpuid mod 4).
Proof. unfold Cli.rdpma_get_queue_id. by rewrite urem_pos. Qed.

(** A client whose filter has the memory that it needs. *)
Definition filtered (sys : system T) (cid : Z) : Prop := exists f, filter_of sys cid = Some f /\ cf_wf f.

(** A put on a locked queue hangs, whatever its arguments. *)
Lemma locked_put_hangs ev sys cid cpuid p key batch :
  locked sys cid (Z.to_nat (write_queue cpuid)) -> filtered sys cid ->
  rdpma_put_twosided cfg pb gb 8 ev sys cid cpuid p key batch = Hang.
Proof.
  intros (q & Hv & Hl) (f & Hf & Hwf). unfold rdpma_put_twosided, put_batch. rewrite write_queue_eq. cbn [bug_on mbind outcome_bind].
  unfold filter_of in Hf. unfold get_client. destruct (clients sys !! cid) as [cl|] eqn:Hcl; [|done]. injection Hf as <-.
  cbn [defined mbind outcome_bind]. unfold bloom_filter_add.
  destruct (add_loop_ok key (seq 0 (nr_hash (filter cl))) (filter cl) Hwf) as (bits & -> & _). cbn [defined mbind outcome_bind].
  unfold spin_lock. rewrite (get_queue_forward _ _ _ q); [by cbn [mbind outcome_bind]; rewrite Hl|].
  by rewrite (proj1 (set_filter_same sys cid cl _ Hcl)).
Qed.

(** A call touches one queue, and leaves every filter. *)
Definition only (c0 : Z) (i0 : nat) (sys sys' : system T) : Prop :=
  (forall c j, (c, j) <> (c0, i0) -> view sys' c j = view sys c j) /\ forall c, filter_of sys' c = filter_of sys c.

#[local] Instance only_preorder c0 i0 : PreOrder (only c0 i0).
Proof.
  split; [done|]. intros s1 s2 s3 [A1 A2] [B1 B2]. split; [intros c j Hne; by rewrite B1, A1|intros c; by rewrite B2].
Qed.

Lemma on_queue_only sys sys' cid qid f : on_queue sys cid qid f = Ret sys' -> only cid (Z.to_nat qid) sys sys'.
Proof.
  intros Hon. pose proof Hon as Hc. apply on_queue_changes in Hc as (q & C). split; [apply (ch_other _ _ _ _ _ _ C)|].
  intros c. unfold on_queue, get_client in Hon. step Hon cl Hcl. step Hon q' Hq. apply defined_Ret in Hcl. injection Hon as <-.
  unfold filter_of. cbn [set_client clients]. destruct (decide (c = cid)) as [->|Hne]; [by rewrite lookup_insert_eq, Hcl|by rewrite lookup_insert_ne].
Qed.

Lemma on_memory_only sys sys' cid i f : on_memory sys cid f = Ret sys' -> only cid i sys sys'.
Proof.
  intros Hon. split; [intros; by rewrite (proj1 (on_memory_same _ _ _ _ Hon))|]. intros c.
  unfold on_memory, get_client in Hon. step Hon cl Hcl. apply defined_Ret in Hcl. injection Hon as <-.
  unfold filter_of. cbn [set_client clients]. destruct (decide (c = cid)) as [->|Hne]; [by rewrite lookup_insert_eq, Hcl|by rewrite lookup_insert_ne].
Qed.

Lemma spin_lock_only sys sys' cid qid : spin_lock sys cid qid = Ret sys' -> only cid (Z.to_nat qid) sys sys'.
Proof. intros Hl. unfold spin_lock in Hl. step Hl q Hq. destruct (global_lock q); [done|]. by apply on_queue_only in Hl. Qed.

Lemma reply_only sys sys' cid qid s : reply sys cid qid s = Ret sys' -> only cid (Z.to_nat qid) sys sys'.
Proof.
  assert (forall sys imm, (q ← get_queue sys cid qid; q ← match recv_wrs q with O => Hang | S n => Ret (set_cq n (recv_cq q ++ [imm]) q) end;
    on_queue sys cid qid (fun _ => q)) = Ret sys' -> only cid (Z.to_nat qid) sys sys') as Hgo.
  { intros s0 imm Hr. step Hr q Hq. step Hr q' Hq'. by apply on_queue_only in Hr. }
  intros Hr. unfold reply in Hr. cbv zeta in Hr. destruct s as [imm|a bs imm]; [by apply (Hgo _ imm)|].
  step Hr sys1 Hm. apply Hgo in Hr. etrans; [by eapply on_memory_only|done].
Qed.

Lemma set_srv_only c0 i0 sys st : only c0 i0 sys (set_srv sys st).
Proof. done. Qed.

Lemma serve_only ev sys sys' cid qid wc : serve cfg pb gb ev sys cid qid wc = Ret sys' -> only cid (Z.to_nat qid) sys sys'.
Proof.
  intros Hs. apply serve_Ret in Hs as (st & s & _ & Hs). etrans; [apply (set_srv_only _ _ _ st)|].
  destruct s as [s|]; [|by injection Hs as <-]. destruct (ev_replied ev); [by apply reply_only in Hs|by injection Hs as <-].
Qed.

Lemma write_with_imm_only ev sys sys' cid qid addr bs imm :
  write_with_imm cfg pb gb ev sys cid qid addr bs imm = Ret sys' -> only cid (Z.to_nat qid) sys sys'.
Proof.
  intros Hw. unfold write_with_imm, consume in Hw. step Hw r Hr. destruct (take_recv _ cid qid) as [[a st]|]; [|done].
  injection Hr as <-. apply serve_only in Hw. etrans; [|exact Hw]. done.
Qed.

Lemma send_batch_only ev sys sys' cid qid batch :
  send_batch cfg pb gb ev sys cid qid batch = Ret sys' -> only cid (Z.to_nat qid) sys sys'.
Proof.
  intros Hs. unfold send_batch in Hs. step Hs q Hq. unfold send_with_imm, consume in Hs. step Hs r Hr.
  destruct (take_recv _ cid qid) as [[a st]|]; [|done]. injection Hr as <-. destruct (a =? 0); [done|].
  apply serve_only in Hs. etrans; [|exact Hs]. done.
Qed.

Lemma poll_recv_only sys sys' cid qid imm : poll_recv sys cid qid = Ret (sys', imm) -> only cid (Z.to_nat qid) sys sys'.
Proof.
  intros Hp. unfold poll_recv in Hp. step Hp q Hq. destruct (recv_cq q) as [|i l]; [done|]. step Hp s1 Hon. injection Hp as <- _.
  by apply on_queue_only in Hon.
Qed.

Lemma put_out_only ev sys sys' cid qid r : put_out ev sys cid qid = Ret (sys', r) -> only cid (Z.to_nat qid) sys sys'.
Proof.
  intros Ho. unfold put_out in Ho. step Ho s1 O1. step Ho s2 O2. step Ho s3 O3. injection Ho as <- _. apply repost_Ret in O3.
  apply on_queue_only in O1, O2, O3. by rewrite O1, O2.
Qed.

Lemma get_out_only ev sys sys' cid qid tx r : get_out ev sys cid qid tx = Ret (sys', r) -> only cid (Z.to_nat qid) sys sys'.
Proof.
  intros Ho. unfold get_out in Ho. step Ho s2 O2. step Ho s3 O3. injection Ho as <- _. apply repost_Ret in O3.
  apply on_queue_only in O2, O3. by rewrite O2.
Qed.

Lemma put_batch_only ev sys sys' cid qid p key batch r :
  put_batch cfg pb gb ev sys cid qid p key batch = Ret (sys', r) -> only cid (Z.to_nat qid) sys sys'.
Proof.
  intros Hput. unfold put_batch in Hput. step Hput sys1 Hl. step Hput q Hq. step Hput sys2 H2'.
  destruct (Cli.BATCH_SIZE <=? nr_buffered q); [done|]. step Hput b Hb. step Hput k Hk. step Hput sys3 H3'.
  apply spin_lock_only in Hl. apply on_queue_only in H2', H3'. rewrite Hl, H2', H3'. clear Hl H2' H3'.
  destruct (nr_buffered q <? Cli.BATCH_SIZE - 1); [step Hput sys4 H4'; injection Hput as <- _; by apply on_queue_only in H4'|].
  destruct (ev_memory ev); cbn [negb] in Hput; [|by injection Hput as <- _].
  destruct (ev_map_page ev); cbn [negb] in Hput; [|by injection Hput as <- _]. destruct (ev_addr_page ev); cbn [negb] in Hput; [|done].
  destruct (ev_map_meta ev); cbn [negb] in Hput; [|by injection Hput as <- _]. destruct (ev_addr_meta ev); cbn [negb] in Hput; [|done].
  step Hput sys4 Hs. assert (only cid (Z.to_nat qid) sys3 sys4) as ->.
  { destruct (ev_delivered ev); [by apply send_batch_only in Hs|by injection Hs as <-]. }
  destruct (ev_send ev); cbn [negb] in Hput; [|by apply put_out_only in Hput].
  destruct (ev_recv ev); cbn [negb] in Hput; [|by injection Hput as <- _].
  step Hput r1 Hp. destruct r1 as [sys5 imm]. apply poll_recv_only in Hp. apply put_out_only in Hput. by rewrite Hp.
Qed.

Lemma get_only ev sys sys' cid cpuid dma key batch r :
  rdpma_get cfg pb gb 8 ev sys cid cpuid dma key batch = Ret (sys', r) -> only cid (Z.to_nat (cpuid mod 4)) sys sys'.
Proof.
  intros Hget. unfold rdpma_get in Hget. rewrite read_queue_eq in Hget. cbn [bug_on mbind outcome_bind] in Hget.
  step Hget mid Hmid. step Hget cl Hcl. step Hget isIn Hin. destruct isIn; cbn [negb] in Hget; [|by injection Hget as <- _].
  unfold get_admitted in Hget. cbv zeta in Hget. generalize dependent (cpuid mod 4). intros qid Hget.
  destruct (ev_map_page ev); cbn [negb] in Hget; [|by injection Hget as <- _]. destruct (ev_addr_page ev); cbn [negb] in Hget; [|done].
  destruct (ev_memory ev); cbn [negb] in Hget; [|by injection Hget as <- _].
  destruct (ev_map_meta ev); cbn [negb] in Hget; [|by injection Hget as <- _]. destruct (ev_addr_meta ev); cbn [negb] in Hget; [|done].
  step Hget sys1 Hl. apply spin_lock_only in Hl. rewrite Hl. step Hget sys2 Hw. assert (only cid (Z.to_nat qid) sys1 sys2) as ->.
  { destruct (ev_delivered ev); [by apply write_with_imm_only in Hw|by injection Hw as <-]. }
  destruct (ev_send ev); cbn [negb] in Hget; [|by apply get_out_only in Hget].
  destruct (ev_recv ev); cbn [negb] in Hget; [|by apply get_out_only in Hget].
  step Hget r1 Hp. destruct r1 as [sys3 imm]. apply poll_recv_only in Hp. apply get_out_only in Hget. by rewrite Hp.
Qed.

(** A put adds to the filter of its client, and touches the queue of its writes. *)
Lemma put_frame ev sys sys' cid cpuid p key batch r :
  rdpma_put_twosided cfg pb gb 8 ev sys cid cpuid p key batch = Ret (sys', r) ->
  (forall c j, (c, j) <> (cid, Z.to_nat (write_queue cpuid)) -> view sys' c j = view sys c j)
  /\ forall c, filtered sys c -> filtered sys' c.
Proof.
  intros Hput. unfold rdpma_put_twosided in Hput. rewrite write_queue_eq in Hput. cbn [bug_on mbind outcome_bind] in Hput.
  step Hput cl Hcl. apply defined_Ret in Hcl. step Hput f Hf. apply defined_Ret in Hf. cbv zeta in Hput.
  apply put_batch_only in Hput as [Hv Hfl]. split.
  - intros c j Hne. rewrite Hv by done. apply (set_filter_same sys cid cl f Hcl).
  - intros c (g & Hg & Hwf). unfold filtered. rewrite Hfl. unfold filter_of in *. cbn [set_client clients].
    destruct (decide (c = cid)) as [->|Hne]; [|rewrite lookup_insert_ne by done; by exists g].
    rewrite Hcl in Hg. injection Hg as <-. rewrite lookup_insert_eq. exists f. split; [done|]. unfold bloom_filter_add in Hf.
    destruct (add_loop_ok key (seq 0 (nr_hash (filter cl))) (filter cl) Hwf) as (bits & E & Hlen & _).
    rewrite E in Hf. injection Hf as <-. destruct Hwf. split; cbn [bitmap bitmap_size set_bitmap]; congruence.
Qed.

Lemma later_locked sys sys' cid cpuid :
  later sys sys' -> locked sys cid (Z.to_nat (write_queue cpuid)) -> filtered sys cid ->
  locked sys' cid (Z.to_nat (write_queue cpuid)) /\ filtered sys' cid.
Proof.
  induction 1 as [sys|sys sys1 sys2 ev c cpu p key batch r _ IH Hput|sys sys1 sys2 ev c cpu dma key batch r _ IH Hget]; intros Hl Hf; [done|..];
    destruct (IH Hl Hf) as [(q & Hv & Hq) Hf1].
  - destruct (decide ((cid, Z.to_nat (write_queue cpuid)) = (c, Z.to_nat (write_queue cpu)))) as [[= -> Heq]|Hne].
    + rewrite locked_put_hangs in Hput; [done| |done]. rewrite <- Heq. by exists q.
    + apply put_frame in Hput as [Hv2 Hf2]. split; [|by apply Hf2]. exists q. by rewrite Hv2.
  - apply get_only in Hget as [Hv2 Hf2]. split; [|destruct Hf1 as (f & Hff & Hwf); exists f; by rewrite Hf2].
    exists q. split; [|done]. rewrite Hv2; [done|]. intros [= _ Heq]. unfold write_queue in Heq.
    pose proof (Z.mod_pos_bound cpuid 4 ltac:(lia)). pose proof (Z.mod_pos_bound cpu 4 ltac:(lia)). lia.
Qed.

(** C39: A put of the two-sided build that returns an error, because an allocation or a mapping
    failed or the poll of the reply did, keeps the lock of its queue.  Whatever puts and gets, of
    any client on any queue and with any failures, return after it, the lock is never released, and
    every later put on that queue, from any processor that shares it, hangs. *)
Theorem put_error_blocks_queue ev sys sys' cid cpuid p key batch r :
  filtered sys cid -> rdpma_put_twosided cfg pb gb 8 ev sys cid cpuid p key batch = Ret (sys', r) -> r <> 0 ->
  forall sys'', later sys' sys'' ->
    locked sys'' cid (Z.to_nat (write_queue cpuid))
    /\ forall ev' cpuid' p' key' batch', cpuid' mod 4 = cpuid mod 4 ->
         rdpma_put_twosided cfg pb gb 8 ev' sys'' cid cpuid' p' key' batch' = Hang.
Proof.
  intros Hf Hput Hr sys'' Hlater.
  destruct (later_locked sys' sys'' cid cpuid Hlater) as [Hl Hf'].
  - by apply (put_error_locked _ _ _ _ _ _ _ _ _ _ (write_queue_eq cpuid) Hput Hr).
  - by apply (proj2 (put_frame _ _ _ _ _ _ _ _ _ Hput)).
  - split; [done|]. intros ev' cpuid' p' key' batch' Hc. apply locked_put_hangs; [|done]. unfold write_queue in *. by rewrite Hc.
Qed.

(** ** Results *)

(** a get whose request does not reach the server, or whose completion cannot be
    polled, returns 0 all the same, and the page of the caller is what it was: the
    caller takes the old bytes for the page it asked for. *)
Theorem get_failure_reported_as_success ev sys sys' cid cpuid dma key batch cl r :
  clients sys !! cid = Some cl -> bloom_filter_check (filter cl) (key_bytes key) = Some true ->
  ev_map_page ev = true -> ev_memory ev = true -> ev_map_meta ev = true ->
  ev_delivered ev = false -> ev_send ev && ev_recv ev = false ->
  rdpma_get cfg pb gb 8 ev sys cid cpuid dma key batch = Ret (sys', r) ->
  r = 0 /\ cmem_of sys' cid = cmem_of sys cid.
Proof.
  intros Hcl Hf E1 E2 E3 E4 E5 Hget. unfold rdpma_get, get_admitted in Hget.
  step Hget qid Hqid. step Hget mid Hmid. unfold get_client in Hget. rewrite Hcl in Hget.
  cbn [defined mbind outcome_bind] in Hget. rewrite Hf, E1, E2, E3, E4 in Hget.
  cbn [defined mbind outcome_bind negb] in Hget. destruct (ev_addr_page ev), (ev_addr_meta ev); try done. cbn [negb] in Hget. step Hget sys1 Hl.
  apply spin_lock_changes in Hl as (q & C & _).
  assert (Hout : get_out ev sys1 cid qid 0 = Ret (sys', r)) by (by destruct (ev_send ev), (ev_recv ev)).
  unfold get_out in Hout. step Hout s1 O1. step Hout s2 O2. injection Hout as <- <-. apply repost_Ret in O2.
  apply on_queue_changes in O1 as (q1 & C1), O2 as (q2 & C2). split; [done|].
  by rewrite (ch_mem _ _ _ _ _ _ C2), (ch_mem _ _ _ _ _ _ C1), (ch_mem _ _ _ _ _ _ C).
Qed.

(** in the build with [NORMALGET] every get that maps its page returns 0, also
    when the server has answered that it does not have the key. *)
Theorem normal_get_never_misses ev sys sys' cid cpuid dma key batch r :
  ev_map_page ev = true ->
  rdpma_get_normal cfg pb gb 8 ev sys cid cpuid dma key batch = Ret (sys', r) -> r = 0.
Proof.
  intros E1 Hget. unfold rdpma_get_normal in Hget. step Hget qid Hqid. step Hget sys1 Hm.
  rewrite E1 in Hget. cbn [negb] in Hget. destruct (ev_addr_page ev); cbn [negb] in Hget; [|done]. step Hget cl Hcl. step Hget sys2 Hw.
  assert (Hout : forall s, normal_out ev s cid qid = Ret (sys', r) -> r = 0).
  { intros s Ho. unfold normal_out in Ho. step Ho s1 O1. by injection Ho as _ <-. }
  destruct (ev_send ev); cbn [negb] in Hget; [|by apply (Hout sys2)].
  destruct (ev_recv ev); cbn [negb] in Hget; [|by apply (Hout sys2)].
  step Hget r1 Hp. destruct r1 as [sys3 imm].
  destruct (f_state _ =? _); [by apply (Hout sys3)|]. destruct (ev_page ev); [|by apply (Hout sys3)].
  step Hget sys4 Hmem. by apply (Hout sys4).
Qed.

(** The cleancache backend reports a hit for a page that was never asked for: when
    the mapping or the allocation of [rdpma_get] fails, its result is not -1, and
    [get_page] returns 0 with the page of the caller unchanged. *)
Theorem get_page_hides_errors ev j sys cid cpuid pool_id key index dma cl :
  onesided j = false -> clients sys !! cid = Some cl ->
  bloom_filter_check (filter cl) (key_bytes (get_longkey (oid0 key) index)) = Some true ->
  ev_addr_page ev = true -> ev_map_page ev && ev_memory ev && ev_map_meta ev = false ->
  exists j', julee_cleancache_get_page cfg 8 ev j sys cid cpuid pool_id key index dma = Ret (j', sys, 0).
Proof.
  intros Hj Hcl Hf Ha Hev. unfold julee_cleancache_get_page. rewrite Hj. unfold rdpma_get, get_admitted.
  assert (Hq : Cli.rdpma_get_queue_id 8 cpuid Cli.QP_READ_SYNC = Some (cpuid mod 4)).
  { unfold Cli.rdpma_get_queue_id. by rewrite urem_pos. }
  unfold get_client. rewrite Hq, Hcl. cbn [bug_on defined mbind outcome_bind]. rewrite Hf.
  cbn [defined mbind outcome_bind negb].
  rewrite Ha. destruct (ev_map_page ev), (ev_memory ev), (ev_map_meta ev); try done; cbn [negb]; by eexists.
Qed.

End Faults.

(** ** The client never stops the kernel *)

Lemma bind_not_Bug {A B} (m : outcome A) (f : A -> outcome B) :
  m <> Bug -> (forall a, m = Ret a -> f a <> Bug) -> (m ≫= f) <> Bug.
Proof. intros Hm Hf. destruct m as [a| | |]; try done. by apply Hf. Qed.

Lemma defined_not_Bug {A} (o : option A) : defined o <> Bug.
Proof. by destruct o. Qed.

Create HintDb not_bug.
#[export] Hint Resolve bind_not_Bug defined_not_Bug : not_bug.

Section NoBug.
Context {T : Type} `{IHashPairs T} `{Verbs} (cfg : config).
Hypothesis Hcfg : config_ok cfg.

Lemma on_queue_not_Bug (sys : system T) cid qid f : on_queue sys cid qid f <> Bug.
Proof. unfold on_queue, get_client. auto with not_bug. Qed.
Lemma on_memory_not_Bug (sys : system T) cid f : on_memory sys cid f <> Bug.
Proof. unfold on_memory, get_client. auto with not_bug. Qed.
Lemma get_queue_not_Bug (sys : system T) cid qid : get_queue sys cid qid <> Bug.
Proof. unfold get_queue, get_client. auto with not_bug. Qed.
Lemma spin_lock_not_Bug (sys : system T) cid qid : spin_lock sys cid qid <> Bug.
Proof.
  apply bind_not_Bug; [apply get_queue_not_Bug|]. intros q _. destruct (global_lock q); [done|apply on_queue_not_Bug].
Qed.
Lemma put_out_not_Bug ev (sys : system T) cid qid : ev_post ev = true -> put_out ev sys cid qid <> Bug.
Proof. intros Hp. unfold put_out, spin_unlock, repost. rewrite Hp. repeat (apply bind_not_Bug; [apply on_queue_not_Bug|intros]). done. Qed.
Lemma poll_recv_not_Bug (sys : system T) cid qid : poll_recv sys cid qid <> Bug.
Proof.
  apply bind_not_Bug; [apply get_queue_not_Bug|]. intros q _. destruct (recv_cq q) as [|imm l]; [done|].
  apply bind_not_Bug; [apply on_queue_not_Bug|done].
Qed.

Lemma reply_not_Bug (sys : system T) cid qid s : reply sys cid qid s <> Bug.
Proof.
  assert (Hgo : forall (sys : system T) imm, (q ← get_queue sys cid qid;
    q ← match recv_wrs q with O => Hang | S n => Ret (set_cq n (recv_cq q ++ [imm]) q) end;
    on_queue sys cid qid (fun _ => q)) <> Bug).
  { intros sys' imm. apply bind_not_Bug; [apply get_queue_not_Bug|]. intros q _.
    apply bind_not_Bug; [by destruct (recv_wrs q)|]. intros. apply on_queue_not_Bug. }
  destruct s as [imm|a bs imm]; unfold reply; [apply Hgo|].
  apply bind_not_Bug; [apply on_memory_not_Bug|]. intros. apply Hgo.
Qed.

Lemma serve_not_Bug pb gb ev (sys : system T) cid qid wc : serve cfg pb gb ev sys cid qid wc <> Bug.
Proof.
  apply bind_not_Bug; [apply defined_not_Bug|]. intros [st [s|]] _; [|done].
  destruct (ev_replied ev); [apply reply_not_Bug|done].
Qed.

Lemma send_batch_not_Bug pb gb ev (sys : system T) cid qid batch : send_batch cfg pb gb ev sys cid qid batch <> Bug.
Proof.
  apply bind_not_Bug; [apply get_queue_not_Bug|]. intros q _. unfold send_with_imm, consume.
  destruct (take_recv _ cid qid) as [[a st]|]; [|done]. cbn [mbind outcome_bind].
  destruct (a =? 0); [done|apply serve_not_Bug].
Qed.


End NoBug.

(** ** Runs of one client *)

#[local] Existing Instance machine_verbs.
#[local] Existing Instance plain_hash.

Module Cases.

Definition sys3 : system LinearProbingHash :=
  Demo.after (Demo.put fine (Demo.after (Demo.put fine (Demo.after (Demo.put fine Demo.start 11 1)) 12 2)) 13 3).

Definition sys5 : system LinearProbingHash := Demo.after (Demo.put fine Demo.sys4 50 9).

(** The poll of the reply fails. *)
Definition reply_lost : events := MkEvents true true true true true true true true true false true true.
(** The request is lost. *)
Definition request_lost : events := MkEvents true true true true true false true true false true true true.
(** The request is handled, but its completion is an error. *)
Definition completion_lost : events := MkEvents true true true true true true true true false true true true.
Definition no_mapping : events := MkEvents true false true true true true true true true true true true.

(** The receive is refused. *)
Definition no_receive : events := MkEvents true true true true true true true true true true true false.

Definition is_bug {A} (o : outcome A) : bool := match o with Bug => true | _ => false end.
Lemma is_bug_eq {A} (o : outcome A) : is_bug o = true -> o = Bug.
Proof. by destruct o. Qed.

Lemma sys3_runs : exists hist, runs Demo.cfg hist sys3.
Proof.
  eexists. unfold sys3. do 3 (apply Demo.put_runs; [|by vm_compute; split_and!|by vm_compute|by vm_compute]). apply Demo.start_runs.
Qed.

Lemma put_filtered sys k b :
  Demo.result (Demo.put fine sys k b) = Some 0 -> filtered sys 0 -> filtered (Demo.after (Demo.put fine sys k b)) 0.
Proof. intros Hr. apply Demo.result_Ret in Hr. exact (proj2 (put_frame _ _ _ _ _ _ _ _ _ _ _ _ Hr) 0). Qed.

Lemma sys3_filtered : filtered sys3 0.
Proof.
  unfold sys3. do 3 (apply put_filtered; [vm_compute; reflexivity|]).
  exists (bloom_filter_new [0] 2 64). split; [done|]. by split.
Qed.

(** The put that fails, and a get that returns after it. *)
Definition sys_stuck : system LinearProbingHash := Demo.after (Demo.put reply_lost sys3 14 4).
Definition sys_later : system LinearProbingHash := Demo.after (Demo.get fine sys_stuck 12).

Definition get_normal (sys : system LinearProbingHash) (key : Z) :=
  rdpma_get_normal Demo.cfg NORMALPUT NORMALGET 8 fine sys 0 0 65536 key 1.

End Cases.

Lemma put_error_blocks_queue_witness : Demo.put fine Cases.sys_later 15 5 = Hang.
Proof.
  assert (Demo.put Cases.reply_lost Cases.sys3 14 4 = Ret (Cases.sys_stuck, -1)) as Hput by (apply Demo.result_Ret; vm_compute; reflexivity).
  assert (Demo.get fine Cases.sys_stuck 12 = Ret (Cases.sys_later, 0)) as Hget by (apply Demo.result_Ret; vm_compute; reflexivity).
  unfold Demo.put in Hput |- *. unfold Demo.get in Hget.
  assert (later Demo.cfg NOPUT BIGMRGET Cases.sys_stuck Cases.sys_later) as Hlater by (eapply later_get; [apply later_refl|exact Hget]).
  generalize dependent Cases.sys_later. intros sys'' _ Hlater.
  generalize dependent Cases.sys_stuck. intros sys' Hput Hlater.
  assert (-1 <> 0) as Hne by discriminate.
  exact (proj2 (put_error_blocks_queue Demo.cfg NOPUT BIGMRGET Cases.reply_lost Cases.sys3 sys' 0 0 (Demo.page_of 4) 14 1 (-1)
    Cases.sys3_filtered Hput Hne sys'' Hlater) fine 0 (Demo.page_of 5) 15 1 eq_refl).
Defined.

Lemma get_failure_reported_as_success_witness :
  0 = 0 /\ cmem_of (Demo.after (Demo.get Cases.request_lost Demo.sys4 12)) 0 = cmem_of Demo.sys4 0.
Proof.
  assert (Hcl : exists cl, clients Demo.sys4 !! 0 = Some cl
    /\ bloom_filter_check (filter cl) (key_bytes 12) = Some true).
  { destruct (clients Demo.sys4 !! 0) as [cl|] eqn:Hcl; [|by vm_compute in Hcl]. exists cl. split; [done|].
    assert (Hf : (cl ← clients Demo.sys4 !! 0; bloom_filter_check (filter cl) (key_bytes 12)) = Some true)
      by (vm_compute; reflexivity).
    by rewrite Hcl in Hf. }
  destruct Hcl as (cl & Hcl & Hf).
  refine (get_failure_reported_as_success Demo.cfg NOPUT BIGMRGET Cases.request_lost Demo.sys4
    (Demo.after (Demo.get Cases.request_lost Demo.sys4 12)) 0 0 65536 12 1 cl 0 Hcl Hf
    eq_refl eq_refl eq_refl eq_refl eq_refl _).
  apply Demo.result_Ret. vm_compute. reflexivity.
Defined.

(** The key 99 was never put. *)
Lemma normal_get_never_misses_witness : exists r, Demo.result (Cases.get_normal Demo.start 99) = Some r /\ r = 0.
Proof.
  exists 0. split; [vm_compute; reflexivity|].
  refine (normal_get_never_misses Demo.cfg NORMALPUT NORMALGET fine Demo.start
    (Demo.after (Cases.get_normal Demo.start 99)) 0 0 65536 99 1 0 eq_refl _).
  apply Demo.result_Ret. vm_compute. reflexivity.
Defined.


Lemma get_page_hides_errors_witness :
  exists j', julee_cleancache_get_page Demo.cfg 8 Cases.no_mapping (MkJulee false 0 0 0) Demo.sys4 0 0 1
               (MkOid 0 0 0) 12 65536 = Ret (j', Demo.sys4, 0).
Proof.
  assert (Hcl : exists cl, clients Demo.sys4 !! 0 = Some cl
    /\ bloom_filter_check (filter cl) (key_bytes (get_longkey 0 12)) = Some true).
  { destruct (clients Demo.sys4 !! 0) as [cl|] eqn:Hcl; [|by vm_compute in Hcl]. exists cl. split; [done|].
    assert (Hf : (cl ← clients Demo.sys4 !! 0; bloom_filter_check (filter cl) (key_bytes (get_longkey 0 12)))
                 = Some true) by (vm_compute; reflexivity).
    by rewrite Hcl in Hf. }
  destruct Hcl as (cl & Hcl & Hf).
  exact (get_page_hides_errors Demo.cfg Cases.no_mapping (MkJulee false 0 0 0) Demo.sys4 0 0 1 (MkOid 0 0 0) 12 65536
    cl eq_refl Hcl Hf eq_refl eq_refl).
Defined.

(** A page that is put again is not found again: the table keeps the old address,
    and the get returns the bytes of the first put, 2, and not 102. *)
Example stale_page :
  Demo.page_read (Demo.get fine (Demo.put4 (Demo.put4 Demo.start 11 1) 11 101) 12) = [2; 2; 2].
Proof. vm_cast_no_check (eq_refl [2; 2; 2]). Qed.

(** A page that waits in the buffer of its queue is not found. *)
Example buffered_page_missed : Demo.result (Demo.get fine Cases.sys3 12) = Some (-1).
Proof. vm_compute. reflexivity. Qed.

(** A get that does not poll its reply leaves it to the next get on the queue, which
    takes it for its own: the miss of key 50, which is still in the buffer, is a hit. *)
Example stale_reply :
  Demo.result (Demo.get fine Cases.sys5 50) = Some (-1)
  /\ Demo.result (Demo.get fine (Demo.after (Demo.get Cases.completion_lost Cases.sys5 12)) 50) = Some 0.
Proof. split; [vm_cast_no_check (eq_refl (Some (-1)))|vm_cast_no_check (eq_refl (Some 0))]. Qed.
